(** * catbox: the dispatcher of a small IRC daemon

    A shallow embedding of the event-loop side of the daemon: the Client,
    Channel and Server records, the message dispatcher [handleMessage] with
    every command handler, the client-quit procedure, the liveness sweep
    [checkAndPingClients], and the name validators.

    Conventions of the embedding.

    - A [*Client] is represented by the client's ID.  [acceptConnections]
      hands out a fresh ID with every Client it allocates and nothing assigns
      ID afterwards, so ID and object identity coincide.  The Client objects
      live in a store ([Server.clientAt]); a [map[uint64]*Client] whose entries
      are only ever written as [m[c.ID] = c] is the finite set of its keys.
    - A [*Channel] is an address into a store of Channel objects
      ([Server.channelAt]); [&Channel{...}] allocates a fresh address.  The
      server index and the clients' channel maps hold addresses, so they alias
      one object exactly as the pointers do.
    - [c.WriteChan <- msg] appends [(c, msg)] to one log of sends, in program
      order; the contents of a client's outbox is the log filtered by
      recipient.  The buffer bound of the Go channel (a send that blocks until
      the writer goroutine catches up) is not modelled.  Sending on a closed
      channel and closing a closed channel panic, as in Go.
    - Handlers return [Ok st'] or [Panicked p]; a Go runtime panic ends the
      process, so nothing follows it.
    - [range] over a Go map visits the entries in an unspecified order, which
      may differ from one loop to the next.  The handlers visit them in the
      order of [map_to_list] / [elements], and the statements about one call
      do not depend on which order that is beyond its being a duplicate-free
      enumeration.  Where the sends of two calls are compared (JOIN, PART and
      JOIN again), the order of each loop over the members is a parameter of
      JOIN, PART and the dispatcher ([handleMessageIn]), and the statement is
      for every such order.
    - [time.Now()] is an argument: one clock reading per event. *)

From stdpp Require Import gmap strings list fin_maps pretty.
From Stdlib Require Import ZArith Ascii String.

Local Open Scope Z_scope.

(** ** Strings as byte sequences *)

Definition byte_of (a : ascii) : Z := Z.of_N (N_of_ascii a).

Definition len (s : string) : Z := Z.of_nat (String.length s).

Definition isLowerAZ (char : ascii) : bool :=
  (byte_of "a" <=? byte_of char) && (byte_of char <=? byte_of "z").

Definition isDigit09 (char : ascii) : bool :=
  (byte_of "0" <=? byte_of char) && (byte_of char <=? byte_of "9").

(** [s[:hi]], with Go's bounds check. *)
Definition slice_to (s : string) (hi : Z) : option string :=
  if (0 <=? hi) && (hi <=? len s) then Some (substring 0 (Z.to_nat hi) s)
  else None.

(** The two bytes that end a protocol line. *)
Definition CRLF : string := String "013" (String "010" "").

(** 9 from RFC *)
Definition maxNickLength : Z := 9.

(** 50 from RFC *)
Definition maxChannelLength : Z := 50.

(** ** Validators

    The Go loops range over the runes of the string.  Every rune they accept
    is a single ASCII byte and every byte of a multi-byte or invalid sequence
    decodes to a rune they reject, so the loops are written over bytes; [i] is
    the byte offset, which the code only compares with 0. *)

Fixpoint isValidNick_loop (i : Z) (n : string) : bool :=
  match n with
  | EmptyString => true
  | String char rest =>
      if isLowerAZ char then isValidNick_loop (i + 1) rest
      else if isDigit09 char then
        (* No digits in first position. *)
        if i =? 0 then false else isValidNick_loop (i + 1) rest
      else if bool_decide (char = "_"%char) then isValidNick_loop (i + 1) rest
      else false
  end.

Definition isValidNick (n : string) : bool :=
  if (len n =? 0) || (maxNickLength <? len n) then false
  else isValidNick_loop 0 n.

Fixpoint isValidUser_loop (u : string) : bool :=
  match u with
  | EmptyString => true
  | String char rest =>
      if isLowerAZ char then isValidUser_loop rest
      else if isDigit09 char then isValidUser_loop rest
      else false
  end.

Definition isValidUser (u : string) : bool :=
  if (len u =? 0) || (maxNickLength <? len u) then false
  else isValidUser_loop u.

Fixpoint isValidChannel_loop (i : Z) (c : string) : bool :=
  match c with
  | EmptyString => true
  | String char rest =>
      if i =? 0 then
        if bool_decide (char = "#"%char) then isValidChannel_loop (i + 1) rest
        else false
      else if isLowerAZ char then isValidChannel_loop (i + 1) rest
      else if isDigit09 char then isValidChannel_loop (i + 1) rest
      else false
  end.

Definition isValidChannel (c : string) : bool :=
  if (len c =? 0) || (maxChannelLength <? len c) then false
  else isValidChannel_loop 0 c.

(** A string made of the bytes the validators accept: a-z, 0-9, '_' , '#'. *)
Fixpoint plainName (s : string) : bool :=
  match s with
  | EmptyString => true
  | String char rest =>
      (isLowerAZ char || isDigit09 char || bool_decide (char = "_"%char)
       || bool_decide (char = "#"%char)) && plainName rest
  end.

(** ** Data model *)

(** irc.Message *)
Record Message := mkMessage {
  Prefix : string;
  Command : string;
  Params : list string
}.

(** Go runtime panics the dispatcher can raise.  [InvalidPointer] has no Go
    counterpart (a Go pointer taken from one of these maps always points to
    an object); it is the embedding's answer to a reference with no object in
    the store. *)
Inductive Panic :=
  | SendOnClosedChannel
  | CloseOfClosedChannel
  | SliceBoundsOutOfRange
  | IndexOutOfRange
  | InvalidPointer.

Inductive Result (A : Type) :=
  | Ok (a : A)
  | Panicked (p : Panic).
Arguments Ok {A} a.
Arguments Panicked {A} p.

Global Instance Result_ret : MRet Result := λ A a, Ok a.
Global Instance Result_bind : MBind Result := λ A B f r,
  match r with
  | Ok a => f a
  | Panicked p => Panicked p
  end.

(** Addresses of Channel objects. *)
Abbreviation addr := N.

Module Client.
(** Client holds state about a single client connection. *)
Record t := mk {
  (* WriteChan: whether it has been closed; what was sent is in the log. *)
  WriteChanClosed : bool;
  (* net.IP, as [%s] prints it. *)
  IP : string;
  (* Whether it completed connection registration. *)
  Registered : bool;
  (* Not canonicalized *)
  Nick : string;
  User : string;
  RealName : string;
  (* Channel name (canonicalized) to Channel. *)
  Channels : gmap string addr;
  (* The last time we heard from the client. *)
  LastActivityTime : Z;
  (* The last time we sent the client a PING. *)
  LastPingTime : Z;
  (* User modes *)
  Modes : gset ascii
}.

Definition setWriteChanClosed (b : bool) (c : t) : t :=
  mk b (IP c) (Registered c) (Nick c) (User c) (RealName c) (Channels c)
     (LastActivityTime c) (LastPingTime c) (Modes c).
Definition setRegistered (b : bool) (c : t) : t :=
  mk (WriteChanClosed c) (IP c) b (Nick c) (User c) (RealName c) (Channels c)
     (LastActivityTime c) (LastPingTime c) (Modes c).
Definition setNick (n : string) (c : t) : t :=
  mk (WriteChanClosed c) (IP c) (Registered c) n (User c) (RealName c)
     (Channels c) (LastActivityTime c) (LastPingTime c) (Modes c).
Definition setUser (u : string) (c : t) : t :=
  mk (WriteChanClosed c) (IP c) (Registered c) (Nick c) u (RealName c)
     (Channels c) (LastActivityTime c) (LastPingTime c) (Modes c).
Definition setRealName (r : string) (c : t) : t :=
  mk (WriteChanClosed c) (IP c) (Registered c) (Nick c) (User c) r
     (Channels c) (LastActivityTime c) (LastPingTime c) (Modes c).
Definition setChannels (m : gmap string addr) (c : t) : t :=
  mk (WriteChanClosed c) (IP c) (Registered c) (Nick c) (User c) (RealName c)
     m (LastActivityTime c) (LastPingTime c) (Modes c).
Definition setLastActivityTime (z : Z) (c : t) : t :=
  mk (WriteChanClosed c) (IP c) (Registered c) (Nick c) (User c) (RealName c)
     (Channels c) z (LastPingTime c) (Modes c).
Definition setLastPingTime (z : Z) (c : t) : t :=
  mk (WriteChanClosed c) (IP c) (Registered c) (Nick c) (User c) (RealName c)
     (Channels c) (LastActivityTime c) z (Modes c).
Definition setModes (m : gset ascii) (c : t) : t :=
  mk (WriteChanClosed c) (IP c) (Registered c) (Nick c) (User c) (RealName c)
     (Channels c) (LastActivityTime c) (LastPingTime c) m.
End Client.

Module Channel.
(** Channel holds everything to do with a channel. *)
Record t := mk {
  (* Canonicalized. *)
  Name : string;
  (* Client id to Client. *)
  Members : gset N
}.

Definition setMembers (m : gset N) (ch : t) : t := mk (Name ch) m.
End Channel.

Module Server.
(** Server holds the state for a server, and with it the two object stores
    and the log of sends. *)
Record t := mk {
  Config : gmap string string;
  (* Client id to Client. *)
  Clients : gset N;
  (* Canoncalized nickname to Client. *)
  Nicks : gmap string N;
  (* Channel name (canonicalized) to Channel. *)
  Channels : gmap string addr;
  (* ShutdownChan: whether it has been closed. *)
  ShutdownChanClosed : bool;
  (* Period of time a client can be idle before we send it a PING. *)
  PingTime : Z;
  (* Period of time a client can be idle before we consider it dead. *)
  DeadTime : Z;
  (* Oper name to password. *)
  Opers : gmap string string;
  (* The Client objects, by ID. *)
  clientAt : gmap N Client.t;
  (* The Channel objects, by address. *)
  channelAt : gmap addr Channel.t;
  (* Every send on a WriteChan, oldest first: recipient and message. *)
  sent : list (N * Message)
}.

Definition setClients (x : gset N) (s : t) : t :=
  mk (Config s) x (Nicks s) (Channels s) (ShutdownChanClosed s) (PingTime s)
     (DeadTime s) (Opers s) (clientAt s) (channelAt s) (sent s).
Definition setNicks (x : gmap string N) (s : t) : t :=
  mk (Config s) (Clients s) x (Channels s) (ShutdownChanClosed s)
     (PingTime s) (DeadTime s) (Opers s) (clientAt s) (channelAt s) (sent s).
Definition setChannels (x : gmap string addr) (s : t) : t :=
  mk (Config s) (Clients s) (Nicks s) x (ShutdownChanClosed s) (PingTime s)
     (DeadTime s) (Opers s) (clientAt s) (channelAt s) (sent s).
Definition setShutdownChanClosed (x : bool) (s : t) : t :=
  mk (Config s) (Clients s) (Nicks s) (Channels s) x (PingTime s)
     (DeadTime s) (Opers s) (clientAt s) (channelAt s) (sent s).
Definition setClientAt (x : gmap N Client.t) (s : t) : t :=
  mk (Config s) (Clients s) (Nicks s) (Channels s) (ShutdownChanClosed s)
     (PingTime s) (DeadTime s) (Opers s) x (channelAt s) (sent s).
Definition setChannelAt (x : gmap addr Channel.t) (s : t) : t :=
  mk (Config s) (Clients s) (Nicks s) (Channels s) (ShutdownChanClosed s)
     (PingTime s) (DeadTime s) (Opers s) (clientAt s) x (sent s).
Definition setSent (x : list (N * Message)) (s : t) : t :=
  mk (Config s) (Clients s) (Nicks s) (Channels s) (ShutdownChanClosed s)
     (PingTime s) (DeadTime s) (Opers s) (clientAt s) (channelAt s) x.
End Server.

(** [s.Config[key]]: the zero value when the key is absent. *)
Definition config (s : Server.t) (key : string) : string :=
  default "" (Server.Config s !! key).

(** [*c], for a client reference. *)
Definition client (s : Server.t) (c : N) : Result Client.t :=
  match Server.clientAt s !! c with
  | Some cl => Ok cl
  | None => Panicked InvalidPointer
  end.

(** [*channel], for a channel reference. *)
Definition channel (s : Server.t) (a : addr) : Result Channel.t :=
  match Server.channelAt s !! a with
  | Some ch => Ok ch
  | None => Panicked InvalidPointer
  end.

(** Assignment to a field of [*c] / [*channel]. *)
Definition updClient (f : Client.t → Client.t) (c : N) (s : Server.t)
  : Server.t :=
  Server.setClientAt (alter f c (Server.clientAt s)) s.

Definition updChannel (f : Channel.t → Channel.t) (a : addr) (s : Server.t)
  : Server.t :=
  Server.setChannelAt (alter f a (Server.channelAt s)) s.

(** [for _, x := range xs { body }] over a snapshot of the entries. *)
Fixpoint forEach {A S : Type} (xs : list A) (body : A → S → Result S) (s : S)
  : Result S :=
  match xs with
  | [] => Ok s
  | x :: xs' => s' ← body x s; forEach xs' body s'
  end.

(** [now.Sub(t)]: the difference in nanoseconds, saturated to the range of
    an int64 as time.Time.Sub does. *)
Definition maxDuration : Z := 2 ^ 63 - 1.
Definition minDuration : Z := - 2 ^ 63.

Definition Sub (now t : Z) : Z :=
  Z.max minDuration (Z.min maxDuration (now - t)).

(** *** Stand-ins for the environment

    Concrete functions to run the dispatcher on examples.  [asciiToLower] is
    strings.ToLower on ASCII input, [bytesAsRunes] is what a range over an
    ASCII string yields, [wholeSeconds] drops the fraction of a second, and
    512 is the line length of RFC 1459. *)

Definition asciiToLower_byte (a : ascii) : ascii :=
  if (byte_of "A" <=? byte_of a) && (byte_of a <=? byte_of "Z")
  then ascii_of_N (N_of_ascii a + 32) else a.

Fixpoint asciiToLower (s : string) : string :=
  match s with
  | EmptyString => EmptyString
  | String a rest => String (asciiToLower_byte a) (asciiToLower rest)
  end.

Fixpoint bytesAsRunes (s : string) : list Z :=
  match s with
  | EmptyString => []
  | String a rest => byte_of a :: bytesAsRunes rest
  end.

Definition wholeSeconds (d : Z) : Z := Z.quot d 1000000000.

Definition rfcMaxLineLength : Z := 512.

(** The zero time.Time (January 1, year 1), in nanoseconds before 1970. *)
Definition zeroTime : Z := -62135596800 * 1000000000.

Section Dispatcher.

Set Default Proof Using "Type".

(** Parts of the Go runtime, the standard library and the irc package that
    the daemon calls and that are not part of its source. *)

(** strings.ToLower *)
Variable ToLower : string → string.
(** irc.MaxLineLength *)
Variable MaxLineLength : Z.
(** The code points a [range] over a string yields. *)
Variable runes : string → list Z.
(** [int(d.Seconds())] for a time.Duration [d] in nanoseconds. *)
Variable intSeconds : Z → Z.

(** strings.ToLower leaves a string of lower-case ASCII letters, digits,
    [_] and [#] as it is. *)
Hypothesis ToLower_plainName : ∀ s, plainName s = true → ToLower s = s.

(** Drop the parameters of the section a statement does not mention, so that
    no automation picks one up. *)
Ltac tidy' :=
  try clear intSeconds; try clear runes; try clear MaxLineLength.

Ltac tidy := tidy'; try clear ToLower_plainName; try clear ToLower.

(** canonicalizeNick converts the given nick to its canonical
    representation (which must be unique). *)
Definition canonicalizeNick (n : string) : string := ToLower n.

(** canonicalizeChannel converts the given channel to its canonical
    representation (which must be unique). *)
Definition canonicalizeChannel (c : string) : string := ToLower c.

(** [to.WriteChan <- msg] *)
Definition chanSend (to : N) (msg : Message) (s : Server.t)
  : Result Server.t :=
  cl ← client s to;
  if Client.WriteChanClosed cl then Panicked SendOnClosedChannel
  else Ok (Server.setSent (Server.sent s ++ [(to, msg)]) s).

(** [close(c.WriteChan)] *)
Definition chanClose (c : N) (s : Server.t) : Result Server.t :=
  cl ← client s c;
  if Client.WriteChanClosed cl then Panicked CloseOfClosedChannel
  else Ok (updClient (Client.setWriteChanClosed true) c s).

Fixpoint isNumeric_loop (command : string) (isNumeric : bool) : bool :=
  match command with
  | EmptyString => isNumeric
  | String c rest =>
      isNumeric_loop rest
        (if (byte_of c <? 48) || (57 <? byte_of c) then false else isNumeric)
  end.

(** Send an IRC message to a client. Appears to be from the server. *)
Definition Server_messageClient (c : N) (command : string)
    (params : list string) (s : Server.t) : Result Server.t :=
  cl ← client s c;
  (* For numeric messages, we need to prepend the nick.
     Use * for the nick in cases where the client doesn't have one yet. *)
  let params :=
    if isNumeric_loop command true then
      (if 0 <? len (Client.Nick cl) then Client.Nick cl else "*") :: params
    else params in
  chanSend c (mkMessage (config s "server-name") command params) s.

Definition nickUhostOf (cl : Client.t) : string :=
  Client.Nick cl +:+ "!~" +:+ Client.User cl +:+ "@" +:+ Client.IP cl.

Definition Client_nickUhost (c : N) (s : Server.t) : Result string :=
  cl ← client s c; Ok (nickUhostOf cl).

(** Send an IRC message to a client from another client. *)
Definition Client_messageClient (c to : N) (command : string)
    (params : list string) (s : Server.t) : Result Server.t :=
  prefix ← Client_nickUhost c s;
  chanSend to (mkMessage prefix command params) s.

(** [c.onChannel(channel)] looks at nothing but [channel.Name]. *)
Definition Client_onChannel (c : N) (channelName : string) (s : Server.t)
  : Result bool :=
  cl ← client s c;
  Ok (bool_decide (is_Some (Client.Channels cl !! channelName))).

Definition Client_isOperator (c : N) (s : Server.t) : Result bool :=
  cl ← client s c; Ok (bool_decide ("o"%char ∈ Client.Modes cl)).

(** part tries to remove the client from the channel. *)
Definition Client_part (c : N) (channelName message : string)
    (s : Server.t) : Result Server.t :=
  let channelName := canonicalizeChannel channelName in
  if negb (isValidChannel channelName) then
    Server_messageClient c "403" [channelName; "Invalid channel name"] s
  else
    (* Find the channel. *)
    match Server.Channels s !! channelName with
    | None =>
        Server_messageClient c "403" [channelName; "No such channel"] s
    | Some a =>
        ch ← channel s a;
        (* Are they on the channel? *)
        on ← Client_onChannel c (Channel.Name ch) s;
        if negb on then
          Server_messageClient c "403"
            [channelName; "You are not on that channel"] s
        else
          (* Tell everyone (including the client) about the part. *)
          s ← forEach (elements (Channel.Members ch))
                (λ member s,
                   let params := [channelName] in
                   let params :=
                     if 0 <? len message then params ++ [message]
                     else params in
                   Client_messageClient c member "PART" params s) s;
          (* Remove the client from the channel. *)
          let s := updChannel
                     (λ ch, Channel.setMembers (Channel.Members ch ∖ {[c]}) ch)
                     a s in
          ch ← channel s a;
          let s := updClient
                     (λ cl, Client.setChannels
                              (delete (Channel.Name ch) (Client.Channels cl))
                              cl) c s in
          (* If they are the last member, then drop the channel
             completely. *)
          ch ← channel s a;
          if bool_decide (size (Channel.Members ch) = 0%nat) then
            Ok (Server.setChannels
                  (delete (Channel.Name ch) (Server.Channels s)) s)
          else Ok s
    end.

(** The inner loop shared by [quit] and [nickCommand]: tell each member that
    has not been told yet, and remember it. *)
Definition tellOnce (c : N) (command : string) (params : list string)
    (member : N) (acc : Server.t * gset N) : Result (Server.t * gset N) :=
  let '(s, told) := acc in
  if bool_decide (member ∈ told) then Ok (s, told)
  else
    s ← Client_messageClient c member command params s;
    Ok (s, {[member]} ∪ told).

(** The body of the loop of [quit] over the channels of the client, for the
    channel at [a]. *)
Definition Client_quit_channel (c : N) (msg : string) (a : addr)
    (acc : Server.t * gset N) : Result (Server.t * gset N) :=
  let '(s, toldClients) := acc in
  ch ← channel s a;
  '(s, toldClients) ←
    forEach (elements (Channel.Members ch))
      (tellOnce c "QUIT" [msg]) (s, toldClients);
  let s := updChannel
             (λ ch, Channel.setMembers (Channel.Members ch ∖ {[c]}) ch) a s in
  ch ← channel s a;
  if bool_decide (size (Channel.Members ch) = 0%nat) then
    Ok (Server.setChannels (delete (Channel.Name ch) (Server.Channels s)) s,
        toldClients)
  else Ok (s, toldClients).

Definition Client_quit (c : N) (msg : string) (s : Server.t)
  : Result Server.t :=
  cl ← client s c;
  s ← (if Client.Registered cl then
         (* Tell all clients the client is in the channel with.
            Also remove the client from each channel. *)
         '(s, toldClients) ←
           forEach (map_to_list (Client.Channels cl))
             (λ na, Client_quit_channel c msg na.2) (s, ∅);
         (* Ensure we tell the client (e.g., if in no channels). *)
         s ← (if bool_decide (c ∈ toldClients) then Ok s
              else Client_messageClient c c "QUIT" [msg] s);
         cl ← client s c;
         Ok (Server.setNicks
               (delete (canonicalizeNick (Client.Nick cl)) (Server.Nicks s))
               s)
       else
         (* May have set a nick. *)
         if 0 <? len (Client.Nick cl) then
           Ok (Server.setNicks
                 (delete (canonicalizeNick (Client.Nick cl))
                    (Server.Nicks s)) s)
         else Ok s);
  s ← Server_messageClient c "ERROR" [msg] s;
  (* Close their connection and channels. *)
  s ← chanClose c s;
  Ok (Server.setClients (Server.Clients s ∖ {[c]}) s).

Definition nickCommand (c : N) (m : Message) (s : Server.t)
  : Result Server.t :=
  (* We should have one parameter: The nick they want. *)
  match Params m with
  | [] => Server_messageClient c "431" ["No nickname given"] s
  | nick :: _ =>
      if negb (isValidNick nick) then
        Server_messageClient c "432" [nick; "Erroneous nickname"] s
      else
        (* Nick must be caselessly unique. *)
        let nickCanon := canonicalizeNick nick in
        match Server.Nicks s !! nickCanon with
        | Some _ =>
            Server_messageClient c "432"
              [nick; "Nickname is already in use"] s
        | None =>
            (* Flag the nick as taken by this client. *)
            let s := Server.setNicks (<[nickCanon := c]> (Server.Nicks s)) s in
            cl ← client s c;
            let oldNick := Client.Nick cl in
            (* Free the old nick (if there is one). *)
            let s :=
              if 0 <? len oldNick then
                Server.setNicks
                  (delete (canonicalizeNick oldNick) (Server.Nicks s)) s
              else s in
            s ← (if Client.Registered cl then
                   (* We need to inform other clients about the nick
                      change. Any that are in the same channel as this
                      client. *)
                   '(s, informedClients) ←
                     forEach (map_to_list (Client.Channels cl))
                       (λ '(_, a) '(s, informedClients),
                          ch ← channel s a;
                          (* Message needs to come from the OLD nick. *)
                          forEach (elements (Channel.Members ch))
                            (tellOnce c "NICK" [nick]) (s, informedClients))
                       (s, ∅);
                   (* Reply to the client. We should have above, but if
                      they were not on any channels then we did not. *)
                   if bool_decide (c ∈ informedClients) then Ok s
                   else Client_messageClient c c "NICK" [nick] s
                 else Ok s);
            (* Finally, make the update. Do this last as we need to ensure
               we act as the old nick when crafting messages. *)
            Ok (updClient (Client.setNick nick) c s)
        end
  end.

Definition lusersCommand (c : N) (s : Server.t) : Result Server.t :=
  (* 251 RPL_LUSERCLIENT *)
  s ← Server_messageClient c "251"
        ["There are " +:+ pretty (Z.of_nat (size (Server.Nicks s)))
         +:+ " users and " +:+ pretty 0 +:+ " services on " +:+ pretty 0
         +:+ " servers."] s;
  (* 253 RPL_LUSERUNKNOWN *)
  let numUnknown :=
    Z.of_nat (size (Server.Clients s)) - Z.of_nat (size (Server.Nicks s)) in
  s ← (if 0 <? numUnknown then
         Server_messageClient c "253"
           [pretty numUnknown; "unknown connection(s)"] s
       else Ok s);
  (* 254 RPL_LUSERCHANNELS *)
  s ← (if 0 <? Z.of_nat (size (Server.Channels s)) then
         Server_messageClient c "254"
           [pretty (Z.of_nat (size (Server.Channels s))); "channels formed"] s
       else Ok s);
  (* 255 RPL_LUSERME *)
  Server_messageClient c "255"
    ["I have " +:+ pretty (Z.of_nat (size (Server.Nicks s)))
     +:+ " clients and " +:+ pretty 0 +:+ " servers"] s.

Definition motdCommand (c : N) (s : Server.t) : Result Server.t :=
  (* 375 RPL_MOTDSTART *)
  s ← Server_messageClient c "375"
        ["- " +:+ config s "server-name" +:+ " Message of the day - "] s;
  (* 372 RPL_MOTD *)
  s ← Server_messageClient c "372" ["- " +:+ config s "motd"] s;
  (* 376 RPL_ENDOFMOTD *)
  Server_messageClient c "376" ["End of MOTD command"] s.

Definition userCommand (c : N) (m : Message) (s : Server.t)
  : Result Server.t :=
  cl ← client s c;
  (* The USER command only occurs during connection registration. *)
  if Client.Registered cl then
    Server_messageClient c "462"
      ["Unauthorized command (already registered)"] s
  (* I'm going to require NICK before user. *)
  else if len (Client.Nick cl) =? 0 then
    Server_messageClient c "ERROR" ["Please send NICK first"] s
  else
    (* 4 parameters: <user> <mode> <unused> <realname> *)
    match Params m with
    | [user; _; _; realname] =>
        if negb (isValidUser user) then
          Server_messageClient c "ERROR" ["Invalid username"] s
        else
          let s := updClient (Client.setUser user) c s in
          (* Validate realname. Arbitrary. Length only. *)
          if 64 <? len realname then
            Server_messageClient c "ERROR" ["Invalid realname"] s
          else
            let s := updClient (Client.setRealName realname) c s in
            (* This completes connection registration. *)
            let s := updClient (Client.setRegistered true) c s in
            (* 001 RPL_WELCOME *)
            uhost ← Client_nickUhost c s;
            s ← Server_messageClient c "001"
                  ["Welcome to the Internet Relay Network " +:+ uhost] s;
            (* 002 RPL_YOURHOST *)
            s ← Server_messageClient c "002"
                  ["Your host is " +:+ config s "server-name"
                   +:+ ", running version " +:+ config s "version"] s;
            (* 003 RPL_CREATED *)
            s ← Server_messageClient c "003"
                  ["This server was created "
                   +:+ config s "created-date"] s;
            (* 004 RPL_MYINFO *)
            s ← Server_messageClient c "004"
                  [config s "server-name"; config s "version"; "o"; "n"] s;
            s ← lusersCommand c s;
            motdCommand c s
    | _ =>
        Server_messageClient c "461" [Command m; "Not enough parameters"] s
    end.

Definition joinCommand (c : N) (m : Message) (s : Server.t)
  : Result Server.t :=
  match Params m with
  | [] => Server_messageClient c "461" ["JOIN"; "Not enough parameters"] s
  | param0 :: rest =>
      (* JOIN 0 is a special case. Client leaves all channels. *)
      if bool_decide (rest = []) && bool_decide (param0 = "0") then
        cl ← client s c;
        forEach (map_to_list (Client.Channels cl))
          (λ '(k, a) s,
             (* An entry removed before the range reaches it is not
                produced. *)
             cl ← client s c;
             match Client.Channels cl !! k with
             | None => Ok s
             | Some _ => ch ← channel s a; Client_part c (Channel.Name ch) "" s
             end) s
      else
        let channelName := canonicalizeChannel param0 in
        if negb (isValidChannel channelName) then
          Server_messageClient c "403"
            [channelName; "Invalid channel name"] s
        else
          (* Is the client in the channel already? *)
          on ← Client_onChannel c channelName s;
          if (on : bool) then
            Server_messageClient c "ERROR" ["You are on that channel"] s
          else
            (* Look up / create the channel *)
            let '(a, s) :=
              match Server.Channels s !! channelName with
              | Some a => (a, s)
              | None =>
                  let a := fresh (dom (Server.channelAt s)) in
                  let s := Server.setChannelAt
                             (<[a := Channel.mk channelName ∅]>
                                (Server.channelAt s)) s in
                  (a, Server.setChannels
                        (<[channelName := a]> (Server.Channels s)) s)
              end in
            (* Add the client to the channel. *)
            let s := updChannel
                       (λ ch, Channel.setMembers
                                ({[c]} ∪ Channel.Members ch) ch) a s in
            let s := updClient
                       (λ cl, Client.setChannels
                                (<[channelName := a]> (Client.Channels cl))
                                cl) c s in
            ch ← channel s a;
            (* JOIN comes from the client, to the client. *)
            s ← Client_messageClient c c "JOIN" [Channel.Name ch] s;
            (* RPL_NAMREPLY: This tells the client about who is in the
               channel (including itself). *)
            s ← forEach (elements (Channel.Members ch))
                  (λ member s,
                     mcl ← client s member;
                     Server_messageClient c "353"
                       ["="; Channel.Name ch; ":" +:+ Client.Nick mcl] s) s;
            (* 366 RPL_ENDOFNAMES *)
            s ← Server_messageClient c "366"
                  [Channel.Name ch; "End of NAMES list"] s;
            (* Tell each member in the channel about the client. *)
            forEach (elements (Channel.Members ch))
              (λ member s,
                 (* Don't tell the client. We already did (above). *)
                 if bool_decide (member = c) then Ok s
                 else Client_messageClient c member "JOIN"
                        [Channel.Name ch] s) s
  end.

Definition partCommand (c : N) (m : Message) (s : Server.t)
  : Result Server.t :=
  match Params m with
  | [] => Server_messageClient c "461" ["PART"; "Not enough parameters"] s
  | param0 :: rest =>
      let partMessage : string :=
        match rest with
        | [] => ""
        | param1 :: _ => param1
        end in
      Client_part c param0 partMessage s
  end.

(** The trimming of the text in [privmsgCommand]: the message may be too
    long once we add the prefix/encode the message.  Strip any trailing
    characters until it's short enough. *)
Definition privmsgTrim (uhost target msg : string) : Result string :=
  let msgLen := len ":" + len uhost + len " PRIVMSG " + len target
                + len " " + len ":" + len msg + len CRLF in
  if MaxLineLength <? msgLen then
    let trimCount := msgLen - MaxLineLength in
    match slice_to msg (len msg - trimCount) with
    | Some msg => Ok msg
    | None => Panicked SliceBoundsOutOfRange
    end
  else Ok msg.

Definition privmsgCommand (c : N) (m : Message) (s : Server.t)
  : Result Server.t :=
  match Params m with
  | [] => Server_messageClient c "411" ["No recipient given (PRIVMSG)"] s
  | [_] => Server_messageClient c "412" ["No text to send"] s
  | target :: msg :: _ =>
      uhost ← Client_nickUhost c s;
      msg ← privmsgTrim uhost target msg;
      match String.get 0 target with
      | None => Panicked IndexOutOfRange
      | Some target0 =>
          if bool_decide (target0 = "#"%char) then
            let channelName := canonicalizeChannel target in
            if negb (isValidChannel channelName) then
              Server_messageClient c "404"
                [channelName; "Cannot send to channel"] s
            else
              match Server.Channels s !! channelName with
              | None =>
                  Server_messageClient c "403"
                    [channelName; "No such channel"] s
              | Some a =>
                  ch ← channel s a;
                  (* Are they on it? *)
                  on ← Client_onChannel c (Channel.Name ch) s;
                  if negb on then
                    Server_messageClient c "404"
                      [channelName; "Cannot send to channel"] s
                  else
                    (* Send to all members of the channel. Except the
                       client itself it seems. *)
                    forEach (elements (Channel.Members ch))
                      (λ member s,
                         if bool_decide (member = c) then Ok s
                         else Client_messageClient c member "PRIVMSG"
                                [Channel.Name ch; msg] s) s
              end
          else
            (* We're messaging a nick directly. *)
            let nickName := canonicalizeNick target in
            if negb (isValidNick nickName) then
              Server_messageClient c "401"
                [nickName; "No such nick/channel"] s
            else
              match Server.Nicks s !! nickName with
              | None =>
                  Server_messageClient c "401"
                    [nickName; "No such nick/channel"] s
              | Some targetClient =>
                  Client_messageClient c targetClient "PRIVMSG"
                    [nickName; msg] s
              end
      end
  end.

Definition quitCommand (c : N) (m : Message) (s : Server.t)
  : Result Server.t :=
  let msg := "Quit:" in
  let msg :=
    match Params m with
    | [] => msg
    | param0 :: _ => msg +:+ " " +:+ param0
    end in
  Client_quit c msg s.

Definition pingCommand (c : N) (m : Message) (s : Server.t)
  : Result Server.t :=
  match Params m with
  | [] => Server_messageClient c "409" ["No origin specified"] s
  | server :: _ =>
      if bool_decide (server ≠ config s "server-name") then
        Server_messageClient c "402" [server; "No such server"] s
      else Server_messageClient c "PONG" [server] s
  end.

Definition shutdown (s : Server.t) : Result Server.t :=
  (* Closing ShutdownChan indicates to other goroutines that we're
     shutting down. *)
  s ← (if Server.ShutdownChanClosed s then Panicked CloseOfClosedChannel
       else Ok (Server.setShutdownChanClosed true s));
  (* All clients need to be told. This also closes their write channels. *)
  forEach (elements (Server.Clients s))
    (λ cl s,
       if bool_decide (cl ∈ Server.Clients s) then
         Client_quit cl "Server shutting down" s
       else Ok s) s.

Definition dieCommand (c : N) (m : Message) (s : Server.t)
  : Result Server.t :=
  shutdown s.

Definition whoisCommand (now : Z) (c : N) (m : Message) (s : Server.t)
  : Result Server.t :=
  match Params m with
  | [] => Server_messageClient c "431" ["No nickname given"] s
  | nick :: _ =>
      let nickCanonical := canonicalizeNick nick in
      match Server.Nicks s !! nickCanonical with
      | None => Server_messageClient c "401" [nick; "No such nick/channel"] s
      | Some targetClient =>
          tcl ← client s targetClient;
          (* 311 RPL_WHOISUSER *)
          s ← Server_messageClient c "311"
                [Client.Nick tcl; Client.User tcl; Client.IP tcl; "*";
                 Client.RealName tcl] s;
          (* 312 RPL_WHOISSERVER *)
          s ← Server_messageClient c "312"
                [Client.Nick tcl; config s "server-name";
                 config s "server-info"] s;
          (* 313 RPL_WHOISOPERATOR *)
          isOper ← Client_isOperator targetClient s;
          s ← (if (isOper : bool) then
                 Server_messageClient c "313"
                   [Client.Nick tcl; "is an IRC operator"] s
               else Ok s);
          (* 317 RPL_WHOISIDLE *)
          let idleDuration := Sub now (Client.LastActivityTime tcl) in
          let idleSeconds := intSeconds idleDuration in
          s ← Server_messageClient c "317"
                [Client.Nick tcl; pretty idleSeconds; "seconds idle"] s;
          (* 318 RPL_ENDOFWHOIS *)
          Server_messageClient c "318"
            [Client.Nick tcl; "End of WHOIS list"] s
      end
  end.

Definition operCommand (c : N) (m : Message) (s : Server.t)
  : Result Server.t :=
  match Params m with
  | name :: password :: _ =>
      isOper ← Client_isOperator c s;
      if (isOper : bool) then
        Server_messageClient c "ERROR" ["You are already an operator."] s
      else
        (* Check if they gave acceptable permissions. *)
        match Server.Opers s !! name with
        | Some pass =>
            if bool_decide (pass ≠ password) then
              Server_messageClient c "464" ["Password incorrect"] s
            else
              (* Give them oper status. *)
              let s := updClient
                         (λ cl, Client.setModes
                                  ({["o"%char]} ∪ Client.Modes cl) cl) c s in
              cl ← client s c;
              s ← Client_messageClient c c "MODE" [Client.Nick cl; "+o"] s;
              (* 381 RPL_YOUREOPER *)
              Server_messageClient c "381" ["You are now an IRC operator"] s
        | None => Server_messageClient c "464" ["Password incorrect"] s
        end
  | _ => Server_messageClient c "461" ["OPER"; "Not enough parameters"] s
  end.

Definition userModeCommand (c targetClient : N) (modes : string)
    (s : Server.t) : Result Server.t :=
  (* They can only change their own mode. *)
  if bool_decide (targetClient ≠ c) then
    Server_messageClient c "502" ["Cannot change mode for other users"] s
  (* No modes given means we should send back their current mode. *)
  else if len modes =? 0 then
    cl ← client s c;
    let modeReturn :=
      foldl (λ acc k, acc +:+ String k "") "+" (elements (Client.Modes cl)) in
    Server_messageClient c "221" [modeReturn] s
  else
    '(s, _) ←
      forEach (runes modes)
        (λ char '(s, action),
           if (char =? byte_of "+") || (char =? byte_of "-") then
             Ok (s, char)
           else if action =? byte_of " " then
             (* Malformed. No +/-. *)
             s ← Server_messageClient c "ERROR" ["Malformed MODE"] s;
             Ok (s, action)
           (* Only mode I support right now is 'o' (operator). But some
              others I will ignore silently. *)
           else if (char =? byte_of "i") || (char =? byte_of "w")
                   || (char =? byte_of "s") then Ok (s, action)
           else if negb (char =? byte_of "o") then
             s ← Server_messageClient c "501" ["Unknown MODE flag"] s;
             Ok (s, action)
           (* Ignore it if they try to +o (operator) themselves. *)
           else if action =? byte_of "+" then Ok (s, action)
           else
             (* This is -o. They have to be operator for there to be any
                effect. *)
             isOper ← Client_isOperator c s;
             if negb isOper then Ok (s, action)
             else
               let s := updClient
                          (λ cl, Client.setModes
                                   (Client.Modes cl ∖ {["o"%char]}) cl) c s in
               cl ← client s c;
               s ← Client_messageClient c c "MODE" ["-o"; Client.Nick cl] s;
               Ok (s, action))
        (s, byte_of " ");
    Ok s.

Definition channelModeCommand (c : N) (a : addr) (modes : string)
    (s : Server.t) : Result Server.t :=
  ch ← channel s a;
  on ← Client_onChannel c (Channel.Name ch) s;
  if negb on then
    Server_messageClient c "442"
      [Channel.Name ch; "You're not on that channel"] s
  (* No modes? Send back the channel's modes. *)
  else if len modes =? 0 then
    Server_messageClient c "324" [Channel.Name ch; "+n"] s
  (* Listing bans. *)
  else if bool_decide (modes = "b") || bool_decide (modes = "+b") then
    Server_messageClient c "368"
      [Channel.Name ch; "End of channel ban list"] s
  else
    Server_messageClient c "482"
      [Channel.Name ch; "You're not channel operator"] s.

(** MODE command applies either to nicknames or to channels. *)
Definition modeCommand (c : N) (m : Message) (s : Server.t)
  : Result Server.t :=
  match Params m with
  | [] => Server_messageClient c "461" ["MODE"; "Not enough parameters"] s
  | target :: rest =>
      (* We can have blank mode. *)
      let modes : string :=
        match rest with
        | [] => ""
        | param1 :: _ => param1
        end in
      (* Is it a nickname? *)
      match Server.Nicks s !! canonicalizeNick target with
      | Some targetClient => userModeCommand c targetClient modes s
      | None =>
          (* Is it a channel? *)
          match Server.Channels s !! canonicalizeChannel target with
          | Some targetChannel => channelModeCommand c targetChannel modes s
          | None =>
              Server_messageClient c "403" [target; "No such channel"] s
          end
      end
  end.

Definition whoCommand (c : N) (m : Message) (s : Server.t)
  : Result Server.t :=
  match Params m with
  | [] =>
      Server_messageClient c "461" [Command m; "Not enough parameters"] s
  | param0 :: _ =>
      match Server.Channels s !! canonicalizeChannel param0 with
      | None =>
          Server_messageClient c "403" [param0; "Invalid channel name"] s
      | Some a =>
          ch ← channel s a;
          (* Only works if they are on the channel. *)
          on ← Client_onChannel c (Channel.Name ch) s;
          if negb on then
            Server_messageClient c "442"
              [Channel.Name ch; "You're not on that channel"] s
          else
            s ← forEach (elements (Channel.Members ch))
                  (λ member s,
                     mcl ← client s member;
                     isOper ← Client_isOperator member s;
                     let mode := "H" in
                     let mode := if (isOper : bool) then mode +:+ "*"
                                 else mode in
                     (* 352 RPL_WHOREPLY *)
                     Server_messageClient c "352"
                       [Channel.Name ch; Client.User mcl; Client.IP mcl;
                        config s "server-name"; Client.Nick mcl; mode;
                        "0 " +:+ Client.RealName mcl] s) s;
            (* 315 RPL_ENDOFWHO *)
            Server_messageClient c "315"
              [Channel.Name ch; "End of WHO list"] s
      end
  end.

(** handleMessage takes action based on a client's IRC message. *)
Definition handleMessage (now : Z) (c : N) (m : Message) (s : Server.t)
  : Result Server.t :=
  (* Record that client said something to us just now. *)
  let s := updClient (Client.setLastActivityTime now) c s in
  (* Clients SHOULD NOT (section 2.3) send a prefix. *)
  if bool_decide (Prefix m ≠ "") then
    Server_messageClient c "ERROR" ["Do not send a prefix"] s
  (* Non-RFC command that appears to be widely supported. Just ignore it
     for now. *)
  else if bool_decide (Command m = "CAP") then Ok s
  else if bool_decide (Command m = "NICK") then nickCommand c m s
  else if bool_decide (Command m = "USER") then userCommand c m s
  else
    cl ← client s c;
    (* Let's say *all* other commands require you to be registered.
       This is likely stricter than RFC. *)
    if negb (Client.Registered cl) then
      (* 451 ERR_NOTREGISTERED *)
      Server_messageClient c "451" ["You have not registered."] s
    else if bool_decide (Command m = "JOIN") then joinCommand c m s
    else if bool_decide (Command m = "PART") then partCommand c m s
    else if bool_decide (Command m = "PRIVMSG") then privmsgCommand c m s
    else if bool_decide (Command m = "LUSERS") then lusersCommand c s
    else if bool_decide (Command m = "MOTD") then motdCommand c s
    else if bool_decide (Command m = "QUIT") then quitCommand c m s
    else if bool_decide (Command m = "PONG") then
      (* Not doing anything with this. Just accept it. *)
      Ok s
    else if bool_decide (Command m = "PING") then pingCommand c m s
    else if bool_decide (Command m = "DIE") then dieCommand c m s
    else if bool_decide (Command m = "WHOIS") then whoisCommand now c m s
    else if bool_decide (Command m = "OPER") then operCommand c m s
    else if bool_decide (Command m = "MODE") then modeCommand c m s
    else if bool_decide (Command m = "WHO") then whoCommand c m s
    else
      (* Unknown command. We don't handle it yet anyway. *)
      Server_messageClient c "421" [Command m; "Unknown command"] s.

(** The body of the loop of [checkAndPingClients], for one client. *)
Definition checkAndPingClient (now : Z) (c : N) (s : Server.t)
  : Result Server.t :=
  cl ← client s c;
  let timeIdle := Sub now (Client.LastActivityTime cl) in
  let timeSincePing := Sub now (Client.LastPingTime cl) in
  if Client.Registered cl then
    (* Was it active recently enough that we don't need to do anything? *)
    if timeIdle <? Server.PingTime s then Ok s
    (* Has it been idle long enough that we consider it dead? *)
    else if Server.DeadTime s <? timeIdle then
      Client_quit c
        ("Ping timeout: " +:+ pretty (intSeconds timeIdle) +:+ " seconds") s
    (* Should we ping it? We might have pinged it recently. *)
    else if timeSincePing <? Server.PingTime s then Ok s
    else
      s ← Server_messageClient c "PING" [config s "server-name"] s;
      Ok (updClient (Client.setLastPingTime now) c s)
  else if Server.DeadTime s <? timeIdle then Client_quit c "Idle too long." s
  else Ok s.

(** checkAndPingClients looks at each connected client. *)
Definition checkAndPingClients (now : Z) (s : Server.t) : Result Server.t :=
  forEach (elements (Server.Clients s))
    (λ c s,
       if bool_decide (c ∈ Server.Clients s) then checkAndPingClient now c s
       else Ok s) s.

(** ** Vocabulary of the statements *)

(** The parameters of a message from the server: numerics carry the nick
    of the recipient, or [*] while it has none. *)
Definition serverParams (cl : Client.t) (command : string)
    (params : list string) : list string :=
  if isNumeric_loop command true then
    (if 0 <? len (Client.Nick cl) then Client.Nick cl else "*") :: params
  else params.

(** A message from the server to the client whose object is [cl]. *)
Definition serverMessage (s : Server.t) (cl : Client.t) (command : string)
    (params : list string) : Message :=
  mkMessage (config s "server-name") command (serverParams cl command params).

(** A message that appears to come from the client whose object is [cl]. *)
Definition clientMessage (cl : Client.t) (command : string)
    (params : list string) : Message :=
  mkMessage (nickUhostOf cl) command params.

(** [s] after the sends [l]. *)
Definition afterSends (l : list (N * Message)) (s : Server.t) : Server.t :=
  Server.setSent (Server.sent s ++ l) s.

(** The client [c] has an object and its outbox is open. *)
Definition writable (s : Server.t) (c : N) : Prop :=
  ∃ cl, Server.clientAt s !! c = Some cl ∧ Client.WriteChanClosed cl = false.

(** The Channel object the index has under a name. *)
Definition channelNamed (s : Server.t) (n : string) : option Channel.t :=
  a ← Server.Channels s !! n; Server.channelAt s !! a.

(** The members of the channels a client object lists. *)
Definition peer (s : Server.t) (cl : Client.t) (r : N) : Prop :=
  ∃ n a ch, Client.Channels cl !! n = Some a
            ∧ Server.channelAt s !! a = Some ch ∧ r ∈ Channel.Members ch.

(** The nick index leads to indexed clients, each under its own nick, which
    is a valid one. *)
Definition nicksOk (s : Server.t) : Prop :=
  ∀ nk t, Server.Nicks s !! nk = Some t →
    t ∈ Server.Clients s
    ∧ ∃ tcl, Server.clientAt s !! t = Some tcl
             ∧ isValidNick (Client.Nick tcl) = true
             ∧ nk = Client.Nick tcl.

(** The consistency of the indices.  [inv_clients]: an indexed client has
    an object and an open outbox.  [inv_index]: an indexed channel has an
    object that carries its index name, the name is valid, and it has a
    member.  [inv_members] and [inv_joined]: a client is a member of an
    indexed channel exactly when its own channel map lists that channel,
    and only registered clients are on channels.  [inv_nicks]: the nick
    index is in order. *)
Record Inv (s : Server.t) : Prop := mkInv {
  inv_clients : ∀ k, k ∈ Server.Clients s → writable s k;
  inv_index : ∀ n a, Server.Channels s !! n = Some a →
    ∃ ch, Server.channelAt s !! a = Some ch ∧ Channel.Name ch = n
          ∧ isValidChannel n = true ∧ Channel.Members ch ≠ ∅;
  inv_members : ∀ n a ch k,
    Server.Channels s !! n = Some a → Server.channelAt s !! a = Some ch →
    k ∈ Channel.Members ch →
    k ∈ Server.Clients s
    ∧ ∃ cl, Server.clientAt s !! k = Some cl
            ∧ Client.Channels cl !! n = Some a;
  inv_joined : ∀ k cl n a,
    k ∈ Server.Clients s → Server.clientAt s !! k = Some cl →
    Client.Channels cl !! n = Some a →
    Client.Registered cl = true ∧ Server.Channels s !! n = Some a
    ∧ ∃ ch, Server.channelAt s !! a = Some ch ∧ k ∈ Channel.Members ch;
  inv_nicks : nicksOk s
}.

(** What a handler that touches neither a channel nor a nick may change of
    a client object: nothing of its outbox, channel map and nick, and it
    does not unregister. *)
Definition clientShape (cl cl' : Client.t) : Prop :=
  Client.WriteChanClosed cl' = Client.WriteChanClosed cl
  ∧ Client.Channels cl' = Client.Channels cl
  ∧ Client.Nick cl' = Client.Nick cl
  ∧ (Client.Registered cl = true → Client.Registered cl' = true).

(** [s'] differs from [s] in nothing the consistency of the indices looks
    at. *)
Definition shape (s s' : Server.t) : Prop :=
  Server.Clients s' = Server.Clients s
  ∧ Server.Channels s' = Server.Channels s
  ∧ Server.channelAt s' = Server.channelAt s
  ∧ Server.ShutdownChanClosed s' = Server.ShutdownChanClosed s
  ∧ Server.Nicks s' = Server.Nicks s
  ∧ ∀ k, option_Forall2 clientShape (Server.clientAt s !! k)
                                   (Server.clientAt s' !! k).

(** The handler returned, in a state of the same shape. *)
Definition evolves (s : Server.t) (r : Result Server.t) : Prop :=
  ∃ s', r = Ok s' ∧ shape s s'.

(** What [quit] does to one channel of the client: drop the member, and
    drop the channel from the index when that empties it. *)
Definition depart (c : N) (a : addr) (s : Server.t) : Server.t :=
  let s := updChannel
             (λ ch, Channel.setMembers (Channel.Members ch ∖ {[c]}) ch) a s in
  match Server.channelAt s !! a with
  | Some ch =>
      if bool_decide (size (Channel.Members ch) = 0%nat) then
        Server.setChannels (delete (Channel.Name ch) (Server.Channels s)) s
      else s
  | None => s
  end.

(** What [part] does to the indices: [depart], and the entry of the channel
    leaves the channel map of the client. *)
Definition leave (c : N) (n : string) (a : addr) (s : Server.t) : Server.t :=
  depart c a
    (updClient (λ cl, Client.setChannels (delete n (Client.Channels cl)) cl)
       c s).

(** What [joinCommand] does to the indices: look the channel up or create
    it, then add the client on both sides.  The address is returned too. *)
Definition enter (c : N) (n : string) (s : Server.t) : addr * Server.t :=
  let '(a, s) :=
    match Server.Channels s !! n with
    | Some a => (a, s)
    | None =>
        let a := fresh (dom (Server.channelAt s)) in
        (a, Server.setChannels (<[n := a]> (Server.Channels s))
              (Server.setChannelAt
                 (<[a := Channel.mk n ∅]> (Server.channelAt s)) s))
    end in
  (a, updClient
        (λ cl, Client.setChannels (<[n := a]> (Client.Channels cl)) cl) c
        (updChannel
           (λ ch, Channel.setMembers ({[c]} ∪ Channel.Members ch) ch) a s)).

(** The recipients of a broadcast that goes through member sets one after
    the other and skips whoever has been told. *)
Fixpoint tellList (sets : list (gset N)) (told : gset N) : list N :=
  match sets with
  | [] => []
  | M :: rest =>
      filter (λ r, r ∉ told) (elements M) ++ tellList rest (M ∪ told)
  end.

(** The members of the channel an entry points to. *)
Definition membersAt (s : Server.t) (na : string * addr) : gset N :=
  default ∅ (Channel.Members <$> Server.channelAt s !! na.2).

(** The member sets of the channels a client object lists, in the order the
    range over its channel map takes them. *)
Definition memberSets (s : Server.t) (cl : Client.t) : list (gset N) :=
  membersAt s <$> map_to_list (Client.Channels cl).

(** Who is told of a NICK change or a QUIT of the client: the members of
    its channels, once each, and the client itself if that left it out. *)
Definition audience (s : Server.t) (c : N) (cl : Client.t) : list N :=
  let told := tellList (memberSets s cl) ∅ in
  if bool_decide (c ∈ told) then told else told ++ [c].

(** [s] with the channel map of [c] replaced by the entries [rem]: what is
    left for [quit] to go through. *)
Definition viewOf (c : N) (rem : list (string * addr)) (s : Server.t)
  : Server.t :=
  updClient (Client.setChannels (list_to_map rem)) c s.

(** [depart] for each of the entries, in turn. *)
Definition departAll (c : N) (chs : list (string * addr)) (s : Server.t)
  : Server.t :=
  foldl (λ s na, depart c na.2 s) s chs.

(** The indices once [quit] is through with a registered client whose
    object was [cl]: out of its channels, nick released, outbox closed, out
    of the client index. *)
Definition quitState (c : N) (cl : Client.t) (s : Server.t) : Server.t :=
  Server.setClients (Server.Clients s ∖ {[c]})
    (updClient (Client.setWriteChanClosed true) c
       (Server.setNicks
          (delete (canonicalizeNick (Client.Nick cl)) (Server.Nicks s))
          (departAll c (map_to_list (Client.Channels cl)) s))).

(** The nick in the object of a client. *)
Definition nickOf (s : Server.t) (r : N) : string :=
  default "" (Client.Nick <$> Server.clientAt s !! r).

(** What [joinCommand] sends when the client whose object is [cl] joins the
    channel [n] and the channel then has the given members: JOIN to the
    joiner, a 353 per member, 366, then JOIN to every other member. *)
Definition joinReplies (s : Server.t) (c : N) (cl : Client.t) (n : string)
    (members : gset N) : list (N * Message) :=
  [(c, clientMessage cl "JOIN" [n])]
  ++ ((λ r, (c, serverMessage s cl "353" ["="; n; ":" +:+ nickOf s r]))
        <$> elements members)
  ++ [(c, serverMessage s cl "366" [n; "End of NAMES list"])]
  ++ ((λ r, (r, clientMessage cl "JOIN" [n]))
        <$> filter (λ r, r ≠ c) (elements members)).

(** What [part] sends: PART, with the message if there is one, to every
    member of the channel. *)
Definition partReplies (cl : Client.t) (n message : string)
    (members : gset N) : list (N * Message) :=
  (λ r, (r, clientMessage cl "PART"
              (if 0 <? len message then [n] ++ [message] else [n])))
    <$> elements members.

(** The handler returned in a state of the same shape, or it panicked. *)
Definition mayFault (s : Server.t) (r : Result Server.t) : Prop :=
  (∃ p, r = Panicked p) ∨ evolves s r.

(** The preamble of [handleMessage]: the time of last activity is set. *)
Definition touch (now : Z) (c : N) (s : Server.t) : Server.t :=
  updClient (Client.setLastActivityTime now) c s.

(** The nick index after a successful NICK of the client whose object was
    [cl]: the new nick is claimed, the old one, if any, released. *)
Definition nicksAfter (c : N) (cl : Client.t) (nick : string)
    (nicks : gmap string N) : gmap string N :=
  let nicks := <[canonicalizeNick nick := c]> nicks in
  if 0 <? len (Client.Nick cl)
  then delete (canonicalizeNick (Client.Nick cl)) nicks
  else nicks.

(** The state after a successful NICK, but for the sends. *)
Definition nickState (c : N) (cl : Client.t) (nick : string) (s : Server.t)
  : Server.t :=
  updClient (Client.setNick nick) c
    (Server.setNicks (nicksAfter c cl nick (Server.Nicks s)) s).

(** Membership is recorded on both sides: a member of an indexed channel
    is an indexed client, and an indexed client is a member of an indexed
    channel exactly when its own channel map has that channel under its
    name. *)
Definition membershipAgrees (s : Server.t) : Prop :=
  ∀ n a ch k,
    Server.Channels s !! n = Some a → Server.channelAt s !! a = Some ch →
    (k ∈ Channel.Members ch → k ∈ Server.Clients s)
    ∧ (k ∈ Server.Clients s →
       (k ∈ Channel.Members ch
        ↔ ∃ cl, Server.clientAt s !! k = Some cl
                ∧ Client.Channels cl !! n = Some a)).

(** Every channel of the index has a member. *)
Definition noEmptyChannel (s : Server.t) : Prop :=
  ∀ n a, Server.Channels s !! n = Some a →
    ∃ ch, Server.channelAt s !! a = Some ch ∧ Channel.Members ch ≠ ∅.

(** A check of [Inv] that runs. *)
Definition InvB (s : Server.t) : bool :=
  forallb
    (λ k, match Server.clientAt s !! k with
          | Some cl => negb (Client.WriteChanClosed cl)
          | None => false
          end)
    (elements (Server.Clients s))
  && forallb
       (λ na : string * addr,
          match Server.channelAt s !! na.2 with
          | Some ch =>
              bool_decide (Channel.Name ch = na.1)
              && isValidChannel na.1
              && negb (bool_decide (Channel.Members ch = ∅))
              && forallb
                   (λ k, bool_decide (k ∈ Server.Clients s)
                         && match Server.clientAt s !! k with
                            | Some cl =>
                                bool_decide
                                  (Client.Channels cl !! na.1 = Some na.2)
                            | None => false
                            end)
                   (elements (Channel.Members ch))
          | None => false
          end)
       (map_to_list (Server.Channels s))
  && forallb
       (λ k, match Server.clientAt s !! k with
             | Some cl =>
                 forallb
                   (λ na : string * addr,
                      Client.Registered cl
                      && bool_decide (Server.Channels s !! na.1 = Some na.2)
                      && match Server.channelAt s !! na.2 with
                         | Some ch => bool_decide (k ∈ Channel.Members ch)
                         | None => false
                         end)
                   (map_to_list (Client.Channels cl))
             | None => true
             end)
       (elements (Server.Clients s))
  && forallb
       (λ nt : string * N,
          bool_decide (nt.2 ∈ Server.Clients s)
          && match Server.clientAt s !! nt.2 with
             | Some tcl =>
                 isValidNick (Client.Nick tcl)
                 && bool_decide (nt.1 = Client.Nick tcl)
             | None => false
             end)
       (map_to_list (Server.Nicks s)).

(** *** A server to try things on

    Four clients: alice (1) and bob (2) are registered, 3 has just connected,
    dave (4) has sent NICK but not USER.  alice and bob are on #lobby, alice
    alone is on #ops.  Times are in nanoseconds; alice spoke 0 s, bob 100 s,
    client 3 300 s and dave 10 s before the instant 1000 s. *)

Definition second : Z := 1000000000.

Definition exampleConfig : gmap string string :=
  {[ "server-name" := "irc.example"; "server-info" := "An example";
     "version" := "1.0"; "created-date" := "today"; "motd" := "Welcome" ]}.

Definition alice : Client.t :=
  Client.mk false "10.0.0.1" true "alice" "alice" "Alice"
    {[ "#lobby" := 0%N; "#ops" := 1%N ]} (1000 * second) zeroTime ∅.

Definition bob : Client.t :=
  Client.mk false "10.0.0.2" true "bob" "bob" "Bob"
    {[ "#lobby" := 0%N ]} (900 * second) (850 * second) ∅.

Definition newcomer : Client.t :=
  Client.mk false "10.0.0.3" false "" "" "" ∅ (700 * second) zeroTime ∅.

Definition dave : Client.t :=
  Client.mk false "10.0.0.4" false "dave" "" "" ∅ (990 * second) zeroTime ∅.

Definition lobby : Server.t :=
  Server.mk exampleConfig {[ 1%N; 2%N; 3%N; 4%N ]}
    {[ "alice" := 1%N; "bob" := 2%N; "dave" := 4%N ]}
    {[ "#lobby" := 0%N; "#ops" := 1%N ]}
    false (30 * second) (240 * second) ∅
    {[ 1%N := alice; 2%N := bob; 3%N := newcomer; 4%N := dave ]}
    {[ 0%N := Channel.mk "#lobby" {[ 1%N; 2%N ]};
       1%N := Channel.mk "#ops" {[ 1%N ]} ]}
    [].

(** A string of [n] copies of a byte. *)
Fixpoint copies (n : nat) (a : ascii) : string :=
  match n with
  | O => EmptyString
  | S n' => String a (copies n' a)
  end.

(** A channel name of 490 bytes: the line [PRIVMSG <name> :hi] is 504
    bytes long with its CR LF, within the 512 of the protocol. *)
Definition longTarget : string := String "#" (copies 489 "a").

(** The bytes of a PRIVMSG line around its text: colon, prefix, command,
    target, the colon of the text, CR LF. *)
Definition privmsgOverhead (uhost target : string) : Z :=
  len ":" + len uhost + len " PRIVMSG " + len target + len " " + len ":"
  + len CRLF.

(** ** Vocabulary of the frame properties *)

(** Whatever [r] returns satisfies [P]; a panic returns nothing. *)
Definition holds {A : Type} (P : A → Prop) (r : Result A) : Prop :=
  ∀ a, r = Ok a → P a.

(** What the handlers other than NICK, OPER and the quit procedure may do
    to a client object: they leave its outbox, address and nick alone, add
    no mode, and once it is registered they leave it registered with the
    user and real name it has. *)
Definition quiet (cl cl' : Client.t) : Prop :=
  Client.WriteChanClosed cl' = Client.WriteChanClosed cl
  ∧ Client.IP cl' = Client.IP cl
  ∧ Client.Nick cl' = Client.Nick cl
  ∧ Client.Modes cl' ⊆ Client.Modes cl
  ∧ (Client.Registered cl = true →
     Client.Registered cl' = true ∧ Client.User cl' = Client.User cl
     ∧ Client.RealName cl' = Client.RealName cl).

(** A relation between the state before and the state after that every
    step of such a handler respects: a send, a write to the channel store
    or the channel index, a [quiet] update of a client object. *)
Record Calm (R : Server.t → Server.t → Prop) : Prop := mkCalm {
  calm_refl : ∀ s, R s s;
  calm_trans : ∀ s1 s2 s3, R s1 s2 → R s2 s3 → R s1 s3;
  calm_sent : ∀ s x, R s (Server.setSent x s);
  calm_channelAt : ∀ s x, R s (Server.setChannelAt x s);
  calm_channels : ∀ s x, R s (Server.setChannels x s);
  calm_client : ∀ s c f,
    (∀ cl, Server.clientAt s !! c = Some cl → quiet cl (f cl)) →
    R s (updClient f c s)
}.

(** What stays of a client object for good: its address; its outbox
    closed, once closed; and, once it is registered, the registration, the
    user name and the real name. *)
Definition settled (cl cl' : Client.t) : Prop :=
  Client.IP cl' = Client.IP cl
  ∧ (Client.WriteChanClosed cl = true → Client.WriteChanClosed cl' = true)
  ∧ (Client.Registered cl = true →
     Client.Registered cl' = true ∧ Client.User cl' = Client.User cl
     ∧ Client.RealName cl' = Client.RealName cl).

(** [s'] is a later state of [s]: no client has been added to the index,
    the configuration, the two periods and the operator table are the same,
    the store holds the same client objects, and each of them is [settled]. *)
Definition succeeds (s s' : Server.t) : Prop :=
  Server.Clients s' ⊆ Server.Clients s
  ∧ Server.Config s' = Server.Config s
  ∧ Server.PingTime s' = Server.PingTime s
  ∧ Server.DeadTime s' = Server.DeadTime s
  ∧ Server.Opers s' = Server.Opers s
  ∧ ∀ k, option_Forall2 settled (Server.clientAt s !! k)
                                (Server.clientAt s' !! k).

(** The parameters of [m] start with a name and the password the operator
    table has for it. *)
Definition credentials (m : Message) (opers : gmap string string) : Prop :=
  ∃ name password rest,
    Params m = name :: password :: rest ∧ opers !! name = Some password.

(** The operator table is the same, and no client object has a mode it did
    not have, except those that [G] allows. *)
Definition modesFollow (G : N → Prop) (s s' : Server.t) : Prop :=
  Server.Opers s' = Server.Opers s
  ∧ ∀ k, option_Forall2 (λ cl cl', Client.Modes cl' ⊆ Client.Modes cl ∨ G k)
           (Server.clientAt s !! k) (Server.clientAt s' !! k).

(** ** Start-up and the message loop *)

Section Startup.

(** time.ParseDuration: the duration in nanoseconds, or the text of the
    error. *)
Variable ParseDuration : string → string + Z.
(** irc.LoadConfig: the keys and values of the file of that name, or the
    text of the error. *)
Variable LoadConfig : string → string + gmap string string.

Definition requiredKeys : list string :=
  ["listen-host"; "listen-port"; "server-name"; "server-info"; "version";
   "created-date"; "motd"; "wakeup-time"; "ping-time"; "dead-time";
   "opers-config"].

(** The loop of [checkAndParseConfig] over the required keys: the error it
    returns, if any. *)
Fixpoint checkRequiredKeys (keys : list string) (cfg : gmap string string)
  : option string :=
  match keys with
  | [] => None
  | key :: keys' =>
      match cfg !! key with
      | None => Some ("Missing required key: " +:+ key)
      | Some v =>
          if len v =? 0 then Some ("Configuration value is blank: " +:+ key)
          else checkRequiredKeys keys' cfg
      end
  end.

(** What [checkAndParseConfig] parses out of the configuration. *)
Record Parsed := mkParsed {
  WakeupTime : Z;
  parsedPingTime : Z;
  parsedDeadTime : Z;
  parsedOpers : gmap string string
}.

(** checkAndParseConfig checks configuration keys are present and in an
    acceptable format.  We parse some values into alternate
    representations. *)
Definition checkAndParseConfig (cfg : gmap string string) : string + Parsed :=
  match checkRequiredKeys requiredKeys cfg with
  | Some err => inl err
  | None =>
      match ParseDuration (default "" (cfg !! "wakeup-time")) with
      | inl err => inl ("Wakeup time is in invalid format: " +:+ err)
      | inr wakeup =>
          match ParseDuration (default "" (cfg !! "ping-time")) with
          | inl err => inl ("Ping time is in invalid format: " +:+ err)
          | inr ping =>
              match ParseDuration (default "" (cfg !! "dead-time")) with
              | inl err => inl ("Dead time is in invalid format: " +:+ err)
              | inr dead =>
                  match LoadConfig (default "" (cfg !! "opers-config")) with
                  | inl err => inl ("Unable to load opers config: " +:+ err)
                  | inr opers => inr (mkParsed wakeup ping dead opers)
                  end
              end
          end
      end
  end.

(** newServer: the server with empty indices, and the wake-up period of the
    alarm, which the loop itself does not look at. *)
Definition newServer (cfg : gmap string string) : string + Server.t * Z :=
  match checkAndParseConfig cfg with
  | inl err => inl ("Configuration problem: " +:+ err)
  | inr p =>
      inr (Server.mk cfg ∅ ∅ ∅ false (parsedPingTime p) (parsedDeadTime p)
             (parsedOpers p) ∅ ∅ [],
           WakeupTime p)
  end.

End Startup.

(** The Client that [acceptConnections] builds for a connection from [ip];
    the fields it does not set have their zero values. *)
Definition acceptedClient (ip : string) : Client.t :=
  Client.mk false ip false "" "" "" ∅ zeroTime zeroTime ∅.

(** What the message loop of [start] receives: a new client and its id
    from [newClientChan], a message of a client from [messageServerChan], a
    client from [deadClientChan], a wake-up from the alarm. *)
Inductive Event :=
  | NewClient (id : N) (client : Client.t)
  | ClientMessage (c : N) (m : Message)
  | DeadClient (c : N)
  | Alarm.

(** One turn of the message loop, on the event received. *)
Definition eventStep (now : Z) (e : Event) (s : Server.t) : Result Server.t :=
  match e with
  | NewClient id client =>
      let s := Server.setClientAt (<[id := client]> (Server.clientAt s)) s in
      let s := Server.setClients ({[id]} ∪ Server.Clients s) s in
      Ok (updClient (Client.setLastActivityTime now) id s)
  | ClientMessage c m =>
      (* This could be from a client that disconnected. Ignore it if so. *)
      if bool_decide (c ∈ Server.Clients s) then handleMessage now c m s
      else Ok s
  | DeadClient c =>
      if bool_decide (c ∈ Server.Clients s) then Client_quit c "I/O error" s
      else Ok s
  | Alarm => checkAndPingClients now s
  end.

(** One turn of the loop of [acceptConnections] once a connection is
    accepted: the event it sends to the message loop and the next id, or
    nothing where it ends the process because the ids rolled over.  The ids
    are uint64. *)
Definition acceptConnection (id : N) (ip : string) : option (Event * N) :=
  let client := acceptedClient ip in
  if ((id + 1) mod 2 ^ 64 =? 0)%N then None
  else Some (NewClient id client, ((id + 1) mod 2 ^ 64)%N).

(** What the daemon gets from outside: a connection from an address, a line
    from a client, the failure of a client's connection, a tick of the
    alarm. *)
Inductive Input :=
  | Connection (ip : string)
  | Line (c : N) (m : Message)
  | Failure (c : N)
  | Tick.

(** Where the daemon is after some inputs: running, with the next id of the
    accepter and the state of the server; ended by a panic; or ended by the
    accepter. *)
Inductive Outcome :=
  | Running (id : N) (s : Server.t)
  | Crashed (p : Panic)
  | RolledOver.

Definition continue (id : N) (r : Result Server.t) : Outcome :=
  match r with
  | Ok s => Running id s
  | Panicked p => Crashed p
  end.

(** The accepter and the message loop taken together: a connection gets its
    id and is handed to the loop at once. *)
Definition daemonStep (now : Z) (i : Input) (id : N) (s : Server.t)
  : Outcome :=
  match i with
  | Connection ip =>
      match acceptConnection id ip with
      | None => RolledOver
      | Some (e, id') => continue id' (eventStep now e s)
      end
  | Line c m => continue id (eventStep now (ClientMessage c m) s)
  | Failure c => continue id (eventStep now (DeadClient c) s)
  | Tick => continue id (eventStep now Alarm s)
  end.

(** The daemon on a sequence of inputs, each with the time at which the
    loop takes it. *)
Fixpoint run (inputs : list (Z * Input)) (id : N) (s : Server.t) : Outcome :=
  match inputs with
  | [] => Running id s
  | (now, i) :: rest =>
      match daemonStep now i id s with
      | Running id' s' => run rest id' s'
      | o => o
      end
  end.

(** Every indexed client that has a nick is in the nick index under it. *)
Definition nicksExact (s : Server.t) : Prop :=
  ∀ k cl, k ∈ Server.Clients s → Server.clientAt s !! k = Some cl →
    0 < len (Client.Nick cl) →
    Server.Nicks s !! canonicalizeNick (Client.Nick cl) = Some k.

(** The consistency of the indices, the nick index complete, and every
    indexed client older than the next id. *)
Definition Sound (id : N) (s : Server.t) : Prop :=
  Inv s ∧ nicksExact s ∧ (∀ k, k ∈ Server.Clients s → (k < id)%N)
  ∧ (id < 2 ^ 64)%N.

(** The client index and the nick index are the same and every client
    object has the nick it had. *)
Definition sameNicks (s s' : Server.t) : Prop :=
  Server.Clients s' = Server.Clients s
  ∧ Server.Nicks s' = Server.Nicks s
  ∧ ∀ k, option_Forall2 (λ cl cl', Client.Nick cl' = Client.Nick cl)
           (Server.clientAt s !! k) (Server.clientAt s' !! k).

(** The shutdown signal is as it was. *)
Definition unflagged (s s' : Server.t) : Prop :=
  Server.ShutdownChanClosed s' = Server.ShutdownChanClosed s.

(** [s'] comes from [s] by steps that every [Calm] relation respects. *)
Definition calmSteps (s s' : Server.t) : Prop :=
  ∀ R : Server.t → Server.t → Prop, Calm R → R s s'.

(** An input that is not a PRIVMSG or DIE line. *)
Definition harmless (i : Input) : Prop :=
  match i with
  | Line _ m => Command m ≠ "PRIVMSG" ∧ Command m ≠ "DIE"
  | _ => True
  end.

(** ** Vocabulary of the replies *)




(** A reply of the server to [c], and nothing else. *)
Definition replied (s : Server.t) (c : N) (cl : Client.t) (command : string)
    (params : list string) : Result Server.t :=
  Ok (afterSends [(c, serverMessage s cl command params)] s).

(** ** Vocabulary of the sweep *)






(** ** Vocabulary of the queries *)

(** [s'] is [s] after messages from the server to the client [c], and
    nothing else. *)
Definition answered (c : N) (s s' : Server.t) : Prop :=
  ∃ replies,
    s' = afterSends ((λ reply, (c, reply)) <$> replies) s
    ∧ Forall (λ reply, Prefix reply = config s "server-name") replies.

(** The handler returned, having only answered the client. *)
Definition answers (c : N) (s : Server.t) (r : Result Server.t) : Prop :=
  ∃ s', r = Ok s' ∧ answered c s s'.

(** The commands that the dispatcher knows, and those among them that only
    ask. *)
Definition commands : list string :=
  ["CAP"; "NICK"; "USER"; "JOIN"; "PART"; "PRIVMSG"; "LUSERS"; "MOTD"; "QUIT";
   "PONG"; "PING"; "DIE"; "WHOIS"; "OPER"; "MODE"; "WHO"].

Definition queries : list string := ["LUSERS"; "MOTD"; "PING"; "WHOIS"; "WHO"].

(** ** The order of a range over the members

    The members of a channel are a Go map, and the order in which [range]
    goes over a map is not specified: it can differ from one loop to the
    next, and from one call to the next.  The handlers above take the
    members in the order of [elements].  Here [part], PART and JOIN, and
    the dispatcher with them, take their loops over the members in an order
    that is a parameter of the call: [order i X] is the order in which the
    loop number [i] of the handler goes over the members [X]. *)
Definition RangeOrder : Type := nat → gset N → list N.

(** The order goes over every member, once. *)
Definition enumerates (order : RangeOrder) : Prop :=
  ∀ i X, order i X ≡ₚ elements X.

(** The order that the handlers above take. *)
Definition inElementsOrder : RangeOrder := λ _ X, elements X.

(** part tries to remove the client from the channel. *)
Definition Client_partIn (order : RangeOrder) (c : N)
    (channelName message : string) (s : Server.t) : Result Server.t :=
  let channelName := canonicalizeChannel channelName in
  if negb (isValidChannel channelName) then
    Server_messageClient c "403" [channelName; "Invalid channel name"] s
  else
    (* Find the channel. *)
    match Server.Channels s !! channelName with
    | None =>
        Server_messageClient c "403" [channelName; "No such channel"] s
    | Some a =>
        ch ← channel s a;
        (* Are they on the channel? *)
        on ← Client_onChannel c (Channel.Name ch) s;
        if negb on then
          Server_messageClient c "403"
            [channelName; "You are not on that channel"] s
        else
          (* Tell everyone (including the client) about the part. *)
          s ← forEach (order 0%nat (Channel.Members ch))
                (λ member s,
                   let params := [channelName] in
                   let params :=
                     if 0 <? len message then params ++ [message]
                     else params in
                   Client_messageClient c member "PART" params s) s;
          (* Remove the client from the channel. *)
          let s := updChannel
                     (λ ch, Channel.setMembers (Channel.Members ch ∖ {[c]}) ch)
                     a s in
          ch ← channel s a;
          let s := updClient
                     (λ cl, Client.setChannels
                              (delete (Channel.Name ch) (Client.Channels cl))
                              cl) c s in
          (* If they are the last member, then drop the channel
             completely. *)
          ch ← channel s a;
          if bool_decide (size (Channel.Members ch) = 0%nat) then
            Ok (Server.setChannels
                  (delete (Channel.Name ch) (Server.Channels s)) s)
          else Ok s
    end.

Definition partCommandIn (order : RangeOrder) (c : N) (m : Message)
    (s : Server.t) : Result Server.t :=
  match Params m with
  | [] => Server_messageClient c "461" ["PART"; "Not enough parameters"] s
  | param0 :: rest =>
      let partMessage : string :=
        match rest with
        | [] => ""
        | param1 :: _ => param1
        end in
      Client_partIn order c param0 partMessage s
  end.

Definition joinCommandIn (order : RangeOrder) (c : N) (m : Message)
    (s : Server.t) : Result Server.t :=
  match Params m with
  | [] => Server_messageClient c "461" ["JOIN"; "Not enough parameters"] s
  | param0 :: rest =>
      (* JOIN 0 is a special case. Client leaves all channels. *)
      if bool_decide (rest = []) && bool_decide (param0 = "0") then
        cl ← client s c;
        forEach (map_to_list (Client.Channels cl))
          (λ '(k, a) s,
             (* An entry removed before the range reaches it is not
                produced. *)
             cl ← client s c;
             match Client.Channels cl !! k with
             | None => Ok s
             | Some _ =>
                 ch ← channel s a; Client_partIn order c (Channel.Name ch) "" s
             end) s
      else
        let channelName := canonicalizeChannel param0 in
        if negb (isValidChannel channelName) then
          Server_messageClient c "403"
            [channelName; "Invalid channel name"] s
        else
          (* Is the client in the channel already? *)
          on ← Client_onChannel c channelName s;
          if (on : bool) then
            Server_messageClient c "ERROR" ["You are on that channel"] s
          else
            (* Look up / create the channel *)
            let '(a, s) :=
              match Server.Channels s !! channelName with
              | Some a => (a, s)
              | None =>
                  let a := fresh (dom (Server.channelAt s)) in
                  let s := Server.setChannelAt
                             (<[a := Channel.mk channelName ∅]>
                                (Server.channelAt s)) s in
                  (a, Server.setChannels
                        (<[channelName := a]> (Server.Channels s)) s)
              end in
            (* Add the client to the channel. *)
            let s := updChannel
                       (λ ch, Channel.setMembers
                                ({[c]} ∪ Channel.Members ch) ch) a s in
            let s := updClient
                       (λ cl, Client.setChannels
                                (<[channelName := a]> (Client.Channels cl))
                                cl) c s in
            ch ← channel s a;
            (* JOIN comes from the client, to the client. *)
            s ← Client_messageClient c c "JOIN" [Channel.Name ch] s;
            (* RPL_NAMREPLY: This tells the client about who is in the
               channel (including itself). *)
            s ← forEach (order 0%nat (Channel.Members ch))
                  (λ member s,
                     mcl ← client s member;
                     Server_messageClient c "353"
                       ["="; Channel.Name ch; ":" +:+ Client.Nick mcl] s) s;
            (* 366 RPL_ENDOFNAMES *)
            s ← Server_messageClient c "366"
                  [Channel.Name ch; "End of NAMES list"] s;
            (* Tell each member in the channel about the client. *)
            forEach (order 1%nat (Channel.Members ch))
              (λ member s,
                 (* Don't tell the client. We already did (above). *)
                 if bool_decide (member = c) then Ok s
                 else Client_messageClient c member "JOIN"
                        [Channel.Name ch] s) s
  end.

(** handleMessage takes action based on a client's IRC message. *)
Definition handleMessageIn (order : RangeOrder) (now : Z) (c : N)
    (m : Message) (s : Server.t) : Result Server.t :=
  (* Record that client said something to us just now. *)
  let s := updClient (Client.setLastActivityTime now) c s in
  (* Clients SHOULD NOT (section 2.3) send a prefix. *)
  if bool_decide (Prefix m ≠ "") then
    Server_messageClient c "ERROR" ["Do not send a prefix"] s
  else if bool_decide (Command m = "CAP") then Ok s
  else if bool_decide (Command m = "NICK") then nickCommand c m s
  else if bool_decide (Command m = "USER") then userCommand c m s
  else
    cl ← client s c;
    (* Let's say *all* other commands require you to be registered. *)
    if negb (Client.Registered cl) then
      (* 451 ERR_NOTREGISTERED *)
      Server_messageClient c "451" ["You have not registered."] s
    else if bool_decide (Command m = "JOIN") then joinCommandIn order c m s
    else if bool_decide (Command m = "PART") then partCommandIn order c m s
    else if bool_decide (Command m = "PRIVMSG") then privmsgCommand c m s
    else if bool_decide (Command m = "LUSERS") then lusersCommand c s
    else if bool_decide (Command m = "MOTD") then motdCommand c s
    else if bool_decide (Command m = "QUIT") then quitCommand c m s
    else if bool_decide (Command m = "PONG") then Ok s
    else if bool_decide (Command m = "PING") then pingCommand c m s
    else if bool_decide (Command m = "DIE") then dieCommand c m s
    else if bool_decide (Command m = "WHOIS") then whoisCommand now c m s
    else if bool_decide (Command m = "OPER") then operCommand c m s
    else if bool_decide (Command m = "MODE") then modeCommand c m s
    else if bool_decide (Command m = "WHO") then whoCommand c m s
    else
      (* Unknown command. We don't handle it yet anyway. *)
      Server_messageClient c "421" [Command m; "Unknown command"] s.

(** What JOIN sends when the client whose object is [cl] joins the channel
    [n] and the channel then has the given members: JOIN to the joiner, a
    353 per member in the order of the first loop, 366, then JOIN to every
    other member in the order of the second loop. *)
Definition joinRepliesIn (order : RangeOrder) (s : Server.t) (c : N)
    (cl : Client.t) (n : string) (members : gset N) : list (N * Message) :=
  [(c, clientMessage cl "JOIN" [n])]
  ++ ((λ r, (c, serverMessage s cl "353" ["="; n; ":" +:+ nickOf s r]))
        <$> order 0%nat members)
  ++ [(c, serverMessage s cl "366" [n; "End of NAMES list"])]
  ++ ((λ r, (r, clientMessage cl "JOIN" [n]))
        <$> filter (λ r, r ≠ c) (order 1%nat members)).

(** What PART sends: PART, with the message if there is one, to every
    member of the channel in the order of the loop. *)
Definition partRepliesIn (order : RangeOrder) (cl : Client.t)
    (n message : string) (members : gset N) : list (N * Message) :=
  (λ r, (r, clientMessage cl "PART"
              (if 0 <? len message then [n] ++ [message] else [n])))
    <$> order 0%nat members.

(** ** More of the example

    Stand-ins for time.ParseDuration and irc.LoadConfig: a duration is a
    number of seconds written in decimal and followed by [s], and there is
    one operator file. *)

Fixpoint parseSeconds_loop (s : string) (acc : Z) (seen : bool)
  : string + Z :=
  match s with
  | EmptyString => inl "missing unit in duration"
  | String a rest =>
      if isDigit09 a
      then parseSeconds_loop rest (10 * acc + (byte_of a - 48)) true
      else if bool_decide (a = "s"%char) && seen
              && bool_decide (rest = EmptyString)
           then inr (acc * second)
           else inl "invalid duration"
  end.

Definition parseSeconds (s : string) : string + Z :=
  parseSeconds_loop s 0 false.

Definition loadOpers (name : string) : string + gmap string string :=
  if bool_decide (name = "opers.conf") then inr {[ "root" := "secret" ]}
  else inl "no such file".

Definition startConfig : gmap string string :=
  {[ "listen-host" := "127.0.0.1"; "listen-port" := "6667";
     "server-name" := "irc.example"; "server-info" := "An example";
     "version" := "1.0"; "created-date" := "today"; "motd" := "Welcome";
     "wakeup-time" := "10s"; "ping-time" := "30s"; "dead-time" := "240s";
     "opers-config" := "opers.conf" ]}.

(** Two clients connect, register and meet on a channel; one changes its
    nick, the alarm ticks, the other leaves the channel, and the connection
    of the first fails. *)
Definition exampleInputs : list (Z * Input) :=
  [ (0, Connection "10.0.0.1");
    (1 * second, Line 0 (mkMessage "" "NICK" ["alice"]));
    (2 * second, Line 0 (mkMessage "" "USER" ["alice"; "0"; "*"; "Alice"]));
    (3 * second, Line 0 (mkMessage "" "JOIN" ["#lobby"]));
    (4 * second, Connection "10.0.0.2");
    (5 * second, Line 1 (mkMessage "" "NICK" ["bob"]));
    (6 * second, Line 1 (mkMessage "" "USER" ["bob"; "0"; "*"; "Bob"]));
    (7 * second, Line 1 (mkMessage "" "JOIN" ["#lobby"]));
    (8 * second, Line 0 (mkMessage "" "NICK" ["alicia"]));
    (60 * second, Tick);
    (61 * second, Line 1 (mkMessage "" "PART" ["#lobby"; "bye"]));
    (62 * second, Failure 0) ].

(** The example server with an operator table. *)
Definition staffed : Server.t :=
  Server.mk (Server.Config lobby) (Server.Clients lobby) (Server.Nicks lobby)
    (Server.Channels lobby) false (Server.PingTime lobby)
    (Server.DeadTime lobby) {[ "root" := "secret" ]} (Server.clientAt lobby)
    (Server.channelAt lobby) [].

(** The order of [elements] taken backwards, for every loop. *)
Definition backwards : RangeOrder := λ _ X, reverse (elements X).

(** ** Sends *)

Lemma client_Some s c cl :
  Server.clientAt s !! c = Some cl → client s c = Ok cl.
Proof. intros H. unfold client. by rewrite H. Qed.

Lemma channel_Some s a ch :
  Server.channelAt s !! a = Some ch → channel s a = Ok ch.
Proof. intros H. unfold channel. by rewrite H. Qed.

Lemma chanSend_Ok s to cl msg :
  Server.clientAt s !! to = Some cl → Client.WriteChanClosed cl = false →
  chanSend to msg s = Ok (afterSends [(to, msg)] s).
Proof.
  intros H Hopen. unfold chanSend. rewrite (client_Some _ _ _ H). simpl.
  by rewrite Hopen.
Qed.

Lemma Server_messageClient_Ok s c cl command params :
  Server.clientAt s !! c = Some cl → Client.WriteChanClosed cl = false →
  Server_messageClient c command params s
  = Ok (afterSends [(c, serverMessage s cl command params)] s).
Proof.
  intros H Hopen. unfold Server_messageClient.
  rewrite (client_Some _ _ _ H). simpl.
  by rewrite (chanSend_Ok _ _ _ _ H Hopen).
Qed.

Lemma Client_messageClient_Ok s c cl to tcl command params :
  Server.clientAt s !! c = Some cl →
  Server.clientAt s !! to = Some tcl → Client.WriteChanClosed tcl = false →
  Client_messageClient c to command params s
  = Ok (afterSends [(to, clientMessage cl command params)] s).
Proof.
  intros H Hto Hopen. unfold Client_messageClient, Client_nickUhost.
  rewrite (client_Some _ _ _ H). simpl.
  by rewrite (chanSend_Ok _ _ _ _ Hto Hopen).
Qed.

Lemma afterSends_app l1 l2 s :
  afterSends l2 (afterSends l1 s) = afterSends (l1 ++ l2) s.
Proof. unfold afterSends. simpl. by rewrite app_assoc. Qed.

Lemma afterSends_nil s : afterSends [] s = s.
Proof. unfold afterSends. rewrite app_nil_r. by destruct s. Qed.

Lemma lookup_updClient s f c :
  Server.clientAt (updClient f c s) !! c = f <$> Server.clientAt s !! c.
Proof. unfold updClient. simpl. by rewrite lookup_alter_eq. Qed.

Lemma lookup_updClient_ne s f c k :
  c ≠ k → Server.clientAt (updClient f c s) !! k = Server.clientAt s !! k.
Proof. intros. unfold updClient. simpl. by rewrite lookup_alter_ne. Qed.

(** Rewrite the next dereference in the goal with what a hypothesis says of
    the store; the state in the goal may differ from the one in the
    hypothesis in fields the store does not look at. *)
Ltac use_client H :=
  match goal with
  | |- context [client ?s ?c] => rewrite (client_Some s c _ H)
  end; simpl.

Ltac use_channel H :=
  match goal with
  | |- context [channel ?s ?a] => rewrite (channel_Some s a _ H)
  end; simpl.

(** ** Loops *)

Lemma forEach_app {A S} (xs ys : list A) (body : A → S → Result S) s :
  forEach (xs ++ ys) body s = (s' ← forEach xs body s; forEach ys body s').
Proof.
  revert s. induction xs as [|x xs IH]; intros s; simpl; [done|].
  destruct (body x s) as [s1|p]; simpl; [apply IH | done].
Qed.

Lemma filter_agree {A} (P Q : A → Prop) `{!∀ x, Decision (P x)}
    `{!∀ x, Decision (Q x)} (l : list A) :
  (∀ x, x ∈ l → P x ↔ Q x) → filter P l = filter Q l.
Proof. tidy.
  induction l as [|x l IH]; intros Hl; [done|].
  rewrite !filter_cons. rewrite IH by (intros; apply Hl; set_solver).
  assert (Hx : P x ↔ Q x) by (apply Hl; set_solver).
  destruct (decide (P x)), (decide (Q x)); tauto.
Qed.

(** A loop whose body only sends. *)
Lemma forEach_sends {A} (xs : list A) body (g : A → list (N * Message)) s0 l0 :
  (∀ x l, x ∈ xs →
     body x (afterSends l s0) = Ok (afterSends (l ++ g x) s0)) →
  forEach xs body (afterSends l0 s0)
  = Ok (afterSends (l0 ++ List.concat (g <$> xs)) s0).
Proof. tidy.
  revert l0. induction xs as [|x xs IH]; intros l0 Hbody; simpl.
  - by rewrite app_nil_r.
  - rewrite Hbody by set_solver. simpl. rewrite IH.
    + by rewrite app_assoc.
    + intros y l Hy. apply Hbody. set_solver.
Qed.

(** A loop whose body keeps a property of the state. *)
Lemma forEach_keeps {A S} (P : S → Prop) (xs : list A) body s :
  (∀ x s, x ∈ xs → P s → ∃ s', body x s = Ok s' ∧ P s') →
  P s → ∃ s', forEach xs body s = Ok s' ∧ P s'.
Proof. tidy.
  revert s. induction xs as [|x xs IH]; intros s Hbody HP; simpl.
  - by exists s.
  - destruct (Hbody x s) as (s1 & -> & HP1); [set_solver | done |]. simpl.
    apply IH; [|done]. intros y s2 Hy. apply Hbody. set_solver.
Qed.

Lemma writable_afterSends s l c : writable (afterSends l s) c ↔ writable s c.
Proof. done. Qed.

(** ** Telling every peer once *)

Lemma tellList_told sets told :
  list_to_set (tellList sets told) ∪ told = ⋃ sets ∪ told.
Proof. tidy.
  revert told. induction sets as [|M sets IH]; intros told; simpl.
  - set_solver.
  - rewrite list_to_set_app_L.
    specialize (IH (M ∪ told)).
    apply set_eq. intros r.
    assert (E := proj1 (set_eq _ _) IH r). clear IH.
    rewrite !elem_of_union in E. rewrite !elem_of_union.
    rewrite elem_of_list_to_set, list_elem_of_filter, elem_of_elements.
    destruct (decide (r ∈ told)); naive_solver.
Qed.

Lemma elem_of_tellList sets told r :
  r ∈ tellList sets told ↔ r ∉ told ∧ ∃ M, M ∈ sets ∧ r ∈ M.
Proof. tidy.
  revert told. induction sets as [|M sets IH]; intros told; simpl.
  - split; [by intros ?%elem_of_nil | intros (_ & ? & ?%elem_of_nil & _); done].
  - rewrite elem_of_app, list_elem_of_filter, elem_of_elements, IH.
    split.
    + intros [[??]|[Hn (M' & ? & ?)]].
      * split; [done|]. exists M. split; [left|done].
      * split; [set_solver|]. exists M'. split; [by right|done].
    + intros (Hn & M' & [->|HM']%elem_of_cons & Hr).
      * by left.
      * destruct (decide (r ∈ M)); [by left|].
        right. split; [set_solver|]. by exists M'.
Qed.

Lemma NoDup_tellList sets told : NoDup (tellList sets told).
Proof. tidy.
  revert told. induction sets as [|M sets IH]; intros told; simpl.
  - constructor.
  - apply NoDup_app. split; [|split; [|apply IH]].
    + apply NoDup_filter, NoDup_elements.
    + intros r [_ Hr%elem_of_elements]%list_elem_of_filter
             [Hn _]%elem_of_tellList.
      set_solver.
Qed.

Lemma tellOnce_loop c cl command params l s told :
  Server.clientAt s !! c = Some cl →
  NoDup l → (∀ r, r ∈ l → writable s r) →
  forEach l (tellOnce c command params) (s, told)
  = Ok (afterSends
          ((λ r, (r, clientMessage cl command params))
             <$> filter (λ r, r ∉ told) l) s,
        list_to_set l ∪ told).
Proof. tidy.
  intros Hc. revert s told Hc.
  induction l as [|r l IH]; intros s told Hc Hnd Hw; simpl.
  - rewrite afterSends_nil. f_equal. f_equal. set_solver.
  - apply NoDup_cons in Hnd as [Hr Hnd].
    rewrite filter_cons. case_bool_decide as Htold; simpl.
    + rewrite decide_False by (intros E; by apply E).
      rewrite IH; [|done..|intros; apply Hw; set_solver].
      f_equal. f_equal. set_solver.
    + rewrite decide_True by done.
      destruct (Hw r) as (rcl & Hrcl & Hopen); [set_solver|].
      rewrite (Client_messageClient_Ok _ _ _ _ _ _ _ Hc Hrcl Hopen). simpl.
      rewrite IH; [|done..|intros; apply Hw; set_solver].
      rewrite afterSends_app. simpl.
      f_equal. f_equal; [|set_solver].
      f_equal. f_equal. f_equal.
      apply filter_agree. intros x Hx. set_solver.
Qed.

(** The outer loop of the NICK broadcast, over any list of channel
    entries whose objects exist and whose members can be written to. *)
Lemma nick_loop c cl nick (chs : list (string * addr)) s told :
  Server.clientAt s !! c = Some cl →
  (∀ na, na ∈ chs →
     ∃ ch, Server.channelAt s !! na.2 = Some ch
           ∧ ∀ r, r ∈ Channel.Members ch → writable s r) →
  let sets := membersAt s <$> chs in
  forEach chs
    (λ '(_, a) '(s, informedClients),
       ch ← channel s a;
       forEach (elements (Channel.Members ch))
         (tellOnce c "NICK" [nick]) (s, informedClients))
    (s, told)
  = Ok (afterSends ((λ r, (r, clientMessage cl "NICK" [nick]))
                      <$> tellList sets told) s,
        list_to_set (tellList sets told) ∪ told).
Proof. tidy.
  intros Hc. revert s told Hc.
  induction chs as [|[n a] chs IH]; intros s told Hc Hchs; simpl.
  - rewrite afterSends_nil. f_equal. f_equal. set_solver.
  - destruct (Hchs (n, a)) as (ch & Hch & Hw); [set_solver|]. simpl in Hch.
    rewrite (channel_Some _ _ _ Hch). simpl.
    rewrite (tellOnce_loop _ cl); [|done|apply NoDup_elements|].
    2:{ intros r Hr%elem_of_elements. by apply Hw. }
    simpl. rewrite IH; [|done|].
    2:{ intros na Hna. apply Hchs. set_solver. }
    simpl. unfold membersAt. simpl. rewrite afterSends_app, Hch. simpl.
    rewrite list_to_set_elements_L, fmap_app, list_to_set_app_L.
    f_equal. f_equal.
    apply set_eq. intros r. rewrite !elem_of_union, !elem_of_list_to_set.
    rewrite list_elem_of_filter, elem_of_elements.
    destruct (decide (r ∈ told)); tauto.
Qed.

Lemma elem_of_memberSets s cl r :
  (∃ M, M ∈ memberSets s cl ∧ r ∈ M) ↔ peer s cl r.
Proof. tidy.
  unfold memberSets, peer, membersAt. split.
  - intros (M & ([n a] & -> & Hna%elem_of_map_to_list)%list_elem_of_fmap & Hr).
    simpl in Hr. destruct (Server.channelAt s !! a) as [ch|] eqn:Hch;
      simpl in Hr; [|set_solver].
    by exists n, a, ch.
  - intros (n & a & ch & Hna & Hch & Hr).
    exists (Channel.Members ch). split; [|done].
    apply list_elem_of_fmap. exists (n, a). simpl. rewrite Hch.
    split; [done|]. by apply elem_of_map_to_list.
Qed.

Lemma NoDup_audience s c cl : NoDup (audience s c cl).
Proof.
  unfold audience. case_bool_decide as Hc; [apply NoDup_tellList|].
  apply NoDup_app. split; [apply NoDup_tellList|]. split.
  - intros r Hr ->%list_elem_of_singleton. done.
  - apply NoDup_singleton.
Qed.

Lemma elem_of_audience s c cl r :
  r ∈ audience s c cl ↔ r = c ∨ peer s cl r.
Proof. tidy.
  rewrite <- elem_of_memberSets. unfold audience.
  case_bool_decide as Hc.
  - rewrite elem_of_tellList. split.
    + intros [_ ?]. by right.
    + intros [->|?]; [by apply elem_of_tellList in Hc|].
      split; [set_solver|done].
  - rewrite elem_of_app, elem_of_tellList, list_elem_of_singleton. split.
    + intros [[_ ?]|?]; [by right|by left].
    + intros [?|?]; [by right|]. left. split; [set_solver|done].
Qed.

Lemma audience_alone s c cl : Client.Channels cl = ∅ → audience s c cl = [c].
Proof.
  intros E. unfold audience, memberSets. by rewrite E, map_to_list_empty.
Qed.

(** The members of the channels of an indexed client can be written to. *)
Lemma Inv_peers_writable s c cl :
  Inv s → c ∈ Server.Clients s → Server.clientAt s !! c = Some cl →
  ∀ na, na ∈ map_to_list (Client.Channels cl) →
    ∃ ch, Server.channelAt s !! na.2 = Some ch
          ∧ ∀ r, r ∈ Channel.Members ch → writable s r.
Proof.
  intros HI Hin Hc [n a] Hna%elem_of_map_to_list. simpl.
  destruct (inv_joined _ HI _ _ _ _ Hin Hc Hna) as (_ & Hidx & ch & Hch & _).
  exists ch. split; [done|]. intros r Hr.
  apply (inv_clients _ HI).
  by destruct (inv_members _ HI _ _ _ _ Hidx Hch Hr).
Qed.

(** ** States of the same shape *)

Lemma nicksOk_ext s s' :
  Server.Clients s ⊆ Server.Clients s' →
  Server.Nicks s' = Server.Nicks s →
  (∀ k cl, Server.clientAt s !! k = Some cl →
     ∃ cl', Server.clientAt s' !! k = Some cl'
            ∧ Client.Nick cl' = Client.Nick cl) →
  nicksOk s → nicksOk s'.
Proof.
  intros HC HN Hcl H nk t Hnk. rewrite HN in Hnk.
  destruct (H nk t Hnk) as (Hin & tcl & Htcl & Hvalid & ->).
  split; [by apply HC|]. destruct (Hcl t tcl Htcl) as (cl' & Hcl' & E).
  exists cl'. by rewrite E.
Qed.

Lemma clientShape_refl cl : clientShape cl cl.
Proof. by repeat split. Qed.

Lemma clientShape_trans cl1 cl2 cl3 :
  clientShape cl1 cl2 → clientShape cl2 cl3 → clientShape cl1 cl3.
Proof.
  intros (E1 & E2 & E3 & E4) (F1 & F2 & F3 & F4).
  repeat split; [congruence..|auto].
Qed.

Lemma shape_refl s : shape s s.
Proof.
  repeat split. intros k. destruct (Server.clientAt s !! k); constructor.
  apply clientShape_refl.
Qed.

Lemma shape_trans s1 s2 s3 : shape s1 s2 → shape s2 s3 → shape s1 s3.
Proof.
  intros (E1 & E2 & E3 & E4 & E6 & E5) (F1 & F2 & F3 & F4 & F6 & F5).
  repeat split; [congruence..|].
  intros k. specialize (E5 k). specialize (F5 k).
  destruct E5 as [cl1 cl2 H12|]; inversion F5; subst; constructor.
  by apply (clientShape_trans _ cl2).
Qed.

Lemma shape_afterSends s l : shape s (afterSends l s).
Proof. exact (shape_refl s). Qed.

Lemma shape_updClient s f c :
  (∀ cl, clientShape cl (f cl)) → shape s (updClient f c s).
Proof.
  intros Hf. repeat split. intros k. simpl.
  destruct (decide (c = k)) as [->|Hne].
  - rewrite lookup_alter_eq.
    destruct (Server.clientAt s !! k); constructor. apply Hf.
  - rewrite lookup_alter_ne by done.
    destruct (Server.clientAt s !! k); constructor. apply clientShape_refl.
Qed.

Lemma shape_client s s' k cl' :
  shape s s' → Server.clientAt s' !! k = Some cl' →
  ∃ cl, Server.clientAt s !! k = Some cl ∧ clientShape cl cl'.
Proof.
  intros (_ & _ & _ & _ & _ & H) Hk. specialize (H k). rewrite Hk in H.
  inversion H; subst. eauto.
Qed.

Lemma shape_client_fwd s s' k cl :
  shape s s' → Server.clientAt s !! k = Some cl →
  ∃ cl', Server.clientAt s' !! k = Some cl' ∧ clientShape cl cl'.
Proof.
  intros (_ & _ & _ & _ & _ & H) Hk. specialize (H k). rewrite Hk in H.
  inversion H; subst. eauto.
Qed.

Lemma shape_writable s s' k : shape s s' → writable s k → writable s' k.
Proof.
  intros Hs (cl & Hk & Hopen).
  destruct (shape_client_fwd _ _ _ _ Hs Hk) as (cl' & Hk' & E & _).
  exists cl'. split; [done|congruence].
Qed.

Lemma Inv_shape s s' : Inv s → shape s s' → Inv s'.
Proof.
  intros HI Hs. pose proof Hs as (EC & EX & EA & _ & EN & _). split.
  - intros k Hk. rewrite EC in Hk.
    by apply (shape_writable s), (inv_clients _ HI).
  - intros n a Hna. rewrite EX in Hna. rewrite EA.
    by apply (inv_index _ HI).
  - intros n a ch k Hna Hch Hk. rewrite EX in Hna. rewrite EA in Hch.
    destruct (inv_members _ HI _ _ _ _ Hna Hch Hk) as (Hin & cl & Hcl & Hn).
    rewrite EC. split; [done|].
    destruct (shape_client_fwd _ _ _ _ Hs Hcl) as (cl' & Hcl' & _ & E & _).
    exists cl'. split; [done|]. by rewrite E.
  - intros k cl' n a Hin Hcl' Hn. rewrite EC in Hin.
    destruct (shape_client _ _ _ _ Hs Hcl') as (cl & Hcl & _ & E & _ & Hreg).
    rewrite E in Hn.
    destruct (inv_joined _ HI _ _ _ _ Hin Hcl Hn) as (R & Hidx & ch & Hch & Hk).
    rewrite EX, EA. split; [auto|]. split; [done|]. by exists ch.
  - apply (nicksOk_ext s); [by rewrite EC|done| |apply (inv_nicks _ HI)].
    intros k cl Hk.
    destruct (shape_client_fwd _ _ _ _ Hs Hk) as (cl' & Hk' & _ & _ & E & _).
    by exists cl'.
Qed.

(** ** Leaving and entering a channel keep the indices consistent *)

Lemma Inv_index_inj s n1 n2 a :
  Inv s → Server.Channels s !! n1 = Some a → Server.Channels s !! n2 = Some a →
  n1 = n2.
Proof. tidy.
  intros HI H1 H2.
  destruct (inv_index _ HI _ _ H1) as (ch1 & Hch1 & <- & _).
  destruct (inv_index _ HI _ _ H2) as (ch2 & Hch2 & <- & _).
  congruence.
Qed.

Lemma Inv_leave s c cl n a :
  Inv s → c ∈ Server.Clients s → Server.clientAt s !! c = Some cl →
  Client.Channels cl !! n = Some a → Inv (leave c n a s).
Proof. tidy.
  intros HI Hin Hc Hn.
  destruct (inv_joined _ HI _ _ _ _ Hin Hc Hn) as (Hreg & Hidx & ch & Hch & Hmem).
  destruct (inv_index _ HI _ _ Hidx) as (ch' & Hch' & Hname & Hvalid & _).
  rewrite Hch in Hch'. injection Hch' as <-.
  unfold leave, depart. simpl. rewrite lookup_alter_eq, Hch. simpl.
  rewrite Hname.
  set (M' := Channel.Members ch ∖ {[c]}).
  assert (Hcl : ∀ k, alter (λ cl, Client.setChannels (delete n (Client.Channels cl)) cl) c (Server.clientAt s) !! k
     = if decide (k = c) then Some (Client.setChannels (delete n (Client.Channels cl)) cl) else Server.clientAt s !! k).
  { intros k. case_decide as E. - subst. by rewrite lookup_alter_eq, Hc. - by rewrite lookup_alter_ne. }
  assert (Hcha : ∀ a', alter (λ ch, Channel.setMembers (Channel.Members ch ∖ {[c]}) ch) a (Server.channelAt s) !! a'
     = if decide (a' = a) then Some (Channel.setMembers M' ch) else Server.channelAt s !! a').
  { intros k. case_decide as E. - subst. by rewrite lookup_alter_eq, Hch. - by rewrite lookup_alter_ne. }
  case_bool_decide as Hempty; split; simpl.
  - intros k Hk. destruct (inv_clients _ HI _ Hk) as (kcl & Hkcl & Hopen).
    unfold writable. simpl. rewrite Hcl. case_decide; subst; eauto.
    rewrite Hc in Hkcl. injection Hkcl as <-. eauto.
  - intros n' a' [Hne Hn']%lookup_delete_Some. rewrite Hcha.
    rewrite decide_False. { by apply (inv_index _ HI). }
    intros ->. apply Hne. by apply (Inv_index_inj s _ _ a).
  - intros n' a' ch' k [Hne Hn']%lookup_delete_Some. rewrite Hcha.
    rewrite decide_False. 2:{ intros ->. apply Hne. by apply (Inv_index_inj s _ _ a). }
    intros Hch' Hk. destruct (inv_members _ HI _ _ _ _ Hn' Hch' Hk) as (Hkin & kcl & Hkcl & Hkn).
    split; [done|]. rewrite Hcl. case_decide; subst; [|eauto].
    rewrite Hc in Hkcl. injection Hkcl as <-. eexists; split; [done|]. simpl.
    rewrite lookup_delete_ne; done.
  - intros k kcl n' a' Hk. rewrite Hcl. case_decide as E.
    + subst k. intros [= <-]. simpl. intros [Hne Hn']%lookup_delete_Some.
      destruct (inv_joined _ HI _ _ _ _ Hin Hc Hn') as (R & Hidx' & ch' & Hch' & Hmem').
      split; [done|]. split. { by rewrite lookup_delete_ne. }
      rewrite Hcha. rewrite decide_False. { eauto. }
      intros ->. apply Hne. by apply (Inv_index_inj s _ _ a).
    + intros Hkcl Hn'.
      destruct (inv_joined _ HI _ _ _ _ Hk Hkcl Hn') as (R & Hidx' & ch' & Hch' & Hmem').
      assert (n ≠ n').
      { intros <-. rewrite Hidx in Hidx'. injection Hidx' as <-.
        rewrite Hch in Hch'. injection Hch' as <-.
        apply size_empty_inv in Hempty. unfold_leibniz.
        assert (k ∈ M') by set_solver. set_solver. }
      split; [done|]. split. { by rewrite lookup_delete_ne. }
      rewrite Hcha. rewrite decide_False. { eauto. }
      intros ->. by apply H, (Inv_index_inj s _ _ a).
  - apply (nicksOk_ext s); [done|done| |apply (inv_nicks _ HI)].
    intros k kcl Hkcl. simpl. rewrite Hcl. case_decide; subst; [|eauto].
    rewrite Hc in Hkcl. injection Hkcl as <-. eauto.
  - intros k Hk. destruct (inv_clients _ HI _ Hk) as (kcl & Hkcl & Hopen).
    unfold writable. simpl. rewrite Hcl. case_decide; subst; eauto.
    rewrite Hc in Hkcl. injection Hkcl as <-. eauto.
  - intros n' a' Hn'. rewrite Hcha. case_decide as E.
    + subst a'. assert (n' = n) as -> by (by apply (Inv_index_inj s _ _ a)).
      eexists. split; [done|]. simpl. repeat split; try done.
      intros E. apply Hempty. fold M' in E. rewrite E. done.
    + by apply (inv_index _ HI).
  - intros n' a' ch' k Hn'. rewrite Hcha. case_decide as E.
    + subst a'. assert (n' = n) as -> by (by apply (Inv_index_inj s _ _ a)).
      intros [= <-]. simpl. intros Hk.
      assert (k ≠ c ∧ k ∈ Channel.Members ch) as [Hkc Hk'] by set_solver.
      destruct (inv_members _ HI _ _ _ _ Hidx Hch Hk') as (Hkin & kcl & Hkcl & Hkn).
      split; [done|]. rewrite Hcl. rewrite decide_False by done. eauto.
    + intros Hch' Hk.
      destruct (inv_members _ HI _ _ _ _ Hn' Hch' Hk) as (Hkin & kcl & Hkcl & Hkn).
      split; [done|]. rewrite Hcl. case_decide; subst; [|eauto].
      rewrite Hc in Hkcl. injection Hkcl as <-. eexists; split; [done|]. simpl.
      rewrite lookup_delete_ne; [done|]. intros <-. apply E. congruence.
  - intros k kcl n' a' Hk. rewrite Hcl. case_decide as E.
    + subst k. intros [= <-]. simpl. intros [Hne Hn']%lookup_delete_Some.
      destruct (inv_joined _ HI _ _ _ _ Hin Hc Hn') as (R & Hidx' & ch' & Hch' & Hmem').
      split; [done|]. split; [done|].
      rewrite Hcha. rewrite decide_False. { eauto. }
      intros ->. apply Hne. by apply (Inv_index_inj s _ _ a).
    + intros Hkcl Hn'.
      destruct (inv_joined _ HI _ _ _ _ Hk Hkcl Hn') as (R & Hidx' & ch' & Hch' & Hmem').
      split; [done|]. split; [done|].
      rewrite Hcha. case_decide as Ea; [|eauto].
      subst a'. rewrite Hch in Hch'. injection Hch' as <-.
      eexists. split; [done|]. simpl. set_solver.
  - apply (nicksOk_ext s); [done|done| |apply (inv_nicks _ HI)].
    intros k kcl Hkcl. simpl. rewrite Hcl. case_decide; subst; [|eauto].
    rewrite Hc in Hkcl. injection Hkcl as <-. eauto.
Qed.

(** What [enter] yields, whether the channel was there or not. *)
Lemma enter_facts s c cl n :
  Inv s → c ∈ Server.Clients s → Server.clientAt s !! c = Some cl →
  Client.Channels cl !! n = None →
  ∃ a M0,
    (enter c n s
     = (a, Server.setClientAt
             (<[c := Client.setChannels (<[n := a]> (Client.Channels cl)) cl]>
                (Server.clientAt s))
             (Server.setChannelAt
                (<[a := Channel.mk n ({[c]} ∪ M0)]> (Server.channelAt s))
                (Server.setChannels (<[n := a]> (Server.Channels s)) s))))
    ∧ M0 = default ∅ (Channel.Members <$> channelNamed s n)
    ∧ (Server.Channels s !! n = None → a = fresh (dom (Server.channelAt s)))
    ∧ (∀ a', Server.Channels s !! n = Some a' → a' = a)
    ∧ (c ∉ M0)
    ∧ (∀ n', n' ≠ n → Server.Channels s !! n' ≠ Some a)
    ∧ (∀ k, k ∈ M0 →
         k ∈ Server.Clients s
         ∧ ∃ kcl, Server.clientAt s !! k = Some kcl
                  ∧ Client.Channels kcl !! n = Some a)
    ∧ (∀ k kcl a', k ∈ Server.Clients s → Server.clientAt s !! k = Some kcl →
         Client.Channels kcl !! n = Some a' → a' = a ∧ k ∈ M0).
Proof. tidy.
  intros HI Hin Hc Hn. unfold enter, channelNamed.
  destruct (Server.Channels s !! n) as [a|] eqn:Hidx; simpl.
  - destruct (inv_index _ HI _ _ Hidx) as (ch & Hch & Hname & Hvalid & Hne).
    rewrite Hch. simpl.
    exists a, (Channel.Members ch). split; [|split; [done|]].
    { f_equal. unfold updClient, updChannel, Server.setClientAt,
        Server.setChannelAt, Server.setChannels. simpl. f_equal.
      - by rewrite insert_id.
      - apply map_eq. intros k. destruct (decide (k = c)) as [->|].
        + by rewrite lookup_alter_eq, lookup_insert_eq, Hc.
        + by rewrite lookup_alter_ne, lookup_insert_ne.
      - apply map_eq. intros k. destruct (decide (k = a)) as [->|].
        + rewrite lookup_alter_eq, lookup_insert_eq, Hch. simpl.
          unfold Channel.setMembers. by rewrite Hname.
        + by rewrite lookup_alter_ne, lookup_insert_ne. }
    split; [done|]. split; [congruence|]. split.
    { intros Hmem.
      destruct (inv_members _ HI _ _ _ _ Hidx Hch Hmem) as (_ & cl' & Hc' & Hn').
      congruence. }
    split.
    { intros n' Hne' Hn'. apply Hne'. by apply (Inv_index_inj s _ _ a). }
    split.
    { intros k Hk. by apply (inv_members _ HI _ _ _ _ Hidx Hch Hk). }
    intros k kcl a' Hk Hkcl Hn'.
    destruct (inv_joined _ HI _ _ _ _ Hk Hkcl Hn') as (_ & Hidx' & ch' & Hch' & ?).
    assert (a' = a) as -> by congruence. split; [done|]. congruence.
  - set (a := fresh (dom (Server.channelAt s))).
    assert (Hfresh : Server.channelAt s !! a = None).
    { apply not_elem_of_dom. apply is_fresh. }
    exists a, ∅. split; [|split; [done|]].
    { f_equal. unfold updClient, updChannel, Server.setClientAt,
        Server.setChannelAt, Server.setChannels. simpl. f_equal.
      - apply map_eq. intros k. destruct (decide (k = c)) as [->|].
        + by rewrite lookup_alter_eq, lookup_insert_eq, Hc.
        + by rewrite lookup_alter_ne, lookup_insert_ne.
      - apply map_eq. intros k. destruct (decide (k = a)) as [->|].
        + by rewrite lookup_alter_eq, !lookup_insert_eq.
        + by rewrite lookup_alter_ne, !lookup_insert_ne. }
    split; [done|]. split; [done|]. split; [set_solver|]. split.
    { intros n' _ Hn'.
      destruct (inv_index _ HI _ _ Hn') as (ch & Hch & _). congruence. }
    split; [set_solver|].
    intros k kcl a' Hk Hkcl Hn'.
    destruct (inv_joined _ HI _ _ _ _ Hk Hkcl Hn') as (_ & Hidx' & _).
    congruence.
Qed.

Lemma Inv_enter s c cl n :
  Inv s → c ∈ Server.Clients s → Server.clientAt s !! c = Some cl →
  Client.Registered cl = true → Client.Channels cl !! n = None →
  isValidChannel n = true → Inv (enter c n s).2.
Proof. tidy.
  intros HI Hin Hc Hreg Hn Hvalid.
  destruct (enter_facts s c cl n HI Hin Hc Hn)
    as (a & M0 & -> & _ & _ & _ & HcM & Hfree & HM & Hjoined).
  simpl. split; simpl.
  - intros k Hk. destruct (inv_clients _ HI _ Hk) as (kcl & Hkcl & Hopen).
    unfold writable. simpl. destruct (decide (k = c)) as [->|].
    + rewrite lookup_insert_eq. rewrite Hc in Hkcl. injection Hkcl as <-. eauto.
    + rewrite lookup_insert_ne by done. eauto.
  - intros n' a'. destruct (decide (n' = n)) as [->|Hne].
    + rewrite lookup_insert_eq. intros [= <-]. rewrite lookup_insert_eq.
      eexists. split; [done|]. simpl. repeat split; [done|]. set_solver.
    + rewrite lookup_insert_ne by done. intros Hn'.
      rewrite lookup_insert_ne by (intros ->; by apply (Hfree n')).
      by apply (inv_index _ HI).
  - intros n' a' ch' k. destruct (decide (n' = n)) as [->|Hne].
    + rewrite lookup_insert_eq. intros [= <-]. rewrite lookup_insert_eq.
      intros [= <-]. simpl. intros [->%elem_of_singleton|Hk]%elem_of_union.
      * split; [done|]. rewrite lookup_insert_eq. eexists. split; [done|].
        simpl. by rewrite lookup_insert_eq.
      * destruct (HM k Hk) as (Hkin & kcl & Hkcl & Hkn). split; [done|].
        rewrite lookup_insert_ne by (intros ->; done). eauto.
    + rewrite lookup_insert_ne by done. intros Hn'.
      rewrite lookup_insert_ne by (intros ->; by apply (Hfree n')).
      intros Hch' Hk.
      destruct (inv_members _ HI _ _ _ _ Hn' Hch' Hk) as (Hkin & kcl & Hkcl & Hkn).
      split; [done|]. destruct (decide (k = c)) as [->|].
      * rewrite lookup_insert_eq. eexists. split; [done|]. simpl.
        rewrite lookup_insert_ne by done. congruence.
      * rewrite lookup_insert_ne by done. eauto.
  - intros k kcl n' a' Hk. destruct (decide (k = c)) as [->|Hkc].
    + rewrite lookup_insert_eq. intros [= <-]. simpl.
      destruct (decide (n' = n)) as [->|Hne].
      * rewrite lookup_insert_eq. intros [= <-]. split; [done|].
        rewrite !lookup_insert_eq. split; [done|]. eexists. split; [done|].
        simpl. set_solver.
      * rewrite lookup_insert_ne by done. intros Hn'.
        destruct (inv_joined _ HI _ _ _ _ Hin Hc Hn') as (R & Hidx & ch & Hch & Hmem).
        split; [done|]. rewrite lookup_insert_ne by done. split; [done|].
        rewrite lookup_insert_ne by (intros ->; by apply (Hfree n')). eauto.
    + rewrite lookup_insert_ne by done. intros Hkcl Hn'.
      destruct (inv_joined _ HI _ _ _ _ Hk Hkcl Hn') as (R & Hidx & ch & Hch & Hmem).
      split; [done|]. destruct (decide (n' = n)) as [->|Hne].
      * destruct (Hjoined _ _ _ Hk Hkcl Hn') as [-> HkM].
        rewrite !lookup_insert_eq. split; [done|]. eexists. split; [done|].
        simpl. set_solver.
      * rewrite lookup_insert_ne by done. split; [done|].
        rewrite lookup_insert_ne by (intros ->; by apply (Hfree n')). eauto.
  - apply (nicksOk_ext s); [done|done| |apply (inv_nicks _ HI)].
    intros k kcl Hkcl. simpl. destruct (decide (k = c)) as [->|].
    + rewrite lookup_insert_eq. rewrite Hc in Hkcl. injection Hkcl as <-.
      eauto.
    + rewrite lookup_insert_ne by done. eauto.
Qed.

(** ** The loop of quit *)

Lemma depart_afterSends c a l s :
  depart c a (afterSends l s) = afterSends l (depart c a s).
Proof. tidy.
  unfold depart. simpl.
  destruct (alter _ a (Server.channelAt s) !! a) as [ch|]; [|done].
  by case_bool_decide.
Qed.

Lemma departAll_afterSends c chs l s :
  departAll c chs (afterSends l s) = afterSends l (departAll c chs s).
Proof. tidy.
  revert s. induction chs as [|na chs IH]; intros s; [done|]. simpl.
  by rewrite depart_afterSends, IH.
Qed.

Lemma viewOf_depart c rem a s :
  viewOf c rem (depart c a s) = depart c a (viewOf c rem s).
Proof. tidy.
  unfold depart, viewOf. simpl.
  destruct (alter _ a (Server.channelAt s) !! a) as [ch|]; [|done].
  by case_bool_decide.
Qed.

Lemma leave_viewOf c n a rem s :
  n ∉ rem.*1 →
  leave c n a (viewOf c ((n, a) :: rem) s) = viewOf c rem (depart c a s).
Proof. tidy.
  intros Hn. rewrite viewOf_depart. unfold leave. f_equal.
  unfold viewOf, updClient, Server.setClientAt. simpl. f_equal.
  apply map_eq. intros k. destruct (decide (k = c)) as [->|].
  - rewrite !lookup_alter_eq. destruct (Server.clientAt s !! c); [|done].
    simpl. f_equal. unfold Client.setChannels. simpl. f_equal.
    rewrite delete_insert_eq. apply delete_id.
    by apply not_elem_of_list_to_map_1.
  - by rewrite !lookup_alter_ne.
Qed.

Lemma Inv_afterSends s l : Inv (afterSends l s) ↔ Inv s.
Proof. split; intros []; by split. Qed.

Lemma viewOf_client c rem s cl :
  Server.clientAt s !! c = Some cl →
  Server.clientAt (viewOf c rem s) !! c
  = Some (Client.setChannels (list_to_map rem) cl).
Proof. intros H. unfold viewOf. by rewrite lookup_updClient, H. Qed.

Lemma depart_frame c a s :
  Server.clientAt (depart c a s) = Server.clientAt s
  ∧ Server.Clients (depart c a s) = Server.Clients s
  ∧ Server.Nicks (depart c a s) = Server.Nicks s
  ∧ Server.Config (depart c a s) = Server.Config s
  ∧ Server.sent (depart c a s) = Server.sent s
  ∧ Server.ShutdownChanClosed (depart c a s) = Server.ShutdownChanClosed s
  ∧ (∀ a', a' ≠ a →
       Server.channelAt (depart c a s) !! a' = Server.channelAt s !! a').
Proof. tidy.
  unfold depart. simpl.
  destruct (alter _ a (Server.channelAt s) !! a) as [ch|] eqn:E;
    [case_bool_decide|]; simpl; repeat split; try done;
    intros a' Hne; by rewrite lookup_alter_ne.
Qed.

Lemma Client_quit_channel_Ok c cl msg a ch s told :
  Server.clientAt s !! c = Some cl →
  Server.channelAt s !! a = Some ch →
  (∀ r, r ∈ Channel.Members ch → writable s r) →
  Client_quit_channel c msg a (s, told)
  = Ok (depart c a
          (afterSends
             ((λ r, (r, clientMessage cl "QUIT" [msg]))
                <$> filter (λ r, r ∉ told) (elements (Channel.Members ch))) s),
        Channel.Members ch ∪ told).
Proof. tidy.
  intros Hc Hch Hw. unfold Client_quit_channel. use_channel Hch.
  rewrite (tellOnce_loop _ cl); [|done|apply NoDup_elements|].
  2:{ intros r Hr%elem_of_elements. by apply Hw. }
  simpl. rewrite list_to_set_elements_L.
  unfold depart, channel. simpl. rewrite lookup_alter_eq, Hch. simpl.
  by case_bool_decide.
Qed.

(** The loop of [quit] over the channels that are left. *)
Lemma quit_loop c cl msg (chs : list (string * addr)) s told :
  NoDup chs.*1 →
  c ∈ Server.Clients s →
  Server.clientAt s !! c = Some cl →
  Inv (viewOf c chs s) →
  forEach chs (λ na, Client_quit_channel c msg na.2) (s, told)
  = Ok (afterSends
          ((λ r, (r, clientMessage cl "QUIT" [msg]))
             <$> tellList (membersAt s <$> chs) told)
          (departAll c chs s),
        list_to_set (tellList (membersAt s <$> chs) told) ∪ told)
  ∧ Inv (viewOf c [] (departAll c chs s)).
Proof. tidy.
  revert s told. induction chs as [|[n a] chs IH]; intros s told Hnd Hin Hc HI.
  - simpl. split; [|done]. rewrite afterSends_nil. f_equal. f_equal. set_solver.
  - simpl in Hnd. apply NoDup_cons in Hnd as [Hn Hnd].
    pose proof (viewOf_client c ((n, a) :: chs) s cl Hc) as Hvc.
    assert (Hna : Client.Channels
                    (Client.setChannels (list_to_map ((n, a) :: chs)) cl) !! n
                  = Some a) by (simpl; by rewrite lookup_insert_eq).
    destruct (inv_joined _ HI _ _ _ _ Hin Hvc Hna) as (_ & Hidx & ch & Hch & Hmem).
    assert (Hch0 : Server.channelAt s !! a = Some ch) by exact Hch.
    assert (Hw : ∀ r, r ∈ Channel.Members ch → writable s r).
    { intros r Hr.
      destruct (inv_members _ HI _ _ _ _ Hidx Hch Hr) as (Hrin & _).
      destruct (inv_clients _ HI _ Hrin) as (rcl & Hrcl & Hopen).
      unfold viewOf in Hrcl. destruct (decide (r = c)) as [->|Hne].
      - rewrite lookup_updClient, Hc in Hrcl. injection Hrcl as <-.
        by exists cl.
      - rewrite lookup_updClient_ne in Hrcl by done. by exists rcl. }
    cbn [forEach snd].
    rewrite (Client_quit_channel_Ok c cl msg a ch s told Hc Hch0 Hw).
    cbn [mbind Result_bind].
    set (l1 := (λ r, (r, clientMessage cl "QUIT" [msg]))
                 <$> filter (λ r, r ∉ told) (elements (Channel.Members ch))).
    pose proof (depart_frame c a (afterSends l1 s))
      as (Fcl & FC & _ & _ & _ & _ & Fch).
    assert (HI1 : Inv (viewOf c chs (depart c a (afterSends l1 s)))).
    { rewrite <- (leave_viewOf c n a chs) by done.
      apply (Inv_leave _ c (Client.setChannels (list_to_map ((n, a) :: chs)) cl)
               n a); [|done|exact Hvc|exact Hna].
      destruct HI. by split. }
    destruct (IH (depart c a (afterSends l1 s)) (Channel.Members ch ∪ told))
      as [-> HI']; [exact Hnd|rewrite FC; exact Hin|rewrite Fcl; exact Hc
                   |exact HI1|].
    split.
    2:{ simpl. rewrite depart_afterSends, departAll_afterSends in HI'.
        destruct HI'. by split. }
    assert (Esets : membersAt (depart c a (afterSends l1 s)) <$> chs
                    = membersAt s <$> chs).
    { apply Forall_fmap_ext_1, Forall_forall. intros [n' a'] Hna'.
      unfold membersAt. simpl. rewrite Fch; [done|].
      intros ->.
      assert (Hn' : Client.Channels
                      (Client.setChannels (list_to_map ((n, a) :: chs)) cl) !! n'
                    = Some a).
      { simpl. rewrite lookup_insert_ne.
        - apply elem_of_list_to_map_1; [done|]. done.
        - intros <-. apply Hn. apply list_elem_of_fmap. by exists (n, a). }
      destruct (inv_joined _ HI _ _ _ _ Hin Hvc Hn') as (_ & Hidx' & _).
      apply Hn. replace n with n' by (by apply (Inv_index_inj _ _ _ a HI)).
      apply list_elem_of_fmap. by exists (n', a). }
    rewrite Esets.
    assert (Em : membersAt s (n, a) = Channel.Members ch).
    { unfold membersAt. simpl. by rewrite Hch0. }
    cbn [fmap list_fmap tellList departAll foldl snd]. rewrite Em.
    fold (departAll c chs (depart c a s)).
    rewrite depart_afterSends, departAll_afterSends, afterSends_app, fmap_app.
    f_equal. f_equal.
    rewrite list_to_set_app_L.
    apply set_eq. intros r. rewrite !elem_of_union, !elem_of_list_to_set.
    rewrite list_elem_of_filter, elem_of_elements.
    destruct (decide (r ∈ told)); tauto.
Qed.

Lemma departAll_frame c chs s :
  Server.clientAt (departAll c chs s) = Server.clientAt s
  ∧ Server.Clients (departAll c chs s) = Server.Clients s
  ∧ Server.Nicks (departAll c chs s) = Server.Nicks s
  ∧ Server.Config (departAll c chs s) = Server.Config s
  ∧ Server.sent (departAll c chs s) = Server.sent s
  ∧ Server.ShutdownChanClosed (departAll c chs s)
    = Server.ShutdownChanClosed s.
Proof. tidy.
  revert s. induction chs as [|[n a] chs IH]; intros s; [done|]. simpl.
  destruct (IH (depart c a s)) as (-> & -> & -> & -> & -> & ->).
  by destruct (depart_frame c a s) as (-> & -> & -> & -> & -> & -> & _).
Qed.

(** What [depart] does to a channel the client is indexed on. *)
Lemma depart_effect c a ch s :
  Server.channelAt s !! a = Some ch →
  Server.channelAt (depart c a s) !! a
  = Some (Channel.setMembers (Channel.Members ch ∖ {[c]}) ch)
  ∧ Server.Channels (depart c a s)
    = if decide (Channel.Members ch ∖ {[c]} = ∅)
      then delete (Channel.Name ch) (Server.Channels s)
      else Server.Channels s.
Proof.
  intros Hch. unfold depart. simpl. rewrite lookup_alter_eq, Hch. simpl.
  case_bool_decide as E.
  - apply size_empty_inv, leibniz_equiv in E.
    rewrite decide_True by done. simpl. by rewrite lookup_alter_eq, Hch.
  - rewrite decide_False.
    + simpl. by rewrite lookup_alter_eq, Hch.
    + intros E'. apply E. rewrite E'. apply size_empty.
Qed.

(** One step of the loop of [quit], on the indices. *)
Lemma depart_step c cl n a chs s :
  n ∉ chs.*1 → NoDup chs.*1 →
  c ∈ Server.Clients s → Server.clientAt s !! c = Some cl →
  Inv (viewOf c ((n, a) :: chs) s) →
  ∃ ch, Server.channelAt s !! a = Some ch
        ∧ Server.Channels s !! n = Some a
        ∧ Channel.Name ch = n
        ∧ c ∈ Channel.Members ch
        ∧ a ∉ chs.*2
        ∧ Inv (viewOf c chs (depart c a s)).
Proof.
  intros Hn Hnd Hin Hc HI.
  pose proof (viewOf_client c ((n, a) :: chs) s cl Hc) as Hvc.
  assert (Hna : Client.Channels
                  (Client.setChannels (list_to_map ((n, a) :: chs)) cl) !! n
                = Some a) by (simpl; by rewrite lookup_insert_eq).
  destruct (inv_joined _ HI _ _ _ _ Hin Hvc Hna) as (_ & Hidx & ch & Hch & Hmem).
  destruct (inv_index _ HI _ _ Hidx) as (ch' & Hch' & Hname & _).
  rewrite Hch in Hch'. injection Hch' as <-.
  exists ch. split; [exact Hch|]. split; [exact Hidx|].
  split; [done|]. split; [done|]. split.
  - intros ([n' a'] & E & Hna')%list_elem_of_fmap. simpl in E. subst a'.
    assert (Hn' : Client.Channels
                    (Client.setChannels (list_to_map ((n, a) :: chs)) cl) !! n'
                  = Some a).
    { simpl. rewrite lookup_insert_ne.
      - by apply elem_of_list_to_map_1.
      - intros <-. apply Hn. apply list_elem_of_fmap. by exists (n, a). }
    destruct (inv_joined _ HI _ _ _ _ Hin Hvc Hn') as (_ & Hidx' & _).
    apply Hn. replace n with n' by (by apply (Inv_index_inj _ _ _ a HI)).
    apply list_elem_of_fmap. by exists (n', a).
  - rewrite <- (leave_viewOf c n a chs) by done.
    by apply (Inv_leave _ c (Client.setChannels (list_to_map ((n, a) :: chs)) cl)
                n a).
Qed.

(** The indices after the loop of [quit]. *)
Lemma departAll_spec c cl chs s :
  NoDup chs.*1 →
  c ∈ Server.Clients s → Server.clientAt s !! c = Some cl →
  Inv (viewOf c chs s) →
  (∀ n a, (n, a) ∈ chs →
     ∃ ch, Server.channelAt s !! a = Some ch
           ∧ Server.channelAt (departAll c chs s) !! a
             = Some (Channel.setMembers (Channel.Members ch ∖ {[c]}) ch)
           ∧ Server.Channels (departAll c chs s) !! n
             = if decide (Channel.Members ch ∖ {[c]} = ∅) then None
               else Some a)
  ∧ (∀ n, n ∉ chs.*1 →
       Server.Channels (departAll c chs s) !! n = Server.Channels s !! n)
  ∧ (∀ a, a ∉ chs.*2 →
       Server.channelAt (departAll c chs s) !! a = Server.channelAt s !! a).
Proof.
  revert s. induction chs as [|[n a] chs IH]; intros s Hnd Hin Hc HI.
  - split; [|done]. by intros n a ?%elem_of_nil.
  - simpl in Hnd. apply NoDup_cons in Hnd as [Hn Hnd].
    destruct (depart_step c cl n a chs s Hn Hnd Hin Hc HI)
      as (ch & Hch & Hidx & Hname & Hmem & Ha & HI1).
    destruct (depart_frame c a s) as (Fcl & FC & _ & _ & _ & _ & Fch).
    destruct (depart_effect c a ch s Hch) as [Ech Eidx].
    destruct (IH (depart c a s)) as (IH1 & IH2 & IH3);
      [exact Hnd|by rewrite FC|by rewrite Fcl|exact HI1|].
    simpl. fold (departAll c chs (depart c a s)). repeat split.
    + intros n' a' [[= -> ->]|Hna']%elem_of_cons.
      * exists ch. split; [done|]. rewrite IH3 by done. split; [done|].
        rewrite IH2 by done. rewrite Eidx, Hname.
        case_decide; [by rewrite lookup_delete_eq|done].
      * destruct (IH1 n' a' Hna') as (ch' & Hch' & E1 & E2).
        assert (a' ≠ a).
        { intros ->. apply Ha. apply list_elem_of_fmap. by exists (n', a). }
        rewrite Fch in Hch' by done. by exists ch'.
    + intros n' Hn'. apply not_elem_of_cons in Hn' as [Hne Hn'].
      simpl in Hne. rewrite IH2 by done. rewrite Eidx, Hname.
      case_decide; [by rewrite lookup_delete_ne|done].
    + intros a' Ha'. apply not_elem_of_cons in Ha' as [Hne Ha'].
      simpl in Hne. rewrite IH3 by done. by apply Fch.
Qed.

Lemma viewOf_id c cl chs s :
  Server.clientAt s !! c = Some cl → list_to_map chs = Client.Channels cl →
  viewOf c chs s = s.
Proof.
  intros Hc E. unfold viewOf, updClient, Server.setClientAt.
  destruct s; simpl in *. f_equal.
  apply map_eq. intros k. destruct (decide (k = c)) as [->|].
  - rewrite lookup_alter_eq, Hc. simpl. f_equal. rewrite E. by destruct cl.
  - by rewrite lookup_alter_ne.
Qed.

Lemma isValidNick_loop_plainName i n :
  isValidNick_loop i n = true → plainName n = true.
Proof.
  revert i. induction n as [|char n IH]; intros i; [done|]. simpl.
  destruct (isLowerAZ char); simpl; [apply IH|].
  destruct (isDigit09 char); simpl.
  { destruct (i =? 0); [done|apply IH]. }
  case_bool_decide; [apply IH|done].
Qed.

Lemma isValidNick_plainName n : isValidNick n = true → plainName n = true.
Proof.
  unfold isValidNick. destruct (_ || _); [done|].
  apply isValidNick_loop_plainName.
Qed.

Lemma canonicalizeNick_valid n :
  isValidNick n = true → canonicalizeNick n = n.
Proof using ToLower_plainName.
  intros H. by apply ToLower_plainName, isValidNick_plainName.
Qed.

Lemma isValidNick_empty n : len n = 0 → isValidNick n = false.
Proof. intros E. unfold isValidNick. by rewrite E. Qed.

(** Once the client is off every channel and no nick leads to it, dropping
    it from the client index and closing its outbox keeps the indices
    consistent. *)
Lemma Inv_gone c cl s nicks :
  Inv (viewOf c [] s) →
  Server.clientAt s !! c = Some cl →
  nicks ⊆ Server.Nicks s →
  (isValidNick (Client.Nick cl) = true → nicks !! Client.Nick cl = None) →
  Inv (Server.setClients (Server.Clients s ∖ {[c]})
         (updClient (Client.setWriteChanClosed true) c
            (Server.setNicks nicks s))).
Proof. tidy.
  intros HI Hc Hsub Hnick. split; simpl.
  - intros k [Hk Hkc%not_elem_of_singleton]%elem_of_difference.
    destruct (inv_clients _ HI k Hk) as (kcl & Hkcl & Hopen).
    unfold viewOf in Hkcl. rewrite lookup_updClient_ne in Hkcl by done.
    exists kcl. split; [|done]. simpl. by rewrite lookup_alter_ne.
  - apply (inv_index _ HI).
  - intros n a ch k Hna Hch Hk.
    destruct (inv_members _ HI n a ch k Hna Hch Hk) as (Hkin & kcl & Hkcl & Hkn).
    assert (k ≠ c).
    { intros ->. unfold viewOf in Hkcl. rewrite lookup_updClient in Hkcl.
      destruct (Server.clientAt s !! c); simpl in Hkcl; [|done].
      injection Hkcl as <-. simpl in Hkn. by rewrite lookup_empty in Hkn. }
    split; [set_solver|]. unfold viewOf in Hkcl.
    rewrite lookup_updClient_ne in Hkcl by done.
    exists kcl. split; [|done]. by rewrite lookup_alter_ne.
  - intros k kcl n a [Hk Hkc%not_elem_of_singleton]%elem_of_difference.
    rewrite lookup_alter_ne by done. intros Hkcl Hn.
    apply (inv_joined _ HI k kcl n a Hk); [|done].
    unfold viewOf. by rewrite lookup_updClient_ne.
  - intros nk t Hnk. simpl in Hnk.
    pose proof (lookup_weaken _ _ _ _ Hnk Hsub) as Hnk'.
    destruct (inv_nicks _ HI nk t Hnk') as (Hin & tcl & Htcl & Hvalid & ->).
    assert (t ≠ c).
    { intros ->. unfold viewOf in Htcl. rewrite lookup_updClient, Hc in Htcl.
      injection Htcl as <-. simpl in *. rewrite Hnick in Hnk; done. }
    split; [set_solver|]. unfold viewOf in Htcl.
    rewrite lookup_updClient_ne in Htcl by done.
    exists tcl. simpl. by rewrite lookup_alter_ne.
Qed.

(** ** The client-quit procedure *)

Lemma Inv_viewOf_all c cl s :
  Server.clientAt s !! c = Some cl → Inv s →
  Inv (viewOf c (map_to_list (Client.Channels cl)) s).
Proof.
  intros Hc HI. rewrite (viewOf_id c cl); [done..|].
  apply list_to_map_to_list.
Qed.

Lemma Client_quit_registered_Ok s c cl msg :
  Inv s → c ∈ Server.Clients s →
  Server.clientAt s !! c = Some cl → Client.Registered cl = true →
  Client_quit c msg s
  = Ok (afterSends
          (((λ r, (r, clientMessage cl "QUIT" [msg])) <$> audience s c cl)
           ++ [(c, serverMessage s cl "ERROR" [msg])])
          (quitState c cl s))
  ∧ Inv (quitState c cl s).
Proof using ToLower_plainName. tidy'.
  intros HI Hin Hc Hreg.
  destruct (inv_clients _ HI _ Hin) as (cl' & Hc' & Hopen).
  rewrite Hc in Hc'. injection Hc' as <-.
  set (chs := map_to_list (Client.Channels cl)).
  destruct (quit_loop c cl msg chs s ∅) as [Eloop HIv];
    [apply NoDup_fst_map_to_list|done|done|by apply Inv_viewOf_all|].
  destruct (departAll_frame c chs s) as (Fcl & FC & FN & FG & _ & _).
  split.
  - unfold Client_quit. use_client Hc. rewrite Hreg.
    fold chs. rewrite Eloop. cbn [mbind Result_bind].
    fold (memberSets s cl). rewrite union_empty_r_L.
    set (X := departAll c chs s) in *.
    set (quits := (λ r, (r, clientMessage cl "QUIT" [msg]))
                    <$> tellList (memberSets s cl) ∅).
    assert (HcX : ∀ l, Server.clientAt (afterSends l X) !! c = Some cl).
    { intros l. simpl. by rewrite Fcl. }
    assert (Etail : ∀ l,
      (cl0 ← client (afterSends l X) c;
       Ok (Server.setNicks
             (delete (canonicalizeNick (Client.Nick cl0))
                (Server.Nicks (afterSends l X))) (afterSends l X)))
      ≫= (λ s, s ← Server_messageClient c "ERROR" [msg] s;
               s ← chanClose c s;
               Ok (Server.setClients (Server.Clients s ∖ {[c]}) s))
      = Ok (afterSends (l ++ [(c, serverMessage s cl "ERROR" [msg])])
              (quitState c cl s))).
    { intros l. use_client (HcX l).
      rewrite (Server_messageClient_Ok _ c cl) by (done || apply (HcX l)).
      cbn [mbind Result_bind]. unfold chanClose.
      use_client (HcX l). rewrite Hopen. simpl.
      unfold quitState, afterSends, updClient, serverMessage, config.
      fold chs. fold X. simpl. rewrite FC, FN, FG, <- app_assoc.
      reflexivity. }
    unfold audience.
    destruct (decide (c ∈ tellList (memberSets s cl) ∅)) as [Htold|Htold].
    + rewrite !bool_decide_eq_true_2
        by (done || by apply elem_of_list_to_set).
      cbn [mbind Result_bind]. apply Etail.
    + rewrite !bool_decide_eq_false_2
        by (done || by rewrite elem_of_list_to_set).
      rewrite (Client_messageClient_Ok _ c cl c cl)
        by (done || apply (HcX quits)).
      cbn [mbind Result_bind]. rewrite afterSends_app, fmap_app.
      apply Etail.
  - assert (HcX : Server.clientAt (departAll c chs s) !! c = Some cl)
      by (by rewrite Fcl).
    pose proof (Inv_gone c cl _
                  (delete (canonicalizeNick (Client.Nick cl)) (Server.Nicks s))
                  HIv HcX) as HI'.
    rewrite FC in HI'. unfold quitState. fold chs.
    assert (HI'' : Inv
      (Server.setClients (Server.Clients s ∖ {[c]})
         (updClient (Client.setWriteChanClosed true) c
            (Server.setNicks
               (delete (canonicalizeNick (Client.Nick cl)) (Server.Nicks s))
               (departAll c chs s))))).
    { apply HI'.
      - rewrite FN. apply delete_subseteq.
      - intros Hv. rewrite (canonicalizeNick_valid _ Hv).
        apply lookup_delete_eq. }
    exact HI''.
Qed.

Lemma Inv_unregistered_no_channels s c cl :
  Inv s → c ∈ Server.Clients s → Server.clientAt s !! c = Some cl →
  Client.Registered cl = false → Client.Channels cl = ∅.
Proof.
  intros HI Hin Hc Hreg. apply map_empty. intros n.
  destruct (Client.Channels cl !! n) as [a|] eqn:Hn; [|done].
  destruct (inv_joined _ HI _ _ _ _ Hin Hc Hn) as (R & _). congruence.
Qed.

(** [quit] of a client that has not registered. *)
Lemma Client_quit_unregistered_Ok s c cl msg :
  Inv s → c ∈ Server.Clients s →
  Server.clientAt s !! c = Some cl → Client.Registered cl = false →
  let s' :=
    Server.setClients (Server.Clients s ∖ {[c]})
      (updClient (Client.setWriteChanClosed true) c
         (Server.setNicks
            (if 0 <? len (Client.Nick cl)
             then delete (canonicalizeNick (Client.Nick cl)) (Server.Nicks s)
             else Server.Nicks s) s)) in
  Client_quit c msg s
  = Ok (afterSends [(c, serverMessage s cl "ERROR" [msg])] s')
  ∧ Inv s'.
Proof using ToLower_plainName. tidy'.
  intros HI Hin Hc Hreg s'.
  destruct (inv_clients _ HI _ Hin) as (cl' & Hc' & Hopen).
  rewrite Hc in Hc'. injection Hc' as <-.
  split.
  - unfold Client_quit. use_client Hc. rewrite Hreg.
    destruct (0 <? len (Client.Nick cl)); cbn [mbind Result_bind];
      rewrite (Server_messageClient_Ok _ c cl) by done;
      cbn [mbind Result_bind]; unfold chanClose; use_client Hc;
      rewrite Hopen; done.
  - assert (HIv : Inv (viewOf c [] s)).
    { rewrite (viewOf_id c cl); [done..|]. simpl. symmetry.
      by apply (Inv_unregistered_no_channels s c). }
    apply (Inv_gone c cl); [done|done| |].
    + destruct (0 <? len (Client.Nick cl)); [apply delete_subseteq|done].
    + intros Hv. destruct (0 <? len (Client.Nick cl)) eqn:E.
      * rewrite (canonicalizeNick_valid _ Hv). apply lookup_delete_eq.
      * apply Z.ltb_ge in E. rewrite isValidNick_empty in Hv; [done|].
        unfold len in *. lia.
Qed.

(** C3.  The client-quit procedure on a registered client.  QUIT with the
    prefix of the client goes to the members of its channels, once each
    however the channels overlap, and to the client itself if it is on no
    channel; then ERROR goes to the client.  Afterwards each of its channels
    has lost it as a member and is out of the channel index if that emptied
    it, the other index entries are as before, the client is a member of no
    indexed channel, its nick is released, its outbox is closed and it is
    out of the client index; the indices are consistent. *)
Theorem Client_quit_registered s c cl msg :
  Inv s → c ∈ Server.Clients s →
  Server.clientAt s !! c = Some cl → Client.Registered cl = true →
  ∃ s' recipients,
    Client_quit c msg s = Ok s'
    ∧ Server.sent s'
      = Server.sent s
        ++ ((λ r, (r, mkMessage
                        (Client.Nick cl +:+ "!~" +:+ Client.User cl +:+ "@"
                         +:+ Client.IP cl) "QUIT" [msg])) <$> recipients)
        ++ [(c, mkMessage (config s "server-name") "ERROR" [msg])]
    ∧ NoDup recipients
    ∧ (∀ r, r ∈ recipients ↔ r = c ∨ peer s cl r)
    ∧ (Client.Channels cl = ∅ → recipients = [c])
    ∧ (∀ n a, Client.Channels cl !! n = Some a →
         ∃ ch, Server.channelAt s !! a = Some ch
               ∧ Server.channelAt s' !! a
                 = Some (Channel.setMembers (Channel.Members ch ∖ {[c]}) ch)
               ∧ Server.Channels s' !! n
                 = if decide (Channel.Members ch ∖ {[c]} = ∅) then None
                   else Some a)
    ∧ (∀ n, Client.Channels cl !! n = None →
         Server.Channels s' !! n = Server.Channels s !! n)
    ∧ (∀ n a ch, Server.Channels s' !! n = Some a →
         Server.channelAt s' !! a = Some ch → c ∉ Channel.Members ch)
    ∧ Server.Nicks s'
      = delete (canonicalizeNick (Client.Nick cl)) (Server.Nicks s)
    ∧ Client.WriteChanClosed <$> Server.clientAt s' !! c = Some true
    ∧ Server.Clients s' = Server.Clients s ∖ {[c]}
    ∧ Inv s'.
Proof using ToLower_plainName. tidy'.
  intros HI Hin Hc Hreg.
  destruct (Client_quit_registered_Ok s c cl msg HI Hin Hc Hreg) as [E HI'].
  set (chs := map_to_list (Client.Channels cl)).
  destruct (departAll_spec c cl chs s) as (S1 & S2 & _);
    [apply NoDup_fst_map_to_list|done|done|by apply Inv_viewOf_all|].
  destruct (departAll_frame c chs s) as (Fcl & _ & _ & _ & Fsent & _).
  eexists _, (audience s c cl). split; [exact E|].
  split; [simpl; fold chs; by rewrite Fsent|]. split; [apply NoDup_audience|].
  split; [apply elem_of_audience|]. split; [apply audience_alone|].
  split; [|split; [|split; [|split; [done|split; [|split; [done|]]]]]].
  - intros n a Hna. apply (S1 n a). by apply elem_of_map_to_list.
  - intros n Hn. apply (S2 n).
    intros ([n' a] & -> & Hna%elem_of_map_to_list)%list_elem_of_fmap.
    simpl in Hn. congruence.
  - intros n a ch Hna Hch Hmem.
    assert (HI'' : Inv (afterSends
                          (((λ r, (r, clientMessage cl "QUIT" [msg]))
                              <$> audience s c cl)
                           ++ [(c, serverMessage s cl "ERROR" [msg])])
                          (quitState c cl s))) by (by apply Inv_afterSends).
    destruct (inv_members _ HI'' n a ch c Hna Hch Hmem) as [Hin' _].
    simpl in Hin'. set_solver.
  - simpl. fold chs. rewrite Fcl, lookup_alter_eq, Hc. done.
  - by apply Inv_afterSends.
Qed.

(** ** JOIN *)

Lemma joinCommand_enter c m param0 rest s :
  Params m = param0 :: rest →
  ¬ (rest = [] ∧ param0 = "0") →
  isValidChannel (canonicalizeChannel param0) = true →
  joinCommand c m s
  = (on ← Client_onChannel c (canonicalizeChannel param0) s;
     if (on : bool) then
       Server_messageClient c "ERROR" ["You are on that channel"] s
     else
       let '(a, s) := enter c (canonicalizeChannel param0) s in
       ch ← channel s a;
       s ← Client_messageClient c c "JOIN" [Channel.Name ch] s;
       s ← forEach (elements (Channel.Members ch))
             (λ member s,
                mcl ← client s member;
                Server_messageClient c "353"
                  ["="; Channel.Name ch; ":" +:+ Client.Nick mcl] s) s;
       s ← Server_messageClient c "366"
             [Channel.Name ch; "End of NAMES list"] s;
       forEach (elements (Channel.Members ch))
         (λ member s,
            if bool_decide (member = c) then Ok s
            else Client_messageClient c member "JOIN" [Channel.Name ch] s) s).
Proof. tidy.
  intros Hparams Hnot Hvalid. unfold joinCommand. rewrite Hparams.
  rewrite (proj2 (andb_false_iff _ _)).
  2:{ destruct (decide (rest = [])) as [->|];
        [|left; by apply bool_decide_eq_false_2].
      right. apply bool_decide_eq_false_2. naive_solver. }
  rewrite Hvalid. simpl.
  destruct (Client_onChannel c (canonicalizeChannel param0) s) as [[]|];
    [done| |done].
  simpl. unfold enter.
  by destruct (Server.Channels s !! canonicalizeChannel param0).
Qed.

Lemma concat_unless {A B} `{EqDecision A} (c : A) (f : A → B) (xs : list A) :
  List.concat ((λ x, if bool_decide (x = c) then [] else [f x]) <$> xs)
  = f <$> filter (λ x, x ≠ c) xs.
Proof.
  induction xs as [|x xs IH]; [done|].
  rewrite fmap_cons. cbn [List.concat]. rewrite filter_cons, IH.
  case_bool_decide; [by rewrite decide_False by naive_solver|].
  by rewrite decide_True.
Qed.

Lemma concat_singletons {A B} (f : A → B) (xs : list A) :
  List.concat ((λ x, [f x]) <$> xs) = f <$> xs.
Proof.
  induction xs as [|x xs IH]; [done|].
  rewrite fmap_cons. cbn [List.concat]. by rewrite IH.
Qed.

Lemma zero_not_channel param0 :
  isValidChannel (canonicalizeChannel param0) = true → param0 ≠ "0".
Proof using ToLower_plainName.
  intros Hvalid ->. unfold canonicalizeChannel in Hvalid.
  by rewrite (ToLower_plainName "0") in Hvalid.
Qed.

Lemma serverMessage_same s s' cl cl' command params :
  Server.Config s' = Server.Config s → Client.Nick cl' = Client.Nick cl →
  serverMessage s' cl' command params = serverMessage s cl command params.
Proof.
  intros E1 E2. unfold serverMessage, serverParams, config. by rewrite E1, E2.
Qed.

Lemma clientMessage_same cl cl' command params :
  Client.Nick cl' = Client.Nick cl → Client.User cl' = Client.User cl →
  Client.IP cl' = Client.IP cl →
  clientMessage cl' command params = clientMessage cl command params.
Proof.
  intros E1 E2 E3. unfold clientMessage, nickUhostOf. by rewrite E1, E2, E3.
Qed.

(** A successful JOIN, in full: the state is that of [enter] and the sends
    are [joinReplies]. *)
Lemma joinCommand_Ok s c cl m param0 rest :
  Inv s → c ∈ Server.Clients s →
  Server.clientAt s !! c = Some cl →
  Params m = param0 :: rest →
  let n := canonicalizeChannel param0 in
  isValidChannel n = true →
  Client.Channels cl !! n = None →
  let M0 := default ∅ (Channel.Members <$> channelNamed s n) in
  joinCommand c m s
  = Ok (afterSends (joinReplies s c cl n ({[c]} ∪ M0)) (enter c n s).2).
Proof using ToLower_plainName. tidy'.
  intros HI Hin Hc Hparams n Hvalid Hn M0.
  destruct (inv_clients _ HI _ Hin) as (cl' & Hc' & Hopen).
  rewrite Hc in Hc'. injection Hc' as <-.
  rewrite (joinCommand_enter c m param0 rest s Hparams); [|
    intros [_ ?]; by apply (zero_not_channel param0)|done].
  fold n. unfold Client_onChannel. use_client Hc.
  rewrite bool_decide_eq_false_2 by (rewrite Hn; by intros [? ?]).
  destruct (enter_facts s c cl n HI Hin Hc Hn)
    as (a & M0' & -> & -> & _ & _ & HcM & _ & HM & _).
  fold M0 in HcM, HM |- *.
  set (cl1 := Client.setChannels (<[n:=a]> (Client.Channels cl)) cl).
  set (ch1 := Channel.mk n ({[c]} ∪ M0)).
  set (S1 := Server.setClientAt _ _).
  assert (Hc1 : ∀ l, Server.clientAt (afterSends l S1) !! c = Some cl1).
  { intros l. simpl. by rewrite lookup_insert_eq. }
  assert (Hch1 : Server.channelAt S1 !! a = Some ch1).
  { simpl. by rewrite lookup_insert_eq. }
  assert (Hmem : ∀ r l, r ∈ {[c]} ∪ M0 →
            ∃ rcl, Server.clientAt (afterSends l S1) !! r = Some rcl
                   ∧ Client.WriteChanClosed rcl = false
                   ∧ Client.Nick rcl = nickOf s r).
  { intros r l [->%elem_of_singleton|Hr]%elem_of_union.
    - exists cl1. split; [apply Hc1|]. split; [done|].
      unfold nickOf. by rewrite Hc.
    - destruct (HM r Hr) as (Hrin & rcl & Hrcl & _).
      assert (r ≠ c) by (intros ->; done).
      destruct (inv_clients _ HI _ Hrin) as (rcl' & Hrcl' & Hropen).
      rewrite Hrcl in Hrcl'. injection Hrcl' as <-.
      exists rcl. simpl. rewrite lookup_insert_ne by done.
      split; [done|]. split; [done|]. unfold nickOf. by rewrite Hrcl. }
  cbn [snd]. use_channel Hch1.
  rewrite <- (afterSends_nil S1) at 1.
  rewrite (Client_messageClient_Ok _ c cl1 c cl1) by (done || apply Hc1).
  cbn [mbind Result_bind]. rewrite afterSends_app.
  rewrite (forEach_sends _ _
             (λ r, [(c, serverMessage s cl "353" ["="; n; ":" +:+ nickOf s r])])).
  2:{ intros r l Hr%elem_of_elements.
      destruct (Hmem r l Hr) as (rcl & Hrcl & _ & Hnick).
      use_client Hrcl.
      rewrite (Server_messageClient_Ok _ c cl1) by (done || apply Hc1).
      by rewrite afterSends_app, Hnick. }
  cbn [mbind Result_bind].
  rewrite (Server_messageClient_Ok _ c cl1) by (done || apply Hc1).
  cbn [mbind Result_bind]. rewrite afterSends_app.
  rewrite (forEach_sends _ _
             (λ r, if bool_decide (r = c) then []
                   else [(r, clientMessage cl "JOIN" [n])])).
  2:{ intros r l Hr%elem_of_elements. case_bool_decide.
      - by rewrite app_nil_r.
      - destruct (Hmem r l Hr) as (rcl & Hrcl & Hropen & _).
        rewrite (Client_messageClient_Ok _ c cl1 r rcl)
          by (done || apply Hc1).
        by rewrite afterSends_app. }
  rewrite concat_singletons.
  rewrite (concat_unless c (λ r, (r, clientMessage cl "JOIN" [n]))).
  unfold joinReplies. simpl. by rewrite <- !app_assoc.
Qed.

(** C5.  JOIN of a registered client with a channel name that is valid
    once canonical.  If the client is not on the channel, the channel is in
    the index afterwards (under its old address if it was there, created
    otherwise), its members are the old ones and the client, the channel map
    of the client lists it, and what is sent is, in this order: JOIN to the
    joiner, one 353 to the joiner per member, 366 to the joiner, JOIN to
    every member but the joiner.  If the client is on the channel, ERROR
    "You are on that channel" is the only send and nothing else changes. *)
Theorem joinCommand_joins s c cl m param0 rest :
  Inv s → c ∈ Server.Clients s →
  Server.clientAt s !! c = Some cl →
  Client.Registered cl = true →
  Params m = param0 :: rest →
  let n := canonicalizeChannel param0 in
  isValidChannel n = true →
  (Client.Channels cl !! n = None →
   ∃ s' a,
     let members := {[c]} ∪ default ∅ (Channel.Members <$> channelNamed s n) in
     joinCommand c m s = Ok s'
     ∧ Server.Channels s' = <[n := a]> (Server.Channels s)
     ∧ (∀ a', Server.Channels s !! n = Some a' → a' = a)
     ∧ Server.channelAt s' !! a = Some (Channel.mk n members)
     ∧ Client.Channels <$> Server.clientAt s' !! c
       = Some (<[n := a]> (Client.Channels cl))
     ∧ Server.sent s'
       = Server.sent s
         ++ [(c, clientMessage cl "JOIN" [n])]
         ++ ((λ r, (c, serverMessage s cl "353" ["="; n; ":" +:+ nickOf s r]))
               <$> elements members)
         ++ [(c, serverMessage s cl "366" [n; "End of NAMES list"])]
         ++ ((λ r, (r, clientMessage cl "JOIN" [n]))
               <$> filter (λ r, r ≠ c) (elements members))
     ∧ Inv s')
  ∧ (is_Some (Client.Channels cl !! n) →
     joinCommand c m s
     = Ok (afterSends
             [(c, serverMessage s cl "ERROR" ["You are on that channel"])] s)).
Proof using ToLower_plainName. tidy'.
  intros HI Hin Hc Hreg Hparams n Hvalid. split.
  - intros Hn.
    destruct (enter_facts s c cl n HI Hin Hc Hn)
      as (a & M0 & E & -> & _ & Hsame & _).
    exists (afterSends
              (joinReplies s c cl n
                 ({[c]} ∪ default ∅ (Channel.Members <$> channelNamed s n)))
              (enter c n s).2), a.
    split; [by apply (joinCommand_Ok s c cl m param0 rest)|].
    split; [by rewrite E|]. split; [done|].
    split; [rewrite E; simpl; by rewrite lookup_insert_eq|].
    split; [rewrite E; simpl; by rewrite lookup_insert_eq|].
    split; [by rewrite E|].
    apply Inv_afterSends. by apply (Inv_enter s c cl n).
  - intros Hon.
    destruct (inv_clients _ HI _ Hin) as (cl' & Hc' & Hopen).
    rewrite Hc in Hc'. injection Hc' as <-.
    rewrite (joinCommand_enter c m param0 rest s Hparams); [|
      intros [_ ?]; by apply (zero_not_channel param0)|done].
    fold n. unfold Client_onChannel. use_client Hc.
    rewrite bool_decide_eq_true_2 by done.
    by apply Server_messageClient_Ok.
Qed.

(** ** PART *)

Lemma leave_frame c n a s :
  Server.Clients (leave c n a s) = Server.Clients s
  ∧ Server.Nicks (leave c n a s) = Server.Nicks s
  ∧ Server.ShutdownChanClosed (leave c n a s) = Server.ShutdownChanClosed s.
Proof.
  unfold leave.
  by destruct (depart_frame c a
       (updClient
          (λ cl, Client.setChannels (delete n (Client.Channels cl)) cl) c s))
    as (_ & -> & -> & _ & _ & -> & _).
Qed.

Lemma Client_part_Ok s c cl channelName message a :
  Inv s → c ∈ Server.Clients s →
  Server.clientAt s !! c = Some cl →
  let n := canonicalizeChannel channelName in
  isValidChannel n = true →
  Client.Channels cl !! n = Some a →
  Client_part c channelName message s
  = Ok (afterSends
          (partReplies cl n message
             (default ∅ (Channel.Members <$> channelNamed s n)))
          (leave c n a s)).
Proof.
  intros HI Hin Hc n Hvalid Hn.
  destruct (inv_joined _ HI _ _ _ _ Hin Hc Hn) as (_ & Hidx & ch & Hch & Hmem).
  destruct (inv_index _ HI _ _ Hidx) as (ch' & Hch' & Hname & _).
  rewrite Hch in Hch'. injection Hch' as <-.
  unfold Client_part. fold n. rewrite Hvalid, Hidx. simpl.
  use_channel Hch. unfold Client_onChannel. use_client Hc.
  rewrite Hname, bool_decide_eq_true_2 by done. simpl.
  rewrite <- (afterSends_nil s) at 1.
  rewrite (forEach_sends _ _
             (λ r, [(r, clientMessage cl "PART"
                          (if 0 <? len message then [n] ++ [message]
                           else [n]))])).
  2:{ intros r l Hr%elem_of_elements.
      destruct (inv_members _ HI _ _ _ _ Hidx Hch Hr) as (Hrin & _).
      destruct (inv_clients _ HI _ Hrin) as (rcl & Hrcl & Hropen).
      rewrite (Client_messageClient_Ok _ c cl r rcl) by done.
      by rewrite afterSends_app. }
  cbn [mbind Result_bind]. rewrite concat_singletons.
  unfold channel. simpl. rewrite !lookup_alter_eq, Hch. simpl.
  unfold partReplies, channelNamed. rewrite Hidx. simpl. rewrite Hch. simpl.
  unfold leave, depart. simpl. rewrite lookup_alter_eq, Hch. simpl.
  rewrite Hname. by case_bool_decide.
Qed.

Lemma Client_part_refused s c cl channelName message :
  Inv s → c ∈ Server.Clients s →
  Server.clientAt s !! c = Some cl →
  let n := canonicalizeChannel channelName in
  isValidChannel n = false ∨ Client.Channels cl !! n = None →
  ∃ text, Client_part c channelName message s
          = Ok (afterSends [(c, serverMessage s cl "403" [n; text])] s).
Proof.
  intros HI Hin Hc n Hcase.
  destruct (inv_clients _ HI _ Hin) as (cl' & Hc' & Hopen).
  rewrite Hc in Hc'. injection Hc' as <-.
  unfold Client_part. fold n.
  destruct (isValidChannel n) eqn:Hvalid; simpl.
  2:{ eexists. by apply Server_messageClient_Ok. }
  destruct Hcase as [?|Hn]; [done|].
  destruct (Server.Channels s !! n) as [a|] eqn:Hidx.
  2:{ eexists. by apply Server_messageClient_Ok. }
  destruct (inv_index _ HI _ _ Hidx) as (ch & Hch & Hname & _).
  use_channel Hch. unfold Client_onChannel. use_client Hc.
  rewrite Hname, Hn.
  rewrite bool_decide_eq_false_2 by (by intros [? ?]). simpl.
  eexists. by apply Server_messageClient_Ok.
Qed.

(** [part] returns, and keeps the indices consistent; the channel map of
    the client does not grow. *)
Lemma Client_part_keeps s c cl channelName message :
  Inv s → c ∈ Server.Clients s → Server.clientAt s !! c = Some cl →
  ∃ s' cl', Client_part c channelName message s = Ok s'
        ∧ Inv s' ∧ Server.Clients s' = Server.Clients s
        ∧ Server.ShutdownChanClosed s' = Server.ShutdownChanClosed s
        ∧ Server.clientAt s' !! c = Some cl'
        ∧ Client.Channels cl' ⊆ Client.Channels cl.
Proof.
  intros HI Hin Hc.
  set (n := canonicalizeChannel channelName).
  destruct (isValidChannel n) eqn:Hvalid.
  - destruct (Client.Channels cl !! n) as [a|] eqn:Hn.
    + eexists _, (Client.setChannels (delete n (Client.Channels cl)) cl).
      split; [by apply (Client_part_Ok s c cl _ _ a)|].
      destruct (leave_frame c n a s) as (FC & FN & FS).
      split; [|split; [exact FC|split; [exact FS|split]]].
      * apply Inv_afterSends. by apply (Inv_leave s c cl n a).
      * change (Server.clientAt (leave c n a s) !! c
                = Some (Client.setChannels (delete n (Client.Channels cl)) cl)).
        unfold leave.
        destruct (depart_frame c a
          (updClient
             (λ cl, Client.setChannels (delete n (Client.Channels cl)) cl) c s))
          as (-> & _).
        by rewrite lookup_updClient, Hc.
      * simpl. apply delete_subseteq.
    + destruct (Client_part_refused s c cl channelName message HI Hin Hc)
        as [text ->]; [by right|].
      eexists _, cl. split; [done|]. split; [by apply Inv_afterSends|done].
  - destruct (Client_part_refused s c cl channelName message HI Hin Hc)
      as [text ->]; [by left|].
    eexists _, cl. split; [done|]. split; [by apply Inv_afterSends|done].
Qed.

(** ** Handlers that keep the shape of the state *)

Lemma evolves_Ok s s' : shape s s' → evolves s (Ok s').
Proof. intros. by exists s'. Qed.

Lemma evolves_bind s r (f : Server.t → Result Server.t) :
  evolves s r → (∀ s', shape s s' → evolves s' (f s')) → evolves s (r ≫= f).
Proof.
  intros (s1 & -> & H1) Hf. destruct (Hf s1 H1) as (s2 & E & H2).
  exists s2. split; [done|]. by apply (shape_trans _ s1).
Qed.

Lemma evolves_Server_messageClient s c command params :
  writable s c → evolves s (Server_messageClient c command params s).
Proof.
  intros (cl & Hc & Hopen). rewrite (Server_messageClient_Ok s c cl) by done.
  apply evolves_Ok, shape_afterSends.
Qed.

Lemma evolves_Client_messageClient s c to command params :
  is_Some (Server.clientAt s !! c) → writable s to →
  evolves s (Client_messageClient c to command params s).
Proof.
  intros [cl Hc] (tcl & Hto & Hopen).
  rewrite (Client_messageClient_Ok s c cl to tcl) by done.
  apply evolves_Ok, shape_afterSends.
Qed.

Lemma evolves_forEach {A} (xs : list A) body s :
  (∀ x s', x ∈ xs → shape s s' → evolves s' (body x s')) →
  evolves s (forEach xs body s).
Proof.
  intros Hbody.
  destruct (forEach_keeps (shape s) xs body s) as (s' & E & Hs');
    [|apply shape_refl|by exists s'].
  intros x s1 Hx Hs1. destruct (Hbody x s1 Hx Hs1) as (s2 & E & Hs2).
  exists s2. split; [done|]. by apply (shape_trans _ s1).
Qed.

Lemma shape_is_Some s s' k :
  shape s s' → is_Some (Server.clientAt s !! k) →
  is_Some (Server.clientAt s' !! k).
Proof.
  intros Hs [cl Hk]. destruct (shape_client_fwd _ _ _ _ Hs Hk) as (cl' & ? & _).
  by exists cl'.
Qed.

Lemma shape_touch now c s : shape s (touch now c s).
Proof. apply shape_updClient. intros cl. by repeat split. Qed.

Lemma writable_is_Some s c : writable s c → is_Some (Server.clientAt s !! c).
Proof. intros (cl & ? & _). by exists cl. Qed.

Lemma evolves_lusersCommand s c : writable s c → evolves s (lusersCommand c s).
Proof.
  intros Hw. unfold lusersCommand.
  apply evolves_bind; [by apply evolves_Server_messageClient|].
  intros s1 H1. apply evolves_bind.
  { destruct (0 <? _); [|apply evolves_Ok, shape_refl].
    apply evolves_Server_messageClient. by apply (shape_writable s). }
  intros s2 H2. apply evolves_bind.
  { destruct (0 <? _); [|apply evolves_Ok, shape_refl].
    apply evolves_Server_messageClient.
    by apply (shape_writable s1), (shape_writable s). }
  intros s3 H3. apply evolves_Server_messageClient.
  by apply (shape_writable s2), (shape_writable s1), (shape_writable s).
Qed.

Lemma evolves_motdCommand s c : writable s c → evolves s (motdCommand c s).
Proof.
  intros Hw. unfold motdCommand.
  apply evolves_bind; [by apply evolves_Server_messageClient|].
  intros s1 H1. apply evolves_bind.
  { apply evolves_Server_messageClient. by apply (shape_writable s). }
  intros s2 H2. apply evolves_Server_messageClient.
  by apply (shape_writable s1), (shape_writable s).
Qed.

Lemma evolves_pingCommand s c m : writable s c → evolves s (pingCommand c m s).
Proof.
  intros Hw. unfold pingCommand. destruct (Params m) as [|server rest].
  - by apply evolves_Server_messageClient.
  - case_bool_decide; by apply evolves_Server_messageClient.
Qed.

(** ** NICK *)

Lemma nickCommand_registered_Ok s c cl m nick rest :
  Inv s → c ∈ Server.Clients s →
  Server.clientAt s !! c = Some cl →
  Client.Registered cl = true →
  Params m = nick :: rest →
  isValidNick nick = true →
  Server.Nicks s !! canonicalizeNick nick = None →
  nickCommand c m s
  = Ok (afterSends
          ((λ r, (r, clientMessage cl "NICK" [nick])) <$> audience s c cl)
          (nickState c cl nick s)).
Proof.
  intros HI Hin Hc Hreg Hparams Hvalid Hfree.
  unfold nickCommand. rewrite Hparams, Hvalid. simpl. rewrite Hfree.
  use_client Hc. rewrite Hreg.
  set (s1 := if 0 <? len (Client.Nick cl) then _ else _).
  assert (Es1 : s1 = Server.setNicks (nicksAfter c cl nick (Server.Nicks s)) s).
  { unfold s1, nicksAfter. by destruct (0 <? len (Client.Nick cl)). }
  rewrite Es1. clear s1 Es1.
  set (s1 := Server.setNicks _ s).
  assert (Hc1 : Server.clientAt s1 !! c = Some cl) by done.
  pose proof (nick_loop c cl nick (map_to_list (Client.Channels cl)) s1 ∅ Hc1)
    as Hloop.
  simpl in Hloop. rewrite Hloop by (by apply (Inv_peers_writable s c cl)).
  clear Hloop. simpl.
  fold (memberSets s cl). unfold audience.
  rewrite union_empty_r_L.
  destruct (decide (c ∈ tellList (memberSets s cl) ∅)) as [Htold|Htold].
  - rewrite !bool_decide_eq_true_2 by (done || by apply elem_of_list_to_set).
    done.
  - rewrite !bool_decide_eq_false_2
      by (done || by rewrite elem_of_list_to_set).
    destruct (inv_clients _ HI _ Hin) as (cl' & Hc' & Hopen).
    rewrite Hc in Hc'. injection Hc' as <-.
    rewrite (Client_messageClient_Ok _ c cl c cl) by done.
    simpl. rewrite afterSends_app, fmap_app. done.
Qed.

Lemma nickCommand_unregistered_Ok s c cl m nick rest :
  Server.clientAt s !! c = Some cl →
  Client.Registered cl = false →
  Params m = nick :: rest →
  isValidNick nick = true →
  Server.Nicks s !! canonicalizeNick nick = None →
  nickCommand c m s = Ok (nickState c cl nick s).
Proof.
  intros Hc Hreg Hparams Hvalid Hfree.
  unfold nickCommand. rewrite Hparams, Hvalid. simpl. rewrite Hfree.
  use_client Hc. rewrite Hreg. simpl.
  unfold nickState, nicksAfter. by destruct (0 <? len (Client.Nick cl)).
Qed.

(** C2.  A successful NICK of a registered client.  The NICK message goes to
    the members of the channels of the client, once each, and to the client
    itself if it is on no channel; its prefix is built from the client object
    as it was before the command, so from the old nick; the stored nick is
    set on the state in which every one of these messages has been sent. *)
Theorem nickCommand_broadcast s c cl m nick rest :
  Inv s → c ∈ Server.Clients s →
  Server.clientAt s !! c = Some cl →
  Client.Registered cl = true →
  Params m = nick :: rest →
  isValidNick nick = true →
  Server.Nicks s !! canonicalizeNick nick = None →
  let recipients := audience s c cl in
  nickCommand c m s
  = Ok (updClient (Client.setNick nick) c
          (afterSends
             ((λ r, (r, mkMessage
                          (Client.Nick cl +:+ "!~" +:+ Client.User cl +:+ "@"
                           +:+ Client.IP cl) "NICK" [nick])) <$> recipients)
             (Server.setNicks (nicksAfter c cl nick (Server.Nicks s)) s)))
  ∧ NoDup recipients
  ∧ (∀ r, r ∈ recipients ↔ r = c ∨ peer s cl r)
  ∧ (Client.Channels cl = ∅ → recipients = [c]).
Proof.
  intros HI Hin Hc Hreg Hparams Hvalid Hfree recipients.
  split; [|split; [apply NoDup_audience|split;
                   [apply elem_of_audience|apply audience_alone]]].
  by rewrite (nickCommand_registered_Ok s c cl m nick rest).
Qed.

Lemma Inv_nickState s c cl nick :
  Inv s → c ∈ Server.Clients s →
  Server.clientAt s !! c = Some cl →
  isValidNick nick = true →
  Server.Nicks s !! canonicalizeNick nick = None →
  Inv (nickState c cl nick s).
Proof using ToLower_plainName. tidy'.
  intros HI Hin Hc Hvalid Hfree.
  assert (Hcl : ∀ k, Server.clientAt (nickState c cl nick s) !! k
                     = if decide (k = c) then Some (Client.setNick nick cl)
                       else Server.clientAt s !! k).
  { intros k. simpl. case_decide as E.
    - subst. by rewrite lookup_alter_eq, Hc.
    - by rewrite lookup_alter_ne. }
  split.
  - intros k Hk. destruct (inv_clients _ HI k Hk) as (kcl & Hkcl & Hopen).
    unfold writable. rewrite Hcl. case_decide; subst; [|eauto].
    rewrite Hc in Hkcl. injection Hkcl as <-. eauto.
  - apply (inv_index _ HI).
  - intros n a ch k Hna Hch Hk.
    destruct (inv_members _ HI n a ch k Hna Hch Hk) as (Hkin & kcl & Hkcl & Hkn).
    split; [done|]. rewrite Hcl. case_decide; subst; [|eauto].
    rewrite Hc in Hkcl. injection Hkcl as <-. eauto.
  - intros k kcl n a Hk. rewrite Hcl. case_decide; subst.
    + intros [= <-]. simpl. apply (inv_joined _ HI c cl n a Hk Hc).
    + apply (inv_joined _ HI k kcl n a Hk).
  - rewrite (canonicalizeNick_valid _ Hvalid) in Hfree.
    intros nk t Hnk. rewrite Hcl. simpl in Hnk. unfold nicksAfter in Hnk.
    rewrite (canonicalizeNick_valid _ Hvalid) in Hnk.
    assert (Hins : <[nick := c]> (Server.Nicks s) !! nk = Some t
                   ∧ (t = c → nk = nick)).
    { destruct (0 <? len (Client.Nick cl)) eqn:Hold.
      - apply lookup_delete_Some in Hnk as [Hne Hnk]. split; [done|].
        intros ->. destruct (decide (nk = nick)) as [|Hnn]; [done|].
        rewrite lookup_insert_ne in Hnk by done.
        destruct (inv_nicks _ HI nk c Hnk) as (_ & cl' & Hcl' & Hv & ->).
        rewrite Hc in Hcl'. injection Hcl' as <-.
        by rewrite (canonicalizeNick_valid _ Hv) in Hne.
      - split; [done|]. intros ->.
        destruct (decide (nk = nick)) as [|Hnn]; [done|].
        rewrite lookup_insert_ne in Hnk by done.
        destruct (inv_nicks _ HI nk c Hnk) as (_ & cl' & Hcl' & Hv & ->).
        rewrite Hc in Hcl'. injection Hcl' as <-.
        apply Z.ltb_ge in Hold. rewrite isValidNick_empty in Hv; [done|].
        unfold len in *. lia. }
    destruct Hins as [Hnk' Htc].
    destruct (decide (nk = nick)) as [->|Hnn].
    + rewrite lookup_insert_eq in Hnk'. injection Hnk' as <-.
      split; [done|]. rewrite decide_True by done. eauto.
    + rewrite lookup_insert_ne in Hnk' by done.
      destruct (inv_nicks _ HI nk t Hnk') as (Htin & tcl & Htcl & Hv & ->).
      split; [done|]. rewrite decide_False by naive_solver. eauto.
Qed.

(** NICK returns, and keeps the indices consistent. *)
Lemma nickCommand_keeps s c m :
  Inv s → c ∈ Server.Clients s →
  ∃ s', nickCommand c m s = Ok s' ∧ Inv s'
        ∧ Server.Clients s' = Server.Clients s
        ∧ Server.ShutdownChanClosed s' = Server.ShutdownChanClosed s.
Proof using ToLower_plainName. tidy'.
  intros HI Hin.
  destruct (inv_clients _ HI _ Hin) as (cl & Hc & Hopen).
  assert (Hreply : ∀ command params,
    ∃ s', Server_messageClient c command params s = Ok s' ∧ Inv s'
          ∧ Server.Clients s' = Server.Clients s
          ∧ Server.ShutdownChanClosed s' = Server.ShutdownChanClosed s).
  { intros. rewrite (Server_messageClient_Ok s c cl) by done.
    eexists. split; [done|]. split; [by apply Inv_afterSends|done]. }
  destruct (Params m) as [|nick rest] eqn:Hparams.
  { unfold nickCommand. rewrite Hparams. apply Hreply. }
  destruct (isValidNick nick) eqn:Hvalid.
  2:{ unfold nickCommand. rewrite Hparams, Hvalid. apply Hreply. }
  destruct (Server.Nicks s !! canonicalizeNick nick) as [other|] eqn:Hfree.
  { unfold nickCommand. rewrite Hparams, Hvalid. simpl. rewrite Hfree.
    apply Hreply. }
  destruct (Client.Registered cl) eqn:Hreg.
  - rewrite (nickCommand_registered_Ok s c cl m nick rest) by done.
    eexists. split; [done|].
    split; [|done]. apply Inv_afterSends. by apply Inv_nickState.
  - rewrite (nickCommand_unregistered_Ok s c cl m nick rest) by done.
    eexists. split; [done|]. split; [|done]. by apply Inv_nickState.
Qed.

Lemma evolves_from s s1 r : shape s s1 → evolves s1 r → evolves s r.
Proof.
  intros H1 (s2 & -> & H2). exists s2. split; [done|].
  by apply (shape_trans _ s1).
Qed.

Lemma evolves_userCommand s c m : writable s c → evolves s (userCommand c m s).
Proof.
  intros Hw. pose proof Hw as (cl & Hc & Hopen).
  unfold userCommand. use_client Hc.
  destruct (Client.Registered cl); [by apply evolves_Server_messageClient|].
  destruct (len (Client.Nick cl) =? 0);
    [by apply evolves_Server_messageClient|].
  destruct (Params m) as [|user [|p1 [|p2 [|realname [|]]]]];
    try by apply evolves_Server_messageClient.
  destruct (isValidUser user); simpl;
    [|by apply evolves_Server_messageClient].
  set (s1 := updClient (Client.setUser user) c s).
  assert (H1 : shape s s1).
  { apply shape_updClient. intros ?. by repeat split. }
  destruct (64 <? len realname).
  { apply (evolves_from s s1); [done|]. apply evolves_Server_messageClient.
    by apply (shape_writable s). }
  set (s2 := updClient (Client.setRegistered true) c
               (updClient (Client.setRealName realname) c s1)).
  assert (H2 : shape s s2).
  { apply (shape_trans _ s1); [done|].
    apply (shape_trans _ (updClient (Client.setRealName realname) c s1));
      apply shape_updClient; intros ?; by repeat split. }
  assert (Hw2 : writable s2 c) by (by apply (shape_writable s)).
  apply (evolves_from s s2); [done|]. clearbody s2. clear - Hw2.
  destruct Hw2 as (cl2 & Hc2 & Hopen2).
  unfold Client_nickUhost. use_client Hc2.
  assert (Hw2 : writable s2 c) by (by exists cl2).
  apply evolves_bind; [by apply evolves_Server_messageClient|].
  intros s3 H3. apply evolves_bind.
  { apply evolves_Server_messageClient. by apply (shape_writable s2). }
  intros s4 H4. apply evolves_bind.
  { apply evolves_Server_messageClient.
    by apply (shape_writable s3), (shape_writable s2). }
  intros s5 H5. apply evolves_bind.
  { apply evolves_Server_messageClient.
    by apply (shape_writable s4), (shape_writable s3), (shape_writable s2). }
  intros s6 H6.
  assert (Hw6 : writable s6 c).
  { by apply (shape_writable s5), (shape_writable s4), (shape_writable s3),
      (shape_writable s2). }
  apply evolves_bind; [by apply evolves_lusersCommand|].
  intros s7 H7. apply evolves_motdCommand. by apply (shape_writable s6).
Qed.


Create HintDb evo.
Local Hint Resolve shape_writable shape_is_Some writable_is_Some shape_refl
  : evo.

(** Close a goal about a later state of the same shape. *)
Ltac wr := solve [eauto 12 with evo].

Lemma evolves_client s c (f : Client.t → Result Server.t) :
  is_Some (Server.clientAt s !! c) →
  (∀ cl, Server.clientAt s !! c = Some cl → evolves s (f cl)) →
  evolves s (client s c ≫= f).
Proof. intros [cl Hc] Hf. use_client Hc. by apply Hf. Qed.

Lemma evolves_isOperator s c (f : bool → Result Server.t) :
  is_Some (Server.clientAt s !! c) →
  (∀ b, evolves s (f b)) →
  evolves s (Client_isOperator c s ≫= f).
Proof. intros [cl Hc] Hf. unfold Client_isOperator. use_client Hc. apply Hf. Qed.

Lemma evolves_onChannel s c n (f : bool → Result Server.t) :
  is_Some (Server.clientAt s !! c) →
  (∀ b, evolves s (f b)) →
  evolves s (Client_onChannel c n s ≫= f).
Proof. intros [cl Hc] Hf. unfold Client_onChannel. use_client Hc. apply Hf. Qed.

Lemma Inv_nick_target s nk t :
  Inv s → Server.Nicks s !! nk = Some t → writable s t.
Proof.
  intros HI Hnk. destruct (inv_nicks _ HI nk t Hnk) as (Hin & _).
  by apply (inv_clients _ HI).
Qed.

Lemma evolves_whoisCommand now s c m :
  Inv s → c ∈ Server.Clients s → evolves s (whoisCommand now c m s).
Proof.
  intros HI Hin. pose proof (inv_clients _ HI _ Hin) as Hw.
  unfold whoisCommand. destruct (Params m) as [|nick rest].
  { by apply evolves_Server_messageClient. }
  destruct (Server.Nicks s !! canonicalizeNick nick) as [t|] eqn:Hnk.
  2:{ by apply evolves_Server_messageClient. }
  pose proof (Inv_nick_target s _ t HI Hnk) as Hwt.
  apply evolves_client; [wr|]. intros tcl Htcl.
  apply evolves_bind; [apply evolves_Server_messageClient; wr|].
  intros s1 H1. apply evolves_bind; [apply evolves_Server_messageClient; wr|].
  intros s2 H2. apply evolves_isOperator; [wr|]. intros isOper.
  apply evolves_bind.
  { destruct isOper; [apply evolves_Server_messageClient; wr|].
    apply evolves_Ok, shape_refl. }
  intros s3 H3. apply evolves_bind; [apply evolves_Server_messageClient; wr|].
  intros s4 H4. apply evolves_Server_messageClient; wr.
Qed.

Lemma evolves_operCommand s c m :
  writable s c → evolves s (operCommand c m s).
Proof.
  intros Hw. unfold operCommand.
  destruct (Params m) as [|name [|password rest]];
    try (apply evolves_Server_messageClient; wr).
  apply evolves_isOperator; [wr|]. intros isOper.
  destruct isOper; [apply evolves_Server_messageClient; wr|].
  destruct (Server.Opers s !! name) as [pass|];
    [|apply evolves_Server_messageClient; wr].
  case_bool_decide; [apply evolves_Server_messageClient; wr|].
  set (s1 := updClient _ c s).
  assert (H1 : shape s s1).
  { apply shape_updClient. intros ?. by repeat split. }
  apply (evolves_from s s1); [done|].
  apply evolves_client; [wr|]. intros cl1 Hcl1.
  apply evolves_bind; [apply evolves_Client_messageClient; wr|].
  intros s2 H2. apply evolves_Server_messageClient; wr.
Qed.

Lemma evolves_userModeCommand s c t modes :
  writable s c → evolves s (userModeCommand c t modes s).
Proof.
  intros Hw. unfold userModeCommand.
  case_bool_decide; [apply evolves_Server_messageClient; wr|].
  destruct (len modes =? 0).
  { apply evolves_client; [wr|]. intros cl Hcl.
    apply evolves_Server_messageClient; wr. }
  match goal with
  | |- evolves _ (forEach ?xs ?body ?acc0 ≫= _) =>
      destruct (forEach_keeps (λ sa : Server.t * Z, shape s sa.1)
                  xs body acc0)
        as ([s' action] & -> & Hs'); [|apply shape_refl|by exists s']
  end.
  intros char [s1 action] _ H1. simpl in H1.
  assert (Hstep : ∀ r : Result Server.t,
            evolves s1 r →
            ∃ acc, (s ← r; Ok (s, action)) = Ok acc ∧ shape s acc.1).
  { intros r (s2 & -> & H2). exists (s2, action). split; [done|].
    by apply (shape_trans _ s1). }
  destruct (_ || _); [by exists (s1, char)|].
  destruct (action =? _); [apply Hstep, evolves_Server_messageClient; wr|].
  destruct (_ || _); [by exists (s1, action)|].
  destruct (negb _); [apply Hstep, evolves_Server_messageClient; wr|].
  destruct (action =? _); [by exists (s1, action)|].
  pose proof (shape_writable _ _ _ H1 Hw) as (cl1 & Hcl1 & Hopen1).
  unfold Client_isOperator. use_client Hcl1.
  destruct (negb _); [by exists (s1, action)|].
  set (s2 := updClient _ c s1).
  assert (H2 : shape s1 s2).
  { apply shape_updClient. intros ?. by repeat split. }
  pose proof (shape_writable _ _ _ H2 (shape_writable _ _ _ H1 Hw))
    as (cl2 & Hcl2 & Hopen2).
  use_client Hcl2.
  rewrite (Client_messageClient_Ok s2 c cl2 c cl2) by done.
  eexists. split; [done|]. simpl.
  apply (shape_trans _ s1); [done|]. apply (shape_trans _ s2); [done|].
  apply shape_afterSends.
Qed.

Lemma Inv_channel_is_Some s n a :
  Inv s → Server.Channels s !! n = Some a →
  is_Some (Server.channelAt s !! a).
Proof. intros HI Hna. destruct (inv_index _ HI n a Hna) as (ch & ? & _). eauto. Qed.

Lemma evolves_channelModeCommand s c a modes :
  writable s c → is_Some (Server.channelAt s !! a) →
  evolves s (channelModeCommand c a modes s).
Proof.
  intros Hw [ch Hch]. unfold channelModeCommand. use_channel Hch.
  apply evolves_onChannel; [wr|]. intros on.
  destruct (negb on); [apply evolves_Server_messageClient; wr|].
  destruct (len modes =? 0); [apply evolves_Server_messageClient; wr|].
  destruct (_ || _); apply evolves_Server_messageClient; wr.
Qed.

Lemma evolves_modeCommand s c m :
  Inv s → c ∈ Server.Clients s → evolves s (modeCommand c m s).
Proof.
  intros HI Hin. pose proof (inv_clients _ HI _ Hin) as Hw.
  unfold modeCommand. destruct (Params m) as [|target rest].
  { apply evolves_Server_messageClient; wr. }
  destruct (Server.Nicks s !! canonicalizeNick target) as [t|].
  { by apply evolves_userModeCommand. }
  destruct (Server.Channels s !! canonicalizeChannel target) as [a|] eqn:Hna.
  - apply evolves_channelModeCommand; [done|].
    by apply (Inv_channel_is_Some s (canonicalizeChannel target) a).
  - apply evolves_Server_messageClient; wr.
Qed.

Lemma evolves_whoCommand s c m :
  Inv s → c ∈ Server.Clients s → evolves s (whoCommand c m s).
Proof.
  intros HI Hin. pose proof (inv_clients _ HI _ Hin) as Hw.
  unfold whoCommand. destruct (Params m) as [|param0 rest].
  { apply evolves_Server_messageClient; wr. }
  destruct (Server.Channels s !! canonicalizeChannel param0) as [a|] eqn:Hna.
  2:{ apply evolves_Server_messageClient; wr. }
  destruct (inv_index _ HI _ a Hna) as (ch & Hch & _). use_channel Hch.
  apply evolves_onChannel; [wr|]. intros on.
  destruct (negb on); [apply evolves_Server_messageClient; wr|].
  apply evolves_bind.
  - apply evolves_forEach. intros r s1 Hr%elem_of_elements H1.
    destruct (inv_members _ HI _ a ch r Hna Hch Hr) as (Hrin & _).
    pose proof (inv_clients _ HI _ Hrin) as Hwr.
    apply evolves_client; [wr|]. intros rcl Hrcl.
    apply evolves_isOperator; [wr|]. intros isOper.
    apply evolves_Server_messageClient; wr.
  - intros s1 H1. apply evolves_Server_messageClient; wr.
Qed.

Lemma mayFault_evolves s r : evolves s r → mayFault s r.
Proof. by right. Qed.

(** PRIVMSG returns in a state of the same shape unless one of its two
    unchecked indexings panics. *)
Lemma mayFault_privmsgCommand s c m :
  Inv s → c ∈ Server.Clients s → mayFault s (privmsgCommand c m s).
Proof.
  intros HI Hin. pose proof (inv_clients _ HI _ Hin) as Hw.
  pose proof Hw as (cl & Hc & Hopen).
  unfold privmsgCommand. destruct (Params m) as [|target [|msg rest]].
  { apply mayFault_evolves, evolves_Server_messageClient; wr. }
  { apply mayFault_evolves, evolves_Server_messageClient; wr. }
  unfold Client_nickUhost. use_client Hc.
  match goal with
  | |- mayFault _ (?r ≫= _) => destruct r as [msg'|p] eqn:Emsg
  end.
  2:{ left. by exists p. }
  cbn [mbind Result_bind].
  destruct (String.get 0 target) as [target0|]; [|left; by eexists].
  apply mayFault_evolves. case_bool_decide.
  - destruct (negb _); [apply evolves_Server_messageClient; wr|].
    destruct (Server.Channels s !! canonicalizeChannel target) as [a|] eqn:Hna.
    2:{ apply evolves_Server_messageClient; wr. }
    destruct (inv_index _ HI _ a Hna) as (ch & Hch & _). use_channel Hch.
    apply evolves_onChannel; [wr|]. intros on.
    destruct (negb on); [apply evolves_Server_messageClient; wr|].
    apply evolves_forEach. intros r s1 Hr%elem_of_elements H1.
    case_bool_decide; [apply evolves_Ok, shape_refl|].
    destruct (inv_members _ HI _ a ch r Hna Hch Hr) as (Hrin & _).
    pose proof (inv_clients _ HI _ Hrin) as Hwr.
    apply evolves_Client_messageClient; wr.
  - destruct (negb _); [apply evolves_Server_messageClient; wr|].
    destruct (Server.Nicks s !! canonicalizeNick target) as [t|] eqn:Hnk.
    2:{ apply evolves_Server_messageClient; wr. }
    pose proof (Inv_nick_target s _ t HI Hnk) as Hwt.
    apply evolves_Client_messageClient; wr.
Qed.

(** [quit] returns, and keeps the indices consistent. *)
Lemma Client_quit_keeps s c msg :
  Inv s → c ∈ Server.Clients s →
  ∃ s', Client_quit c msg s = Ok s' ∧ Inv s'
        ∧ Server.Clients s' = Server.Clients s ∖ {[c]}
        ∧ Server.ShutdownChanClosed s' = Server.ShutdownChanClosed s.
Proof using ToLower_plainName. tidy'.
  intros HI Hin. destruct (inv_clients _ HI _ Hin) as (cl & Hc & Hopen).
  destruct (Client.Registered cl) eqn:Hreg.
  - destruct (Client_quit_registered_Ok s c cl msg HI Hin Hc Hreg) as [-> HI'].
    eexists. split; [done|]. split; [by apply Inv_afterSends|].
    simpl.
    by destruct (departAll_frame c (map_to_list (Client.Channels cl)) s)
      as (_ & _ & _ & _ & _ & ->).
  - destruct (Client_quit_unregistered_Ok s c cl msg HI Hin Hc Hreg)
      as [-> HI'].
    eexists. split; [done|]. split; [by apply Inv_afterSends|done].
Qed.

Lemma partCommand_keeps s c m :
  Inv s → c ∈ Server.Clients s →
  ∃ s', partCommand c m s = Ok s' ∧ Inv s'.
Proof.
  intros HI Hin. destruct (inv_clients _ HI _ Hin) as (cl & Hc & Hopen).
  unfold partCommand. destruct (Params m) as [|param0 rest].
  - rewrite (Server_messageClient_Ok s c cl) by done.
    eexists. split; [done|]. by apply Inv_afterSends.
  - destruct (Client_part_keeps s c cl param0
                match rest with [] => "" | param1 :: _ => param1 end
                HI Hin Hc) as (s' & _ & -> & HI' & _).
    by exists s'.
Qed.

(** JOIN 0: the client leaves the channels it is on, one PART each. *)
Lemma join0_keeps s c cl :
  Inv s → c ∈ Server.Clients s → Server.clientAt s !! c = Some cl →
  ∃ s',
    forEach (map_to_list (Client.Channels cl))
      (λ '(k, a) s,
         cl ← client s c;
         match Client.Channels cl !! k with
         | None => Ok s
         | Some _ => ch ← channel s a; Client_part c (Channel.Name ch) "" s
         end) s = Ok s'
    ∧ Inv s'.
Proof.
  intros HI Hin Hc.
  match goal with
  | |- ∃ s', forEach ?xs ?body s = Ok s' ∧ _ =>
      destruct (forEach_keeps
                  (λ s', Inv s' ∧ c ∈ Server.Clients s'
                         ∧ ∃ cl', Server.clientAt s' !! c = Some cl'
                                  ∧ Client.Channels cl' ⊆ Client.Channels cl)
                  xs body s) as (s' & E & HI' & _); [| |by exists s']
  end.
  2:{ split; [done|]. split; [done|]. by exists cl. }
  intros [k a] s1 Hka%elem_of_map_to_list (HI1 & Hin1 & cl1 & Hc1 & Hsub).
  use_client Hc1.
  destruct (Client.Channels cl1 !! k) as [a'|] eqn:Hk.
  2:{ exists s1. split; [done|]. split; [done|]. split; [done|]. eauto. }
  assert (a' = a) as ->.
  { pose proof (lookup_weaken _ _ _ _ Hk Hsub). congruence. }
  destruct (inv_joined _ HI1 _ _ _ _ Hin1 Hc1 Hk) as (_ & _ & ch & Hch & _).
  use_channel Hch.
  destruct (Client_part_keeps s1 c cl1 (Channel.Name ch) "" HI1 Hin1 Hc1)
    as (s2 & cl2 & -> & HI2 & EC & _ & Hc2 & Hsub2).
  exists s2. split; [done|]. split; [done|]. split; [by rewrite EC|].
  exists cl2. split; [done|]. by etrans.
Qed.

Lemma joinCommand_keeps s c cl m :
  Inv s → c ∈ Server.Clients s →
  Server.clientAt s !! c = Some cl → Client.Registered cl = true →
  ∃ s', joinCommand c m s = Ok s' ∧ Inv s'.
Proof using ToLower_plainName. tidy'.
  intros HI Hin Hc Hreg.
  destruct (inv_clients _ HI _ Hin) as (cl' & Hc' & Hopen).
  rewrite Hc in Hc'. injection Hc' as <-.
  assert (Hreply : ∀ command params,
    ∃ s', Server_messageClient c command params s = Ok s' ∧ Inv s').
  { intros. rewrite (Server_messageClient_Ok s c cl) by done.
    eexists. split; [done|]. by apply Inv_afterSends. }
  destruct (Params m) as [|param0 rest] eqn:Hparams.
  { unfold joinCommand. rewrite Hparams. apply Hreply. }
  destruct (decide (rest = [] ∧ param0 = "0")) as [[-> ->]|Hnot].
  { unfold joinCommand. rewrite Hparams. simpl. use_client Hc.
    by apply join0_keeps. }
  destruct (isValidChannel (canonicalizeChannel param0)) eqn:Hvalid.
  2:{ unfold joinCommand. rewrite Hparams.
      rewrite (proj2 (andb_false_iff _ _)).
      2:{ destruct (decide (rest = [])) as [->|];
            [|left; by apply bool_decide_eq_false_2].
          right. apply bool_decide_eq_false_2. naive_solver. }
      rewrite Hvalid. apply Hreply. }
  destruct (Client.Channels cl !! canonicalizeChannel param0) as [a|] eqn:Hn.
  - rewrite (joinCommand_enter c m param0 rest s Hparams) by done.
    unfold Client_onChannel. use_client Hc.
    rewrite bool_decide_eq_true_2 by (by rewrite Hn). apply Hreply.
  - rewrite (joinCommand_Ok s c cl m param0 rest) by done.
    eexists. split; [done|]. apply Inv_afterSends.
    by apply (Inv_enter s c cl).
Qed.

Lemma shutdown_keeps s :
  Inv s →
  (Server.ShutdownChanClosed s = false → ∃ s', shutdown s = Ok s' ∧ Inv s')
  ∧ (Server.ShutdownChanClosed s = true
     → shutdown s = Panicked CloseOfClosedChannel).
Proof using ToLower_plainName. tidy'.
  intros HI. unfold shutdown. split; intros ->; [|done].
  cbn [mbind Result_bind].
  apply (forEach_keeps Inv).
  - intros k s1 _ HI1. case_bool_decide as Hk; [|by exists s1].
    destruct (Client_quit_keeps s1 k "Server shutting down" HI1 Hk)
      as (s2 & -> & HI2 & _).
    by exists s2.
  - destruct HI. by split.
Qed.

(** ** The dispatcher keeps the indices consistent *)

Lemma Inv_membershipAgrees s : Inv s → membershipAgrees s.
Proof.
  intros HI n a ch k Hna Hch. split.
  - intros Hk. by destruct (inv_members _ HI n a ch k Hna Hch Hk).
  - intros Hin. split.
    + intros Hk. by destruct (inv_members _ HI n a ch k Hna Hch Hk).
    + intros (cl & Hcl & Hn).
      destruct (inv_joined _ HI k cl n a Hin Hcl Hn) as (_ & _ & ch' & Hch' & ?).
      congruence.
Qed.

Lemma Inv_noEmptyChannel s : Inv s → noEmptyChannel s.
Proof.
  intros HI n a Hna. destruct (inv_index _ HI n a Hna) as (ch & ? & _ & _ & ?).
  eauto.
Qed.

Lemma evolves_Inv s r :
  Inv s → evolves s r → ∃ s', r = Ok s' ∧ Inv s'.
Proof.
  intros HI (s' & -> & Hs). exists s'. split; [done|]. by apply (Inv_shape s).
Qed.

(** The dispatcher, from a consistent state and for an indexed client:
    whatever it returns is consistent, and it does return unless PRIVMSG
    hits one of its unchecked indexings or shutdown has already run. *)
Lemma handleMessage_keeps now s c m :
  Inv s → c ∈ Server.Clients s →
  (∀ s', handleMessage now c m s = Ok s' → Inv s')
  ∧ (Command m ≠ "PRIVMSG" → Server.ShutdownChanClosed s = false →
     ∃ s', handleMessage now c m s = Ok s').
Proof using ToLower_plainName.
  intros HI0 Hin0. unfold handleMessage. fold (touch now c s).
  assert (H1 : shape s (touch now c s)) by apply shape_touch.
  assert (HI : Inv (touch now c s)) by (by apply (Inv_shape s)).
  assert (Hin : c ∈ Server.Clients (touch now c s)) by done.
  assert (Hshut : Server.ShutdownChanClosed (touch now c s)
                  = Server.ShutdownChanClosed s) by done.
  revert HI Hin Hshut. generalize (touch now c s). clear HI0 Hin0 H1.
  intros s1 HI Hin Hshut. rewrite <- Hshut. clear Hshut s.
  pose proof (inv_clients _ HI _ Hin) as Hw.
  assert (Hgood : ∀ r : Result Server.t,
            (∃ s', r = Ok s' ∧ Inv s') →
            (∀ s', r = Ok s' → Inv s') ∧
            (Command m ≠ "PRIVMSG" →
             Server.ShutdownChanClosed s1 = false → ∃ s', r = Ok s')).
  { intros r (s' & -> & HI'). split; [by intros ? [= <-]|by exists s']. }
  assert (Hevo : ∀ r : Result Server.t,
            evolves s1 r →
            (∀ s', r = Ok s' → Inv s') ∧
            (Command m ≠ "PRIVMSG" →
             Server.ShutdownChanClosed s1 = false → ∃ s', r = Ok s')).
  { intros r Hr. by apply Hgood, (evolves_Inv s1). }
  case_bool_decide; [apply Hevo, evolves_Server_messageClient; wr|].
  case_bool_decide; [apply (Hevo (Ok s1)), evolves_Ok, shape_refl|].
  case_bool_decide.
  { destruct (nickCommand_keeps s1 c m HI Hin) as (s' & E & HI' & _).
    apply Hgood. by exists s'. }
  case_bool_decide; [by apply Hevo, evolves_userCommand|].
  pose proof Hw as (cl & Hc & Hopen). use_client Hc.
  destruct (Client.Registered cl) eqn:Hreg;
    [|apply Hevo, evolves_Server_messageClient; wr].
  cbn [negb].
  case_bool_decide; [by apply Hgood, (joinCommand_keeps s1 c cl)|].
  case_bool_decide; [by apply Hgood, partCommand_keeps|].
  case_bool_decide as Hpriv.
  { split; [|by intros ?].
    intros s' E. destruct (mayFault_privmsgCommand s1 c m HI Hin)
      as [[p Ep]|(s'' & E' & Hs'')]; [congruence|].
    rewrite E in E'. injection E' as <-. by apply (Inv_shape s1). }
  case_bool_decide; [by apply Hevo, evolves_lusersCommand|].
  case_bool_decide; [by apply Hevo, evolves_motdCommand|].
  case_bool_decide.
  { unfold quitCommand.
    match goal with
    | |- context [Client_quit c ?msg s1] =>
        destruct (Client_quit_keeps s1 c msg HI Hin) as (s' & E & HI' & _)
    end.
    apply Hgood. by exists s'. }
  case_bool_decide; [apply (Hevo (Ok s1)), evolves_Ok, shape_refl|].
  case_bool_decide; [by apply Hevo, evolves_pingCommand|].
  case_bool_decide.
  { unfold dieCommand. destruct (shutdown_keeps s1 HI) as [Hopen' Hclosed].
    destruct (Server.ShutdownChanClosed s1) eqn:Es.
    - rewrite Hclosed by done. split; [done|]. by intros _ ?.
    - by apply Hgood, Hopen'. }
  case_bool_decide; [by apply Hevo, evolves_whoisCommand|].
  case_bool_decide; [by apply Hevo, evolves_operCommand|].
  case_bool_decide; [by apply Hevo, evolves_modeCommand|].
  case_bool_decide; [by apply Hevo, evolves_whoCommand|].
  apply Hevo, evolves_Server_messageClient; wr.
Qed.

(** C6.  From a state with consistent indices, and for an indexed client,
    every state the dispatcher returns has consistent indices again: a
    member of an indexed channel is an indexed client, an indexed client is
    a member of an indexed channel exactly when its channel map has the
    channel, and no indexed channel is empty.  The dispatcher does return,
    for every command but PRIVMSG, as long as shutdown has not run. *)
Theorem dispatcher_keeps_membership now s c m :
  Inv s → c ∈ Server.Clients s →
  (∀ s', handleMessage now c m s = Ok s' →
     membershipAgrees s' ∧ noEmptyChannel s' ∧ Inv s')
  ∧ (Command m ≠ "PRIVMSG" → Server.ShutdownChanClosed s = false →
     ∃ s', handleMessage now c m s = Ok s').
Proof using ToLower_plainName.
  intros HI Hin. destruct (handleMessage_keeps now s c m HI Hin) as [H1 H2].
  split; [|done]. intros s' E. specialize (H1 s' E).
  split; [by apply Inv_membershipAgrees|].
  split; [by apply Inv_noEmptyChannel|done].
Qed.

(** ** The liveness sweep *)

(** The body of the sweep, for one client.  With [idle] the time since its
    last activity and [sincePing] the time since its last PING: for a
    registered client it does nothing if [idle] is below the ping period,
    is the quit procedure with "Ping timeout: <seconds> seconds" if [idle]
    is above the dead period, and otherwise sends PING with the server name
    and sets the last-ping time to now exactly when [sincePing] is not
    below the ping period; for a client that is not registered it is the
    quit procedure with "Idle too long." exactly when [idle] is above the
    dead period, and does nothing otherwise. *)
Lemma checkAndPingClient_cases now s c cl :
  Server.clientAt s !! c = Some cl →
  Client.WriteChanClosed cl = false →
  let idle := Sub now (Client.LastActivityTime cl) in
  let sincePing := Sub now (Client.LastPingTime cl) in
  let pingPeriod := Server.PingTime s in
  let deadPeriod := Server.DeadTime s in
  (Client.Registered cl = true →
     (idle < pingPeriod → checkAndPingClient now c s = Ok s)
     ∧ (pingPeriod ≤ idle → deadPeriod < idle →
        checkAndPingClient now c s
        = Client_quit c
            ("Ping timeout: " +:+ pretty (intSeconds idle) +:+ " seconds") s)
     ∧ (pingPeriod ≤ idle → idle ≤ deadPeriod → pingPeriod ≤ sincePing →
        checkAndPingClient now c s
        = Ok (updClient (Client.setLastPingTime now) c
                (afterSends
                   [(c, mkMessage (config s "server-name") "PING"
                          [config s "server-name"])] s)))
     ∧ (pingPeriod ≤ idle → idle ≤ deadPeriod → sincePing < pingPeriod →
        checkAndPingClient now c s = Ok s))
  ∧ (Client.Registered cl = false →
     (deadPeriod < idle →
      checkAndPingClient now c s = Client_quit c "Idle too long." s)
     ∧ (idle ≤ deadPeriod → checkAndPingClient now c s = Ok s)).
Proof.
  intros Hc Hopen idle sincePing pingPeriod deadPeriod.
  unfold checkAndPingClient. use_client Hc.
  fold idle sincePing pingPeriod deadPeriod.
  split; intros ->.
  - repeat split.
    + intros H. by rewrite (proj2 (Z.ltb_lt _ _) H).
    + intros H1 H2. rewrite (proj2 (Z.ltb_ge _ _) H1).
      by rewrite (proj2 (Z.ltb_lt _ _) H2).
    + intros H1 H2 H3. rewrite (proj2 (Z.ltb_ge _ _) H1).
      rewrite (proj2 (Z.ltb_ge _ _) H2), (proj2 (Z.ltb_ge _ _) H3).
      by rewrite (Server_messageClient_Ok s c cl).
    + intros H1 H2 H3. rewrite (proj2 (Z.ltb_ge _ _) H1).
      by rewrite (proj2 (Z.ltb_ge _ _) H2), (proj2 (Z.ltb_lt _ _) H3).
  - split.
    + intros H. by rewrite (proj2 (Z.ltb_lt _ _) H).
    + intros H. by rewrite (proj2 (Z.ltb_ge _ _) H).
Qed.

(** ** JOIN then PART *)

Lemma Server_ext s s' :
  Server.Config s = Server.Config s' → Server.Clients s = Server.Clients s' →
  Server.Nicks s = Server.Nicks s' → Server.Channels s = Server.Channels s' →
  Server.ShutdownChanClosed s = Server.ShutdownChanClosed s' →
  Server.PingTime s = Server.PingTime s' →
  Server.DeadTime s = Server.DeadTime s' → Server.Opers s = Server.Opers s' →
  Server.clientAt s = Server.clientAt s' →
  Server.channelAt s = Server.channelAt s' → Server.sent s = Server.sent s' →
  s = s'.
Proof. destruct s, s'. simpl. by intros -> -> -> -> -> -> -> -> -> -> ->. Qed.

Lemma depart_touch c a now s :
  depart c a (touch now c s) = touch now c (depart c a s).
Proof. tidy.
  unfold depart, touch. simpl.
  destruct (alter _ a (Server.channelAt s) !! a) as [ch|]; [|done].
  by case_bool_decide.
Qed.

Lemma leave_afterSends c n a l s :
  leave c n a (afterSends l s) = afterSends l (leave c n a s).
Proof. unfold leave. by rewrite <- depart_afterSends. Qed.

Lemma leave_touch c n a now s :
  leave c n a (touch now c s) = touch now c (leave c n a s).
Proof. tidy.
  unfold leave. rewrite <- depart_touch. f_equal.
  unfold touch, updClient, Server.setClientAt. simpl. f_equal.
  apply map_eq. intros k. destruct (decide (k = c)) as [->|].
  - rewrite !lookup_alter_eq. by destruct (Server.clientAt s !! c).
  - by rewrite !lookup_alter_ne.
Qed.

Lemma enter_afterSends c n l s :
  enter c n (afterSends l s)
  = ((enter c n s).1, afterSends l (enter c n s).2).
Proof. tidy.
  unfold enter. simpl. by destruct (Server.Channels s !! n).
Qed.

Lemma enter_touch c n now s :
  enter c n (touch now c s) = ((enter c n s).1, touch now c (enter c n s).2).
Proof. tidy.
  unfold enter. simpl.
  destruct (Server.Channels s !! n); simpl; f_equal;
    unfold touch, updClient, updChannel, Server.setClientAt; simpl; f_equal;
    apply map_eq; intros k; (destruct (decide (k = c)) as [->|];
      [rewrite !lookup_alter_eq; by destruct (Server.clientAt s !! c)
      |by rewrite !lookup_alter_ne]).
Qed.

Lemma Inv_members_empty s n :
  Inv s →
  default ∅ (Channel.Members <$> channelNamed s n) = ∅
  ↔ Server.Channels s !! n = None.
Proof. tidy.
  intros HI. unfold channelNamed.
  destruct (Server.Channels s !! n) as [a|] eqn:Hna; simpl; [|done].
  destruct (inv_index _ HI n a Hna) as (ch & -> & _ & _ & Hne). simpl.
  split; [done|discriminate].
Qed.

(** Entering a channel and leaving it again: the indices are back, and the
    store holds the channel object with its old members. *)
Lemma leave_enter s c cl n :
  Inv s → c ∈ Server.Clients s → Server.clientAt s !! c = Some cl →
  Client.Channels cl !! n = None →
  leave c n (enter c n s).1 (enter c n s).2
  = Server.setChannelAt
      (<[(enter c n s).1
         := Channel.mk n (default ∅ (Channel.Members <$> channelNamed s n))]>
         (Server.channelAt s)) s.
Proof. tidy.
  intros HI Hin Hc Hn.
  destruct (enter_facts s c cl n HI Hin Hc Hn)
    as (a & M0 & E & EM & _ & Hsame & HcM & _).
  rewrite E. cbn [fst snd]. rewrite <- EM.
  assert (EM' : ({[c]} ∪ M0) ∖ {[c]} = M0) by set_solver.
  unfold leave, depart. simpl.
  rewrite lookup_alter_eq, lookup_insert_eq. simpl. rewrite EM'.
  assert (Ecl : alter
                  (λ cl0, Client.setChannels (delete n (Client.Channels cl0)) cl0)
                  c (<[c:=Client.setChannels (<[n:=a]> (Client.Channels cl)) cl]>
                       (Server.clientAt s))
                = Server.clientAt s).
  { apply map_eq. intros k. destruct (decide (k = c)) as [->|].
    - rewrite lookup_alter_eq, lookup_insert_eq, Hc. simpl. f_equal.
      unfold Client.setChannels. simpl.
      rewrite delete_insert_eq, delete_id by done. by destruct cl.
    - by rewrite lookup_alter_ne, lookup_insert_ne. }
  assert (Ech : alter
                  (λ ch, Channel.setMembers (Channel.Members ch ∖ {[c]}) ch) a
                  (<[a:=Channel.mk n ({[c]} ∪ M0)]> (Server.channelAt s))
                = <[a:=Channel.mk n M0]> (Server.channelAt s)).
  { apply map_eq. intros k. destruct (decide (k = a)) as [->|].
    - rewrite lookup_alter_eq, !lookup_insert_eq. simpl.
      unfold Channel.setMembers. simpl. by rewrite EM'.
    - by rewrite lookup_alter_ne, !lookup_insert_ne. }
  assert (Eidx : (if bool_decide (size M0 = 0%nat)
                  then delete n (<[n:=a]> (Server.Channels s))
                  else <[n:=a]> (Server.Channels s)) = Server.Channels s).
  { case_bool_decide as Hsz.
    - apply size_empty_inv, leibniz_equiv in Hsz.
      rewrite delete_insert_eq. apply delete_id.
      apply (Inv_members_empty s n HI). congruence.
    - destruct (Server.Channels s !! n) as [a'|] eqn:Hna.
      + rewrite (Hsame a' eq_refl) in Hna. by apply insert_id.
      + exfalso. apply Hsz. apply (Inv_members_empty s n HI) in Hna.
        rewrite EM, Hna. apply size_empty. }
  case_bool_decide as Hsz; apply Server_ext; simpl; try done;
    rewrite ?Ecl, ?Ech, ?Eidx; try done.
Qed.

Lemma enter_channelNamed s c cl n n' :
  Inv s → c ∈ Server.Clients s → Server.clientAt s !! c = Some cl →
  Client.Channels cl !! n = None →
  channelNamed (enter c n s).2 n'
  = if decide (n' = n)
    then Some (Channel.mk n
                 ({[c]} ∪ default ∅ (Channel.Members <$> channelNamed s n)))
    else channelNamed s n'.
Proof. tidy.
  intros HI Hin Hc Hn.
  destruct (enter_facts s c cl n HI Hin Hc Hn)
    as (a & M0 & E & EM & _ & _ & _ & Hfree & _).
  rewrite E. cbn [snd]. rewrite <- EM. unfold channelNamed. simpl.
  case_decide as Hnn.
  - subst. rewrite lookup_insert_eq. simpl. by rewrite lookup_insert_eq.
  - rewrite lookup_insert_ne by done.
    destruct (Server.Channels s !! n') as [a'|] eqn:Hna'; [|done]. simpl.
    rewrite lookup_insert_ne; [done|]. intros ->. by apply (Hfree n').
Qed.

Lemma handleMessage_JOIN now s c cl m :
  Server.clientAt s !! c = Some cl → Client.Registered cl = true →
  Prefix m = "" → Command m = "JOIN" →
  handleMessage now c m s = joinCommand c m (touch now c s).
Proof.
  intros Hc Hreg Hpre Hcmd. unfold handleMessage. fold (touch now c s).
  rewrite Hpre, Hcmd. rewrite bool_decide_eq_false_2 by (intros E; by apply E).
  rewrite !bool_decide_eq_false_2 by done.
  assert (Hc1 : Server.clientAt (touch now c s) !! c
                = Some (Client.setLastActivityTime now cl)).
  { unfold touch. by rewrite lookup_updClient, Hc. }
  use_client Hc1. by rewrite Hreg.
Qed.

Lemma handleMessage_PART now s c cl m :
  Server.clientAt s !! c = Some cl → Client.Registered cl = true →
  Prefix m = "" → Command m = "PART" →
  handleMessage now c m s = partCommand c m (touch now c s).
Proof.
  intros Hc Hreg Hpre Hcmd. unfold handleMessage. fold (touch now c s).
  rewrite Hpre, Hcmd. rewrite bool_decide_eq_false_2 by (intros E; by apply E).
  rewrite !bool_decide_eq_false_2 by done.
  assert (Hc1 : Server.clientAt (touch now c s) !! c
                = Some (Client.setLastActivityTime now cl)).
  { unfold touch. by rewrite lookup_updClient, Hc. }
  use_client Hc1. by rewrite Hreg.
Qed.

Lemma joinReplies_same s s' c cl cl' n members :
  Server.Config s' = Server.Config s →
  Client.Nick cl' = Client.Nick cl → Client.User cl' = Client.User cl →
  Client.IP cl' = Client.IP cl →
  (∀ r, nickOf s' r = nickOf s r) →
  joinReplies s' c cl' n members = joinReplies s c cl n members.
Proof.
  intros EG EN EU EI Hnick. unfold joinReplies.
  rewrite !(clientMessage_same cl cl') by done.
  rewrite (serverMessage_same s s' cl cl') by done.
  f_equal. f_equal. apply Forall_fmap_ext_1, Forall_forall. intros r _.
  by rewrite (serverMessage_same s s' cl cl'), Hnick by done.
Qed.

Lemma nickOf_touch now c s r : nickOf (touch now c s) r = nickOf s r.
Proof.
  unfold nickOf, touch. destruct (decide (c = r)) as [->|].
  - rewrite lookup_updClient. by destruct (Server.clientAt s !! r).
  - by rewrite lookup_updClient_ne.
Qed.

Lemma channelNamed_touch now c s n :
  channelNamed (touch now c s) n = channelNamed s n.
Proof. done. Qed.

(** *** With the order of the ranges as a parameter *)

Lemma enumerates_elem order i X r :
  enumerates order → r ∈ order i X ↔ r ∈ X.
Proof. tidy. intros H. rewrite (H i X). apply elem_of_elements. Qed.

Lemma enumerates_inElementsOrder : enumerates inElementsOrder.
Proof. by intros i X. Qed.

Lemma joinCommandIn_enter order c m param0 rest s :
  Params m = param0 :: rest →
  ¬ (rest = [] ∧ param0 = "0") →
  isValidChannel (canonicalizeChannel param0) = true →
  joinCommandIn order c m s
  = (on ← Client_onChannel c (canonicalizeChannel param0) s;
     if (on : bool) then
       Server_messageClient c "ERROR" ["You are on that channel"] s
     else
       let '(a, s) := enter c (canonicalizeChannel param0) s in
       ch ← channel s a;
       s ← Client_messageClient c c "JOIN" [Channel.Name ch] s;
       s ← forEach (order 0%nat (Channel.Members ch))
             (λ member s,
                mcl ← client s member;
                Server_messageClient c "353"
                  ["="; Channel.Name ch; ":" +:+ Client.Nick mcl] s) s;
       s ← Server_messageClient c "366"
             [Channel.Name ch; "End of NAMES list"] s;
       forEach (order 1%nat (Channel.Members ch))
         (λ member s,
            if bool_decide (member = c) then Ok s
            else Client_messageClient c member "JOIN" [Channel.Name ch] s) s).
Proof. tidy.
  intros Hparams Hnot Hvalid. unfold joinCommandIn. rewrite Hparams.
  rewrite (proj2 (andb_false_iff _ _)).
  2:{ destruct (decide (rest = [])) as [->|];
        [|left; by apply bool_decide_eq_false_2].
      right. apply bool_decide_eq_false_2. naive_solver. }
  rewrite Hvalid. simpl.
  destruct (Client_onChannel c (canonicalizeChannel param0) s) as [[]|];
    [done| |done].
  simpl. unfold enter.
  by destruct (Server.Channels s !! canonicalizeChannel param0).
Qed.

(** A successful JOIN, whatever the order of its two loops: the state is
    that of [enter] and the sends are [joinRepliesIn]. *)
Lemma joinCommandIn_Ok order s c cl m param0 rest :
  enumerates order →
  Inv s → c ∈ Server.Clients s →
  Server.clientAt s !! c = Some cl →
  Params m = param0 :: rest →
  let n := canonicalizeChannel param0 in
  isValidChannel n = true →
  Client.Channels cl !! n = None →
  let M0 := default ∅ (Channel.Members <$> channelNamed s n) in
  joinCommandIn order c m s
  = Ok (afterSends (joinRepliesIn order s c cl n ({[c]} ∪ M0))
          (enter c n s).2).
Proof using ToLower_plainName. tidy'.
  intros Horder HI Hin Hc Hparams n Hvalid Hn M0.
  destruct (inv_clients _ HI _ Hin) as (cl' & Hc' & Hopen).
  rewrite Hc in Hc'. injection Hc' as <-.
  rewrite (joinCommandIn_enter order c m param0 rest s Hparams); [|
    intros [_ ?]; by apply (zero_not_channel param0)|done].
  fold n. unfold Client_onChannel. use_client Hc.
  rewrite bool_decide_eq_false_2 by (rewrite Hn; by intros [? ?]).
  destruct (enter_facts s c cl n HI Hin Hc Hn)
    as (a & M0' & -> & -> & _ & _ & HcM & _ & HM & _).
  fold M0 in HcM, HM |- *.
  set (cl1 := Client.setChannels (<[n:=a]> (Client.Channels cl)) cl).
  set (ch1 := Channel.mk n ({[c]} ∪ M0)).
  set (S1 := Server.setClientAt _ _).
  assert (Hc1 : ∀ l, Server.clientAt (afterSends l S1) !! c = Some cl1).
  { intros l. simpl. by rewrite lookup_insert_eq. }
  assert (Hch1 : Server.channelAt S1 !! a = Some ch1).
  { simpl. by rewrite lookup_insert_eq. }
  assert (Hmem : ∀ r l, r ∈ {[c]} ∪ M0 →
            ∃ rcl, Server.clientAt (afterSends l S1) !! r = Some rcl
                   ∧ Client.WriteChanClosed rcl = false
                   ∧ Client.Nick rcl = nickOf s r).
  { intros r l [->%elem_of_singleton|Hr]%elem_of_union.
    - exists cl1. split; [apply Hc1|]. split; [done|].
      unfold nickOf. by rewrite Hc.
    - destruct (HM r Hr) as (Hrin & rcl & Hrcl & _).
      assert (r ≠ c) by (intros ->; done).
      destruct (inv_clients _ HI _ Hrin) as (rcl' & Hrcl' & Hropen).
      rewrite Hrcl in Hrcl'. injection Hrcl' as <-.
      exists rcl. simpl. rewrite lookup_insert_ne by done.
      split; [done|]. split; [done|]. unfold nickOf. by rewrite Hrcl. }
  cbn [snd]. use_channel Hch1.
  rewrite <- (afterSends_nil S1) at 1.
  rewrite (Client_messageClient_Ok _ c cl1 c cl1) by (done || apply Hc1).
  cbn [mbind Result_bind]. rewrite afterSends_app.
  rewrite (forEach_sends _ _
             (λ r, [(c, serverMessage s cl "353" ["="; n; ":" +:+ nickOf s r])])).
  2:{ intros r l Hr. apply (enumerates_elem order _ _ _ Horder) in Hr.
      destruct (Hmem r l Hr) as (rcl & Hrcl & _ & Hnick).
      use_client Hrcl.
      rewrite (Server_messageClient_Ok _ c cl1) by (done || apply Hc1).
      by rewrite afterSends_app, Hnick. }
  cbn [mbind Result_bind].
  rewrite (Server_messageClient_Ok _ c cl1) by (done || apply Hc1).
  cbn [mbind Result_bind]. rewrite afterSends_app.
  rewrite (forEach_sends _ _
             (λ r, if bool_decide (r = c) then []
                   else [(r, clientMessage cl "JOIN" [n])])).
  2:{ intros r l Hr. apply (enumerates_elem order _ _ _ Horder) in Hr.
      case_bool_decide.
      - by rewrite app_nil_r.
      - destruct (Hmem r l Hr) as (rcl & Hrcl & Hropen & _).
        rewrite (Client_messageClient_Ok _ c cl1 r rcl)
          by (done || apply Hc1).
        by rewrite afterSends_app. }
  rewrite concat_singletons.
  rewrite (concat_unless c (λ r, (r, clientMessage cl "JOIN" [n]))).
  unfold joinRepliesIn. simpl. by rewrite <- !app_assoc.
Qed.

(** A successful [part], whatever the order of its loop. *)
Lemma Client_partIn_Ok order s c cl channelName message a :
  enumerates order →
  Inv s → c ∈ Server.Clients s →
  Server.clientAt s !! c = Some cl →
  let n := canonicalizeChannel channelName in
  isValidChannel n = true →
  Client.Channels cl !! n = Some a →
  Client_partIn order c channelName message s
  = Ok (afterSends
          (partRepliesIn order cl n message
             (default ∅ (Channel.Members <$> channelNamed s n)))
          (leave c n a s)).
Proof.
  intros Horder HI Hin Hc n Hvalid Hn.
  destruct (inv_joined _ HI _ _ _ _ Hin Hc Hn) as (_ & Hidx & ch & Hch & Hmem).
  destruct (inv_index _ HI _ _ Hidx) as (ch' & Hch' & Hname & _).
  rewrite Hch in Hch'. injection Hch' as <-.
  unfold Client_partIn. fold n. rewrite Hvalid, Hidx. simpl.
  use_channel Hch. unfold Client_onChannel. use_client Hc.
  rewrite Hname, bool_decide_eq_true_2 by done. simpl.
  rewrite <- (afterSends_nil s) at 1.
  rewrite (forEach_sends _ _
             (λ r, [(r, clientMessage cl "PART"
                          (if 0 <? len message then [n] ++ [message]
                           else [n]))])).
  2:{ intros r l Hr. apply (enumerates_elem order _ _ _ Horder) in Hr.
      destruct (inv_members _ HI _ _ _ _ Hidx Hch Hr) as (Hrin & _).
      destruct (inv_clients _ HI _ Hrin) as (rcl & Hrcl & Hropen).
      rewrite (Client_messageClient_Ok _ c cl r rcl) by done.
      by rewrite afterSends_app. }
  cbn [mbind Result_bind]. rewrite concat_singletons.
  unfold channel. simpl. rewrite !lookup_alter_eq, Hch. simpl.
  unfold partRepliesIn, channelNamed. rewrite Hidx. simpl. rewrite Hch. simpl.
  unfold leave, depart. simpl. rewrite lookup_alter_eq, Hch. simpl.
  rewrite Hname. by case_bool_decide.
Qed.

Lemma handleMessageIn_JOIN order now s c cl m :
  Server.clientAt s !! c = Some cl → Client.Registered cl = true →
  Prefix m = "" → Command m = "JOIN" →
  handleMessageIn order now c m s = joinCommandIn order c m (touch now c s).
Proof.
  intros Hc Hreg Hpre Hcmd. unfold handleMessageIn. fold (touch now c s).
  rewrite Hpre, Hcmd. rewrite bool_decide_eq_false_2 by (intros E; by apply E).
  rewrite !bool_decide_eq_false_2 by done.
  assert (Hc1 : Server.clientAt (touch now c s) !! c
                = Some (Client.setLastActivityTime now cl)).
  { unfold touch. by rewrite lookup_updClient, Hc. }
  use_client Hc1. by rewrite Hreg.
Qed.

Lemma handleMessageIn_PART order now s c cl m :
  Server.clientAt s !! c = Some cl → Client.Registered cl = true →
  Prefix m = "" → Command m = "PART" →
  handleMessageIn order now c m s = partCommandIn order c m (touch now c s).
Proof.
  intros Hc Hreg Hpre Hcmd. unfold handleMessageIn. fold (touch now c s).
  rewrite Hpre, Hcmd. rewrite bool_decide_eq_false_2 by (intros E; by apply E).
  rewrite !bool_decide_eq_false_2 by done.
  assert (Hc1 : Server.clientAt (touch now c s) !! c
                = Some (Client.setLastActivityTime now cl)).
  { unfold touch. by rewrite lookup_updClient, Hc. }
  use_client Hc1. by rewrite Hreg.
Qed.

(** The dispatcher above is the one with the order of [elements]. *)
Lemma handleMessageIn_elements now c m s :
  handleMessageIn inElementsOrder now c m s = handleMessage now c m s.
Proof. reflexivity. Qed.

Lemma joinRepliesIn_same order s s' c cl cl' n members :
  Server.Config s' = Server.Config s →
  Client.Nick cl' = Client.Nick cl → Client.User cl' = Client.User cl →
  Client.IP cl' = Client.IP cl →
  (∀ r, nickOf s' r = nickOf s r) →
  joinRepliesIn order s' c cl' n members = joinRepliesIn order s c cl n members.
Proof.
  intros EG EN EU EI Hnick. unfold joinRepliesIn.
  rewrite !(clientMessage_same cl cl') by done.
  rewrite (serverMessage_same s s' cl cl') by done.
  f_equal. f_equal. apply Forall_fmap_ext_1, Forall_forall. intros r _.
  by rewrite (serverMessage_same s s' cl cl'), Hnick by done.
Qed.

(** Two orders give the same replies, up to the order of the 353 lines
    among themselves and of the JOIN notices among themselves. *)
Lemma joinRepliesIn_Permutation order order' s c cl n members :
  enumerates order → enumerates order' →
  joinRepliesIn order' s c cl n members ≡ₚ joinRepliesIn order s c cl n members.
Proof. tidy.
  intros H H'. unfold joinRepliesIn.
  by rewrite (H' 0%nat members), (H' 1%nat members), (H 0%nat members),
    (H 1%nat members).
Qed.

(** C7, as amended.  A registered client that is not on the channel sends
    JOIN and then PART for a channel name that is valid once canonical.
    The order in which each of the three commands goes over the members of
    the channel is any: Go does not fix the order of a range over a map.
    After the PART the client index, the nick index and the channel index
    are what they were before the JOIN, every indexed name leads to the
    channel object it led to, and every client has its old channel map.  A
    second JOIN from there leads to the same indices as the first: same
    clients, same nicks, the same channel under every name, the same
    channel names for every client.  It sends what the first one sent:
    JOIN to the client, the same 353 lines, the same 366, and JOIN to the
    same other members, in this order; the 353 lines among themselves, and
    the JOIN notices among themselves, come in the order of the loop, so
    the two lists of replies are the same up to that, and the same when
    the loops of the two JOINs take the same order.  The dispatcher above
    is this one with the order of [elements] in every loop. *)
Theorem join_part_join order1 order2 order3 now1 now2 now3 s c cl mj mp p
    restj restp :
  enumerates order1 → enumerates order2 → enumerates order3 →
  Inv s → c ∈ Server.Clients s →
  Server.clientAt s !! c = Some cl → Client.Registered cl = true →
  Prefix mj = "" → Command mj = "JOIN" → Params mj = p :: restj →
  Prefix mp = "" → Command mp = "PART" → Params mp = p :: restp →
  let n := canonicalizeChannel p in
  isValidChannel n = true →
  Client.Channels cl !! n = None →
  let members := {[c]} ∪ default ∅ (Channel.Members <$> channelNamed s n) in
  ∃ s1 s2 s3,
    handleMessageIn order1 now1 c mj s = Ok s1
    ∧ handleMessageIn order2 now2 c mp s1 = Ok s2
    ∧ handleMessageIn order3 now3 c mj s2 = Ok s3
    ∧ (Server.Clients s2 = Server.Clients s
       ∧ Server.Nicks s2 = Server.Nicks s
       ∧ Server.Channels s2 = Server.Channels s
       ∧ (∀ n', channelNamed s2 n' = channelNamed s n')
       ∧ (∀ k, Client.Channels <$> Server.clientAt s2 !! k
               = Client.Channels <$> Server.clientAt s !! k))
    ∧ (Server.sent s1
       = Server.sent s ++ joinRepliesIn order1 s c cl n members
       ∧ Server.sent s3
         = Server.sent s2 ++ joinRepliesIn order3 s c cl n members
       ∧ joinRepliesIn order3 s c cl n members
         ≡ₚ joinRepliesIn order1 s c cl n members
       ∧ (order3 0%nat members = order1 0%nat members →
          order3 1%nat members = order1 1%nat members →
          joinRepliesIn order3 s c cl n members
          = joinRepliesIn order1 s c cl n members))
    ∧ (Server.Clients s3 = Server.Clients s1
       ∧ Server.Nicks s3 = Server.Nicks s1
       ∧ (∀ n', channelNamed s3 n' = channelNamed s1 n')
       ∧ (∀ k, dom <$> (Client.Channels <$> Server.clientAt s3 !! k)
               = dom <$> (Client.Channels <$> Server.clientAt s1 !! k)))
    ∧ (∀ now' c' m' s',
         handleMessageIn inElementsOrder now' c' m' s'
         = handleMessage now' c' m' s').
Proof using ToLower_plainName. tidy'.
  intros Ho1 Ho2 Ho3 HI Hin Hc Hreg Hprej Hcmdj Hparamsj Hprep Hcmdp Hparamsp
    n Hvalid Hn members.
  set (M0 := default ∅ (Channel.Members <$> channelNamed s n)) in *.
  set (a := (enter c n s).1).
  (* the first JOIN *)
  set (sA := touch now1 c s).
  set (clA := Client.setLastActivityTime now1 cl).
  assert (HcA : Server.clientAt sA !! c = Some clA).
  { unfold sA, touch. by rewrite lookup_updClient, Hc. }
  assert (HIA : Inv sA) by (apply (Inv_shape s); [done|apply shape_touch]).
  set (replies1 := joinRepliesIn order1 sA c clA n ({[c]} ∪ M0)).
  set (s1 := afterSends replies1 (touch now1 c (enter c n s).2)).
  assert (E1 : handleMessageIn order1 now1 c mj s = Ok s1).
  { rewrite (handleMessageIn_JOIN order1 now1 s c cl) by done. fold sA.
    rewrite (joinCommandIn_Ok order1 sA c clA mj p restj) by done.
    unfold sA at 3. by rewrite enter_touch. }
  assert (HI1 : Inv s1).
  { apply Inv_afterSends. apply (Inv_shape (enter c n s).2);
      [by apply (Inv_enter s c cl)|apply shape_touch]. }
  destruct (enter_facts s c cl n HI Hin Hc Hn)
    as (a' & M0' & Eenter & EM & _ & _ & _ & _).
  assert (a' = a) as -> by (unfold a; by rewrite Eenter).
  assert (M0' = M0) as -> by done. clear EM.
  set (cl1 := Client.setLastActivityTime now1
                (Client.setChannels (<[n:=a]> (Client.Channels cl)) cl)).
  assert (Hc1 : Server.clientAt s1 !! c = Some cl1).
  { unfold s1. simpl. rewrite Eenter. simpl.
    by rewrite lookup_alter_eq, lookup_insert_eq. }
  (* the PART *)
  set (sB := touch now2 c s1).
  set (clB := Client.setLastActivityTime now2 cl1).
  assert (HcB : Server.clientAt sB !! c = Some clB).
  { unfold sB, touch. by rewrite lookup_updClient, Hc1. }
  assert (HIB : Inv sB) by (apply (Inv_shape s1); [done|apply shape_touch]).
  set (message := match restp with [] => "" | param1 :: _ => param1 end).
  set (parted := partRepliesIn order2 clB n message
                   (default ∅ (Channel.Members <$> channelNamed sB n))).
  set (S0 := Server.setChannelAt
               (<[a := Channel.mk n M0]> (Server.channelAt s)) s).
  set (s2 := afterSends parted
               (touch now2 c (afterSends replies1 (touch now1 c S0)))).
  assert (HinB : c ∈ Server.Clients sB).
  { unfold sB, s1. simpl. by rewrite Eenter. }
  assert (HnB : Client.Channels clB !! n = Some a).
  { simpl. by rewrite lookup_insert_eq. }
  assert (Es2 : afterSends parted (leave c n a sB) = s2).
  { unfold s2, sB, s1.
    rewrite leave_touch, leave_afterSends, leave_touch.
    unfold a. by rewrite (leave_enter s c cl n). }
  assert (E2 : handleMessageIn order2 now2 c mp s1 = Ok s2).
  { rewrite (handleMessageIn_PART order2 now2 s1 c cl1) by done. fold sB.
    unfold partCommandIn. rewrite Hparamsp. fold message.
    rewrite (Client_partIn_Ok order2 sB c clB p message a Ho2 HIB HinB HcB
               Hvalid HnB).
    fold n. fold parted. by rewrite Es2. }
  assert (HI2 : Inv s2).
  { rewrite <- Es2. apply Inv_afterSends. by apply (Inv_leave sB c clB n a). }
  assert (Hin1 : c ∈ Server.Clients s1).
  { unfold s1. simpl. by rewrite Eenter. }
  assert (Hnamed2 : ∀ n', channelNamed s2 n' = channelNamed s n').
  { intros n'. unfold channelNamed. simpl.
    destruct (Server.Channels s !! n') as [a'|] eqn:Hna'; [|done]. simpl.
    destruct (decide (a' = a)) as [->|Hne]; [|by rewrite lookup_insert_ne].
    rewrite lookup_insert_eq.
    destruct (inv_index _ HI n' a Hna') as (ch & Hch & Hname & _).
    assert (n' = n) as ->.
    { destruct (decide (n' = n)) as [|Hnn]; [done|].
      destruct (enter_facts s c cl n HI Hin Hc Hn)
        as (a2 & M2 & Ea2 & _ & _ & _ & _ & Hfree & _).
      assert (Ea : a2 = a) by (unfold a; by rewrite Ea2).
      rewrite Ea in Hfree. by destruct (Hfree n' Hnn). }
    unfold M0, channelNamed. rewrite Hna'. simpl. rewrite Hch. simpl.
    rewrite <- Hname. by destruct ch. }
  set (cl2 := Client.setLastActivityTime now2
                (Client.setLastActivityTime now1 cl)).
  assert (Hcl2 : ∀ k, Server.clientAt s2 !! k
                      = if decide (k = c) then Some cl2
                        else Server.clientAt s !! k).
  { intros k. simpl. case_decide as Hk.
    - subst. by rewrite !lookup_alter_eq, Hc.
    - by rewrite !lookup_alter_ne. }
  (* the second JOIN *)
  assert (Hc2 : Server.clientAt s2 !! c = Some cl2).
  { by rewrite Hcl2, decide_True. }
  set (sC := touch now3 c s2).
  set (clC := Client.setLastActivityTime now3 cl2).
  assert (HcC : Server.clientAt sC !! c = Some clC).
  { unfold sC, touch. by rewrite lookup_updClient, Hc2. }
  assert (HIC : Inv sC) by (apply (Inv_shape s2); [done|apply shape_touch]).
  assert (HinC : c ∈ Server.Clients sC) by done.
  assert (EMC : default ∅ (Channel.Members <$> channelNamed sC n) = M0).
  { unfold sC. by rewrite channelNamed_touch, Hnamed2. }
  set (replies3 := joinRepliesIn order3 sC c clC n ({[c]} ∪ M0)).
  set (s3 := afterSends replies3 (enter c n sC).2).
  assert (E3 : handleMessageIn order3 now3 c mj s2 = Ok s3).
  { rewrite (handleMessageIn_JOIN order3 now3 s2 c cl2) by done. fold sC.
    rewrite (joinCommandIn_Ok order3 sC c clC mj p restj) by done.
    fold n. by rewrite EMC. }
  assert (Er1 : replies1 = joinRepliesIn order1 s c cl n members).
  { unfold replies1. apply joinRepliesIn_same; try done.
    intros r. unfold sA. by rewrite nickOf_touch. }
  assert (Er3 : replies3 = joinRepliesIn order3 s c cl n members).
  { unfold replies3. apply joinRepliesIn_same; try done.
    intros r. unfold sC. rewrite nickOf_touch.
    unfold nickOf. rewrite Hcl2. case_decide; [subst|done].
    by rewrite Hc. }
  exists s1, s2, s3.
  split; [done|]. split; [done|]. split; [done|].
  destruct (enter_facts sC c clC n HIC HinC HcC Hn)
    as (aC & MC & EenterC & _).
  split; [|split; [|split]].
  - split; [done|]. split; [done|]. split; [done|]. split; [done|].
    intros k. rewrite Hcl2. case_decide; [subst|done]. by rewrite Hc.
  - split; [|split; [|split]].
    + rewrite <- Er1. unfold s1. simpl. by rewrite Eenter.
    + rewrite <- Er3. unfold s3. simpl. by rewrite EenterC.
    + by apply joinRepliesIn_Permutation.
    + intros E0 E1'. unfold joinRepliesIn. by rewrite E0, E1'.
  - split; [|split; [|split]].
    + unfold s3, s1. simpl. by rewrite EenterC, Eenter.
    + unfold s3, s1. simpl. by rewrite EenterC, Eenter.
    + intros n'. unfold s3, s1.
      change (channelNamed (enter c n sC).2 n'
              = channelNamed (enter c n s).2 n').
      rewrite (enter_channelNamed sC c clC n n') by done.
      rewrite (enter_channelNamed s c cl n n') by done.
      rewrite EMC. fold M0. case_decide; [done|].
      unfold sC. by rewrite channelNamed_touch.
    + intros k. unfold s3, s1. simpl. rewrite EenterC, Eenter. simpl.
      destruct (decide (k = c)) as [->|Hk].
      * rewrite lookup_alter_eq, !lookup_insert_eq. simpl.
        by rewrite !dom_insert_L.
      * rewrite lookup_alter_ne, !lookup_insert_ne by done.
        rewrite lookup_alter_ne by done.
        by rewrite Hcl2, decide_False.
  - intros now' c' m' s'. reflexivity.
Qed.

(** ** The check of the invariant is sound *)

Lemma forallb_elem {A} (f : A → bool) (l : list A) x :
  forallb f l = true → x ∈ l → f x = true.
Proof.
  intros H Hx. apply (proj1 (forallb_forall f l) H). by apply list_elem_of_In.
Qed.

Lemma InvB_Inv s : InvB s = true → Inv s.
Proof.
  unfold InvB. intros H.
  apply andb_prop in H as [H H5]. apply andb_prop in H as [H H4].
  apply andb_prop in H as [H1 H3].
  split.
  - intros k Hk%elem_of_elements. apply (forallb_elem _ _ _ H1) in Hk.
    destruct (Server.clientAt s !! k) as [cl|] eqn:Hcl; [|done].
    exists cl. split; [done|]. by destruct (Client.WriteChanClosed cl).
  - intros n a Hna%elem_of_map_to_list. apply (forallb_elem _ _ _ H3) in Hna.
    simpl in Hna. destruct (Server.channelAt s !! a) as [ch|]; [|done].
    apply andb_prop in Hna as [Hna _]. apply andb_prop in Hna as [Hna Hne].
    apply andb_prop in Hna as [Hname%bool_decide_eq_true Hvalid].
    apply negb_true_iff, bool_decide_eq_false in Hne.
    by exists ch.
  - intros n a ch k Hna%elem_of_map_to_list Hch Hk%elem_of_elements.
    apply (forallb_elem _ _ _ H3) in Hna. simpl in Hna. rewrite Hch in Hna.
    apply andb_prop in Hna as [_ Hmem].
    apply (forallb_elem _ _ _ Hmem) in Hk.
    apply andb_prop in Hk as [Hin%bool_decide_eq_true Hcl].
    split; [done|].
    destruct (Server.clientAt s !! k) as [cl|]; [|done].
    apply bool_decide_eq_true in Hcl. by exists cl.
  - intros k cl n a Hk%elem_of_elements Hcl Hna%elem_of_map_to_list.
    apply (forallb_elem _ _ _ H4) in Hk. rewrite Hcl in Hk.
    apply (forallb_elem _ _ _ Hk) in Hna. simpl in Hna.
    apply andb_prop in Hna as [Hna Hmem].
    apply andb_prop in Hna as [Hreg Hidx%bool_decide_eq_true].
    split; [done|]. split; [done|].
    destruct (Server.channelAt s !! a) as [ch|]; [|done].
    apply bool_decide_eq_true in Hmem. by exists ch.
  - intros nk t Hnk%elem_of_map_to_list.
    apply (forallb_elem _ _ _ H5) in Hnk. simpl in Hnk.
    apply andb_prop in Hnk as [Hin%bool_decide_eq_true Hcl].
    split; [done|].
    destruct (Server.clientAt s !! t) as [tcl|]; [|done].
    apply andb_prop in Hcl as [Hv Hn%bool_decide_eq_true].
    by exists tcl.
Qed.

(** ** PRIVMSG and the line length *)

Lemma len_nonneg x : 0 ≤ len x.
Proof. unfold len. lia. Qed.

Lemma len_substring_0 k x :
  (k ≤ String.length x)%nat → String.length (substring 0 k x) = k.
Proof.
  revert k. induction x as [|a x IH]; intros [|k] Hk; simpl in *;
    try done; try lia.
  rewrite IH; [done|lia].
Qed.

(** The trimming panics exactly when the line is too long even with no
    text; otherwise it keeps a prefix of the text with which the line
    fits. *)
Lemma privmsgTrim_cases uhost target msg :
  0 ≤ MaxLineLength →
  let room := MaxLineLength - privmsgOverhead uhost target in
  (room < 0 → privmsgTrim uhost target msg = Panicked SliceBoundsOutOfRange)
  ∧ (0 ≤ room → len msg ≤ room → privmsgTrim uhost target msg = Ok msg)
  ∧ (0 ≤ room → room < len msg →
     privmsgTrim uhost target msg = Ok (substring 0 (Z.to_nat room) msg)
     ∧ privmsgOverhead uhost target
       + len (substring 0 (Z.to_nat room) msg) = MaxLineLength).
Proof.
  intros Hmax room. unfold privmsgTrim.
  pose proof (len_nonneg msg) as Hmsg.
  set (msgLen := _ + len CRLF).
  assert (EL : msgLen = privmsgOverhead uhost target + len msg).
  { unfold msgLen, privmsgOverhead. lia. }
  assert (Ecut : len msg - (msgLen - MaxLineLength) = room).
  { unfold room. lia. }
  rewrite Ecut. split; [|split].
  - intros Hroom. rewrite (proj2 (Z.ltb_lt _ _)) by lia.
    unfold slice_to. by rewrite (proj2 (Z.leb_gt _ _)) by lia.
  - intros Hroom Hfit. by rewrite (proj2 (Z.ltb_ge _ _)) by lia.
  - intros Hroom Hlong.
    assert (EC : len (substring 0 (Z.to_nat room) msg) = room).
    { unfold len in *. rewrite len_substring_0 by lia. lia. }
    rewrite EC. split; [|unfold room; lia].
    rewrite (proj2 (Z.ltb_lt _ _)) by lia. unfold slice_to.
    by rewrite (proj2 (Z.leb_le 0 room)), (proj2 (Z.leb_le room _)) by lia.
Qed.

(** ** Registration gate of the dispatcher *)

(** C1, as amended.  For a client that is not registered and a message
    without a prefix, the dispatcher hands NICK and USER to their handlers
    and ignores CAP; every other command, QUIT and PONG among them, is
    answered by numeric 451 "You have not registered." and changes nothing
    but the time of last activity. *)
Theorem unregistered_dispatch now s c cl m :
  Server.clientAt s !! c = Some cl →
  Client.Registered cl = false →
  Client.WriteChanClosed cl = false →
  Prefix m = "" →
  let s1 := updClient (Client.setLastActivityTime now) c s in
  (Command m = "CAP" → handleMessage now c m s = Ok s1)
  ∧ (Command m = "NICK" → handleMessage now c m s = nickCommand c m s1)
  ∧ (Command m = "USER" → handleMessage now c m s = userCommand c m s1)
  ∧ (Command m ∉ ["CAP"; "NICK"; "USER"] →
     handleMessage now c m s
     = Ok (afterSends
             [(c, serverMessage s cl "451" ["You have not registered."])]
             s1)).
Proof. tidy.
  intros Hc Hreg Hopen Hpre s1. unfold handleMessage. fold s1.
  rewrite Hpre. rewrite bool_decide_eq_false_2 by (intros E; by apply E).
  repeat split.
  - intros ->. by rewrite bool_decide_eq_true_2.
  - intros ->. rewrite bool_decide_eq_false_2 by done.
    by rewrite bool_decide_eq_true_2.
  - intros ->. rewrite !bool_decide_eq_false_2 by done.
    by rewrite bool_decide_eq_true_2.
  - intros Hnot.
    rewrite !bool_decide_eq_false_2 by (intros E; apply Hnot; rewrite E;
                                          set_solver).
    assert (Hc1 : Server.clientAt s1 !! c
                  = Some (Client.setLastActivityTime now cl)).
    { unfold s1. by rewrite lookup_updClient, Hc. }
    rewrite (client_Some _ _ _ Hc1). simpl. rewrite Hreg. simpl.
    by rewrite (Server_messageClient_Ok _ _ _ _ _ Hc1) by done.
Qed.

(** ** NICK and USER *)

(** C4.  NICK with a valid nickname whose canonical form is in the nick
    index is answered by numeric 432 "Nickname is already in use"; the
    server state is the one before the command but for that reply, so the
    nick index and the stored nick of the sender are what they were. *)
Theorem nickCommand_in_use s c cl m nick rest other :
  Server.clientAt s !! c = Some cl →
  Client.WriteChanClosed cl = false →
  Params m = nick :: rest →
  isValidNick nick = true →
  Server.Nicks s !! canonicalizeNick nick = Some other →
  ∃ s',
    nickCommand c m s = Ok s'
    ∧ s' = afterSends
             [(c, serverMessage s cl "432"
                    [nick; "Nickname is already in use"])] s
    ∧ Server.Nicks s' = Server.Nicks s
    ∧ Client.Nick <$> Server.clientAt s' !! c = Some (Client.Nick cl).
Proof.
  intros Hc Hopen Hparams Hvalid Htaken. eexists. split; [|split; [done|]].
  - unfold nickCommand. rewrite Hparams, Hvalid. simpl. rewrite Htaken.
    by apply Server_messageClient_Ok.
  - simpl. by rewrite Hc.
Qed.

(** C10.  USER from a client that has a nick and is not registered, with
    four parameters, a valid user name and a real name of more than 64
    bytes, is answered by ERROR "Invalid realname"; the client is still not
    registered, and its stored user name is already the submitted one, so
    the state of the client has changed whenever the two names differ. *)
Theorem userCommand_realname_rejected s c cl m user mode unused realname :
  Server.clientAt s !! c = Some cl →
  Client.WriteChanClosed cl = false →
  Client.Registered cl = false →
  len (Client.Nick cl) ≠ 0 →
  Params m = [user; mode; unused; realname] →
  isValidUser user = true →
  64 < len realname →
  ∃ s',
    userCommand c m s = Ok s'
    ∧ Server.sent s'
      = Server.sent s ++ [(c, serverMessage s cl "ERROR" ["Invalid realname"])]
    ∧ Server.clientAt s' !! c = Some (Client.setUser user cl)
    ∧ Client.User <$> Server.clientAt s' !! c = Some user
    ∧ Client.Registered <$> Server.clientAt s' !! c = Some false
    ∧ (Client.User cl ≠ user →
       Server.clientAt s' !! c ≠ Server.clientAt s !! c).
Proof.
  intros Hc Hopen Hreg Hnick Hparams Hvalid Hlong.
  assert (Hc1 : Server.clientAt (updClient (Client.setUser user) c s) !! c
                = Some (Client.setUser user cl)).
  { by rewrite lookup_updClient, Hc. }
  eexists. split.
  - unfold userCommand. rewrite (client_Some _ _ _ Hc). simpl.
    rewrite Hreg. apply Z.eqb_neq in Hnick. rewrite Hnick.
    rewrite Hparams, Hvalid. simpl.
    apply Z.ltb_lt in Hlong. rewrite Hlong.
    by apply Server_messageClient_Ok.
  - simpl. rewrite lookup_alter_eq, Hc. simpl.
    repeat split; try done.
    + by rewrite Hreg.
    + intros Hne [=E]. apply Hne. by rewrite <- E.
Qed.

(** ** Frame rules

    What a handler returns is related to the state it started from by every
    relation that the steps it is made of respect. *)

Lemma holds_Ok {A} (P : A → Prop) a : P a → holds P (Ok a).
Proof. intros H a' [= <-]. exact H. Qed.

Lemma holds_Panicked {A} (P : A → Prop) p : holds P (Panicked p).
Proof. intros a' [=]. Qed.

Lemma holds_bind {A B} (P : A → Prop) (Q : B → Prop) r (f : A → Result B) :
  holds P r → (∀ a, P a → holds Q (f a)) → holds Q (r ≫= f).
Proof.
  intros Hr Hf b E. destruct r as [a|p]; [|done].
  by apply (Hf a); [apply Hr|].
Qed.

Lemma holds_bind_any {A B} (Q : B → Prop) r (f : A → Result B) :
  (∀ a, r = Ok a → holds Q (f a)) → holds Q (r ≫= f).
Proof. intros Hf b E. destruct r as [a|p]; [|done]. by apply (Hf a). Qed.

Lemma holds_client {B} (Q : B → Prop) s c (f : Client.t → Result B) :
  (∀ cl, Server.clientAt s !! c = Some cl → holds Q (f cl)) →
  holds Q (client s c ≫= f).
Proof.
  intros Hf. apply holds_bind_any. intros cl E. apply Hf.
  unfold client in E. by destruct (Server.clientAt s !! c) as [cl'|]; simplify_eq.
Qed.

Lemma holds_forEach {A S} (I : S → Prop) (xs : list A) body s :
  I s → (∀ x s', x ∈ xs → I s' → holds I (body x s')) →
  holds I (forEach xs body s).
Proof.
  revert s. induction xs as [|x xs IH]; intros s Hs Hbody; simpl.
  - by apply holds_Ok.
  - apply (holds_bind I); [apply Hbody; [left|done]|].
    intros s' Hs'. apply IH; [done|]. intros y s'' Hy. apply Hbody. by right.
Qed.

Section Frames.

Variable R : Server.t → Server.t → Prop.
Hypothesis R_calm : Calm R.
(** The steps that only NICK, the quit procedure, OPER and the shutdown
    take. *)
Hypothesis R_nicks : ∀ s x, R s (Server.setNicks x s).
Hypothesis R_setNick : ∀ s c n, R s (updClient (Client.setNick n) c s).
Hypothesis R_close :
  ∀ s c, R s (updClient (Client.setWriteChanClosed true) c s).
Hypothesis R_unindex :
  ∀ s c, R s (Server.setClients (Server.Clients s ∖ {[c]}) s).
Hypothesis R_grant :
  ∀ s c, R s (updClient
                (λ cl, Client.setModes ({["o"%char]} ∪ Client.Modes cl) cl)
                c s).
Hypothesis R_shutdown : ∀ s b, R s (Server.setShutdownChanClosed b s).

Lemma framed_bind s0 r (f : Server.t → Result Server.t) :
  holds (R s0) r → (∀ s1, R s0 s1 → holds (R s0) (f s1)) →
  holds (R s0) (r ≫= f).
Proof. apply holds_bind. Qed.

Lemma framed_bind_with {B} s0 r (f : Server.t * B → Result Server.t) :
  holds (λ p, R s0 p.1) r → (∀ s1 b, R s0 s1 → holds (R s0) (f (s1, b))) →
  holds (R s0) (r ≫= f).
Proof.
  intros Hr Hf. apply (holds_bind (λ p, R s0 p.1)); [done|].
  intros [s1 b] H1. by apply Hf.
Qed.

Lemma framed_forEach {A} s0 (xs : list A) body s :
  R s0 s → (∀ x s1, x ∈ xs → R s0 s1 → holds (R s0) (body x s1)) →
  holds (R s0) (forEach xs body s).
Proof. apply holds_forEach. Qed.

Lemma framed_forEach_with {A B} s0 (xs : list A) body s (b : B) :
  R s0 s →
  (∀ x s1 b1, x ∈ xs → R s0 s1 → holds (λ p, R s0 p.1) (body x (s1, b1))) →
  holds (λ p, R s0 p.1) (forEach xs body (s, b)).
Proof.
  intros Hs Hbody. apply (holds_forEach (λ p, R s0 p.1)); [done|].
  intros x [s1 b1] Hx H1. by apply Hbody.
Qed.

Lemma framed_chanSend s0 to msg s : R s0 s → holds (R s0) (chanSend to msg s).
Proof using R_calm.
  intros Hs. unfold chanSend. apply holds_client. intros cl _.
  destruct (Client.WriteChanClosed cl); [apply holds_Panicked|].
  apply holds_Ok, (calm_trans R R_calm _ s); [done|apply (calm_sent R R_calm)].
Qed.

Lemma framed_Server_messageClient s0 c command params s :
  R s0 s → holds (R s0) (Server_messageClient c command params s).
Proof using R_calm.
  intros Hs. unfold Server_messageClient. apply holds_client. intros cl _.
  by apply framed_chanSend.
Qed.

Lemma framed_Client_messageClient s0 c to command params s :
  R s0 s → holds (R s0) (Client_messageClient c to command params s).
Proof using R_calm.
  intros Hs. unfold Client_messageClient. apply holds_bind_any.
  intros prefix _. by apply framed_chanSend.
Qed.

Lemma framed_tellOnce s0 c command params member s told :
  R s0 s →
  holds (λ p, R s0 p.1) (tellOnce c command params member (s, told)).
Proof using R_calm.
  intros Hs. unfold tellOnce. case_bool_decide; [by apply holds_Ok|].
  apply (holds_bind (R s0)); [by apply framed_Client_messageClient|].
  intros s1 H1. by apply holds_Ok.
Qed.

(** Drop what a proof was not declared to use. *)
Ltac calmly :=
  try clear R_nicks; try clear R_setNick; try clear R_close;
  try clear R_unindex; try clear R_grant; try clear R_shutdown; tidy';
  try clear ToLower_plainName.

Ltac quiet_update :=
  intros ? ?; repeat split; simpl; try done;
  lazymatch goal with
  | |- _ ⊆ _ => set_solver
  end.

Ltac calm :=
  lazymatch goal with
  | H : R ?s0 ?s |- R ?s0 ?s => exact H
  | |- R ?s ?s => apply (calm_refl R R_calm)
  | |- R _ (if ?b then _ else _) => destruct b; calm
  | |- R ?s (afterSends ?l ?s1) =>
      apply (calm_trans R R_calm s s1); [calm|apply (calm_sent R R_calm)]
  | |- R ?s (Server.setSent _ ?s1) =>
      apply (calm_trans R R_calm s s1); [calm|apply (calm_sent R R_calm)]
  | |- R ?s (Server.setChannelAt _ ?s1) =>
      apply (calm_trans R R_calm s s1); [calm|apply (calm_channelAt R R_calm)]
  | |- R ?s (updChannel _ _ ?s1) =>
      apply (calm_trans R R_calm s s1); [calm|apply (calm_channelAt R R_calm)]
  | |- R ?s (Server.setChannels _ ?s1) =>
      apply (calm_trans R R_calm s s1); [calm|apply (calm_channels R R_calm)]
  | |- R ?s (Server.setShutdownChanClosed _ ?s1) =>
      apply (calm_trans R R_calm s s1); [calm|apply R_shutdown]
  | |- R ?s (Server.setNicks _ ?s1) =>
      apply (calm_trans R R_calm s s1); [calm|apply R_nicks]
  | |- R ?s (Server.setClients _ ?s1) =>
      apply (calm_trans R R_calm s s1); [calm|apply R_unindex]
  | |- R ?s (updClient _ _ ?s1) =>
      apply (calm_trans R R_calm s s1);
      [calm
      |first [apply R_setNick|apply R_close|apply R_grant
             |apply (calm_client R R_calm); quiet_update]]
  end.

(** One step through the code of a handler. *)
Ltac framed_step :=
  first [progress cbv beta iota zeta|
  lazymatch goal with
  | |- holds (λ p, R ?s0 p.1) (Ok _) => apply holds_Ok; simpl; calm
  | |- holds (λ p, R ?s0 p.1) (tellOnce _ _ _ _ (_, _)) =>
      apply framed_tellOnce; calm
  | |- holds (λ p, R ?s0 p.1) (forEach _ _ (_, _)) =>
      apply framed_forEach_with;
      [calm
      |let x := fresh "x" in
       intros x ? ? ? ?;
       lazymatch type of x with
       | (_ * _)%type => destruct x as [? ?]
       | _ => idtac
       end]
  | |- holds (λ p, R ?s0 p.1) (@mbind _ _ (Server.t * _)%type _ _ _) =>
      apply (holds_bind (λ p, R s0 p.1)); [|intros [? ?] ?; simpl in *]
  | |- holds (R ?s0) (@mbind _ _ (Server.t * _)%type _ _ _) =>
      apply (framed_bind_with s0); [|intros ? ? ?]
  | |- holds (λ p, R ?s0 p.1) (@mbind _ _ Server.t _ _ _) =>
      apply (holds_bind (R s0)); [|intros ? ?]
  | |- holds _ (Ok _) => apply holds_Ok; calm
  | |- holds _ (Panicked _) => apply holds_Panicked
  | |- holds _ (Server_messageClient _ _ _ _) =>
      apply framed_Server_messageClient; calm
  | |- holds _ (Client_messageClient _ _ _ _ _) =>
      apply framed_Client_messageClient; calm
  | |- holds _ (forEach _ _ _) =>
      apply framed_forEach;
      [calm
      |let x := fresh "x" in
       intros x ? ? ?;
       lazymatch type of x with
       | (_ * _)%type => destruct x as [? ?]
       | _ => idtac
       end]
  | |- holds _ (mbind _ (client _ _)) => apply holds_client; intros ? ?
  | |- holds (R _) (@mbind _ _ Server.t _ _ _) =>
      apply framed_bind; [|intros ? ?]
  | |- holds _ (mbind _ _) => apply holds_bind_any; intros ? ?
  | |- holds _ (match (match ?y with _ => _ end) with _ => _ end) =>
      destruct y eqn:?
  | |- holds _ (if ?b then _ else _) => destruct b eqn:?
  | |- holds _ (match ?x with _ => _ end) => destruct x eqn:?
  end].

Ltac framed := repeat framed_step.

Lemma framed_Client_part s0 c channelName message s :
  R s0 s → holds (R s0) (Client_part c channelName message s).
Proof using R_calm. intros Hs. unfold Client_part, Client_onChannel. framed. Qed.

Lemma framed_lusersCommand s0 c s : R s0 s → holds (R s0) (lusersCommand c s).
Proof using R_calm. intros Hs. unfold lusersCommand. framed. Qed.

Lemma framed_motdCommand s0 c s : R s0 s → holds (R s0) (motdCommand c s).
Proof using R_calm. intros Hs. unfold motdCommand. framed. Qed.

Lemma framed_userCommand s0 c m s : R s0 s → holds (R s0) (userCommand c m s).
Proof using R_calm.
  intros Hs. unfold userCommand. apply holds_client. intros cl Hc.
  destruct (Client.Registered cl) eqn:Hreg; [framed|].
  destruct (len (Client.Nick cl) =? 0); [framed|].
  destruct (Params m) as [|user [|mode [|unused [|realname [|]]]]];
    try (by framed).
  destruct (negb (isValidUser user)); [framed|]. cbv zeta.
  set (s3 := updClient (Client.setRegistered true) c _).
  assert (H1 : R s0 (updClient (Client.setUser user) c s)).
  { apply (calm_trans R R_calm _ s); [done|]. apply (calm_client R R_calm).
    intros cl' Hc'. rewrite Hc in Hc'. injection Hc' as <-.
    repeat split; simpl in *; try done; congruence. }
  assert (H3 : R s0 s3).
  { apply (calm_trans R R_calm _ _ _ H1).
    apply (calm_trans R R_calm _
             (updClient (Client.setRealName realname) c
                (updClient (Client.setUser user) c s)));
      apply (calm_client R R_calm); intros cl'; rewrite !lookup_updClient, Hc;
      simpl; intros [= <-]; repeat split; simpl in *; try done;
      congruence. }
  destruct (64 <? len realname); [framed|].
  unfold Client_nickUhost.
  repeat first [framed_step|apply framed_lusersCommand; calm
               |apply framed_motdCommand; calm].
Qed.

Ltac framed' :=
  repeat first
    [ framed_step
    | apply framed_Client_part; calm
    | apply framed_lusersCommand; calm
    | apply framed_motdCommand; calm ].

Lemma framed_joinCommand s0 c m s : R s0 s → holds (R s0) (joinCommand c m s).
Proof using R_calm.
  intros Hs. unfold joinCommand, Client_onChannel. framed'.
Qed.

Lemma framed_partCommand s0 c m s : R s0 s → holds (R s0) (partCommand c m s).
Proof using R_calm. intros Hs. unfold partCommand. framed'. Qed.

Lemma framed_privmsgCommand s0 c m s :
  R s0 s → holds (R s0) (privmsgCommand c m s).
Proof using R_calm.
  intros Hs. unfold privmsgCommand, Client_nickUhost, Client_onChannel.
  framed'.
Qed.

Lemma framed_pingCommand s0 c m s : R s0 s → holds (R s0) (pingCommand c m s).
Proof using R_calm. intros Hs. unfold pingCommand. framed'. Qed.

Lemma framed_whoisCommand s0 now c m s :
  R s0 s → holds (R s0) (whoisCommand now c m s).
Proof using R_calm.
  intros Hs. unfold whoisCommand, Client_isOperator. framed'.
Qed.

Lemma framed_whoCommand s0 c m s : R s0 s → holds (R s0) (whoCommand c m s).
Proof using R_calm.
  intros Hs. unfold whoCommand, Client_isOperator, Client_onChannel. framed'.
Qed.

Lemma framed_channelModeCommand s0 c a modes s :
  R s0 s → holds (R s0) (channelModeCommand c a modes s).
Proof using R_calm.
  intros Hs. unfold channelModeCommand, Client_onChannel. framed'.
Qed.

Lemma framed_userModeCommand s0 c t modes s :
  R s0 s → holds (R s0) (userModeCommand c t modes s).
Proof using R_calm.
  calmly. intros Hs. unfold userModeCommand, Client_isOperator.
  case_bool_decide; [framed'|]. destruct (len modes =? 0); [framed'|].
  apply (framed_bind_with s0); [|intros s1 b H1; framed'].
  apply framed_forEach_with; [done|]. intros char s1 action _ H1.
  framed'.
Qed.

Lemma framed_modeCommand s0 c m s : R s0 s → holds (R s0) (modeCommand c m s).
Proof using R_calm.
  intros Hs. unfold modeCommand.
  repeat first [framed_step|apply framed_userModeCommand; calm
               |apply framed_channelModeCommand; calm].
Qed.

Lemma framed_operCommand s0 c m s : R s0 s → holds (R s0) (operCommand c m s).
Proof using R_calm R_grant.
  intros Hs. unfold operCommand, Client_isOperator. framed'.
Qed.

Lemma framed_nickCommand s0 c m s : R s0 s → holds (R s0) (nickCommand c m s).
Proof using R_calm R_nicks R_setNick.
  clear R_close R_unindex R_grant R_shutdown. tidy'.
  intros Hs. unfold nickCommand. framed'.
Qed.

Lemma framed_Client_quit s0 c msg s : R s0 s → holds (R s0) (Client_quit c msg s).
Proof using R_calm R_nicks R_close R_unindex.
  clear R_setNick R_grant R_shutdown. tidy'.
  intros Hs. unfold Client_quit, Client_quit_channel, chanClose. framed'.
Qed.

Lemma framed_quitCommand s0 c m s : R s0 s → holds (R s0) (quitCommand c m s).
Proof using R_calm R_nicks R_close R_unindex.
  intros Hs. unfold quitCommand. by apply framed_Client_quit.
Qed.

Lemma framed_shutdown s0 s : R s0 s → holds (R s0) (shutdown s).
Proof using R_calm R_nicks R_close R_unindex R_shutdown.
  intros Hs. unfold shutdown.
  repeat first [framed_step|apply framed_Client_quit; calm].
Qed.

Lemma framed_checkAndPingClient s0 now c s :
  R s0 s → holds (R s0) (checkAndPingClient now c s).
Proof using R_calm R_nicks R_close R_unindex.
  intros Hs. unfold checkAndPingClient.
  repeat first [framed_step|apply framed_Client_quit; calm].
Qed.

Lemma framed_checkAndPingClients s0 now s :
  R s0 s → holds (R s0) (checkAndPingClients now s).
Proof using R_calm R_nicks R_close R_unindex.
  intros Hs. unfold checkAndPingClients.
  repeat first [framed_step|apply framed_checkAndPingClient; calm].
Qed.

End Frames.

(** ** What no command undoes *)

Lemma option_Forall2_alter {A} (P : A → A → Prop) (f : A → A)
    (m : gmap N A) c k :
  (∀ x, P x x) → (∀ x, m !! c = Some x → P x (f x)) →
  option_Forall2 P (m !! k) (alter f c m !! k).
Proof. tidy.
  intros Hrefl Hf. destruct (decide (k = c)) as [->|Hne].
  - rewrite lookup_alter_eq. destruct (m !! c) as [x|] eqn:E; simpl;
      constructor. by apply Hf.
  - rewrite lookup_alter_ne by done. destruct (m !! k); constructor.
    apply Hrefl.
Qed.

Lemma option_Forall2_same {A} (P : A → A → Prop) (o : option A) :
  (∀ x, P x x) → option_Forall2 P o o.
Proof. intros H. destruct o; constructor. apply H. Qed.

Lemma option_Forall2_trans {A} (P : A → A → Prop) (o1 o2 o3 : option A) :
  (∀ x y z, P x y → P y z → P x z) →
  option_Forall2 P o1 o2 → option_Forall2 P o2 o3 → option_Forall2 P o1 o3.
Proof.
  intros Htrans H12 H23. destruct H12; inversion H23; subst; constructor.
  by eapply Htrans.
Qed.

Lemma settled_refl cl : settled cl cl.
Proof. by repeat split. Qed.

Lemma settled_trans cl1 cl2 cl3 :
  settled cl1 cl2 → settled cl2 cl3 → settled cl1 cl3.
Proof.
  intros (Hip & Hcl & Hreg) (Hip' & Hcl' & Hreg'). split; [congruence|].
  split; [by intros; apply Hcl', Hcl|]. intros H1.
  destruct (Hreg H1) as (H2 & Hu & Hr). destruct (Hreg' H2) as (H3 & Hu' & Hr').
  split; [done|]. split; congruence.
Qed.

Lemma quiet_settled cl cl' : quiet cl cl' → settled cl cl'.
Proof.
  intros (Hw & Hip & _ & _ & Hreg). split; [done|]. split; [|done].
  intros H. by rewrite Hw.
Qed.

Lemma succeeds_updClient s c f :
  (∀ cl, Server.clientAt s !! c = Some cl → settled cl (f cl)) →
  succeeds s (updClient f c s).
Proof.
  intros Hf. do 5 (split; [done|]). intros k. simpl.
  apply option_Forall2_alter; [apply settled_refl|done].
Qed.

Lemma succeeds_fields s s' :
  Server.Clients s' ⊆ Server.Clients s →
  Server.Config s' = Server.Config s →
  Server.PingTime s' = Server.PingTime s →
  Server.DeadTime s' = Server.DeadTime s →
  Server.Opers s' = Server.Opers s →
  Server.clientAt s' = Server.clientAt s →
  succeeds s s'.
Proof.
  intros ? ? ? ? ? E. do 5 (split; [done|]). intros k. rewrite E.
  apply option_Forall2_same, settled_refl.
Qed.

Lemma succeeds_Calm : Calm succeeds.
Proof. tidy.
  split.
  - intros s. by apply succeeds_fields.
  - intros s1 s2 s3 (HC & Hcfg & Hp & Hd & Ho & Hk)
      (HC' & Hcfg' & Hp' & Hd' & Ho' & Hk').
    split; [set_solver|]. do 4 (split; [congruence|]). intros k.
    eapply option_Forall2_trans; [apply settled_trans|apply Hk|apply Hk'].
  - intros s x. by apply succeeds_fields.
  - intros s x. by apply succeeds_fields.
  - intros s x. by apply succeeds_fields.
  - intros s c f Hf. apply succeeds_updClient. intros cl Hc.
    by apply quiet_settled, Hf.
Qed.

Lemma succeeds_nicks s x : succeeds s (Server.setNicks x s).
Proof. by apply succeeds_fields. Qed.

Lemma succeeds_setNick s c n : succeeds s (updClient (Client.setNick n) c s).
Proof. apply succeeds_updClient. intros cl _. by repeat split. Qed.

Lemma succeeds_close s c :
  succeeds s (updClient (Client.setWriteChanClosed true) c s).
Proof. apply succeeds_updClient. intros cl _. by repeat split. Qed.

Lemma succeeds_unindex s c :
  succeeds s (Server.setClients (Server.Clients s ∖ {[c]}) s).
Proof. tidy. apply succeeds_fields; try done. simpl. set_solver. Qed.

Lemma succeeds_grant s c :
  succeeds s
    (updClient (λ cl, Client.setModes ({["o"%char]} ∪ Client.Modes cl) cl)
       c s).
Proof. apply succeeds_updClient. intros cl _. by repeat split. Qed.

Lemma succeeds_shutdown s b : succeeds s (Server.setShutdownChanClosed b s).
Proof. by apply succeeds_fields. Qed.

Lemma succeeds_refl s : succeeds s s.
Proof. by apply succeeds_fields. Qed.

Lemma succeeds_Client_quit_holds c msg s :
  holds (succeeds s) (Client_quit c msg s).
Proof.
  apply (framed_Client_quit succeeds succeeds_Calm succeeds_nicks
           succeeds_close succeeds_unindex), succeeds_refl.
Qed.

Lemma succeeds_checkAndPingClients_holds now s :
  holds (succeeds s) (checkAndPingClients now s).
Proof.
  apply (framed_checkAndPingClients succeeds succeeds_Calm succeeds_nicks
           succeeds_close succeeds_unindex), succeeds_refl.
Qed.

(** ** Where the dispatcher sends a message *)

Lemma calmSteps_touch now c s : calmSteps s (touch now c s).
Proof.
  intros R HR. apply (calm_client R HR). intros cl _. by repeat split.
Qed.

(** NICK, QUIT, DIE and OPER go to their handlers; whatever else the
    dispatcher does is made of calm steps. *)
Lemma handleMessage_routes now c m s s' :
  handleMessage now c m s = Ok s' →
  (Command m = "NICK" ∧ nickCommand c m (touch now c s) = Ok s')
  ∨ (Command m = "QUIT" ∧ quitCommand c m (touch now c s) = Ok s')
  ∨ (Command m = "DIE" ∧ shutdown (touch now c s) = Ok s')
  ∨ (Command m = "OPER" ∧ operCommand c m (touch now c s) = Ok s')
  ∨ calmSteps s s'.
Proof. clear ToLower_plainName.
  unfold handleMessage. fold (touch now c s).
  pose proof (calmSteps_touch now c s) as H1. revert H1.
  generalize (touch now c s). intros s1 H1.
  assert (Hcalm : ∀ r : Result Server.t,
            (∀ R, Calm R → R s s1 → holds (R s) r) →
            r = Ok s' → calmSteps s s').
  { intros r Hr E R HR. by apply (Hr R HR (H1 R HR)). }
  case_bool_decide.
  { intros E. do 4 right. revert E. apply Hcalm. intros R HR.
    by apply framed_Server_messageClient. }
  case_bool_decide.
  { intros E. do 4 right. revert E. apply Hcalm. intros R HR ?.
    by apply holds_Ok. }
  case_bool_decide; [by left|].
  case_bool_decide.
  { intros E. do 4 right. revert E. apply Hcalm. intros R HR.
    by apply framed_userCommand. }
  destruct (client s1 c) as [cl|p] eqn:Ecl; [|done]. cbn [mbind Result_bind].
  destruct (negb (Client.Registered cl)).
  { intros E. do 4 right. revert E. apply Hcalm. intros R HR.
    by apply framed_Server_messageClient. }
  case_bool_decide.
  { intros E. do 4 right. revert E. apply Hcalm. intros R HR.
    by apply framed_joinCommand. }
  case_bool_decide.
  { intros E. do 4 right. revert E. apply Hcalm. intros R HR.
    by apply framed_partCommand. }
  case_bool_decide.
  { intros E. do 4 right. revert E. apply Hcalm. intros R HR.
    by apply framed_privmsgCommand. }
  case_bool_decide.
  { intros E. do 4 right. revert E. apply Hcalm. intros R HR.
    by apply framed_lusersCommand. }
  case_bool_decide.
  { intros E. do 4 right. revert E. apply Hcalm. intros R HR.
    by apply framed_motdCommand. }
  case_bool_decide; [by right; left|].
  case_bool_decide.
  { intros E. do 4 right. revert E. apply Hcalm. intros R HR ?.
    by apply holds_Ok. }
  case_bool_decide.
  { intros E. do 4 right. revert E. apply Hcalm. intros R HR.
    by apply framed_pingCommand. }
  case_bool_decide; [by right; right; left|].
  case_bool_decide.
  { intros E. do 4 right. revert E. apply Hcalm. intros R HR.
    by apply framed_whoisCommand. }
  case_bool_decide; [by right; right; right; left|].
  case_bool_decide.
  { intros E. do 4 right. revert E. apply Hcalm. intros R HR.
    by apply framed_modeCommand. }
  case_bool_decide.
  { intros E. do 4 right. revert E. apply Hcalm. intros R HR.
    by apply framed_whoCommand. }
  intros E. do 4 right. revert E. apply Hcalm. intros R HR.
  by apply framed_Server_messageClient.
Qed.

Lemma handleMessage_respects (R : Server.t → Server.t → Prop) now c m s s' :
  Calm R →
  (Command m = "NICK" →
   holds (R (touch now c s)) (nickCommand c m (touch now c s))) →
  (Command m = "QUIT" →
   holds (R (touch now c s)) (quitCommand c m (touch now c s))) →
  (Command m = "DIE" → holds (R (touch now c s)) (shutdown (touch now c s))) →
  (Command m = "OPER" →
   holds (R (touch now c s)) (operCommand c m (touch now c s))) →
  handleMessage now c m s = Ok s' → R s s'.
Proof. clear ToLower_plainName.
  intros HR HNICK HQUIT HDIE HOPER E.
  pose proof (calmSteps_touch now c s R HR) as H1.
  destruct (handleMessage_routes now c m s s' E)
    as [[Hm E']|[[Hm E']|[[Hm E']|[[Hm E']|Hcalm]]]].
  - apply (calm_trans R HR _ _ _ H1). by apply HNICK.
  - apply (calm_trans R HR _ _ _ H1). by apply HQUIT.
  - apply (calm_trans R HR _ _ _ H1). by apply HDIE.
  - apply (calm_trans R HR _ _ _ H1). by apply HOPER.
  - by apply Hcalm.
Qed.

Lemma succeeds_handleMessage now c m s s' :
  handleMessage now c m s = Ok s' → succeeds s s'.
Proof. clear ToLower_plainName.
  apply handleMessage_respects; [apply succeeds_Calm|..]; intros _.
  - apply (framed_nickCommand succeeds succeeds_Calm succeeds_nicks
             succeeds_setNick), succeeds_refl.
  - apply (framed_quitCommand succeeds succeeds_Calm succeeds_nicks
             succeeds_close succeeds_unindex), succeeds_refl.
  - apply (framed_shutdown succeeds succeeds_Calm succeeds_nicks
             succeeds_close succeeds_unindex succeeds_shutdown), succeeds_refl.
  - apply (framed_operCommand succeeds succeeds_Calm succeeds_grant),
      succeeds_refl.
Qed.

(** *** The nick index stays complete *)

Lemma sameNicks_fields s s' :
  Server.Clients s' = Server.Clients s →
  Server.Nicks s' = Server.Nicks s →
  Server.clientAt s' = Server.clientAt s →
  sameNicks s s'.
Proof.
  intros ? ? E. do 2 (split; [done|]). intros k. rewrite E.
  by apply option_Forall2_same.
Qed.

Lemma sameNicks_updClient s c f :
  (∀ cl, Client.Nick (f cl) = Client.Nick cl) → sameNicks s (updClient f c s).
Proof.
  intros Hf. do 2 (split; [done|]). intros k. simpl.
  by apply option_Forall2_alter.
Qed.

Lemma sameNicks_Calm : Calm sameNicks.
Proof. tidy.
  split.
  - intros s. by apply sameNicks_fields.
  - intros s1 s2 s3 (HC & HN & Hk) (HC' & HN' & Hk').
    do 2 (split; [congruence|]). intros k.
    eapply option_Forall2_trans; [|apply Hk|apply Hk']. simpl. congruence.
  - intros s x. by apply sameNicks_fields.
  - intros s x. by apply sameNicks_fields.
  - intros s x. by apply sameNicks_fields.
  - intros s c f Hf. do 2 (split; [done|]). intros k. simpl.
    apply option_Forall2_alter; [done|]. intros cl Hc.
    by destruct (Hf cl Hc) as (_ & _ & ? & _).
Qed.

Lemma sameNicks_grant s c :
  sameNicks s
    (updClient (λ cl, Client.setModes ({["o"%char]} ∪ Client.Modes cl) cl)
       c s).
Proof. by apply sameNicks_updClient. Qed.

Lemma sameNicks_refl s : sameNicks s s.
Proof. by apply sameNicks_fields. Qed.

Lemma nicksExact_sameNicks s s' :
  sameNicks s s' → nicksExact s → nicksExact s'.
Proof.
  intros (HC & HN & Hk) Hs k cl' Hin Hcl' Hlen. rewrite HN.
  specialize (Hk k). rewrite Hcl' in Hk. inversion Hk as [cl ? Hnick E|]; subst.
  rewrite Hnick. apply Hs; [by rewrite <- HC|done|by rewrite <- Hnick].
Qed.

Lemma nicksExact_afterSends s l : nicksExact (afterSends l s) ↔ nicksExact s.
Proof. done. Qed.

Lemma nicksExact_nickState s c cl nick :
  nicksExact s → c ∈ Server.Clients s →
  Server.clientAt s !! c = Some cl →
  Server.Nicks s !! canonicalizeNick nick = None →
  nicksExact (nickState c cl nick s).
Proof. tidy'. clear ToLower_plainName.
  intros Hs Hin Hc Hfree k kcl Hk Hkcl Hlen.
  unfold nickState, nicksAfter in *. simpl in *.
  assert (Hold : 0 < len (Client.Nick cl) →
                 canonicalizeNick (Client.Nick cl) ≠ canonicalizeNick nick).
  { intros Hl E. specialize (Hs c cl Hin Hc Hl). congruence. }
  destruct (decide (k = c)) as [->|Hne].
  - rewrite lookup_alter_eq, Hc in Hkcl. injection Hkcl as <-. simpl.
    destruct (0 <? len (Client.Nick cl)) eqn:El; simpl.
    + apply Z.ltb_lt in El. rewrite lookup_delete_ne by (by apply Hold).
      apply lookup_insert_eq.
    + apply lookup_insert_eq.
  - rewrite lookup_alter_ne in Hkcl by done.
    pose proof (Hs k kcl Hk Hkcl Hlen) as Hidx.
    assert (canonicalizeNick nick ≠ canonicalizeNick (Client.Nick kcl))
      by congruence.
    destruct (0 <? len (Client.Nick cl)) eqn:El; simpl.
    + apply Z.ltb_lt in El. specialize (Hs c cl Hin Hc El).
      rewrite lookup_delete_ne by congruence.
      by rewrite lookup_insert_ne.
    + by rewrite lookup_insert_ne.
Qed.

Lemma nickCommand_exact s c m s' :
  Inv s → nicksExact s → c ∈ Server.Clients s →
  nickCommand c m s = Ok s' → nicksExact s'.
Proof. tidy'. clear ToLower_plainName.
  intros HI Hs Hin.
  destruct (inv_clients _ HI _ Hin) as (cl & Hc & Hopen).
  assert (Hreply : ∀ command params,
    Server_messageClient c command params s = Ok s' → nicksExact s').
  { intros ? ?. rewrite (Server_messageClient_Ok s c cl) by done.
    by intros [= <-]. }
  destruct (Params m) as [|nick rest] eqn:Hparams.
  { unfold nickCommand. rewrite Hparams. apply Hreply. }
  destruct (isValidNick nick) eqn:Hvalid.
  2:{ unfold nickCommand. rewrite Hparams, Hvalid. apply Hreply. }
  destruct (Server.Nicks s !! canonicalizeNick nick) as [other|] eqn:Hfree.
  { unfold nickCommand. rewrite Hparams, Hvalid. simpl. rewrite Hfree.
    apply Hreply. }
  destruct (Client.Registered cl) eqn:Hreg.
  - rewrite (nickCommand_registered_Ok s c cl m nick rest) by done.
    intros [= <-]. apply nicksExact_afterSends. by apply nicksExact_nickState.
  - rewrite (nickCommand_unregistered_Ok s c cl m nick rest) by done.
    intros [= <-]. by apply nicksExact_nickState.
Qed.

Lemma nicksExact_gone s s' c cl :
  Inv s → nicksExact s → c ∈ Server.Clients s →
  Server.clientAt s !! c = Some cl →
  Server.Clients s' = Server.Clients s ∖ {[c]} →
  (∀ k, k ≠ c → Server.clientAt s' !! k = Server.clientAt s !! k) →
  Server.Nicks s' = delete (canonicalizeNick (Client.Nick cl)) (Server.Nicks s)
  ∨ Server.Nicks s' = Server.Nicks s →
  nicksExact s'.
Proof using ToLower_plainName. tidy'.
  intros HI Hs Hin Hc HC Hobj HN k kcl Hk Hkcl Hlen.
  rewrite HC in Hk. apply elem_of_difference in Hk as [Hk Hne].
  rewrite not_elem_of_singleton in Hne. rewrite Hobj in Hkcl by done.
  pose proof (Hs k kcl Hk Hkcl Hlen) as Hidx.
  destruct HN as [-> | ->]; [|done].
  rewrite lookup_delete_ne; [done|]. intros E. rewrite <- E in Hidx.
  destruct (decide (0 < len (Client.Nick cl))) as [Hl|Hl].
  - specialize (Hs c cl Hin Hc Hl). congruence.
  - destruct (inv_nicks _ HI _ _ Hidx) as (_ & tcl & Htcl & Hv & Hkey).
    assert (Client.Nick cl = "") as E0.
    { pose proof (len_nonneg (Client.Nick cl)).
      destruct (Client.Nick cl); [done|]. unfold len in *. simpl in *. lia. }
    rewrite E0 in Hkey. unfold canonicalizeNick in Hkey.
    rewrite ToLower_plainName in Hkey by done. by rewrite <- Hkey in Hv.
Qed.

Lemma Client_quit_exact s c msg s' :
  Inv s → nicksExact s → c ∈ Server.Clients s →
  Client_quit c msg s = Ok s' → nicksExact s'.
Proof using ToLower_plainName. tidy'.
  intros HI Hs Hin. destruct (inv_clients _ HI _ Hin) as (cl & Hc & Hopen).
  destruct (Client.Registered cl) eqn:Hreg.
  - destruct (Client_quit_registered_Ok s c cl msg HI Hin Hc Hreg) as [-> _].
    intros [= <-]. apply nicksExact_afterSends.
    destruct (departAll_frame c (map_to_list (Client.Channels cl)) s)
      as (Hat & HC & HN & _).
    apply (nicksExact_gone s _ c cl); try done.
    + intros k Hne. unfold quitState. simpl.
      rewrite lookup_alter_ne by done. by rewrite Hat.
    + by left.
  - destruct (Client_quit_unregistered_Ok s c cl msg HI Hin Hc Hreg)
      as [-> _].
    intros [= <-]. apply nicksExact_afterSends.
    apply (nicksExact_gone s _ c cl); try done.
    + intros k Hne. simpl. by rewrite lookup_alter_ne.
    + simpl. destruct (0 <? len (Client.Nick cl)); [by left|by right].
Qed.

(** The consistency of the indices with the nick index complete. *)
Lemma Client_quit_good s c msg :
  Inv s → nicksExact s → c ∈ Server.Clients s →
  ∃ s', Client_quit c msg s = Ok s' ∧ Inv s' ∧ nicksExact s'
        ∧ Server.Clients s' = Server.Clients s ∖ {[c]}
        ∧ Server.ShutdownChanClosed s' = Server.ShutdownChanClosed s.
Proof using ToLower_plainName. tidy'.
  intros HI Hs Hin.
  destruct (Client_quit_keeps s c msg HI Hin) as (s' & E & HI' & HC & Hf).
  exists s'. split; [done|]. split; [done|]. split; [|done].
  by apply (Client_quit_exact s c msg).
Qed.

Lemma shutdown_exact s s' :
  Inv s → nicksExact s → shutdown s = Ok s' → nicksExact s'.
Proof using ToLower_plainName. tidy'.
  intros HI Hs. unfold shutdown.
  destruct (Server.ShutdownChanClosed s); [done|]. cbn [mbind Result_bind].
  intros E.
  destruct (forEach_keeps (λ s, Inv s ∧ nicksExact s)
              (elements (Server.Clients (Server.setShutdownChanClosed true s)))
              (λ cl s, if bool_decide (cl ∈ Server.Clients s)
                       then Client_quit cl "Server shutting down" s
                       else Ok s)
              (Server.setShutdownChanClosed true s))
    as (s2 & E2 & _ & Hs2).
  - intros k s1 _ [HI1 Hs1]. case_bool_decide as Hk; [|by exists s1].
    destruct (Client_quit_good s1 k "Server shutting down" HI1 Hs1 Hk)
      as (s2 & -> & HI2 & Hs2 & _).
    by exists s2.
  - split; [|done]. destruct HI. by split.
  - rewrite E in E2. by injection E2 as <-.
Qed.

Lemma Inv_updClient s c f :
  Inv s → (∀ cl, clientShape cl (f cl)) → Inv (updClient f c s).
Proof. intros HI Hf. apply (Inv_shape s); [done|]. by apply shape_updClient. Qed.

Lemma checkAndPingClient_good now s c :
  Inv s → nicksExact s → c ∈ Server.Clients s →
  ∃ s', checkAndPingClient now c s = Ok s' ∧ Inv s' ∧ nicksExact s'
        ∧ Server.ShutdownChanClosed s' = Server.ShutdownChanClosed s.
Proof using ToLower_plainName. tidy'.
  intros HI Hs Hin. destruct (inv_clients _ HI _ Hin) as (cl & Hc & Hopen).
  assert (Hquit : ∀ msg,
    ∃ s', Client_quit c msg s = Ok s' ∧ Inv s' ∧ nicksExact s'
          ∧ Server.ShutdownChanClosed s' = Server.ShutdownChanClosed s).
  { intros msg. destruct (Client_quit_good s c msg HI Hs Hin)
      as (s' & E & HI' & Hs' & _ & Hf). by exists s'. }
  unfold checkAndPingClient. use_client Hc. cbv zeta.
  destruct (Client.Registered cl).
  - destruct (_ <? Server.PingTime s); [by exists s|].
    destruct (Server.DeadTime s <? _); [apply Hquit|].
    destruct (_ <? Server.PingTime s); [by exists s|].
    rewrite (Server_messageClient_Ok s c cl) by done. cbn [mbind Result_bind].
    eexists. split; [done|]. split; [|split; [|done]].
    + apply Inv_updClient; [by apply Inv_afterSends|]. intros ?. by repeat split.
    + apply (nicksExact_sameNicks (afterSends
               [(c, serverMessage s cl "PING" [config s "server-name"])] s));
        [by apply sameNicks_updClient|done].
  - destruct (Server.DeadTime s <? _); [apply Hquit|by exists s].
Qed.

(** The sweep returns, and what it returns is consistent again. *)
Lemma checkAndPingClients_good now s :
  Inv s → nicksExact s →
  ∃ s', checkAndPingClients now s = Ok s' ∧ Inv s' ∧ nicksExact s'
        ∧ Server.ShutdownChanClosed s' = Server.ShutdownChanClosed s.
Proof using ToLower_plainName. tidy'.
  intros HI Hs. unfold checkAndPingClients.
  destruct (forEach_keeps
              (λ s1, Inv s1 ∧ nicksExact s1
                     ∧ Server.ShutdownChanClosed s1
                       = Server.ShutdownChanClosed s)
              (elements (Server.Clients s))
              (λ c s, if bool_decide (c ∈ Server.Clients s)
                      then checkAndPingClient now c s else Ok s) s)
    as (s2 & E2 & HI2 & Hs2 & Hf2); [|done|by exists s2].
  intros k s1 _ (HI1 & Hs1 & Hf1). case_bool_decide as Hk; [|by exists s1].
  destruct (checkAndPingClient_good now s1 k HI1 Hs1 Hk)
    as (s2 & -> & HI2 & Hs2 & Hf2).
  exists s2. split; [done|]. split; [done|]. split; [done|]. congruence.
Qed.

Lemma handleMessage_exact now s c m s' :
  Inv s → nicksExact s → c ∈ Server.Clients s →
  handleMessage now c m s = Ok s' → nicksExact s'.
Proof using ToLower_plainName.
  intros HI Hs Hin E.
  assert (HI1 : Inv (touch now c s)).
  { apply (Inv_shape s); [done|apply shape_touch]. }
  assert (Hs1 : nicksExact (touch now c s)).
  { apply (nicksExact_sameNicks s); [|done].
    apply calmSteps_touch, sameNicks_Calm. }
  destruct (handleMessage_routes now c m s s' E)
    as [[Hm E']|[[Hm E']|[[Hm E']|[[Hm E']|Hcalm]]]].
  - by apply (nickCommand_exact (touch now c s) c m).
  - unfold quitCommand in E'. by eapply (Client_quit_exact (touch now c s) c).
  - by apply (shutdown_exact (touch now c s)).
  - apply (nicksExact_sameNicks (touch now c s)); [|done].
    by apply (framed_operCommand sameNicks sameNicks_Calm sameNicks_grant
                (touch now c s) c m (touch now c s) (sameNicks_refl _)).
  - apply (nicksExact_sameNicks s); [|done]. apply Hcalm, sameNicks_Calm.
Qed.

(** ** The message loop *)

Lemma Inv_NewClient now s id ip :
  Inv s → id ∉ Server.Clients s →
  Inv (updClient (Client.setLastActivityTime now) id
         (Server.setClients ({[id]} ∪ Server.Clients s)
            (Server.setClientAt (<[id := acceptedClient ip]> (Server.clientAt s))
               s))).
Proof. tidy.
  intros HI Hid.
  assert (Hold : ∀ k, k ∈ Server.Clients s →
            alter (Client.setLastActivityTime now) id
              (<[id := acceptedClient ip]> (Server.clientAt s)) !! k
            = Server.clientAt s !! k).
  { intros k Hk. assert (id ≠ k) by (intros ->; done).
    by rewrite lookup_alter_ne, lookup_insert_ne. }
  assert (Hnew : alter (Client.setLastActivityTime now) id
                   (<[id := acceptedClient ip]> (Server.clientAt s)) !! id
                 = Some (Client.setLastActivityTime now (acceptedClient ip))).
  { by rewrite lookup_alter_eq, lookup_insert_eq. }
  split; simpl.
  - intros k [->%elem_of_singleton|Hk]%elem_of_union.
    + eexists. split; [exact Hnew|done].
    + destruct (inv_clients _ HI _ Hk) as (cl & Hc & Hopen).
      exists cl. split; [|done]. simpl. by rewrite Hold.
  - apply (inv_index _ HI).
  - intros n a ch k Hna Hch Hk.
    destruct (inv_members _ HI n a ch k Hna Hch Hk) as (Hin & cl & Hc & Hn).
    split; [set_solver|]. exists cl. by rewrite Hold.
  - intros k cl n a [->%elem_of_singleton|Hk]%elem_of_union Hc Hn.
    + rewrite Hnew in Hc. injection Hc as <-. done.
    + rewrite Hold in Hc by done. by apply (inv_joined _ HI k cl).
  - intros nk t Ht. destruct (inv_nicks _ HI nk t Ht) as (Hin & tcl & Htcl & ?).
    split; [set_solver|]. exists tcl. simpl. by rewrite Hold.
Qed.

Lemma nicksExact_NewClient now s id ip :
  nicksExact s → id ∉ Server.Clients s →
  nicksExact
    (updClient (Client.setLastActivityTime now) id
       (Server.setClients ({[id]} ∪ Server.Clients s)
          (Server.setClientAt (<[id := acceptedClient ip]> (Server.clientAt s))
             s))).
Proof. tidy'. clear ToLower_plainName.
  intros Hs Hid k cl. simpl.
  intros [->%elem_of_singleton|Hk]%elem_of_union.
  - rewrite lookup_alter_eq, lookup_insert_eq. by intros [= <-].
  - assert (id ≠ k) by (intros ->; done).
    rewrite lookup_alter_ne, lookup_insert_ne by done. by apply Hs.
Qed.

Lemma acceptConnection_Some id ip e id' :
  (id < 2 ^ 64)%N → acceptConnection id ip = Some (e, id') →
  e = NewClient id (acceptedClient ip) ∧ id' = (id + 1)%N ∧ (id' < 2 ^ 64)%N.
Proof.
  intros Hid. unfold acceptConnection. cbv zeta.
  destruct (_ =? 0)%N eqn:E; [done|]. apply N.eqb_neq in E.
  intros [= <- <-]. split; [done|].
  assert ((id + 1) mod 2 ^ 64 = id + 1)%N as ->; [|split; [done|]].
  - apply N.mod_small.
    destruct (decide (id + 1 = 2 ^ 64)%N) as [E'|]; [|lia].
    rewrite E' in E. by rewrite N.Div0.mod_same in E.
  - destruct (decide (id + 1 = 2 ^ 64)%N) as [E'|]; [|lia].
    rewrite E' in E. by rewrite N.Div0.mod_same in E.
Qed.

Lemma continue_Running id r id' s' :
  continue id r = Running id' s' → id' = id ∧ r = Ok s'.
Proof. destruct r; simpl; [|done]. by intros [= -> ->]. Qed.

(** One input leaves the daemon sound, and leaves the shutdown signal alone
    unless it is DIE. *)
Lemma daemonStep_Sound now i id s id' s' :
  Sound id s → daemonStep now i id s = Running id' s' →
  Sound id' s'
  ∧ ((∀ c m, i = Line c m → Command m ≠ "DIE") →
     Server.ShutdownChanClosed s' = Server.ShutdownChanClosed s).
Proof using ToLower_plainName.
  intros HS. pose proof HS as (HI & Hs & Hb & Hid).
  destruct i as [ip|c m|c|]; simpl.
  - destruct (acceptConnection id ip) as [[e id1]|] eqn:Ea; [|done].
    destruct (acceptConnection_Some id ip e id1 Hid Ea) as (-> & -> & Hid1).
    simpl. intros [= <- <-].
    assert (Hfresh : id ∉ Server.Clients s).
    { intros Hin. specialize (Hb id Hin). lia. }
    split; [|done]. split; [by apply Inv_NewClient|].
    split; [by apply nicksExact_NewClient|]. split; [|done]. simpl.
    intros k [->%elem_of_singleton|Hk]%elem_of_union; [lia|].
    specialize (Hb k Hk). lia.
  - intros [-> E]%continue_Running. case_bool_decide as Hin.
    2:{ injection E as <-. by split. }
    destruct (handleMessage_keeps now s c m HI Hin) as [HI' _].
    pose proof (succeeds_handleMessage now c m s s' E) as (HC & _).
    split.
    + split; [by apply HI'|]. split; [by apply (handleMessage_exact now s c m)|].
      split; [|done]. intros k Hk. apply Hb. set_solver.
    + intros Hdie. specialize (Hdie c m eq_refl).
      assert (HU : Calm unflagged).
      { split; try done. unfold unflagged. congruence. }
      refine (handleMessage_respects unflagged now c m s s' HU _ _ _ _ E);
        [intros _..|done|intros _].
      * by apply (framed_nickCommand unflagged HU).
      * by apply (framed_quitCommand unflagged HU).
      * by apply (framed_operCommand unflagged HU).
  - intros [-> E]%continue_Running. case_bool_decide as Hin.
    2:{ injection E as <-. by split. }
    destruct (Client_quit_good s c "I/O error" HI Hs Hin)
      as (s2 & E2 & HI2 & Hs2 & HC2 & Hf2).
    rewrite E in E2. injection E2 as <-. split; [|done].
    split; [done|]. split; [done|]. split; [|done].
    intros k Hk. apply Hb. set_solver.
  - intros [-> E]%continue_Running.
    destruct (checkAndPingClients_good now s HI Hs)
      as (s2 & E2 & HI2 & Hs2 & Hf2).
    rewrite E in E2. injection E2 as <-. split; [|done].
    split; [done|]. split; [done|]. split; [|done].
    pose proof (succeeds_checkAndPingClients_holds now s s' E) as (HC & _).
    intros k Hk. apply Hb. set_solver.
Qed.

Lemma run_Sound inputs id s id' s' :
  Sound id s → run inputs id s = Running id' s' → Sound id' s'.
Proof using ToLower_plainName.
  revert id s. induction inputs as [|[now i] inputs IH]; intros id s HS; simpl.
  - by intros [= <- <-].
  - destruct (daemonStep now i id s) as [id1 s1| |] eqn:E1; [|done..].
    apply IH. by apply (daemonStep_Sound now i id s).
Qed.

Lemma daemonStep_total now i id s :
  Sound id s → Server.ShutdownChanClosed s = false → harmless i →
  ∀ p, daemonStep now i id s ≠ Crashed p.
Proof using ToLower_plainName.
  intros (HI & Hs & Hb & Hid) Hflag Hi p. destruct i as [ip|c m|c|]; simpl.
  - unfold acceptConnection. cbv zeta. by destruct (_ =? 0)%N.
  - case_bool_decide as Hin; [|done]. destruct Hi as [Hpriv Hdie].
    destruct (handleMessage_keeps now s c m HI Hin) as [_ Htotal].
    by destruct (Htotal Hpriv Hflag) as [s' ->].
  - case_bool_decide as Hin; [|done].
    by destruct (Client_quit_good s c "I/O error" HI Hs Hin) as (s' & -> & _).
  - by destruct (checkAndPingClients_good now s HI Hs) as (s' & -> & _).
Qed.

Lemma run_total inputs id s :
  Sound id s → Server.ShutdownChanClosed s = false →
  Forall (λ ti, harmless ti.2) inputs →
  ∀ p, run inputs id s ≠ Crashed p.
Proof using ToLower_plainName.
  revert id s. induction inputs as [|[now i] inputs IH];
    intros id s HS Hflag Hin p; simpl; [done|].
  apply Forall_cons in Hin as [Hi Hin]. simpl in Hi.
  destruct (daemonStep now i id s) as [id1 s1|p1|] eqn:E1; [| |done].
  - destruct (daemonStep_Sound now i id s id1 s1 HS E1) as [HS1 Hf1].
    apply IH; [done| |done]. rewrite Hf1; [done|].
    intros c m ->. by destruct Hi.
  - by destruct (daemonStep_total now i id s HS Hflag Hi p1).
Qed.

(** ** Start-up *)

Lemma checkRequiredKeys_None keys cfg :
  checkRequiredKeys keys cfg = None
  ↔ Forall (λ key, ∃ v, cfg !! key = Some v ∧ v ≠ "") keys.
Proof. tidy.
  induction keys as [|key keys IH]; simpl; [by split; [constructor|]|].
  rewrite Forall_cons. destruct (cfg !! key) as [v|] eqn:E.
  - destruct v as [|a v]; simpl.
    + split; [done|]. by intros [(v & [= <-] & ?) _].
    + unfold len. simpl. rewrite IH. split; [|by intros [_ ?]].
      intros HF. split; [|done]. by eexists.
  - split; [done|]. by intros [(v & ? & _) _].
Qed.

Lemma newServer_Sound PD LC cfg s w :
  newServer PD LC cfg = inr (s, w) →
  Sound 0 s ∧ Server.ShutdownChanClosed s = false.
Proof. tidy.
  unfold newServer. destruct (checkAndParseConfig PD LC cfg) as [err|p]; [done|].
  intros [= <- <-]. split; [|done]. split; [|split; [|split]]; done.
Qed.

(** ** Operator status *)

Lemma modesFollow_fields G s s' :
  Server.Opers s' = Server.Opers s →
  Server.clientAt s' = Server.clientAt s →
  modesFollow G s s'.
Proof.
  intros ? E. split; [done|]. intros k. rewrite E.
  apply option_Forall2_same. intros cl. by left.
Qed.

Lemma modesFollow_updClient G s c f :
  (∀ cl, Client.Modes (f cl) ⊆ Client.Modes cl) →
  modesFollow G s (updClient f c s).
Proof.
  intros Hf. split; [done|]. intros k. simpl.
  apply option_Forall2_alter; [by left|]. intros cl _. left. apply Hf.
Qed.

Lemma modesFollow_Calm G : Calm (modesFollow G).
Proof. tidy.
  split.
  - intros s. by apply modesFollow_fields.
  - intros s1 s2 s3 [Ho Hk] [Ho' Hk']. split; [congruence|]. intros k.
    eapply option_Forall2_trans; [|apply Hk|apply Hk']. simpl.
    intros x y z [Hxy|?] [Hyz|?]; [left|by right..]. set_solver.
  - intros s x. by apply modesFollow_fields.
  - intros s x. by apply modesFollow_fields.
  - intros s x. by apply modesFollow_fields.
  - intros s c f Hf. split; [done|]. intros k. simpl.
    apply option_Forall2_alter; [by left|]. intros cl Hc. left.
    by destruct (Hf cl Hc) as (_ & _ & _ & ? & _).
Qed.

Lemma modesFollow_operCommand c m s :
  holds (modesFollow (λ k, k = c ∧ credentials m (Server.Opers s)) s)
    (operCommand c m s).
Proof. tidy.
  set (G := λ k, k = c ∧ credentials m (Server.Opers s)).
  pose proof (modesFollow_Calm G) as HR.
  pose proof (calm_refl _ HR s) as H0.
  unfold operCommand.
  destruct (Params m) as [|name [|password rest]] eqn:Hparams;
    try (by apply framed_Server_messageClient).
  apply holds_bind_any. intros isOper _.
  destruct isOper; [by apply framed_Server_messageClient|].
  destruct (Server.Opers s !! name) as [pass|] eqn:Hpass;
    [|by apply framed_Server_messageClient].
  case_bool_decide as Hne; [by apply framed_Server_messageClient|].
  subst pass. cbv zeta.
  match goal with
  | |- holds _ (client ?s2 c ≫= _) =>
      assert (H2 : modesFollow G s s2)
  end.
  { split; [done|]. intros k. simpl. destruct (decide (k = c)) as [->|Hk].
    - rewrite lookup_alter_eq.
      destruct (Server.clientAt s !! c); constructor. right.
      split; [done|]. by exists name, password, rest.
    - rewrite lookup_alter_ne by done. apply option_Forall2_same.
      intros cl. by left. }
  apply holds_client. intros cl _.
  apply (framed_bind (modesFollow G));
    [by apply framed_Client_messageClient|].
  intros s3 H3. by apply framed_Server_messageClient.
Qed.

Lemma modesFollow_handleMessage now c m s s' :
  handleMessage now c m s = Ok s' →
  modesFollow
    (λ k, k = c ∧ Command m = "OPER" ∧ credentials m (Server.Opers s)) s s'.
Proof. clear ToLower_plainName.
  set (G := λ k, k = c ∧ Command m = "OPER" ∧ credentials m (Server.Opers s)).
  pose proof (modesFollow_Calm G) as HR.
  pose proof (calm_refl _ HR (touch now c s)) as H0.
  assert (Hupd : ∀ s1 c1 f, (∀ cl, Client.Modes (f cl) = Client.Modes cl) →
                 modesFollow G s1 (updClient f c1 s1)).
  { intros s1 c1 f Hf. apply modesFollow_updClient. intros cl.
    by rewrite Hf. }
  apply handleMessage_respects; [done|..]; intros Hm.
  - apply (framed_nickCommand (modesFollow G) HR); [| |done].
    + intros s1 x. by apply modesFollow_fields.
    + intros s1 c1 n. by apply Hupd.
  - apply (framed_quitCommand (modesFollow G) HR); [| | |done].
    + intros s1 x. by apply modesFollow_fields.
    + intros s1 c1. by apply Hupd.
    + intros s1 c1. by apply modesFollow_fields.
  - apply (framed_shutdown (modesFollow G) HR); [| | | |done].
    + intros s1 x. by apply modesFollow_fields.
    + intros s1 c1. by apply Hupd.
    + intros s1 c1. by apply modesFollow_fields.
    + intros s1 b. by apply modesFollow_fields.
  - intros s2 E.
    destruct (modesFollow_operCommand c m (touch now c s) s2 E) as [Ho Hk].
    split; [done|]. intros k. specialize (Hk k).
    destruct Hk as [cl cl' [?|[? ?]]|]; constructor; [by left|by right].
Qed.

(** ** Properties of the daemon as a whole *)

(** Whatever the inputs, while the daemon started from a fresh server is
    running the indices are consistent: membership is recorded on both
    sides, no indexed channel is empty, and every indexed client got its
    id from the accepter before the id that comes next. *)
Theorem daemon_indices_consistent PD LC cfg s0 w inputs id s :
  newServer PD LC cfg = inr (s0, w) →
  run inputs 0 s0 = Running id s →
  membershipAgrees s ∧ noEmptyChannel s ∧ Inv s
  ∧ (∀ k, k ∈ Server.Clients s → (k < id)%N).
Proof using ToLower_plainName.
  intros Hnew Hrun. destruct (newServer_Sound PD LC cfg s0 w Hnew) as [HS0 _].
  destruct (run_Sound inputs 0 s0 id s HS0 Hrun) as (HI & _ & Hb & _).
  split; [by apply Inv_membershipAgrees|].
  split; [by apply Inv_noEmptyChannel|done].
Qed.

(** While the daemon is running the nick index is exactly the nicks of the
    indexed clients: a client with a nick is in the index under it, an
    entry of the index leads to an indexed client with that nick, and so no
    two indexed clients have nicks with the same canonical form. *)
Theorem daemon_nicks_unique PD LC cfg s0 w inputs id s :
  newServer PD LC cfg = inr (s0, w) →
  run inputs 0 s0 = Running id s →
  (∀ k cl, k ∈ Server.Clients s → Server.clientAt s !! k = Some cl →
     0 < len (Client.Nick cl) →
     Server.Nicks s !! canonicalizeNick (Client.Nick cl) = Some k)
  ∧ (∀ n k, Server.Nicks s !! n = Some k →
       k ∈ Server.Clients s
       ∧ ∃ cl, Server.clientAt s !! k = Some cl ∧ Client.Nick cl = n
               ∧ isValidNick n = true)
  ∧ (∀ k1 k2 cl1 cl2,
       k1 ∈ Server.Clients s → k2 ∈ Server.Clients s →
       Server.clientAt s !! k1 = Some cl1 →
       Server.clientAt s !! k2 = Some cl2 →
       0 < len (Client.Nick cl1) →
       canonicalizeNick (Client.Nick cl1) = canonicalizeNick (Client.Nick cl2) →
       k1 = k2).
Proof using ToLower_plainName.
  intros Hnew Hrun. destruct (newServer_Sound PD LC cfg s0 w Hnew) as [HS0 _].
  destruct (run_Sound inputs 0 s0 id s HS0 Hrun) as (HI & Hs & _ & _).
  split; [exact Hs|]. split.
  - intros n k Hn. destruct (inv_nicks _ HI n k Hn) as (Hin & cl & Hc & Hv & ->).
    split; [done|]. by exists cl.
  - intros k1 k2 cl1 cl2 Hin1 Hin2 Hc1 Hc2 Hlen E.
    pose proof (Hs k1 cl1 Hin1 Hc1 Hlen) as H1.
    destruct (decide (0 < len (Client.Nick cl2))) as [Hl|Hl].
    + pose proof (Hs k2 cl2 Hin2 Hc2 Hl) as H2. congruence.
    + assert (Client.Nick cl2 = "") as E0.
      { pose proof (len_nonneg (Client.Nick cl2)).
        destruct (Client.Nick cl2); [done|]. unfold len in *. simpl in *.
        lia. }
      rewrite E, E0 in H1. unfold canonicalizeNick in H1.
      rewrite ToLower_plainName in H1 by done.
      destruct (inv_nicks _ HI _ _ H1) as (_ & tcl & _ & Hv & Hkey).
      by rewrite <- Hkey in Hv.
Qed.

(** No sequence of inputs without a PRIVMSG or DIE line makes the message
    loop panic: the daemon is still running after it, unless the accepter
    ran out of ids. *)
Theorem daemon_survives PD LC cfg s0 w inputs :
  newServer PD LC cfg = inr (s0, w) →
  Forall (λ ti, harmless ti.2) inputs →
  ∀ p, run inputs 0 s0 ≠ Crashed p.
Proof using ToLower_plainName.
  intros Hnew Hin. destruct (newServer_Sound PD LC cfg s0 w Hnew) as [HS0 Hf].
  by apply run_total.
Qed.

(** The loop of checkAndParseConfig over the required keys passes exactly
    when every key is there with a value that is not empty; otherwise the
    error is about the first key, in the order of the list, that is missing
    or blank. *)
Theorem checkRequiredKeys_spec keys cfg :
  (checkRequiredKeys keys cfg = None
   ↔ Forall (λ key, ∃ v, cfg !! key = Some v ∧ v ≠ "") keys)
  ∧ (∀ err, checkRequiredKeys keys cfg = Some err →
       ∃ before key after,
         keys = before ++ key :: after
         ∧ Forall (λ key, ∃ v, cfg !! key = Some v ∧ v ≠ "") before
         ∧ ((cfg !! key = None ∧ err = "Missing required key: " +:+ key)
            ∨ (cfg !! key = Some ""
               ∧ err = "Configuration value is blank: " +:+ key))).
Proof. tidy.
  split; [apply checkRequiredKeys_None|].
  induction keys as [|key keys IH]; simpl; [done|]. intros err.
  destruct (cfg !! key) as [v|] eqn:E.
  - destruct v as [|a v]; simpl.
    + intros [= <-]. exists [], key, keys. split; [done|].
      split; [constructor|]. by right.
    + unfold len. simpl. intros Herr.
      destruct (IH err Herr) as (before & key' & after & -> & HF & Hkey).
      exists (key :: before), key', after. split; [done|].
      split; [|done]. constructor; [|done]. by eexists.
  - intros [= <-]. exists [], key, keys. split; [done|].
    split; [constructor|]. by left.
Qed.

(** A server that newServer returns has every required key of the
    configuration with a value, the two periods and the operator table are
    what the configuration parses to, the indices are empty, nothing has
    been sent and the shutdown signal is open. *)
Theorem newServer_starts_empty PD LC cfg s w :
  newServer PD LC cfg = inr (s, w) →
  Server.Config s = cfg
  ∧ Forall (λ key, config s key ≠ "") requiredKeys
  ∧ PD (config s "wakeup-time") = inr w
  ∧ PD (config s "ping-time") = inr (Server.PingTime s)
  ∧ PD (config s "dead-time") = inr (Server.DeadTime s)
  ∧ LC (config s "opers-config") = inr (Server.Opers s)
  ∧ Server.Clients s = ∅ ∧ Server.Nicks s = ∅ ∧ Server.Channels s = ∅
  ∧ Server.sent s = [] ∧ Server.ShutdownChanClosed s = false.
Proof. tidy.
  unfold newServer, checkAndParseConfig.
  destruct (checkRequiredKeys requiredKeys cfg) as [err|] eqn:Hkeys; [done|].
  apply checkRequiredKeys_None in Hkeys.
  destruct (PD (default "" (cfg !! "wakeup-time"))) as [?|wakeup] eqn:E1;
    [done|].
  destruct (PD (default "" (cfg !! "ping-time"))) as [?|ping] eqn:E2; [done|].
  destruct (PD (default "" (cfg !! "dead-time"))) as [?|dead] eqn:E3; [done|].
  destruct (LC (default "" (cfg !! "opers-config"))) as [?|opers] eqn:E4;
    [done|].
  intros [= <- <-]. split; [done|]. split; [|by repeat split].
  eapply Forall_impl; [exact Hkeys|]. intros key (v & Hv & Hne).
  unfold config. simpl. by rewrite Hv.
Qed.

(** ** What no event undoes *)

(** An event other than a new connection adds no client to the index and
    leaves the configuration, the two periods and the operator table as
    they are; the store has the same client objects after it, and each
    keeps its address, keeps its outbox closed if it was, and, if it was
    registered, stays registered under the same user and real name. *)
Theorem eventStep_settled now e s s' :
  (∀ id client, e ≠ NewClient id client) →
  eventStep now e s = Ok s' →
  Server.Clients s' ⊆ Server.Clients s
  ∧ Server.Config s' = Server.Config s
  ∧ Server.PingTime s' = Server.PingTime s
  ∧ Server.DeadTime s' = Server.DeadTime s
  ∧ Server.Opers s' = Server.Opers s
  ∧ dom (Server.clientAt s') = dom (Server.clientAt s)
  ∧ ∀ k cl cl',
      Server.clientAt s !! k = Some cl → Server.clientAt s' !! k = Some cl' →
      Client.IP cl' = Client.IP cl
      ∧ (Client.WriteChanClosed cl = true → Client.WriteChanClosed cl' = true)
      ∧ (Client.Registered cl = true →
         Client.Registered cl' = true ∧ Client.User cl' = Client.User cl
         ∧ Client.RealName cl' = Client.RealName cl).
Proof. clear ToLower_plainName.
  intros Hnot E.
  assert (Hs : succeeds s s').
  { destruct e as [id client|c m|c|]; simpl in E.
    - by destruct (Hnot id client).
    - case_bool_decide; [by apply (succeeds_handleMessage now c m)|].
      injection E as <-. apply succeeds_refl.
    - case_bool_decide; [by apply (succeeds_Client_quit_holds c "I/O error" s)|].
      injection E as <-. apply succeeds_refl.
    - by apply (succeeds_checkAndPingClients_holds now s). }
  destruct Hs as (HC & Hcfg & Hp & Hd & Ho & Hk).
  do 5 (split; [done|]). split.
  - apply set_eq. intros k. rewrite !elem_of_dom. specialize (Hk k).
    destruct Hk; split; intros [? ?]; by eauto.
  - intros k cl cl' Hc Hc'. specialize (Hk k). rewrite Hc, Hc' in Hk.
    by inversion Hk.
Qed.

(** A command gives a client object no mode it did not have, except that
    OPER with a name and its password from the operator table gives the
    sender the mode [o]: no other command makes a client an operator, and
    none makes another client one. *)
Theorem operator_only_by_OPER now s c m s' k cl cl' :
  handleMessage now c m s = Ok s' →
  Server.clientAt s !! k = Some cl → Server.clientAt s' !! k = Some cl' →
  (Client.Modes cl' ⊆ Client.Modes cl
   ∨ (k = c ∧ Command m = "OPER"
      ∧ ∃ name password rest,
          Params m = name :: password :: rest
          ∧ Server.Opers s !! name = Some password))
  ∧ ("o"%char ∈ Client.Modes cl' → "o"%char ∉ Client.Modes cl →
     k = c ∧ Command m = "OPER"
     ∧ ∃ name password rest,
         Params m = name :: password :: rest
         ∧ Server.Opers s !! name = Some password).
Proof. clear ToLower_plainName.
  intros E Hc Hc'.
  destruct (modesFollow_handleMessage now c m s s' E) as [_ Hk].
  specialize (Hk k). rewrite Hc, Hc' in Hk. inversion Hk as [? ? Hm|]; subst.
  split; [exact Hm|]. intros Ho Hno.
  destruct Hm as [Hsub|Hgrant]; [|exact Hgrant]. set_solver.
Qed.

(** ** Replies of the server *)

Lemma isNumeric_loop_spec command b :
  isNumeric_loop command b
  = b && forallb isDigit09 (list_ascii_of_string command).
Proof.
  revert b. induction command as [|a command IH]; intros b; simpl.
  - by rewrite andb_true_r.
  - rewrite IH. unfold isDigit09. change (byte_of "0") with 48.
    change (byte_of "9") with 57.
    rewrite (Z.ltb_antisym 48), (Z.ltb_antisym _ 57).
    by destruct b, (48 <=? byte_of a), (byte_of a <=? 57).
Qed.

(** A message from the server gets the nick of the client, or [*] if it
    has none, put before its parameters exactly when every byte of the
    command is a digit, which the empty command satisfies; the send panics
    if the outbox of the client has been closed. *)
Theorem Server_messageClient_reply s c cl command params :
  Server.clientAt s !! c = Some cl →
  let numeric := forallb isDigit09 (list_ascii_of_string command) in
  let params' :=
    if numeric
    then (if 0 <? len (Client.Nick cl) then Client.Nick cl else "*") :: params
    else params in
  Server_messageClient c command params s
  = if Client.WriteChanClosed cl then Panicked SendOnClosedChannel
    else Ok (Server.setSent
               (Server.sent s
                ++ [(c, mkMessage (config s "server-name") command params')])
               s).
Proof.
  intros Hc numeric params'. unfold Server_messageClient. use_client Hc.
  cbn [mbind Result_bind]. unfold chanSend. use_client Hc.
  cbn [mbind Result_bind]. rewrite isNumeric_loop_spec. done.
Qed.

Lemma Server_messageClient_after s l c cl command params :
  Server.clientAt s !! c = Some cl → Client.WriteChanClosed cl = false →
  Server_messageClient c command params (afterSends l s)
  = Ok (afterSends (l ++ [(c, serverMessage s cl command params)]) s).
Proof.
  intros Hc Hopen. rewrite (Server_messageClient_Ok (afterSends l s) c cl)
    by done.
  by rewrite afterSends_app.
Qed.




Lemma updClient_insert s c cl f :
  Server.clientAt s !! c = Some cl →
  updClient f c s = Server.setClientAt (<[c := f cl]> (Server.clientAt s)) s.
Proof. tidy.
  intros Hc. unfold updClient. f_equal. apply map_eq. intros k.
  destruct (decide (k = c)) as [->|Hne].
  - by rewrite lookup_alter_eq, lookup_insert_eq, Hc.
  - by rewrite lookup_alter_ne, lookup_insert_ne.
Qed.

(** ** USER *)


(** What USER answers when it does not register the client: 462 once the
    client is registered, ERROR if it has no nick yet, 461 unless there are
    exactly four parameters (more than four too), ERROR if the user name is
    not valid.  It changes nothing then. *)
Theorem userCommand_refused s c cl m :
  Server.clientAt s !! c = Some cl →
  Client.WriteChanClosed cl = false →
  (Client.Registered cl = true →
   userCommand c m s
   = replied s c cl "462" ["Unauthorized command (already registered)"])
  ∧ (Client.Registered cl = false → len (Client.Nick cl) = 0 →
     userCommand c m s = replied s c cl "ERROR" ["Please send NICK first"])
  ∧ (Client.Registered cl = false → len (Client.Nick cl) ≠ 0 →
     List.length (Params m) ≠ 4%nat →
     userCommand c m s
     = replied s c cl "461" [Command m; "Not enough parameters"])
  ∧ (Client.Registered cl = false → len (Client.Nick cl) ≠ 0 →
     ∀ user mode unused realname,
       Params m = [user; mode; unused; realname] →
       isValidUser user = false →
       userCommand c m s = replied s c cl "ERROR" ["Invalid username"]).
Proof. tidy.
  intros Hc Hopen. unfold userCommand, replied. use_client Hc.
  cbn [mbind Result_bind].
  split; [|split; [|split]].
  - intros ->. by apply Server_messageClient_Ok.
  - intros -> ->. by apply Server_messageClient_Ok.
  - intros -> Hnick%Z.eqb_neq Hlen. rewrite Hnick.
    destruct (Params m) as [|? [|? [|? [|? [|]]]]]; try done;
      by apply Server_messageClient_Ok.
  - intros -> Hnick%Z.eqb_neq user mode unused realname -> ->. rewrite Hnick.
    by apply Server_messageClient_Ok.
Qed.

(** ** NICK, the other cases *)

(** NICK without a parameter is answered by 431, NICK with a nick that is
    not valid by 432 "Erroneous nickname"; nothing else changes. *)
Theorem nickCommand_refused s c cl m :
  Server.clientAt s !! c = Some cl →
  Client.WriteChanClosed cl = false →
  (Params m = [] →
   nickCommand c m s = replied s c cl "431" ["No nickname given"])
  ∧ (∀ nick rest, Params m = nick :: rest → isValidNick nick = false →
       nickCommand c m s
       = replied s c cl "432" [nick; "Erroneous nickname"]).
Proof. tidy.
  intros Hc Hopen. unfold nickCommand, replied. split.
  - intros ->. by apply Server_messageClient_Ok.
  - intros nick rest -> ->. by apply Server_messageClient_Ok.
Qed.

(** A successful NICK of a client that is not registered sends nothing:
    the nick is stored, the nick index has the client under the new nick,
    no longer has the old nick, if there was one, and is otherwise as
    before. *)
Theorem nickCommand_before_registration s c cl m nick rest :
  Server.clientAt s !! c = Some cl →
  Client.Registered cl = false →
  Params m = nick :: rest →
  isValidNick nick = true →
  Server.Nicks s !! canonicalizeNick nick = None →
  (0 < len (Client.Nick cl) →
   Server.Nicks s !! canonicalizeNick (Client.Nick cl) = Some c) →
  ∃ s',
    nickCommand c m s = Ok s'
    ∧ Server.sent s' = Server.sent s
    ∧ Server.clientAt s' !! c = Some (Client.setNick nick cl)
    ∧ Server.Nicks s' !! canonicalizeNick nick = Some c
    ∧ (0 < len (Client.Nick cl) →
       Server.Nicks s' !! canonicalizeNick (Client.Nick cl) = None)
    ∧ (∀ n, n ≠ canonicalizeNick nick →
         n ≠ canonicalizeNick (Client.Nick cl) →
         Server.Nicks s' !! n = Server.Nicks s !! n)
    ∧ Server.Clients s' = Server.Clients s
    ∧ Server.Channels s' = Server.Channels s.
Proof. tidy'. clear ToLower_plainName.
  intros Hc Hreg Hparams Hvalid Hfree Hold.
  rewrite (nickCommand_unregistered_Ok s c cl m nick rest) by done.
  eexists. split; [done|]. unfold nickState, nicksAfter. simpl.
  split; [done|]. split; [by rewrite lookup_alter_eq, Hc|].
  destruct (0 <? len (Client.Nick cl)) eqn:El; simpl.
  - apply Z.ltb_lt in El. specialize (Hold El).
    assert (canonicalizeNick (Client.Nick cl) ≠ canonicalizeNick nick)
      by congruence.
    split; [by rewrite lookup_delete_ne, lookup_insert_eq|].
    split; [intros _; apply lookup_delete_eq|]. split; [|done].
    intros n Hn1 Hn2. by rewrite lookup_delete_ne, lookup_insert_ne.
  - apply Z.ltb_ge in El. split; [apply lookup_insert_eq|].
    split; [lia|]. split; [|done]. intros n Hn1 _.
    by rewrite lookup_insert_ne.
Qed.

(** ** The quit procedure on a client that is not registered *)

(** No QUIT goes out for a client that never registered: the client is sent
    ERROR with the message, its nick, if it has one, leaves the nick index,
    its outbox is closed and it leaves the client index; the channels are
    untouched. *)
Theorem Client_quit_unregistered s c cl msg :
  Inv s → c ∈ Server.Clients s →
  Server.clientAt s !! c = Some cl → Client.Registered cl = false →
  ∃ s',
    Client_quit c msg s = Ok s'
    ∧ Server.sent s'
      = Server.sent s ++ [(c, mkMessage (config s "server-name") "ERROR" [msg])]
    ∧ Server.Nicks s'
      = (if 0 <? len (Client.Nick cl)
         then delete (canonicalizeNick (Client.Nick cl)) (Server.Nicks s)
         else Server.Nicks s)
    ∧ Server.clientAt s' !! c = Some (Client.setWriteChanClosed true cl)
    ∧ Server.Clients s' = Server.Clients s ∖ {[c]}
    ∧ Server.Channels s' = Server.Channels s
    ∧ Server.channelAt s' = Server.channelAt s
    ∧ Inv s'.
Proof using ToLower_plainName. tidy'.
  intros HI Hin Hc Hreg.
  destruct (Client_quit_unregistered_Ok s c cl msg HI Hin Hc Hreg) as [-> HI'].
  eexists. split; [done|]. simpl. split; [done|]. split; [done|].
  split; [by rewrite lookup_alter_eq, Hc|]. do 3 (split; [done|]).
  by apply Inv_afterSends.
Qed.

(** ** Shutdown *)

Lemma Client_quit_closes s c msg s' :
  Inv s → c ∈ Server.Clients s → Client_quit c msg s = Ok s' →
  Client.WriteChanClosed <$> Server.clientAt s' !! c = Some true.
Proof using ToLower_plainName. tidy'.
  intros HI Hin. destruct (inv_clients _ HI _ Hin) as (cl & Hc & Hopen).
  destruct (Client.Registered cl) eqn:Hreg.
  - destruct (Client_quit_registered_Ok s c cl msg HI Hin Hc Hreg) as [-> _].
    intros [= <-]. unfold quitState. simpl. rewrite lookup_alter_eq.
    destruct (departAll_frame c (map_to_list (Client.Channels cl)) s)
      as (-> & _).
    by rewrite Hc.
  - destruct (Client_quit_unregistered_Ok s c cl msg HI Hin Hc Hreg)
      as [-> _].
    intros [= <-]. simpl. by rewrite lookup_alter_eq, Hc.
Qed.

Lemma succeeds_closed s s' k :
  succeeds s s' →
  Client.WriteChanClosed <$> Server.clientAt s !! k = Some true →
  Client.WriteChanClosed <$> Server.clientAt s' !! k = Some true.
Proof.
  intros (_ & _ & _ & _ & _ & Hk) Hclosed. specialize (Hk k).
  destruct Hk as [cl cl' (_ & Hcl & _)|]; [|done]. simpl in *.
  injection Hclosed as Hclosed. by rewrite Hcl.
Qed.

Lemma quit_each msg (l : list N) s :
  Inv s →
  ∃ s',
    forEach l
      (λ k s, if bool_decide (k ∈ Server.Clients s) then Client_quit k msg s
              else Ok s) s = Ok s'
    ∧ Inv s'
    ∧ Server.Clients s' = Server.Clients s ∖ list_to_set l
    ∧ Server.ShutdownChanClosed s' = Server.ShutdownChanClosed s
    ∧ succeeds s s'
    ∧ (∀ k, k ∈ l → k ∈ Server.Clients s →
         Client.WriteChanClosed <$> Server.clientAt s' !! k = Some true).
Proof using ToLower_plainName. tidy'.
  revert s. induction l as [|k l IH]; intros s HI; simpl.
  { exists s. split; [done|]. split; [done|]. split; [set_solver|].
    split; [done|]. split; [apply succeeds_refl|]. by intros k Hk%elem_of_nil. }
  case_bool_decide as Hk.
  - destruct (Client_quit_keeps s k msg HI Hk) as (s1 & E1 & HI1 & HC1 & Hf1).
    rewrite E1. cbn [mbind Result_bind].
    destruct (IH s1 HI1) as (s2 & E2 & HI2 & HC2 & Hf2 & Hs2 & Hcl2).
    exists s2. split; [done|]. split; [done|].
    pose proof (succeeds_Client_quit_holds k msg s s1 E1) as Hs1.
    split; [rewrite HC2, HC1; set_solver|]. split; [congruence|].
    split; [by apply (calm_trans _ succeeds_Calm _ s1)|].
    intros k' [->|Hk']%elem_of_cons Hin'.
    + apply (succeeds_closed s1); [done|].
      by apply (Client_quit_closes s k msg).
    + destruct (decide (k' = k)) as [->|Hne].
      * apply (succeeds_closed s1); [done|].
        by apply (Client_quit_closes s k msg).
      * apply Hcl2; [done|]. rewrite HC1. set_solver.
  - cbn [mbind Result_bind].
    destruct (IH s HI) as (s2 & E2 & HI2 & HC2 & Hf2 & Hs2 & Hcl2).
    exists s2. split; [done|]. split; [done|].
    split; [rewrite HC2; set_solver|]. split; [done|]. split; [done|].
    intros k' [->|Hk']%elem_of_cons Hin'; [done|]. by apply Hcl2.
Qed.

Lemma Inv_nobody s :
  Inv s → Server.Clients s = ∅ →
  Server.Nicks s = ∅ ∧ Server.Channels s = ∅.
Proof. tidy.
  intros HI HC. split; apply map_empty; intros key.
  - destruct (Server.Nicks s !! key) as [t|] eqn:E; [|done].
    destruct (inv_nicks _ HI _ _ E) as [Hin _]. set_solver.
  - destruct (Server.Channels s !! key) as [a|] eqn:E; [|done].
    destruct (inv_index _ HI _ _ E) as (ch & Hch & _ & _ & Hne).
    apply set_choose_L in Hne as [k Hk].
    destruct (inv_members _ HI _ _ _ _ E Hch Hk) as [Hin _]. set_solver.
Qed.

(** DIE is open to every registered client, operator or not, and goes to
    the shutdown.  From consistent indices the shutdown closes the shutdown
    signal and quits every client: afterwards the client index, the nick
    index and the channel index are empty and the outbox of every client
    that was indexed is closed.  A shutdown when the signal is closed
    already panics. *)
Theorem shutdown_quits_everyone s :
  Inv s →
  (∀ now c cl m,
     Server.clientAt s !! c = Some cl → Client.Registered cl = true →
     Prefix m = "" → Command m = "DIE" →
     handleMessage now c m s = shutdown (touch now c s))
  ∧ (Server.ShutdownChanClosed s = false →
     ∃ s', shutdown s = Ok s'
           ∧ Server.ShutdownChanClosed s' = true
           ∧ Server.Clients s' = ∅ ∧ Server.Nicks s' = ∅
           ∧ Server.Channels s' = ∅
           ∧ (∀ k, k ∈ Server.Clients s →
                Client.WriteChanClosed <$> Server.clientAt s' !! k = Some true)
           ∧ Inv s')
  ∧ (Server.ShutdownChanClosed s = true →
     shutdown s = Panicked CloseOfClosedChannel).
Proof using ToLower_plainName.
  intros HI. split; [|split].
  - intros now c cl m Hc Hreg Hpre Hcmd. unfold handleMessage.
    fold (touch now c s). rewrite Hpre, Hcmd.
    assert (Hc1 : Server.clientAt (touch now c s) !! c
                  = Some (Client.setLastActivityTime now cl)).
    { unfold touch. by rewrite lookup_updClient, Hc. }
    use_client Hc1. simpl. by rewrite Hreg.
  - intros Hflag. unfold shutdown. rewrite Hflag. cbn [mbind Result_bind].
    destruct (quit_each "Server shutting down" (elements (Server.Clients s))
                (Server.setShutdownChanClosed true s))
      as (s' & E & HI' & HC & Hf & _ & Hcl).
    { destruct HI. by split. }
    exists s'. split; [exact E|]. split; [done|].
    assert (HC' : Server.Clients s' = ∅).
    { rewrite HC. simpl. apply set_eq. intros k.
      rewrite elem_of_difference, elem_of_list_to_set, elem_of_elements.
      set_solver. }
    destruct (Inv_nobody s' HI' HC') as [HN HCh].
    do 3 (split; [done|]). split; [|done].
    intros k Hk. apply Hcl; [by apply elem_of_elements|done].
  - intros Hflag. unfold shutdown. by rewrite Hflag.
Qed.

(** ** PART and JOIN 0 *)

Lemma isValidChannel_loop_plainName i n :
  isValidChannel_loop i n = true → plainName n = true.
Proof.
  revert i. induction n as [|a n IH]; intros i; simpl; [done|].
  destruct (i =? 0).
  - case_bool_decide as Ea; [|done]. intros H.
    rewrite (IH _ H), Ea. by vm_compute.
  - destruct (isLowerAZ a); [by intros H; rewrite (IH _ H)|].
    destruct (isDigit09 a); [by intros H; rewrite (IH _ H)|done].
Qed.

Lemma canonicalizeChannel_valid n :
  isValidChannel n = true → canonicalizeChannel n = n.
Proof using ToLower_plainName.
  intros H. apply ToLower_plainName. unfold isValidChannel in H.
  destruct (_ || _); [done|]. by apply (isValidChannel_loop_plainName 0).
Qed.

Lemma leave_client s c cl n a :
  Server.clientAt s !! c = Some cl →
  Server.clientAt (leave c n a s) !! c
  = Some (Client.setChannels (delete n (Client.Channels cl)) cl).
Proof.
  intros Hc. unfold leave.
  destruct (depart_frame c a
    (updClient
       (λ cl, Client.setChannels (delete n (Client.Channels cl)) cl) c s))
    as (-> & _).
  by rewrite lookup_updClient, Hc.
Qed.

(** PART of a channel the client is on: PART, with the message if there is
    one, goes to every member, the client included; the channel leaves the
    channel map of the client and the client leaves the members; the
    channel leaves the index exactly when the client was its only member. *)
Theorem Client_part_leaves s c cl channelName message a :
  Inv s → c ∈ Server.Clients s →
  Server.clientAt s !! c = Some cl →
  let n := canonicalizeChannel channelName in
  isValidChannel n = true →
  Client.Channels cl !! n = Some a →
  ∃ s' ch,
    Client_part c channelName message s = Ok s'
    ∧ Server.channelAt s !! a = Some ch ∧ c ∈ Channel.Members ch
    ∧ Server.sent s'
      = Server.sent s
        ++ ((λ r, (r, clientMessage cl "PART"
                        (if 0 <? len message then [n; message] else [n])))
              <$> elements (Channel.Members ch))
    ∧ Client.Channels <$> Server.clientAt s' !! c
      = Some (delete n (Client.Channels cl))
    ∧ Server.channelAt s' !! a
      = Some (Channel.setMembers (Channel.Members ch ∖ {[c]}) ch)
    ∧ Server.Channels s'
      = (if decide (Channel.Members ch ∖ {[c]} = ∅)
         then delete n (Server.Channels s) else Server.Channels s)
    ∧ Server.Clients s' = Server.Clients s
    ∧ Server.Nicks s' = Server.Nicks s
    ∧ Inv s'.
Proof. tidy.
  intros HI Hin Hc n Hvalid Hn.
  destruct (inv_joined _ HI _ _ _ _ Hin Hc Hn) as (_ & Hidx & ch & Hch & Hmem).
  destruct (inv_index _ HI _ _ Hidx) as (ch' & Hch' & Hname & _).
  rewrite Hch in Hch'. injection Hch' as <-.
  exists (afterSends
            (partReplies cl n message
               (default ∅ (Channel.Members <$> channelNamed s n)))
            (leave c n a s)), ch.
  split; [by apply (Client_part_Ok s c cl channelName message a)|].
  split; [done|]. split; [done|].
  destruct (leave_frame c n a s) as (FC & FN & FS).
  split.
  { simpl. unfold partReplies, channelNamed. rewrite Hidx. simpl.
    rewrite Hch. simpl. unfold leave.
    by destruct (depart_frame c a
      (updClient
         (λ cl, Client.setChannels (delete n (Client.Channels cl)) cl) c s))
      as (_ & _ & _ & _ & -> & _). }
  split; [simpl; by rewrite (leave_client s c cl)|].
  assert (Hch1 : Server.channelAt
                   (updClient
                      (λ cl, Client.setChannels
                               (delete n (Client.Channels cl)) cl) c s) !! a
                 = Some ch) by done.
  destruct (depart_effect c a ch _ Hch1) as [Hat Hchs].
  split; [exact Hat|]. split; [|split; [exact FC|split; [exact FN|]]].
  - change (Server.Channels (leave c n a s)
            = if decide (Channel.Members ch ∖ {[c]} = ∅)
              then delete n (Server.Channels s) else Server.Channels s).
    unfold leave. rewrite Hchs. by rewrite Hname.
  - apply Inv_afterSends. by apply (Inv_leave s c cl n a).
Qed.

(** What PART answers when the client does not leave: 461 without a
    parameter, and 403 for a name that is not valid, for a channel that is
    not in the index, and for a channel the client is not on alike.
    Nothing changes then. *)
Theorem partCommand_refused s c cl m :
  Inv s → c ∈ Server.Clients s →
  Server.clientAt s !! c = Some cl →
  (Params m = [] →
   partCommand c m s = replied s c cl "461" ["PART"; "Not enough parameters"])
  ∧ (∀ param0 rest, Params m = param0 :: rest →
       let n := canonicalizeChannel param0 in
       (isValidChannel n = false →
        partCommand c m s = replied s c cl "403" [n; "Invalid channel name"])
       ∧ (isValidChannel n = true → Server.Channels s !! n = None →
          partCommand c m s = replied s c cl "403" [n; "No such channel"])
       ∧ (isValidChannel n = true → is_Some (Server.Channels s !! n) →
          Client.Channels cl !! n = None →
          partCommand c m s
          = replied s c cl "403" [n; "You are not on that channel"])).
Proof. tidy.
  intros HI Hin Hc. destruct (inv_clients _ HI _ Hin) as (cl' & Hc' & Hopen).
  rewrite Hc in Hc'. injection Hc' as <-.
  split.
  - intros E. unfold partCommand, replied. rewrite E.
    by apply Server_messageClient_Ok.
  - intros param0 rest E n. unfold partCommand, replied. rewrite E.
    unfold Client_part. fold n.
    split; [|split].
    + intros ->. by apply Server_messageClient_Ok.
    + intros -> ->. by apply Server_messageClient_Ok.
    + intros -> [a Ha] Hn. rewrite Ha. simpl.
      destruct (inv_index _ HI _ _ Ha) as (ch & Hch & Hname & _).
      use_channel Hch. unfold Client_onChannel. use_client Hc.
      rewrite Hname, bool_decide_eq_false_2 by (rewrite Hn; by intros [? ?]).
      by apply Server_messageClient_Ok.
Qed.

Lemma join0_loop c (l : list (string * addr)) s cl :
  Inv s → c ∈ Server.Clients s → Server.clientAt s !! c = Some cl →
  (∀ k a, (k, a) ∈ l →
     Client.Channels cl !! k = None ∨ Client.Channels cl !! k = Some a) →
  ∃ s' cl',
    forEach l
      (λ '(k, a) s,
         cl ← client s c;
         match Client.Channels cl !! k with
         | None => Ok s
         | Some _ => ch ← channel s a; Client_part c (Channel.Name ch) "" s
         end) s = Ok s'
    ∧ Inv s'
    ∧ Server.Clients s' = Server.Clients s
    ∧ Server.Nicks s' = Server.Nicks s
    ∧ Server.clientAt s' !! c = Some cl'
    ∧ Client.Channels cl' ⊆ Client.Channels cl
    ∧ (∀ k a, (k, a) ∈ l → Client.Channels cl' !! k = None).
Proof using ToLower_plainName. tidy'.
  revert s cl. induction l as [|[k a] l IH]; intros s cl HI Hin Hc Hl.
  { exists s, cl. simpl. do 6 (split; [done|]). by intros k a Hk%elem_of_nil. }
  cbn [forEach]. use_client Hc.
  destruct (Client.Channels cl !! k) as [a'|] eqn:Hk.
  - assert (a' = a) as ->.
    { destruct (Hl k a) as [?|?]; [left|congruence|congruence]. }
    destruct (inv_joined _ HI _ _ _ _ Hin Hc Hk) as (_ & Hidx & ch & Hch & _).
    destruct (inv_index _ HI _ _ Hidx) as (ch' & Hch' & Hname & Hvalid & _).
    rewrite Hch in Hch'. injection Hch' as <-.
    use_channel Hch. rewrite Hname.
    assert (En : canonicalizeChannel k = k)
      by (by apply canonicalizeChannel_valid).
    rewrite (Client_part_Ok s c cl k "" a) by (by rewrite ?En).
    rewrite En. cbn [mbind Result_bind].
    set (s1 := afterSends _ (leave c k a s)).
    destruct (leave_frame c k a s) as (FC & FN & _).
    destruct (IH s1 (Client.setChannels (delete k (Client.Channels cl)) cl))
      as (s2 & cl2 & E2 & HI2 & HC2 & HN2 & Hc2 & Hsub2 & Hgone2).
    + apply Inv_afterSends. by apply (Inv_leave s c cl k a).
    + by rewrite <- FC in Hin.
    + by apply (leave_client s c cl).
    + intros k' a' Hk'. simpl. destruct (decide (k' = k)) as [->|Hne].
      * left. apply lookup_delete_eq.
      * rewrite lookup_delete_ne by done. apply Hl. by right.
    + exists s2, cl2. split; [done|]. split; [done|].
      split; [by rewrite HC2|]. split; [by rewrite HN2|]. split; [done|].
      split; [etrans; [exact Hsub2|apply delete_subseteq]|].
      intros k' a' [[= -> ->]|Hk']%elem_of_cons; [|by apply (Hgone2 k' a')].
      eapply lookup_weaken_None; [|exact Hsub2]. apply lookup_delete_eq.
  - cbn [mbind Result_bind].
    destruct (IH s cl HI Hin Hc) as (s2 & cl2 & E2 & HI2 & HC2 & HN2 & Hc2
                                     & Hsub2 & Hgone2).
    { intros k' a' Hk'. apply Hl. by right. }
    exists s2, cl2. do 6 (split; [done|]).
    intros k' a' [[= -> ->]|Hk']%elem_of_cons; [|by apply (Hgone2 k' a')].
    by eapply lookup_weaken_None.
Qed.

(** JOIN 0 takes the client out of every channel it is on: afterwards its
    channel map is empty and no indexed channel has it as a member; the
    client index and the nick index are as before and the indices are
    consistent. *)
Theorem joinCommand_zero s c cl m :
  Inv s → c ∈ Server.Clients s →
  Server.clientAt s !! c = Some cl →
  Params m = ["0"] →
  ∃ s',
    joinCommand c m s = Ok s'
    ∧ Client.Channels <$> Server.clientAt s' !! c = Some ∅
    ∧ (∀ n a ch, Server.Channels s' !! n = Some a →
         Server.channelAt s' !! a = Some ch → c ∉ Channel.Members ch)
    ∧ Server.Clients s' = Server.Clients s
    ∧ Server.Nicks s' = Server.Nicks s
    ∧ Inv s'.
Proof using ToLower_plainName. tidy'.
  intros HI Hin Hc Hparams. unfold joinCommand. rewrite Hparams. simpl.
  use_client Hc.
  destruct (join0_loop c (map_to_list (Client.Channels cl)) s cl HI Hin Hc)
    as (s' & cl' & E & HI' & HC & HN & Hc' & Hsub & Hgone).
  { intros k a Hka%elem_of_map_to_list. by right. }
  exists s'. split; [exact E|].
  assert (Hempty : Client.Channels cl' = ∅).
  { apply map_empty. intros k.
    destruct (Client.Channels cl' !! k) as [a|] eqn:Hk; [|done].
    pose proof (lookup_weaken _ _ _ _ Hk Hsub) as Hk0.
    apply elem_of_map_to_list in Hk0. by rewrite (Hgone k a Hk0) in Hk. }
  split; [by rewrite Hc'; simpl; rewrite Hempty|].
  split; [|done]. intros n a ch Hna Hch Hmem.
  destruct (inv_members _ HI' _ _ _ _ Hna Hch Hmem) as (_ & cl2 & Hc2 & Hn2).
  rewrite Hc' in Hc2. injection Hc2 as <-. by rewrite Hempty in Hn2.
Qed.

(** ** PRIVMSG *)

(** PRIVMSG to a channel the sender is on goes to every member of the
    channel but the sender, once each, with the canonical name of the
    channel and the text as trimmed; nothing else changes. *)
Theorem privmsgCommand_to_channel s c cl m target msg rest text a :
  Inv s → c ∈ Server.Clients s →
  Server.clientAt s !! c = Some cl →
  Params m = target :: msg :: rest →
  privmsgTrim (nickUhostOf cl) target msg = Ok text →
  String.get 0 target = Some "#"%char →
  let n := canonicalizeChannel target in
  isValidChannel n = true →
  Client.Channels cl !! n = Some a →
  ∃ ch,
    Server.channelAt s !! a = Some ch
    ∧ privmsgCommand c m s
      = Ok (afterSends
              ((λ r, (r, clientMessage cl "PRIVMSG" [n; text]))
                 <$> filter (λ r, r ≠ c) (elements (Channel.Members ch)))
              s).
Proof. tidy'. clear ToLower_plainName.
  intros HI Hin Hc Hparams Htrim Hget n Hvalid Hn.
  destruct (inv_joined _ HI _ _ _ _ Hin Hc Hn) as (_ & Hidx & ch & Hch & Hmem).
  destruct (inv_index _ HI _ _ Hidx) as (ch' & Hch' & Hname & _).
  rewrite Hch in Hch'. injection Hch' as <-.
  exists ch. split; [done|].
  unfold privmsgCommand. rewrite Hparams. unfold Client_nickUhost.
  use_client Hc. cbn [mbind Result_bind]. rewrite Htrim.
  cbn [mbind Result_bind]. rewrite Hget.
  rewrite bool_decide_eq_true_2 by done. fold n. rewrite Hvalid, Hidx.
  cbn [negb]. use_channel Hch. unfold Client_onChannel. use_client Hc.
  cbn [mbind Result_bind].
  rewrite Hname, bool_decide_eq_true_2 by done. cbn [negb].
  rewrite <- (afterSends_nil s) at 1.
  rewrite (forEach_sends _ _
             (λ r, if bool_decide (r = c) then []
                   else [(r, clientMessage cl "PRIVMSG" [n; text])])).
  - by rewrite (concat_unless c
                  (λ r, (r, clientMessage cl "PRIVMSG" [n; text]))).
  - intros r l Hr%elem_of_elements. case_bool_decide; [by rewrite app_nil_r|].
    destruct (inv_members _ HI _ _ _ _ Hidx Hch Hr) as (Hrin & _).
    destruct (inv_clients _ HI _ Hrin) as (rcl & Hrcl & Hropen).
    rewrite (Client_messageClient_Ok _ c cl r rcl) by done.
    by rewrite afterSends_app.
Qed.

(** PRIVMSG to a target that is not empty and does not start with [#].
    The text is trimmed before the target is looked at: if the trimming
    panics, the handler panics, whatever the target.  Otherwise the
    message goes to the client the nick index has under the canonical form
    of the target, with that canonical form and the text as trimmed, and to
    nobody else; without such a client the sender gets 401. *)
Theorem privmsgCommand_to_nick s c cl m target msg rest first :
  Inv s → c ∈ Server.Clients s →
  Server.clientAt s !! c = Some cl →
  Params m = target :: msg :: rest →
  String.get 0 target = Some first → first ≠ "#"%char →
  let nickName := canonicalizeNick target in
  (∀ p, privmsgTrim (nickUhostOf cl) target msg = Panicked p →
     privmsgCommand c m s = Panicked p)
  ∧ (∀ text, privmsgTrim (nickUhostOf cl) target msg = Ok text →
       (∀ t, isValidNick nickName = true →
          Server.Nicks s !! nickName = Some t →
          privmsgCommand c m s
          = Ok (afterSends
                  [(t, clientMessage cl "PRIVMSG" [nickName; text])] s))
       ∧ (isValidNick nickName = false ∨ Server.Nicks s !! nickName = None →
          privmsgCommand c m s
          = replied s c cl "401" [nickName; "No such nick/channel"])).
Proof. tidy'. clear ToLower_plainName.
  intros HI Hin Hc Hparams Hget Hfirst nickName.
  destruct (inv_clients _ HI _ Hin) as (cl' & Hc' & Hopen).
  rewrite Hc in Hc'. injection Hc' as <-.
  split.
  { intros p Htrim. unfold privmsgCommand. rewrite Hparams.
    unfold Client_nickUhost. use_client Hc. cbn [mbind Result_bind].
    by rewrite Htrim. }
  intros text Htrim.
  assert (E : privmsgCommand c m s
              = if negb (isValidNick nickName) then
                  Server_messageClient c "401"
                    [nickName; "No such nick/channel"] s
                else
                  match Server.Nicks s !! nickName with
                  | None =>
                      Server_messageClient c "401"
                        [nickName; "No such nick/channel"] s
                  | Some targetClient =>
                      Client_messageClient c targetClient "PRIVMSG"
                        [nickName; text] s
                  end).
  { unfold privmsgCommand. rewrite Hparams. unfold Client_nickUhost.
    use_client Hc. cbn [mbind Result_bind]. rewrite Htrim.
    cbn [mbind Result_bind]. rewrite Hget.
    by rewrite bool_decide_eq_false_2 by done. }
  rewrite E. split.
  - intros t -> Ht. rewrite Ht. cbn [negb].
    destruct (Inv_nick_target s _ t HI Ht) as (tcl & Htcl & Htopen).
    by apply (Client_messageClient_Ok s c cl t tcl).
  - unfold replied. intros [-> | ->]; [by apply Server_messageClient_Ok|].
    destruct (negb _); by apply Server_messageClient_Ok.
Qed.

(** What PRIVMSG answers when it delivers nothing: 411 without parameters,
    412 with a target and no text.  With a target that starts with [#] and
    a text, the text is trimmed first, and the handler panics if the
    trimming does, whatever the channel name; otherwise the answer is 404
    if the canonical form of the target is not a valid channel name, 403 if
    no channel has that name, 404 if the sender is not on the channel. *)
Theorem privmsgCommand_refused s c cl m :
  Inv s → c ∈ Server.Clients s →
  Server.clientAt s !! c = Some cl →
  (Params m = [] →
   privmsgCommand c m s = replied s c cl "411" ["No recipient given (PRIVMSG)"])
  ∧ (∀ target, Params m = [target] →
       privmsgCommand c m s = replied s c cl "412" ["No text to send"])
  ∧ (∀ target msg rest,
       Params m = target :: msg :: rest →
       String.get 0 target = Some "#"%char →
       let n := canonicalizeChannel target in
       (∀ p, privmsgTrim (nickUhostOf cl) target msg = Panicked p →
          privmsgCommand c m s = Panicked p)
       ∧ (∀ text, privmsgTrim (nickUhostOf cl) target msg = Ok text →
            (isValidChannel n = false →
             privmsgCommand c m s
             = replied s c cl "404" [n; "Cannot send to channel"])
            ∧ (isValidChannel n = true → Server.Channels s !! n = None →
               privmsgCommand c m s
               = replied s c cl "403" [n; "No such channel"])
            ∧ (isValidChannel n = true → is_Some (Server.Channels s !! n) →
               Client.Channels cl !! n = None →
               privmsgCommand c m s
               = replied s c cl "404" [n; "Cannot send to channel"]))).
Proof. tidy'. clear ToLower_plainName.
  intros HI Hin Hc. destruct (inv_clients _ HI _ Hin) as (cl' & Hc' & Hopen).
  rewrite Hc in Hc'. injection Hc' as <-.
  split; [|split].
  - intros E. unfold privmsgCommand, replied. rewrite E.
    by apply Server_messageClient_Ok.
  - intros target E. unfold privmsgCommand, replied. rewrite E.
    by apply Server_messageClient_Ok.
  - intros target msg rest E Hget n. split.
    { intros p Htrim. unfold privmsgCommand. rewrite E.
      unfold Client_nickUhost. use_client Hc. cbn [mbind Result_bind].
      by rewrite Htrim. }
    intros text Htrim.
    assert (E' : privmsgCommand c m s
                 = if negb (isValidChannel n) then
                     Server_messageClient c "404"
                       [n; "Cannot send to channel"] s
                   else
                     match Server.Channels s !! n with
                     | None =>
                         Server_messageClient c "403" [n; "No such channel"] s
                     | Some a =>
                         ch ← channel s a;
                         on ← Client_onChannel c (Channel.Name ch) s;
                         if negb on then
                           Server_messageClient c "404"
                             [n; "Cannot send to channel"] s
                         else
                           forEach (elements (Channel.Members ch))
                             (λ member s,
                                if bool_decide (member = c) then Ok s
                                else Client_messageClient c member "PRIVMSG"
                                       [Channel.Name ch; text] s) s
                     end).
    { unfold privmsgCommand. rewrite E. unfold Client_nickUhost.
      use_client Hc. cbn [mbind Result_bind]. rewrite Htrim.
      cbn [mbind Result_bind]. rewrite Hget.
      by rewrite bool_decide_eq_true_2 by done. }
    rewrite E'. unfold replied. split; [|split].
    + intros ->. by apply Server_messageClient_Ok.
    + intros -> ->. by apply Server_messageClient_Ok.
    + intros -> [a Ha] Hn. rewrite Ha. cbn [negb].
      destruct (inv_index _ HI _ _ Ha) as (ch & Hch & Hname & _).
      use_channel Hch. unfold Client_onChannel. use_client Hc.
      cbn [mbind Result_bind].
      rewrite Hname, bool_decide_eq_false_2 by (rewrite Hn; by intros [? ?]).
      by apply Server_messageClient_Ok.
Qed.

(** ** OPER *)

(** OPER with a name and the password the operator table has for it makes
    a client that is not an operator one: it gets the mode [o] and is sent
    MODE with its nick and [+o], from itself, and then 381.  Without two
    parameters the answer is 461, to an operator it is ERROR, and with a
    name or a password that does not match it is 464; nothing changes
    then. *)
Theorem operCommand_cases s c cl m :
  Server.clientAt s !! c = Some cl →
  Client.WriteChanClosed cl = false →
  ((List.length (Params m) < 2)%nat →
   operCommand c m s = replied s c cl "461" ["OPER"; "Not enough parameters"])
  ∧ (∀ name password rest, Params m = name :: password :: rest →
       ("o"%char ∈ Client.Modes cl →
        operCommand c m s
        = replied s c cl "ERROR" ["You are already an operator."])
       ∧ ("o"%char ∉ Client.Modes cl →
          Server.Opers s !! name ≠ Some password →
          operCommand c m s = replied s c cl "464" ["Password incorrect"])
       ∧ ("o"%char ∉ Client.Modes cl →
          Server.Opers s !! name = Some password →
          let cl' := Client.setModes ({["o"%char]} ∪ Client.Modes cl) cl in
          operCommand c m s
          = Ok (afterSends
                  [(c, clientMessage cl' "MODE" [Client.Nick cl; "+o"]);
                   (c, serverMessage s cl' "381"
                         ["You are now an IRC operator"])]
                  (Server.setClientAt (<[c := cl']> (Server.clientAt s)) s)))).
Proof. tidy.
  intros Hc Hopen. split.
  - intros Hlen. unfold operCommand, replied.
    destruct (Params m) as [|? [|? ?]]; simpl in Hlen; try lia;
      by apply Server_messageClient_Ok.
  - intros name password rest E. unfold operCommand, replied. rewrite E.
    unfold Client_isOperator. use_client Hc. cbn [mbind Result_bind].
    split; [|split].
    + intros Ho. rewrite bool_decide_eq_true_2 by done.
      by apply Server_messageClient_Ok.
    + intros Ho Hpw. rewrite bool_decide_eq_false_2 by done.
      destruct (Server.Opers s !! name) as [pass|];
        [|by apply Server_messageClient_Ok].
      rewrite bool_decide_eq_true_2 by congruence.
      by apply Server_messageClient_Ok.
    + intros Ho Hpw.
      set (cl' := Client.setModes ({["o"%char]} ∪ Client.Modes cl) cl).
      rewrite bool_decide_eq_false_2 by done. rewrite Hpw.
      rewrite bool_decide_eq_false_2 by (by intros ?). cbv zeta.
      rewrite (updClient_insert s c cl) by done. fold cl'.
      set (s1 := Server.setClientAt _ s).
      assert (Hc1 : Server.clientAt s1 !! c = Some cl')
        by apply lookup_insert_eq.
      use_client Hc1. cbn [mbind Result_bind].
      rewrite (Client_messageClient_Ok s1 c cl' c cl') by done.
      cbn [mbind Result_bind].
      rewrite (Server_messageClient_after s1 _ c cl') by done.
      done.
Qed.

(** ** The sweep as a whole *)





(** ** The heartbeat, client by client *)








(** ** MODE on a nick *)

(** MODE with the nick of another client is answered by 502, whatever the
    mode string, the empty one included.  On its own nick, [+o] does nothing
    at all, and [-o] takes the mode [o] from an operator, who is sent MODE
    [-o] with its nick from itself, and does nothing to a client that is
    not an operator. *)
Theorem userModeCommand_operator s c cl :
  Server.clientAt s !! c = Some cl →
  Client.WriteChanClosed cl = false →
  (∀ t modes, t ≠ c →
     userModeCommand c t modes s
     = replied s c cl "502" ["Cannot change mode for other users"])
  ∧ (∀ modes, len modes ≠ 0 → runes modes = [byte_of "+"; byte_of "o"] →
       userModeCommand c c modes s = Ok s)
  ∧ (∀ modes, len modes ≠ 0 → runes modes = [byte_of "-"; byte_of "o"] →
       let cl' := Client.setModes (Client.Modes cl ∖ {["o"%char]}) cl in
       userModeCommand c c modes s
       = if bool_decide ("o"%char ∈ Client.Modes cl)
         then Ok (afterSends
                    [(c, clientMessage cl' "MODE" ["-o"; Client.Nick cl])]
                    (Server.setClientAt (<[c := cl']> (Server.clientAt s)) s))
         else Ok s).
Proof. tidy'. clear ToLower_plainName. clear ToLower.
  intros Hc Hopen. split; [|split].
  - intros t modes Ht. unfold userModeCommand, replied.
    rewrite bool_decide_eq_true_2 by done. by apply Server_messageClient_Ok.
  - intros modes Hlen Hrunes. apply Z.eqb_neq in Hlen. unfold userModeCommand.
    rewrite bool_decide_eq_false_2 by (by intros ?). rewrite Hlen, Hrunes.
    reflexivity.
  - intros modes Hlen Hrunes. apply Z.eqb_neq in Hlen. unfold userModeCommand.
    rewrite bool_decide_eq_false_2 by (by intros ?). rewrite Hlen, Hrunes.
    cbn [forEach mbind Result_bind].
    change (byte_of "-" =? byte_of "+") with false.
    change (byte_of "-" =? byte_of "-") with true.
    change (byte_of "o" =? byte_of "+") with false.
    change (byte_of "o" =? byte_of "-") with false.
    change (byte_of "-" =? byte_of " ") with false.
    change (byte_of "o" =? byte_of "i") with false.
    change (byte_of "o" =? byte_of "w") with false.
    change (byte_of "o" =? byte_of "s") with false.
    change (byte_of "o" =? byte_of "o") with true.
    cbn [orb negb mbind Result_bind].
    unfold Client_isOperator. use_client Hc. cbn [mbind Result_bind].
    case_bool_decide as Ho; cbn [negb]; [|done].
    rewrite (updClient_insert s c cl) by done.
    set (cl' := Client.setModes (Client.Modes cl ∖ {["o"%char]}) cl).
    set (s1 := Server.setClientAt _ s).
    assert (Hc1 : Server.clientAt s1 !! c = Some cl')
      by apply lookup_insert_eq.
    use_client Hc1. cbn [mbind Result_bind].
    by rewrite (Client_messageClient_Ok s1 c cl' c cl') by done.
Qed.

(** ** The queries *)

Lemma answered_refl c s : answered c s s.
Proof. exists []. by rewrite fmap_nil, afterSends_nil. Qed.

Lemma answers_Ok c s0 s : answered c s0 s → answers c s0 (Ok s).
Proof. intros H. by exists s. Qed.

Lemma answers_bind c s0 r (f : Server.t → Result Server.t) :
  answers c s0 r → (∀ s1, answered c s0 s1 → answers c s0 (f s1)) →
  answers c s0 (r ≫= f).
Proof. intros (s1 & -> & H1) Hf. by apply Hf. Qed.

Lemma answers_send c cl s0 s command params :
  Server.clientAt s0 !! c = Some cl → Client.WriteChanClosed cl = false →
  answered c s0 s → answers c s0 (Server_messageClient c command params s).
Proof.
  intros Hc Hopen (l & -> & Hl). eexists. split.
  - by apply (Server_messageClient_after s0 _ c cl).
  - exists (l ++ [serverMessage s0 cl command params]).
    split; [by rewrite fmap_app|]. apply Forall_app. split; [done|].
    by constructor.
Qed.

Lemma answers_forEach {A} c s0 (xs : list A) body s :
  answered c s0 s →
  (∀ x s1, x ∈ xs → answered c s0 s1 → answers c s0 (body x s1)) →
  answers c s0 (forEach xs body s).
Proof.
  revert s. induction xs as [|x xs IH]; intros s Hs Hbody; simpl.
  - by apply answers_Ok.
  - apply answers_bind; [apply Hbody; [left|done]|].
    intros s1 H1. apply IH; [done|]. intros y s2 Hy. apply Hbody. by right.
Qed.

Lemma answered_client c s0 s k cl :
  answered c s0 s → Server.clientAt s0 !! k = Some cl → client s k = Ok cl.
Proof. intros (l & -> & _) Hk. by apply client_Some. Qed.

(** Membership in a list of commands, or not. *)
Ltac listed :=
  first
    [ by repeat constructor
    | let H := fresh in
      intros H; repeat (apply elem_of_cons in H as [H|H]; [discriminate H|]);
      by apply elem_of_nil in H ].

(** One step through the code of a query. *)
Ltac answer Hc Hopen :=
  repeat first
    [ apply answers_Ok; assumption
    | eapply answers_send; [exact Hc|exact Hopen|assumption]
    | apply answers_bind; [|intros ? ?]
    | lazymatch goal with
      | |- answers _ _ (if ?b then _ else _) => destruct b
      end ].

Lemma lusersCommand_answers c cl s :
  Server.clientAt s !! c = Some cl → Client.WriteChanClosed cl = false →
  answers c s (lusersCommand c s).
Proof. tidy.
  intros Hc Hopen. pose proof (answered_refl c s).
  unfold lusersCommand. cbv zeta. answer Hc Hopen.
Qed.

Lemma motdCommand_answers c cl s :
  Server.clientAt s !! c = Some cl → Client.WriteChanClosed cl = false →
  answers c s (motdCommand c s).
Proof. tidy.
  intros Hc Hopen. pose proof (answered_refl c s).
  unfold motdCommand. answer Hc Hopen.
Qed.

Lemma pingCommand_answers c cl s m :
  Server.clientAt s !! c = Some cl → Client.WriteChanClosed cl = false →
  answers c s (pingCommand c m s).
Proof. tidy.
  intros Hc Hopen. pose proof (answered_refl c s).
  unfold pingCommand. destruct (Params m); answer Hc Hopen.
Qed.

Lemma whoisCommand_answers now c cl s m :
  Inv s →
  Server.clientAt s !! c = Some cl → Client.WriteChanClosed cl = false →
  answers c s (whoisCommand now c m s).
Proof. tidy'. clear ToLower_plainName.
  intros HI Hc Hopen. pose proof (answered_refl c s).
  unfold whoisCommand. destruct (Params m) as [|nick rest]; [answer Hc Hopen|].
  cbv zeta. destruct (Server.Nicks s !! canonicalizeNick nick) as [t|] eqn:Ht;
    [|answer Hc Hopen].
  destruct (inv_nicks _ HI _ _ Ht) as (_ & tcl & Htcl & _).
  rewrite (client_Some _ _ _ Htcl). cbn [mbind Result_bind].
  apply answers_bind; [answer Hc Hopen|]. intros s1 H1.
  apply answers_bind; [answer Hc Hopen|]. intros s2 H2.
  unfold Client_isOperator. rewrite (answered_client c s s2 t tcl) by done.
  cbn [mbind Result_bind]. answer Hc Hopen.
Qed.

Lemma channelModeCommand_answers c cl s n a modes :
  Inv s → Server.Channels s !! n = Some a →
  Server.clientAt s !! c = Some cl → Client.WriteChanClosed cl = false →
  answers c s (channelModeCommand c a modes s).
Proof. tidy.
  intros HI Ha Hc Hopen. pose proof (answered_refl c s).
  destruct (inv_index _ HI _ _ Ha) as (ch & Hch & _).
  unfold channelModeCommand, Client_onChannel.
  rewrite (channel_Some _ _ _ Hch). cbn [mbind Result_bind].
  rewrite (client_Some _ _ _ Hc). cbn [mbind Result_bind].
  answer Hc Hopen.
Qed.

Lemma modeCommand_answers c cl s m :
  Inv s →
  Server.clientAt s !! c = Some cl → Client.WriteChanClosed cl = false →
  (∀ target rest, Params m = target :: rest →
     Server.Nicks s !! canonicalizeNick target = None) →
  answers c s (modeCommand c m s).
Proof. tidy'. clear ToLower_plainName.
  intros HI Hc Hopen Hnick. pose proof (answered_refl c s).
  unfold modeCommand. destruct (Params m) as [|target rest];
    [answer Hc Hopen|].
  cbv zeta. rewrite (Hnick target rest eq_refl).
  destruct (Server.Channels s !! canonicalizeChannel target) as [a|] eqn:Ha;
    [|answer Hc Hopen].
  by apply (channelModeCommand_answers c cl s (canonicalizeChannel target) a).
Qed.

Lemma whoCommand_answers c cl s m :
  Inv s →
  Server.clientAt s !! c = Some cl → Client.WriteChanClosed cl = false →
  answers c s (whoCommand c m s).
Proof. tidy'. clear ToLower_plainName.
  intros HI Hc Hopen. pose proof (answered_refl c s).
  unfold whoCommand. destruct (Params m) as [|param0 rest];
    [answer Hc Hopen|].
  destruct (Server.Channels s !! canonicalizeChannel param0) as [a|] eqn:Ha;
    [|answer Hc Hopen].
  destruct (inv_index _ HI _ _ Ha) as (ch & Hch & _).
  unfold Client_onChannel.
  rewrite (channel_Some _ _ _ Hch). cbn [mbind Result_bind].
  rewrite (client_Some _ _ _ Hc). cbn [mbind Result_bind].
  destruct (negb _); [answer Hc Hopen|].
  apply answers_bind; [|intros; answer Hc Hopen].
  apply answers_forEach; [done|]. intros k s1 Hk%elem_of_elements H1.
  destruct (inv_members _ HI _ _ _ _ Ha Hch Hk) as (_ & mcl & Hmcl & _).
  unfold Client_isOperator.
  rewrite (answered_client c s s1 k mcl) by done. cbn [mbind Result_bind].
  answer Hc Hopen.
Qed.

(** LUSERS, MOTD, PING, WHOIS and WHO, MODE with a target that is not the
    nick of a client, and the commands the dispatcher does not know only
    ask: from consistent indices, whatever their parameters, the dispatcher
    returns, and apart from recording the time of the activity of the
    sender it changes nothing but what was sent; every message it adds
    goes to the sender and is from the server. *)
Theorem queries_only_answer now s c cl m :
  Inv s → c ∈ Server.Clients s →
  Server.clientAt s !! c = Some cl → Client.Registered cl = true →
  Prefix m = "" →
  Command m ∈ queries
  ∨ Command m ∉ commands
  ∨ (Command m = "MODE"
     ∧ ∀ target rest, Params m = target :: rest →
         Server.Nicks s !! canonicalizeNick target = None) →
  answers c (touch now c s) (handleMessage now c m s).
Proof. tidy'. clear ToLower_plainName.
  intros HI Hin Hc Hreg Hpre Hcmd.
  destruct (inv_clients _ HI _ Hin) as (cl0 & Hc0 & Hopen).
  assert (cl0 = cl) as -> by congruence.
  unfold handleMessage. fold (touch now c s).
  assert (HI1 : Inv (touch now c s)).
  { apply Inv_updClient; [done|]. intros ?. by repeat split. }
  assert (Hc1 : Server.clientAt (touch now c s) !! c
                = Some (Client.setLastActivityTime now cl)).
  { unfold touch. by rewrite lookup_updClient, Hc. }
  assert (Hopen1 :
    Client.WriteChanClosed (Client.setLastActivityTime now cl) = false)
    by done.
  assert (Hn1 : Server.Nicks (touch now c s) = Server.Nicks s) by done.
  revert HI1 Hc1 Hn1. generalize (touch now c s). intros s1 HI1 Hc1 Hn1.
  rewrite bool_decide_eq_false_2 by (intros Hne; by apply Hne).
  assert (Hcmds : ∀ x, x ∈ commands → x ≠ "MODE" → x ∉ queries →
                       Command m ≠ x).
  { intros x Hx Hmode Hq E. rewrite <- E in Hx, Hmode, Hq.
    destruct Hcmd as [?|[?|[? _]]]; done. }
  rewrite (bool_decide_eq_false_2 (Command m = "CAP"))
    by (apply Hcmds; [listed|done|listed]).
  rewrite (bool_decide_eq_false_2 (Command m = "NICK"))
    by (apply Hcmds; [listed|done|listed]).
  rewrite (bool_decide_eq_false_2 (Command m = "USER"))
    by (apply Hcmds; [listed|done|listed]).
  rewrite (client_Some _ _ _ Hc1). cbn [mbind Result_bind].
  change (Client.Registered (Client.setLastActivityTime now cl))
    with (Client.Registered cl).
  rewrite Hreg. cbn [negb].
  rewrite (bool_decide_eq_false_2 (Command m = "JOIN"))
    by (apply Hcmds; [listed|done|listed]).
  rewrite (bool_decide_eq_false_2 (Command m = "PART"))
    by (apply Hcmds; [listed|done|listed]).
  rewrite (bool_decide_eq_false_2 (Command m = "PRIVMSG"))
    by (apply Hcmds; [listed|done|listed]).
  case_bool_decide; [exact (lusersCommand_answers c _ s1 Hc1 Hopen1)|].
  case_bool_decide; [exact (motdCommand_answers c _ s1 Hc1 Hopen1)|].
  rewrite (bool_decide_eq_false_2 (Command m = "QUIT"))
    by (apply Hcmds; [listed|done|listed]).
  rewrite (bool_decide_eq_false_2 (Command m = "PONG"))
    by (apply Hcmds; [listed|done|listed]).
  case_bool_decide; [exact (pingCommand_answers c _ s1 m Hc1 Hopen1)|].
  rewrite (bool_decide_eq_false_2 (Command m = "DIE"))
    by (apply Hcmds; [listed|done|listed]).
  case_bool_decide;
    [exact (whoisCommand_answers now c _ s1 m HI1 Hc1 Hopen1)|].
  rewrite (bool_decide_eq_false_2 (Command m = "OPER"))
    by (apply Hcmds; [listed|done|listed]).
  case_bool_decide as Hmode.
  { apply (modeCommand_answers c _ s1 m HI1 Hc1 Hopen1).
    destruct Hcmd as [Hq|[Hn|[_ Hnick]]].
    - rewrite Hmode in Hq. exfalso. revert Hq. listed.
    - rewrite Hmode in Hn. exfalso. apply Hn. listed.
    - intros target rest Hp. rewrite Hn1. by apply (Hnick target rest). }
  case_bool_decide; [exact (whoCommand_answers c _ s1 m HI1 Hc1 Hopen1)|].
  apply (answers_send c _ s1 s1 _ _ Hc1 Hopen1). apply answered_refl.
Qed.

End Dispatcher.

(** * The validators, characterised *)

Lemma len_String a s : len (String a s) = 1 + len s.
Proof. unfold len. simpl. lia. Qed.

Lemma lower_not_digit a : isLowerAZ a = true → isDigit09 a = false.
Proof.
  unfold isLowerAZ, isDigit09. intros [H1 H2]%andb_true_iff.
  apply Z.leb_le in H1. apply andb_false_iff. right. apply Z.leb_gt.
  change (byte_of "a") with 97 in H1. change (byte_of "9") with 57. lia.
Qed.

Lemma isValidNick_loop_spec i n :
  0 ≤ i →
  isValidNick_loop i n = true
  ↔ Forall (λ a, isLowerAZ a = true ∨ isDigit09 a = true ∨ a = "_"%char)
      (list_ascii_of_string n)
    ∧ (i = 0 → ∀ a, head (list_ascii_of_string n) = Some a →
       isDigit09 a = false).
Proof.
  revert i. induction n as [|a n IH]; intros i Hi; simpl.
  { split; [|done]. intros _. split; [constructor|]. by intros _ a [=]. }
  rewrite Forall_cons.
  destruct (isLowerAZ a) eqn:El.
  - rewrite IH by lia. pose proof (lower_not_digit a El) as Hnd. split.
    + intros [HF _]. split; [split; [by left|done]|]. by intros _ a' [= <-].
    + intros [[_ HF] _]. split; [done|]. intros; lia.
  - destruct (isDigit09 a) eqn:Ed.
    + destruct (i =? 0) eqn:Ei.
      * apply Z.eqb_eq in Ei. split; [done|].
        intros [_ H0]. specialize (H0 Ei a eq_refl). congruence.
      * apply Z.eqb_neq in Ei. rewrite IH by lia. split.
        -- intros [HF _]. split; [split; [by right; left|done]|done].
        -- intros [[_ HF] _]. split; [done|]. intros; lia.
    + case_bool_decide as Eu.
      * rewrite IH by lia. split.
        -- intros [HF _]. split; [split; [by right; right|done]|].
           by intros _ a' [= <-].
        -- intros [[_ HF] _]. split; [done|]. intros; lia.
      * split; [done|]. intros [[[?|[?|?]] _] _]; congruence.
Qed.

(** isValidNick accepts exactly the names of one to nine bytes, each a
    lower-case letter, a digit or an underscore, that do not start with a
    digit. *)
Theorem isValidNick_spec n :
  isValidNick n = true
  ↔ 1 ≤ len n ≤ maxNickLength
    ∧ Forall (λ a, isLowerAZ a = true ∨ isDigit09 a = true ∨ a = "_"%char)
        (list_ascii_of_string n)
    ∧ (∀ a, head (list_ascii_of_string n) = Some a → isDigit09 a = false).
Proof.
  unfold isValidNick. pose proof (len_nonneg n).
  destruct (len n =? 0) eqn:E0; simpl.
  { apply Z.eqb_eq in E0. split; [done|]. lia. }
  apply Z.eqb_neq in E0.
  destruct (maxNickLength <? len n) eqn:E9.
  { apply Z.ltb_lt in E9. split; [done|]. lia. }
  apply Z.ltb_ge in E9. rewrite isValidNick_loop_spec by done. split.
  - intros [HF H0]. split; [lia|]. split; [done|by apply H0].
  - intros (_ & HF & H0). split; [done|by intros _].
Qed.

Lemma isValidUser_loop_spec u :
  isValidUser_loop u = true
  ↔ Forall (λ a, isLowerAZ a = true ∨ isDigit09 a = true)
      (list_ascii_of_string u).
Proof.
  induction u as [|a u IH]; simpl; [by split; [constructor|]|].
  rewrite Forall_cons.
  destruct (isLowerAZ a) eqn:El; [rewrite IH; naive_solver|].
  destruct (isDigit09 a) eqn:Ed; [rewrite IH; naive_solver|].
  split; [done|]. intros [[?|?] _]; congruence.
Qed.

(** isValidUser accepts exactly the names of one to nine bytes, each a
    lower-case letter or a digit. *)
Theorem isValidUser_spec u :
  isValidUser u = true
  ↔ 1 ≤ len u ≤ maxNickLength
    ∧ Forall (λ a, isLowerAZ a = true ∨ isDigit09 a = true)
        (list_ascii_of_string u).
Proof.
  unfold isValidUser. pose proof (len_nonneg u).
  destruct (len u =? 0) eqn:E0; simpl.
  { apply Z.eqb_eq in E0. split; [done|]. lia. }
  apply Z.eqb_neq in E0.
  destruct (maxNickLength <? len u) eqn:E9.
  { apply Z.ltb_lt in E9. split; [done|]. lia. }
  apply Z.ltb_ge in E9. rewrite isValidUser_loop_spec. split.
  - intros HF. split; [lia|done].
  - by intros [_ HF].
Qed.

Lemma isValidChannel_loop_spec i c :
  0 ≤ i →
  isValidChannel_loop i c = true
  ↔ match list_ascii_of_string c with
    | [] => True
    | a :: rest =>
        (if i =? 0 then a = "#"%char
         else isLowerAZ a = true ∨ isDigit09 a = true)
        ∧ Forall (λ a, isLowerAZ a = true ∨ isDigit09 a = true) rest
    end.
Proof.
  revert i. induction c as [|a c IH]; intros i Hi; simpl; [done|].
  assert (IH' : isValidChannel_loop (i + 1) c = true
                ↔ Forall (λ a, isLowerAZ a = true ∨ isDigit09 a = true)
                    (list_ascii_of_string c)).
  { rewrite IH by lia. rewrite (proj2 (Z.eqb_neq (i + 1) 0)) by lia.
    destruct (list_ascii_of_string c); [by split; [constructor|]|].
    by rewrite Forall_cons. }
  destruct (i =? 0) eqn:Ei.
  - case_bool_decide as Eh; [rewrite IH'; naive_solver|naive_solver].
  - destruct (isLowerAZ a) eqn:El; [rewrite IH'; naive_solver|].
    destruct (isDigit09 a) eqn:Ed; [rewrite IH'; naive_solver|].
    split; [done|]. intros [[?|?] _]; congruence.
Qed.

(** isValidChannel accepts exactly the names of one to fifty bytes that are
    a [#] followed by lower-case letters and digits only; the name [#]
    alone is one. *)
Theorem isValidChannel_spec c :
  isValidChannel c = true
  ↔ 1 ≤ len c ≤ maxChannelLength
    ∧ ∃ rest, c = String "#" rest
              ∧ Forall (λ a, isLowerAZ a = true ∨ isDigit09 a = true)
                  (list_ascii_of_string rest).
Proof.
  unfold isValidChannel. pose proof (len_nonneg c).
  destruct (len c =? 0) eqn:E0; simpl.
  { apply Z.eqb_eq in E0. split; [done|]. lia. }
  apply Z.eqb_neq in E0.
  destruct (maxChannelLength <? len c) eqn:E9.
  { apply Z.ltb_lt in E9. split; [done|]. lia. }
  apply Z.ltb_ge in E9. rewrite isValidChannel_loop_spec by done.
  destruct c as [|a rest]; [done|]. simpl. split.
  - intros [-> HF]. split; [lia|]. by exists rest.
  - intros (_ & rest' & [= -> ->] & HF). done.
Qed.

(** * The handlers on an example server *)

(** A lower-casing of the ASCII letters leaves the bytes of valid names as
    they are, as was assumed of strings.ToLower. *)
Lemma asciiToLower_plainName s : plainName s = true → asciiToLower s = s.
Proof.
  induction s as [|a s IH]; [done|]. simpl.
  intros [Ha Hs]%andb_true_iff. rewrite IH by done. f_equal.
  destruct a as [[] [] [] [] [] [] [] []]; vm_compute in Ha |- *;
    done.
Qed.

Ltac indexed := apply (bool_decide_unpack _); vm_compute; exact I.

Lemma lobby_Inv : Inv lobby.
Proof. apply InvB_Inv. vm_compute. reflexivity. Qed.

(** The newcomer, not registered, sends QUIT without a prefix: the answer is
    numeric 451 and it stays connected, its outbox open.  QUIT is not among
    the commands accepted before registration. *)
Lemma unregistered_QUIT_refused :
  Client.Registered <$> Server.clientAt lobby !! 3%N = Some false
  ∧ ∃ s',
      handleMessage asciiToLower rfcMaxLineLength bytesAsRunes wholeSeconds
        (1000 * second) 3%N (mkMessage "" "QUIT" []) lobby = Ok s'
      ∧ Server.sent s'
        = [(3%N, mkMessage "irc.example" "451"
                   ["*"; "You have not registered."])]
      ∧ 3%N ∈ Server.Clients s'
      ∧ Client.WriteChanClosed <$> Server.clientAt s' !! 3%N = Some false.
Proof.
  split; [reflexivity|]. eexists. split; [vm_compute; reflexivity|].
  split; [reflexivity|]. split; [|reflexivity].
  vm_compute. set_solver.
Qed.

Lemma unregistered_dispatch_witness :
  Server.clientAt lobby !! 3%N = Some newcomer
  ∧ Client.Registered newcomer = false
  ∧ Client.WriteChanClosed newcomer = false
  ∧ handleMessage asciiToLower rfcMaxLineLength bytesAsRunes wholeSeconds
      (1000 * second) 3%N (mkMessage "" "PONG" []) lobby
    = Ok (afterSends
            [(3%N, serverMessage lobby newcomer "451"
                     ["You have not registered."])]
            (updClient (Client.setLastActivityTime (1000 * second)) 3%N
               lobby)).
Proof.
  split; [reflexivity|]. split; [reflexivity|]. split; [reflexivity|].
  apply (unregistered_dispatch asciiToLower rfcMaxLineLength bytesAsRunes
           wholeSeconds (1000 * second) lobby 3%N newcomer
           (mkMessage "" "PONG" [])); try reflexivity.
  simpl. set_solver.
Defined.

Lemma nickCommand_in_use_witness :
  Server.clientAt lobby !! 3%N = Some newcomer
  ∧ isValidNick "alice" = true
  ∧ Server.Nicks lobby !! canonicalizeNick asciiToLower "alice" = Some 1%N
  ∧ ∃ s',
      nickCommand asciiToLower 3%N (mkMessage "" "NICK" ["alice"]) lobby
      = Ok s'
      ∧ s' = afterSends
               [(3%N, serverMessage lobby newcomer "432"
                        ["alice"; "Nickname is already in use"])] lobby
      ∧ Server.Nicks s' = Server.Nicks lobby
      ∧ Client.Nick <$> Server.clientAt s' !! 3%N
        = Some (Client.Nick newcomer).
Proof.
  split; [reflexivity|]. split; [reflexivity|]. split; [reflexivity|].
  apply (nickCommand_in_use asciiToLower lobby 3%N newcomer
           (mkMessage "" "NICK" ["alice"]) "alice" [] 1%N); reflexivity.
Defined.

Lemma userCommand_realname_rejected_witness :
  Server.clientAt lobby !! 4%N = Some dave
  ∧ Client.Registered dave = false
  ∧ len (Client.Nick dave) ≠ 0
  ∧ isValidUser "dave" = true
  ∧ 64 < len (copies 65 "x")
  ∧ ∃ s',
      userCommand 4%N (mkMessage "" "USER" ["dave"; "0"; "*"; copies 65 "x"])
        lobby = Ok s'
      ∧ Server.sent s'
        = Server.sent lobby
          ++ [(4%N, serverMessage lobby dave "ERROR" ["Invalid realname"])]
      ∧ Server.clientAt s' !! 4%N = Some (Client.setUser "dave" dave)
      ∧ Client.User <$> Server.clientAt s' !! 4%N = Some "dave"
      ∧ Client.Registered <$> Server.clientAt s' !! 4%N = Some false
      ∧ (Client.User dave ≠ "dave" →
         Server.clientAt s' !! 4%N ≠ Server.clientAt lobby !! 4%N).
Proof.
  split; [reflexivity|]. split; [reflexivity|]. split; [by vm_compute|].
  split; [reflexivity|]. split; [by vm_compute|].
  apply (userCommand_realname_rejected lobby 4%N dave
           (mkMessage "" "USER" ["dave"; "0"; "*"; copies 65 "x"])
           "dave" "0" "*" (copies 65 "x")); try reflexivity;
    by vm_compute.
Defined.

Lemma nickCommand_broadcast_witness :
  Inv lobby
  ∧ Server.clientAt lobby !! 1%N = Some alice
  ∧ Client.Registered alice = true
  ∧ isValidNick "alicia" = true
  ∧ Server.Nicks lobby !! canonicalizeNick asciiToLower "alicia" = None
  ∧ nickCommand asciiToLower 1%N (mkMessage "" "NICK" ["alicia"]) lobby
    = Ok (updClient (Client.setNick "alicia") 1%N
            (afterSends
               ((λ r, (r, mkMessage "alice!~alice@10.0.0.1" "NICK"
                            ["alicia"])) <$> audience lobby 1%N alice)
               (Server.setNicks
                  (nicksAfter asciiToLower 1%N alice "alicia"
                     (Server.Nicks lobby)) lobby)))
  ∧ NoDup (audience lobby 1%N alice)
  ∧ (∀ r, r ∈ audience lobby 1%N alice ↔ r = 1%N ∨ peer lobby alice r)
  ∧ (Client.Channels alice = ∅ → audience lobby 1%N alice = [1%N]).
Proof.
  split; [exact lobby_Inv|]. do 4 (split; [reflexivity|]).
  apply (nickCommand_broadcast asciiToLower lobby 1%N alice
           (mkMessage "" "NICK" ["alicia"]) "alicia" []);
    [exact lobby_Inv|indexed
    |reflexivity..].
Defined.

Lemma Client_quit_registered_witness :
  Inv lobby
  ∧ Server.clientAt lobby !! 1%N = Some alice
  ∧ Client.Registered alice = true
  ∧ ∃ s' recipients,
      Client_quit asciiToLower 1%N "Quit: bye" lobby = Ok s'
      ∧ Server.sent s'
        = Server.sent lobby
          ++ ((λ r, (r, mkMessage
                          (Client.Nick alice +:+ "!~" +:+ Client.User alice
                           +:+ "@" +:+ Client.IP alice) "QUIT"
                          ["Quit: bye"])) <$> recipients)
          ++ [(1%N, mkMessage (config lobby "server-name") "ERROR"
                      ["Quit: bye"])]
      ∧ NoDup recipients
      ∧ (∀ r, r ∈ recipients ↔ r = 1%N ∨ peer lobby alice r)
      ∧ (Client.Channels alice = ∅ → recipients = [1%N])
      ∧ (∀ n a, Client.Channels alice !! n = Some a →
           ∃ ch, Server.channelAt lobby !! a = Some ch
                 ∧ Server.channelAt s' !! a
                   = Some (Channel.setMembers
                             (Channel.Members ch ∖ {[1%N]}) ch)
                 ∧ Server.Channels s' !! n
                   = if decide (Channel.Members ch ∖ {[1%N]} = ∅) then None
                     else Some a)
      ∧ (∀ n, Client.Channels alice !! n = None →
           Server.Channels s' !! n = Server.Channels lobby !! n)
      ∧ (∀ n a ch, Server.Channels s' !! n = Some a →
           Server.channelAt s' !! a = Some ch → 1%N ∉ Channel.Members ch)
      ∧ Server.Nicks s'
        = delete (canonicalizeNick asciiToLower (Client.Nick alice))
            (Server.Nicks lobby)
      ∧ Client.WriteChanClosed <$> Server.clientAt s' !! 1%N = Some true
      ∧ Server.Clients s' = Server.Clients lobby ∖ {[1%N]}
      ∧ Inv s'.
Proof.
  split; [exact lobby_Inv|]. do 2 (split; [reflexivity|]).
  apply (Client_quit_registered asciiToLower asciiToLower_plainName
           lobby 1%N alice "Quit: bye");
    [exact lobby_Inv|indexed|reflexivity|reflexivity].
Defined.

Lemma joinCommand_joins_witness :
  Inv lobby
  ∧ Server.clientAt lobby !! 2%N = Some bob
  ∧ Client.Registered bob = true
  ∧ isValidChannel (canonicalizeChannel asciiToLower "#Ops") = true
  ∧ Client.Channels bob !! canonicalizeChannel asciiToLower "#Ops" = None
  ∧ let m := mkMessage "" "JOIN" ["#Ops"] in
    let n := canonicalizeChannel asciiToLower "#Ops" in
    (Client.Channels bob !! n = None →
     ∃ s' a,
       let members :=
         {[2%N]} ∪ default ∅ (Channel.Members <$> channelNamed lobby n) in
       joinCommand asciiToLower 2%N m lobby = Ok s'
       ∧ Server.Channels s' = <[n := a]> (Server.Channels lobby)
       ∧ (∀ a', Server.Channels lobby !! n = Some a' → a' = a)
       ∧ Server.channelAt s' !! a = Some (Channel.mk n members)
       ∧ Client.Channels <$> Server.clientAt s' !! 2%N
         = Some (<[n := a]> (Client.Channels bob))
       ∧ Server.sent s'
         = Server.sent lobby
           ++ [(2%N, clientMessage bob "JOIN" [n])]
           ++ ((λ r, (2%N, serverMessage lobby bob "353"
                             ["="; n; ":" +:+ nickOf lobby r]))
                 <$> elements members)
           ++ [(2%N, serverMessage lobby bob "366" [n; "End of NAMES list"])]
           ++ ((λ r, (r, clientMessage bob "JOIN" [n]))
                 <$> filter (λ r, r ≠ 2%N) (elements members))
       ∧ Inv s')
    ∧ (is_Some (Client.Channels bob !! n) →
       joinCommand asciiToLower 2%N m lobby
       = Ok (afterSends
               [(2%N, serverMessage lobby bob "ERROR"
                        ["You are on that channel"])] lobby)).
Proof.
  split; [exact lobby_Inv|]. do 4 (split; [reflexivity|]).
  apply (joinCommand_joins asciiToLower asciiToLower_plainName
           lobby 2%N bob (mkMessage "" "JOIN" ["#Ops"]) "#Ops" []);
    [exact lobby_Inv|indexed|reflexivity..].
Defined.

Lemma dispatcher_keeps_membership_witness :
  Inv lobby
  ∧ Server.ShutdownChanClosed lobby = false
  ∧ ∃ s',
      handleMessage asciiToLower rfcMaxLineLength bytesAsRunes wholeSeconds
        (1000 * second) 1%N (mkMessage "" "PART" ["#ops"; "bye"]) lobby
      = Ok s'
      ∧ membershipAgrees s' ∧ noEmptyChannel s' ∧ Inv s'.
Proof.
  split; [exact lobby_Inv|]. split; [reflexivity|].
  destruct (dispatcher_keeps_membership asciiToLower rfcMaxLineLength
              bytesAsRunes wholeSeconds asciiToLower_plainName
              (1000 * second) lobby 1%N
              (mkMessage "" "PART" ["#ops"; "bye"]))
    as [Hkeeps Hreturns]; [exact lobby_Inv|indexed|].
  destruct Hreturns as [s' E]; [by vm_compute|reflexivity|].
  exists s'. split; [exact E|]. by apply Hkeeps.
Defined.

(** Alice is on #ops, alone.  Her JOIN for #ops is refused, her PART is
    not, and it empties the channel: after JOIN and PART the channel index
    has lost #ops. *)
Lemma join_part_of_member_loses_channel :
  Client.Registered alice = true
  ∧ Server.Channels lobby !! "#ops" = Some 1%N
  ∧ ∃ s1 s2,
      handleMessage asciiToLower rfcMaxLineLength bytesAsRunes wholeSeconds
        (1000 * second) 1%N (mkMessage "" "JOIN" ["#ops"]) lobby = Ok s1
      ∧ handleMessage asciiToLower rfcMaxLineLength bytesAsRunes wholeSeconds
          (1001 * second) 1%N (mkMessage "" "PART" ["#ops"]) s1 = Ok s2
      ∧ Server.Channels s2 !! "#ops" = None
      ∧ Server.Channels s2 ≠ Server.Channels lobby.
Proof.
  split; [reflexivity|]. split; [reflexivity|].
  eexists _, _. split; [vm_compute; reflexivity|].
  split; [vm_compute; reflexivity|]. split; [reflexivity|].
  intros E. by apply (f_equal (λ chs, chs !! "#ops")) in E.
Qed.

Lemma enumerates_backwards : enumerates backwards.
Proof. intros i X. apply reverse_Permutation. Qed.

Lemma join_part_join_witness :
  enumerates inElementsOrder ∧ enumerates backwards
  ∧ Inv lobby
  ∧ Server.clientAt lobby !! 2%N = Some bob
  ∧ Client.Registered bob = true
  ∧ isValidChannel (canonicalizeChannel asciiToLower "#ops") = true
  ∧ Client.Channels bob !! canonicalizeChannel asciiToLower "#ops" = None
  ∧ joinRepliesIn backwards lobby 2%N bob "#ops" {[1%N; 2%N]}
    ≠ joinRepliesIn inElementsOrder lobby 2%N bob "#ops" {[1%N; 2%N]}
  ∧ let n := canonicalizeChannel asciiToLower "#ops" in
    let members :=
      {[2%N]} ∪ default ∅ (Channel.Members <$> channelNamed lobby n) in
    ∃ s1 s2 s3,
      handleMessageIn asciiToLower rfcMaxLineLength bytesAsRunes wholeSeconds
        inElementsOrder (1000 * second) 2%N (mkMessage "" "JOIN" ["#ops"])
        lobby = Ok s1
      ∧ handleMessageIn asciiToLower rfcMaxLineLength bytesAsRunes
          wholeSeconds inElementsOrder (1001 * second) 2%N
          (mkMessage "" "PART" ["#ops"]) s1 = Ok s2
      ∧ handleMessageIn asciiToLower rfcMaxLineLength bytesAsRunes
          wholeSeconds backwards (1002 * second) 2%N
          (mkMessage "" "JOIN" ["#ops"]) s2 = Ok s3
      ∧ (Server.Clients s2 = Server.Clients lobby
         ∧ Server.Nicks s2 = Server.Nicks lobby
         ∧ Server.Channels s2 = Server.Channels lobby
         ∧ (∀ n', channelNamed s2 n' = channelNamed lobby n')
         ∧ (∀ k, Client.Channels <$> Server.clientAt s2 !! k
                 = Client.Channels <$> Server.clientAt lobby !! k))
      ∧ (Server.sent s1
         = Server.sent lobby
           ++ joinRepliesIn inElementsOrder lobby 2%N bob n members
         ∧ Server.sent s3
           = Server.sent s2 ++ joinRepliesIn backwards lobby 2%N bob n members
         ∧ joinRepliesIn backwards lobby 2%N bob n members
           ≡ₚ joinRepliesIn inElementsOrder lobby 2%N bob n members
         ∧ (backwards 0%nat members = inElementsOrder 0%nat members →
            backwards 1%nat members = inElementsOrder 1%nat members →
            joinRepliesIn backwards lobby 2%N bob n members
            = joinRepliesIn inElementsOrder lobby 2%N bob n members))
      ∧ (Server.Clients s3 = Server.Clients s1
         ∧ Server.Nicks s3 = Server.Nicks s1
         ∧ (∀ n', channelNamed s3 n' = channelNamed s1 n')
         ∧ (∀ k, dom <$> (Client.Channels <$> Server.clientAt s3 !! k)
                 = dom <$> (Client.Channels <$> Server.clientAt s1 !! k)))
      ∧ (∀ now' c' m' s',
           handleMessageIn asciiToLower rfcMaxLineLength bytesAsRunes
             wholeSeconds inElementsOrder now' c' m' s'
           = handleMessage asciiToLower rfcMaxLineLength bytesAsRunes
               wholeSeconds now' c' m' s').
Proof.
  split; [exact enumerates_inElementsOrder|].
  split; [exact enumerates_backwards|].
  split; [exact lobby_Inv|]. do 4 (split; [reflexivity|]).
  split; [vm_compute; discriminate|].
  apply (join_part_join asciiToLower rfcMaxLineLength bytesAsRunes
           wholeSeconds asciiToLower_plainName
           inElementsOrder inElementsOrder backwards
           (1000 * second) (1001 * second) (1002 * second) lobby 2%N bob
           (mkMessage "" "JOIN" ["#ops"]) (mkMessage "" "PART" ["#ops"])
           "#ops" [] []);
    [exact enumerates_inElementsOrder|exact enumerates_inElementsOrder
    |exact enumerates_backwards|exact lobby_Inv|indexed|reflexivity..].
Defined.

(** C8.  The cut index of PRIVMSG does leave the bounds of the text.
    Alice, whose prefix alice!~alice@10.0.0.1 has 21 bytes, sends PRIVMSG
    with a target of 490 bytes and the text "hi"; the line she sends has
    504 bytes and is within the maximum of 512.  The line to relay would
    have 527 bytes, so 15 bytes are to be cut from a text of 2: the slice
    expression is evaluated with a negative bound, and the handler, and the
    dispatcher with it, panics instead of truncating. *)
Theorem privmsgCommand_cut_out_of_bounds :
  Server.clientAt lobby !! 1%N = Some alice
  ∧ Client.Registered alice = true
  ∧ len ("PRIVMSG " +:+ longTarget +:+ " :hi" +:+ CRLF) = 504
  ∧ privmsgOverhead (nickUhostOf alice) longTarget + len "hi" = 527
  ∧ privmsgTrim rfcMaxLineLength (nickUhostOf alice) longTarget "hi"
    = Panicked SliceBoundsOutOfRange
  ∧ privmsgCommand asciiToLower rfcMaxLineLength 1%N
      (mkMessage "" "PRIVMSG" [longTarget; "hi"]) lobby
    = Panicked SliceBoundsOutOfRange
  ∧ handleMessage asciiToLower rfcMaxLineLength bytesAsRunes wholeSeconds
      (1000 * second) 1%N (mkMessage "" "PRIVMSG" [longTarget; "hi"]) lobby
    = Panicked SliceBoundsOutOfRange.
Proof. repeat split; vm_compute; reflexivity. Qed.

(** * The further properties on the example *)

Lemma newServer_starts_empty_witness :
  ∃ s w,
    newServer parseSeconds loadOpers startConfig = inr (s, w)
    ∧ Server.Config s = startConfig
    ∧ Forall (λ key, config s key ≠ "") requiredKeys
    ∧ parseSeconds (config s "wakeup-time") = inr w
    ∧ parseSeconds (config s "ping-time") = inr (Server.PingTime s)
    ∧ parseSeconds (config s "dead-time") = inr (Server.DeadTime s)
    ∧ loadOpers (config s "opers-config") = inr (Server.Opers s)
    ∧ Server.Clients s = ∅ ∧ Server.Nicks s = ∅ ∧ Server.Channels s = ∅
    ∧ Server.sent s = [] ∧ Server.ShutdownChanClosed s = false.
Proof.
  eexists _, _. split; [vm_compute; reflexivity|].
  apply (newServer_starts_empty parseSeconds loadOpers startConfig).
  vm_compute. reflexivity.
Defined.

Lemma daemon_indices_consistent_witness :
  ∃ s0 w id s,
    newServer parseSeconds loadOpers startConfig = inr (s0, w)
    ∧ run asciiToLower rfcMaxLineLength bytesAsRunes wholeSeconds
        exampleInputs 0 s0 = Running id s
    ∧ membershipAgrees s ∧ noEmptyChannel s ∧ Inv s
    ∧ (∀ k, k ∈ Server.Clients s → (k < id)%N).
Proof.
  eexists _, _, _, _. split; [vm_compute; reflexivity|].
  split; [vm_compute; reflexivity|].
  eapply (daemon_indices_consistent asciiToLower rfcMaxLineLength bytesAsRunes
            wholeSeconds asciiToLower_plainName parseSeconds loadOpers
            startConfig _ _ exampleInputs).
  - vm_compute. reflexivity.
  - vm_compute. reflexivity.
Defined.

Lemma daemon_nicks_unique_witness :
  ∃ s0 w id s,
    newServer parseSeconds loadOpers startConfig = inr (s0, w)
    ∧ run asciiToLower rfcMaxLineLength bytesAsRunes wholeSeconds
        (take 9 exampleInputs) 0 s0 = Running id s
    ∧ Server.Nicks s = {[ "alicia" := 0%N; "bob" := 1%N ]}
    ∧ (∀ k cl, k ∈ Server.Clients s → Server.clientAt s !! k = Some cl →
         0 < len (Client.Nick cl) →
         Server.Nicks s !! canonicalizeNick asciiToLower (Client.Nick cl)
         = Some k)
    ∧ (∀ n k, Server.Nicks s !! n = Some k →
         k ∈ Server.Clients s
         ∧ ∃ cl, Server.clientAt s !! k = Some cl ∧ Client.Nick cl = n
                 ∧ isValidNick n = true)
    ∧ (∀ k1 k2 cl1 cl2,
         k1 ∈ Server.Clients s → k2 ∈ Server.Clients s →
         Server.clientAt s !! k1 = Some cl1 →
         Server.clientAt s !! k2 = Some cl2 →
         0 < len (Client.Nick cl1) →
         canonicalizeNick asciiToLower (Client.Nick cl1)
         = canonicalizeNick asciiToLower (Client.Nick cl2) →
         k1 = k2).
Proof.
  eexists _, _, _, _. split; [vm_compute; reflexivity|].
  split; [vm_compute; reflexivity|]. split; [vm_compute; reflexivity|].
  eapply (daemon_nicks_unique asciiToLower rfcMaxLineLength bytesAsRunes
            wholeSeconds asciiToLower_plainName parseSeconds loadOpers
            startConfig _ _ (take 9 exampleInputs)).
  - vm_compute. reflexivity.
  - vm_compute. reflexivity.
Defined.

Lemma daemon_survives_witness :
  ∃ s0 w,
    newServer parseSeconds loadOpers startConfig = inr (s0, w)
    ∧ Forall (λ ti, harmless ti.2) exampleInputs
    ∧ ∀ p, run asciiToLower rfcMaxLineLength bytesAsRunes wholeSeconds
             exampleInputs 0 s0 ≠ Crashed p.
Proof.
  eexists _, _. split; [vm_compute; reflexivity|].
  assert (Forall (λ ti : Z * Input, harmless ti.2) exampleInputs) as Hin.
  { unfold exampleInputs. repeat constructor; simpl; discriminate. }
  split; [exact Hin|].
  eapply (daemon_survives asciiToLower rfcMaxLineLength bytesAsRunes
            wholeSeconds asciiToLower_plainName parseSeconds loadOpers
            startConfig _ _ exampleInputs).
  - vm_compute. reflexivity.
  - exact Hin.
Defined.

Lemma eventStep_settled_witness :
  ∃ s',
    (∀ id client,
       ClientMessage 1%N (mkMessage "" "NICK" ["alicia"])
       ≠ NewClient id client)
    ∧ eventStep asciiToLower rfcMaxLineLength bytesAsRunes wholeSeconds
        (1000 * second) (ClientMessage 1%N (mkMessage "" "NICK" ["alicia"]))
        lobby = Ok s'
    ∧ Server.Clients s' ⊆ Server.Clients lobby
    ∧ Server.Config s' = Server.Config lobby
    ∧ Server.PingTime s' = Server.PingTime lobby
    ∧ Server.DeadTime s' = Server.DeadTime lobby
    ∧ Server.Opers s' = Server.Opers lobby
    ∧ dom (Server.clientAt s') = dom (Server.clientAt lobby)
    ∧ ∀ k cl cl',
        Server.clientAt lobby !! k = Some cl →
        Server.clientAt s' !! k = Some cl' →
        Client.IP cl' = Client.IP cl
        ∧ (Client.WriteChanClosed cl = true →
           Client.WriteChanClosed cl' = true)
        ∧ (Client.Registered cl = true →
           Client.Registered cl' = true ∧ Client.User cl' = Client.User cl
           ∧ Client.RealName cl' = Client.RealName cl).
Proof.
  eexists. split; [discriminate|]. split; [vm_compute; reflexivity|].
  eapply (eventStep_settled asciiToLower rfcMaxLineLength bytesAsRunes
            wholeSeconds (1000 * second)
            (ClientMessage 1%N (mkMessage "" "NICK" ["alicia"])) lobby).
  - discriminate.
  - vm_compute. reflexivity.
Defined.

Lemma operator_only_by_OPER_witness :
  let m := mkMessage "" "OPER" ["root"; "secret"] in
  ∃ s' cl',
    handleMessage asciiToLower rfcMaxLineLength bytesAsRunes wholeSeconds
      (1000 * second) 1%N m staffed
    = Ok s'
    ∧ Server.clientAt staffed !! 1%N = Some alice
    ∧ Server.clientAt s' !! 1%N = Some cl'
    ∧ ("o"%char ∈ Client.Modes cl') ∧ ("o"%char ∉ Client.Modes alice)
    ∧ (Client.Modes cl' ⊆ Client.Modes alice
       ∨ (1%N = 1%N ∧ Command m = "OPER"
          ∧ ∃ name password rest,
              Params m = name :: password :: rest
              ∧ Server.Opers staffed !! name = Some password))
    ∧ ("o"%char ∈ Client.Modes cl' → "o"%char ∉ Client.Modes alice →
       1%N = 1%N ∧ Command m = "OPER"
       ∧ ∃ name password rest,
           Params m = name :: password :: rest
           ∧ Server.Opers staffed !! name = Some password).
Proof.
  intros m. eexists _, _. split; [vm_compute; reflexivity|].
  split; [reflexivity|]. split; [vm_compute; reflexivity|].
  split; [indexed|]. split; [indexed|].
  eapply (operator_only_by_OPER asciiToLower rfcMaxLineLength bytesAsRunes
            wholeSeconds (1000 * second) staffed 1%N m).
  - vm_compute. reflexivity.
  - reflexivity.
  - vm_compute. reflexivity.
Defined.

Lemma Server_messageClient_reply_witness :
  Server.clientAt lobby !! 3%N = Some newcomer
  ∧ let numeric := forallb isDigit09 (list_ascii_of_string "451") in
    let params' :=
      if numeric
      then (if 0 <? len (Client.Nick newcomer) then Client.Nick newcomer
            else "*") :: ["You have not registered."]
      else ["You have not registered."] in
    Server_messageClient 3%N "451" ["You have not registered."] lobby
    = if Client.WriteChanClosed newcomer then Panicked SendOnClosedChannel
      else Ok (Server.setSent
                 (Server.sent lobby
                  ++ [(3%N, mkMessage (config lobby "server-name") "451"
                              params')])
                 lobby).
Proof.
  split; [reflexivity|].
  apply (Server_messageClient_reply lobby 3%N newcomer "451"
           ["You have not registered."]).
  reflexivity.
Defined.


Lemma userCommand_refused_witness :
  Server.clientAt lobby !! 1%N = Some alice
  ∧ Client.WriteChanClosed alice = false
  ∧ Client.Registered alice = true
  ∧ userCommand 1%N (mkMessage "" "USER" ["alice"; "0"; "*"; "Alice"]) lobby
    = replied lobby 1%N alice "462"
        ["Unauthorized command (already registered)"].
Proof.
  split; [reflexivity|]. split; [reflexivity|]. split; [reflexivity|].
  destruct (userCommand_refused lobby 1%N alice
              (mkMessage "" "USER" ["alice"; "0"; "*"; "Alice"]))
    as [Hreg _]; [reflexivity|reflexivity|].
  apply Hreg. reflexivity.
Defined.

Lemma nickCommand_refused_witness :
  Server.clientAt lobby !! 3%N = Some newcomer
  ∧ Client.WriteChanClosed newcomer = false
  ∧ isValidNick "#nine" = false
  ∧ nickCommand asciiToLower 3%N (mkMessage "" "NICK" ["#nine"]) lobby
    = replied lobby 3%N newcomer "432" ["#nine"; "Erroneous nickname"].
Proof.
  split; [reflexivity|]. split; [reflexivity|]. split; [reflexivity|].
  destruct (nickCommand_refused asciiToLower lobby 3%N newcomer
              (mkMessage "" "NICK" ["#nine"]))
    as [_ Hbad]; [reflexivity|reflexivity|].
  apply (Hbad "#nine" []); reflexivity.
Defined.

Lemma nickCommand_before_registration_witness :
  Server.clientAt lobby !! 4%N = Some dave
  ∧ Client.Registered dave = false
  ∧ isValidNick "david" = true
  ∧ Server.Nicks lobby !! canonicalizeNick asciiToLower "david" = None
  ∧ Server.Nicks lobby !! canonicalizeNick asciiToLower (Client.Nick dave)
    = Some 4%N
  ∧ ∃ s',
      nickCommand asciiToLower 4%N (mkMessage "" "NICK" ["david"]) lobby
      = Ok s'
      ∧ Server.sent s' = Server.sent lobby
      ∧ Server.clientAt s' !! 4%N = Some (Client.setNick "david" dave)
      ∧ Server.Nicks s' !! canonicalizeNick asciiToLower "david" = Some 4%N
      ∧ (0 < len (Client.Nick dave) →
         Server.Nicks s' !! canonicalizeNick asciiToLower (Client.Nick dave)
         = None)
      ∧ (∀ n, n ≠ canonicalizeNick asciiToLower "david" →
           n ≠ canonicalizeNick asciiToLower (Client.Nick dave) →
           Server.Nicks s' !! n = Server.Nicks lobby !! n)
      ∧ Server.Clients s' = Server.Clients lobby
      ∧ Server.Channels s' = Server.Channels lobby.
Proof.
  split; [reflexivity|]. split; [reflexivity|]. split; [reflexivity|].
  split; [reflexivity|]. split; [reflexivity|].
  apply (nickCommand_before_registration asciiToLower lobby 4%N dave
           (mkMessage "" "NICK" ["david"]) "david" []); reflexivity.
Defined.

Lemma Client_quit_unregistered_witness :
  Inv lobby ∧ 4%N ∈ Server.Clients lobby
  ∧ Server.clientAt lobby !! 4%N = Some dave
  ∧ Client.Registered dave = false
  ∧ ∃ s',
      Client_quit asciiToLower 4%N "Ping timeout" lobby = Ok s'
      ∧ Server.sent s'
        = Server.sent lobby
          ++ [(4%N, mkMessage (config lobby "server-name") "ERROR"
                      ["Ping timeout"])]
      ∧ Server.Nicks s'
        = (if 0 <? len (Client.Nick dave)
           then delete (canonicalizeNick asciiToLower (Client.Nick dave))
                  (Server.Nicks lobby)
           else Server.Nicks lobby)
      ∧ Server.clientAt s' !! 4%N = Some (Client.setWriteChanClosed true dave)
      ∧ Server.Clients s' = Server.Clients lobby ∖ {[4%N]}
      ∧ Server.Channels s' = Server.Channels lobby
      ∧ Server.channelAt s' = Server.channelAt lobby
      ∧ Inv s'.
Proof.
  split; [exact lobby_Inv|]. split; [indexed|]. split; [reflexivity|].
  split; [reflexivity|].
  apply (Client_quit_unregistered asciiToLower asciiToLower_plainName
           lobby 4%N dave "Ping timeout");
    [exact lobby_Inv|indexed|reflexivity..].
Defined.

Lemma shutdown_quits_everyone_witness :
  Inv lobby
  ∧ Server.ShutdownChanClosed lobby = false
  ∧ ∃ s', shutdown asciiToLower lobby = Ok s'
          ∧ Server.ShutdownChanClosed s' = true
          ∧ Server.Clients s' = ∅ ∧ Server.Nicks s' = ∅
          ∧ Server.Channels s' = ∅
          ∧ (∀ k, k ∈ Server.Clients lobby →
               Client.WriteChanClosed <$> Server.clientAt s' !! k = Some true)
          ∧ Inv s'.
Proof.
  split; [exact lobby_Inv|]. split; [reflexivity|].
  destruct (shutdown_quits_everyone asciiToLower rfcMaxLineLength bytesAsRunes
              wholeSeconds asciiToLower_plainName lobby lobby_Inv)
    as (_ & Hopen & _).
  apply Hopen. reflexivity.
Defined.

Lemma Client_part_leaves_witness :
  Inv lobby ∧ 1%N ∈ Server.Clients lobby
  ∧ Server.clientAt lobby !! 1%N = Some alice
  ∧ let n := canonicalizeChannel asciiToLower "#Ops" in
    isValidChannel n = true
    ∧ Client.Channels alice !! n = Some 1%N
    ∧ ∃ s' ch,
        Client_part asciiToLower 1%N "#Ops" "bye" lobby = Ok s'
        ∧ Server.channelAt lobby !! 1%N = Some ch ∧ 1%N ∈ Channel.Members ch
        ∧ Server.sent s'
          = Server.sent lobby
            ++ ((λ r, (r, clientMessage alice "PART"
                            (if 0 <? len "bye" then [n; "bye"] else [n])))
                  <$> elements (Channel.Members ch))
        ∧ Client.Channels <$> Server.clientAt s' !! 1%N
          = Some (delete n (Client.Channels alice))
        ∧ Server.channelAt s' !! 1%N
          = Some (Channel.setMembers (Channel.Members ch ∖ {[1%N]}) ch)
        ∧ Server.Channels s'
          = (if decide (Channel.Members ch ∖ {[1%N]} = ∅)
             then delete n (Server.Channels lobby) else Server.Channels lobby)
        ∧ Server.Clients s' = Server.Clients lobby
        ∧ Server.Nicks s' = Server.Nicks lobby
        ∧ Inv s'.
Proof.
  split; [exact lobby_Inv|]. split; [indexed|]. split; [reflexivity|].
  intros n. split; [reflexivity|]. split; [reflexivity|].
  apply (Client_part_leaves asciiToLower lobby 1%N alice "#Ops" "bye" 1%N);
    [exact lobby_Inv|indexed|reflexivity..].
Defined.

Lemma partCommand_refused_witness :
  Inv lobby ∧ 2%N ∈ Server.Clients lobby
  ∧ Server.clientAt lobby !! 2%N = Some bob
  ∧ let n := canonicalizeChannel asciiToLower "#ops" in
    isValidChannel n = true
    ∧ is_Some (Server.Channels lobby !! n)
    ∧ Client.Channels bob !! n = None
    ∧ partCommand asciiToLower 2%N (mkMessage "" "PART" ["#ops"]) lobby
      = replied lobby 2%N bob "403" [n; "You are not on that channel"].
Proof.
  split; [exact lobby_Inv|]. split; [indexed|]. split; [reflexivity|].
  intros n. split; [reflexivity|]. split; [by eexists|].
  split; [reflexivity|].
  destruct (partCommand_refused asciiToLower lobby 2%N bob
              (mkMessage "" "PART" ["#ops"]))
    as [_ Hparam]; [exact lobby_Inv|indexed|reflexivity|].
  destruct (Hparam "#ops" [] eq_refl) as (_ & _ & Hoff).
  apply Hoff; [reflexivity|by eexists|reflexivity].
Defined.

Lemma joinCommand_zero_witness :
  Inv lobby ∧ 1%N ∈ Server.Clients lobby
  ∧ Server.clientAt lobby !! 1%N = Some alice
  ∧ ∃ s',
      joinCommand asciiToLower 1%N (mkMessage "" "JOIN" ["0"]) lobby = Ok s'
      ∧ Client.Channels <$> Server.clientAt s' !! 1%N = Some ∅
      ∧ (∀ n a ch, Server.Channels s' !! n = Some a →
           Server.channelAt s' !! a = Some ch → 1%N ∉ Channel.Members ch)
      ∧ Server.Clients s' = Server.Clients lobby
      ∧ Server.Nicks s' = Server.Nicks lobby
      ∧ Inv s'.
Proof.
  split; [exact lobby_Inv|]. split; [indexed|]. split; [reflexivity|].
  apply (joinCommand_zero asciiToLower asciiToLower_plainName lobby 1%N alice
           (mkMessage "" "JOIN" ["0"]));
    [exact lobby_Inv|indexed|reflexivity..].
Defined.

Lemma privmsgCommand_to_channel_witness :
  Inv lobby ∧ 1%N ∈ Server.Clients lobby
  ∧ Server.clientAt lobby !! 1%N = Some alice
  ∧ privmsgTrim rfcMaxLineLength (nickUhostOf alice) "#Lobby" "hello"
    = Ok "hello"
  ∧ String.get 0 "#Lobby" = Some "#"%char
  ∧ let n := canonicalizeChannel asciiToLower "#Lobby" in
    isValidChannel n = true
    ∧ Client.Channels alice !! n = Some 0%N
    ∧ ∃ ch,
        Server.channelAt lobby !! 0%N = Some ch
        ∧ privmsgCommand asciiToLower rfcMaxLineLength 1%N
            (mkMessage "" "PRIVMSG" ["#Lobby"; "hello"]) lobby
          = Ok (afterSends
                  ((λ r, (r, clientMessage alice "PRIVMSG" [n; "hello"]))
                     <$> filter (λ r, r ≠ 1%N)
                           (elements (Channel.Members ch)))
                  lobby).
Proof.
  split; [exact lobby_Inv|]. split; [indexed|]. split; [reflexivity|].
  split; [reflexivity|]. split; [reflexivity|].
  intros n. split; [reflexivity|]. split; [reflexivity|].
  apply (privmsgCommand_to_channel asciiToLower rfcMaxLineLength lobby 1%N
           alice (mkMessage "" "PRIVMSG" ["#Lobby"; "hello"])
           "#Lobby" "hello" [] "hello" 0%N);
    [exact lobby_Inv|indexed|reflexivity..].
Defined.

Lemma privmsgCommand_to_nick_witness :
  Inv lobby ∧ 1%N ∈ Server.Clients lobby
  ∧ Server.clientAt lobby !! 1%N = Some alice
  ∧ String.get 0 "Bob" = Some "B"%char
  ∧ "B"%char ≠ "#"%char
  ∧ privmsgTrim rfcMaxLineLength (nickUhostOf alice) "Bob" "hello"
    = Ok "hello"
  ∧ privmsgTrim rfcMaxLineLength (nickUhostOf alice) (copies 490 "B") "hi"
    = Panicked SliceBoundsOutOfRange
  ∧ let nickName := canonicalizeNick asciiToLower "Bob" in
    isValidNick nickName = true
    ∧ Server.Nicks lobby !! nickName = Some 2%N
    ∧ privmsgCommand asciiToLower rfcMaxLineLength 1%N
        (mkMessage "" "PRIVMSG" ["Bob"; "hello"]) lobby
      = Ok (afterSends
              [(2%N, clientMessage alice "PRIVMSG" [nickName; "hello"])]
              lobby)
    ∧ privmsgCommand asciiToLower rfcMaxLineLength 1%N
        (mkMessage "" "PRIVMSG" [copies 490 "B"; "hi"]) lobby
      = Panicked SliceBoundsOutOfRange.
Proof.
  split; [exact lobby_Inv|]. split; [indexed|]. split; [reflexivity|].
  split; [reflexivity|]. split; [discriminate|].
  split; [reflexivity|]. split; [vm_compute; reflexivity|].
  intros nickName. split; [reflexivity|]. split; [reflexivity|].
  split.
  - destruct (privmsgCommand_to_nick asciiToLower rfcMaxLineLength lobby 1%N
                alice (mkMessage "" "PRIVMSG" ["Bob"; "hello"])
                "Bob" "hello" [] "B"%char)
      as [_ Hfits];
      [exact lobby_Inv|indexed|reflexivity|reflexivity|reflexivity
      |discriminate|].
    destruct (Hfits "hello" eq_refl) as [Hfound _].
    apply (Hfound 2%N); reflexivity.
  - destruct (privmsgCommand_to_nick asciiToLower rfcMaxLineLength lobby 1%N
                alice (mkMessage "" "PRIVMSG" [copies 490 "B"; "hi"])
                (copies 490 "B") "hi" [] "B"%char)
      as [Hpanic _];
      [exact lobby_Inv|indexed|reflexivity|reflexivity|reflexivity
      |discriminate|].
    apply Hpanic. vm_compute. reflexivity.
Defined.

Lemma privmsgCommand_refused_witness :
  Inv lobby ∧ 2%N ∈ Server.Clients lobby
  ∧ Server.clientAt lobby !! 2%N = Some bob
  ∧ String.get 0 "#ops" = Some "#"%char
  ∧ String.get 0 longTarget = Some "#"%char
  ∧ privmsgTrim rfcMaxLineLength (nickUhostOf bob) "#ops" "hello" = Ok "hello"
  ∧ privmsgTrim rfcMaxLineLength (nickUhostOf bob) longTarget "hi"
    = Panicked SliceBoundsOutOfRange
  ∧ let n := canonicalizeChannel asciiToLower "#ops" in
    isValidChannel n = true
    ∧ is_Some (Server.Channels lobby !! n)
    ∧ Client.Channels bob !! n = None
    ∧ isValidChannel (canonicalizeChannel asciiToLower longTarget) = false
    ∧ privmsgCommand asciiToLower rfcMaxLineLength 2%N
        (mkMessage "" "PRIVMSG" ["#ops"; "hello"]) lobby
      = replied lobby 2%N bob "404" [n; "Cannot send to channel"]
    ∧ privmsgCommand asciiToLower rfcMaxLineLength 2%N
        (mkMessage "" "PRIVMSG" [longTarget; "hi"]) lobby
      = Panicked SliceBoundsOutOfRange.
Proof.
  split; [exact lobby_Inv|]. split; [indexed|]. split; [reflexivity|].
  split; [reflexivity|]. split; [reflexivity|]. split; [reflexivity|].
  split; [vm_compute; reflexivity|].
  intros n. split; [reflexivity|]. split; [by eexists|].
  split; [reflexivity|]. split; [vm_compute; reflexivity|].
  split.
  - destruct (privmsgCommand_refused asciiToLower rfcMaxLineLength lobby 2%N
                bob (mkMessage "" "PRIVMSG" ["#ops"; "hello"]))
      as (_ & _ & Hchan); [exact lobby_Inv|indexed|reflexivity|].
    destruct (Hchan "#ops" "hello" [] eq_refl eq_refl) as [_ Hfits].
    destruct (Hfits "hello" eq_refl) as (_ & _ & Hoff).
    apply Hoff; [reflexivity|by eexists|reflexivity].
  - destruct (privmsgCommand_refused asciiToLower rfcMaxLineLength lobby 2%N
                bob (mkMessage "" "PRIVMSG" [longTarget; "hi"]))
      as (_ & _ & Hchan); [exact lobby_Inv|indexed|reflexivity|].
    destruct (Hchan longTarget "hi" [] eq_refl eq_refl) as [Hpanic _].
    apply Hpanic. vm_compute. reflexivity.
Defined.

Lemma operCommand_cases_witness :
  Server.clientAt staffed !! 1%N = Some alice
  ∧ Client.WriteChanClosed alice = false
  ∧ ("o"%char ∉ Client.Modes alice)
  ∧ Server.Opers staffed !! "root" = Some "secret"
  ∧ let cl' := Client.setModes ({["o"%char]} ∪ Client.Modes alice) alice in
    operCommand 1%N (mkMessage "" "OPER" ["root"; "secret"]) staffed
    = Ok (afterSends
            [(1%N, clientMessage cl' "MODE" [Client.Nick alice; "+o"]);
             (1%N, serverMessage staffed cl' "381"
                     ["You are now an IRC operator"])]
            (Server.setClientAt (<[1%N := cl']> (Server.clientAt staffed))
               staffed)).
Proof.
  split; [reflexivity|]. split; [reflexivity|]. split; [indexed|].
  split; [reflexivity|].
  destruct (operCommand_cases staffed 1%N alice
              (mkMessage "" "OPER" ["root"; "secret"]))
    as [_ Hparams]; [reflexivity|reflexivity|].
  destruct (Hparams "root" "secret" [] eq_refl) as (_ & _ & Hgranted).
  apply Hgranted; [indexed|reflexivity].
Defined.


Lemma privmsgTrim_cases_witness :
  0 ≤ rfcMaxLineLength
  ∧ let room :=
      rfcMaxLineLength - privmsgOverhead "alice!~alice@10.0.0.1" "#lobby" in
    0 ≤ room ∧ room < len (copies 600 "x")
    ∧ privmsgTrim rfcMaxLineLength "alice!~alice@10.0.0.1" "#lobby"
        (copies 600 "x")
      = Ok (substring 0 (Z.to_nat room) (copies 600 "x"))
    ∧ privmsgOverhead "alice!~alice@10.0.0.1" "#lobby"
      + len (substring 0 (Z.to_nat room) (copies 600 "x"))
      = rfcMaxLineLength.
Proof.
  split; [by vm_compute|]. intros room.
  split; [by vm_compute|]. split; [by vm_compute|].
  destruct (privmsgTrim_cases rfcMaxLineLength "alice!~alice@10.0.0.1"
              "#lobby" (copies 600 "x")) as (_ & _ & Hcut);
    [by vm_compute|].
  apply Hcut; by vm_compute.
Defined.

Lemma userModeCommand_operator_witness :
  Server.clientAt lobby !! 1%N = Some alice
  ∧ Client.WriteChanClosed alice = false
  ∧ 2%N ≠ 1%N
  ∧ len "+o" ≠ 0
  ∧ bytesAsRunes "+o" = [byte_of "+"; byte_of "o"]
  ∧ userModeCommand bytesAsRunes 1%N 2%N "" lobby
    = replied lobby 1%N alice "502" ["Cannot change mode for other users"]
  ∧ userModeCommand bytesAsRunes 1%N 1%N "+o" lobby = Ok lobby.
Proof.
  split; [reflexivity|]. split; [reflexivity|]. split; [discriminate|].
  split; [by vm_compute|]. split; [reflexivity|].
  destruct (userModeCommand_operator bytesAsRunes lobby 1%N alice)
    as (Hother & Hplus & _); [reflexivity|reflexivity|].
  split.
  - apply Hother. discriminate.
  - apply Hplus; [by vm_compute|reflexivity].
Defined.

Lemma queries_only_answer_witness :
  let m := mkMessage "" "WHOIS" ["Bob"] in
  Inv lobby ∧ 1%N ∈ Server.Clients lobby
  ∧ Server.clientAt lobby !! 1%N = Some alice
  ∧ Client.Registered alice = true
  ∧ Prefix m = ""
  ∧ Command m ∈ queries
  ∧ answers 1%N (touch (1000 * second) 1%N lobby)
      (handleMessage asciiToLower rfcMaxLineLength bytesAsRunes wholeSeconds
         (1000 * second) 1%N m lobby).
Proof.
  intros m. split; [exact lobby_Inv|]. split; [indexed|].
  split; [reflexivity|]. split; [reflexivity|]. split; [reflexivity|].
  split; [indexed|].
  apply (queries_only_answer asciiToLower rfcMaxLineLength bytesAsRunes
           wholeSeconds (1000 * second) lobby 1%N alice m);
    [exact lobby_Inv|indexed|reflexivity|reflexivity|reflexivity
    |left; indexed].
Defined.

